(* ===== verification/_CoqProject ===== *)
-Q . S2P
Prelude.v
GoErrors.v
GoStrings.v
Prog.v
Postgres.v
External.v
Correlation.v
OrderErrors.v
OrderDomain.v
OrderHeap.v
OrderPorts.v
CreateOrder.v
OrderStore.v
OrderStoreSpec.v
Outbox.v
EventWorker.v
OutboxDrain.v
OrderEvents.v
RabbitPublisher.v
OrderEventAmqp.v
OrderSystem.v
InventoryErrors.v
InventoryCanonical.v
ReservationStore.v
ReserveStock.v
ReservationSpec.v
InventoryService.v
InventoryGrpc.v
InventoryClient.v
InventoryContract.v
HttpApi.v
Router.v
OrderApi.v
StoreLiveness.v
OrderLiveness.v
CatalogStub.v
Settings.v
ServiceConfig.v
ConfigLoad.v
Observability.v
SentNotifications.v
HandleOrderAccepted.v
EmailLog.v
NotificationService.v
Topology.v
Consumer.v
NotificationEvents.v
EndToEnd.v
WholeSystem.v
WholeLiveness.v
OrderJourney.v
Session.v
Forwarders.v
Wiring.v
GrpcEdge.v
Lifecycle.v
Bootstraps.v
ConsumerGoroutine.v
Processes.v
