(* ===== verification/Prelude.v ===== *)
(** * Verification library for the Go order system

    The repository holds three services. order-service takes an order over HTTP, reserves
    its stock from inventory-service over gRPC, stores the order and the event of its
    acceptance in one transaction, and publishes stored events to RabbitMQ from a worker.
    notification-service consumes them and confirms each accepted order by email, once.
    Each service has its own PostgreSQL database.

    ** Files and what they model (paths under [src/])

    The language, the libraries and the prelude of all files:
    - [Prelude] (this file): results, machine integers, tactics and hints, lemmas on lists
      and maps; [GoErrors]: [fmt.Errorf], [errors.Is], [errors.As], [errors.Join];
      [GoStrings]: package strings; [External], [Postgres]: the libraries and the database
      as parameters with documented laws, with instances for the witnesses;
    - [Prog]: a use case as a program over its ports, read as all its runs, as execution
      by a handler, as one thread of an interleaving with a rely-guarantee [wp], or alone
      with answers that are there and lead to a result ([must]).

    order-service ([order-service/internal]):
    - [OrderErrors], [OrderDomain] ([order/domain]), [OrderPorts], [CreateOrder]
      ([order/application/create_order.go]): the aggregate and the use case; [OrderHeap]:
      the aggregate as an object on a heap of slices, and why a value stands for it;
    - [OrderStore], [OrderStoreSpec] ([adapter/outbound/postgres]): tables, statements,
      transactions and mapper; the contract they refine;
    - [Outbox], [EventWorker], [OutboxDrain] ([outbox.go], [publish_order_events.go]): leases,
      the loop of the worker and its progress;
    - [OrderEvents], [RabbitPublisher], [OrderEventAmqp] ([api/orderevents],
      [platform/rabbitmq], [adapter/outbound/ordereventamqp]): what is published and the
      verdict on it;
    - [InventoryClient] ([adapter/outbound/inventorygrpc]), [CatalogStub], [HttpApi], [Router]
      ([adapter/inbound/httpgin]): the edges of the service; [Wiring] ([order/wiring]): the
      use case over its adapters behind the router;
    - [OrderSystem]: requests, workers and failures interleaved over one database;
      [OrderApi]: the same for requests served over HTTP, any call of which may panic;
      [StoreLiveness]: which operations of the repository a working database carries out;
      [OrderLiveness]: a request served while nothing fails, for a new order or for one
      that was left pending.

    inventory-service ([inventory-service/internal]):
    - [InventoryErrors], [InventoryCanonical], [ReserveStock] ([inventory/application]);
    - [ReservationStore], [ReservationSpec] ([adapter/outbound/postgres]);
    - [InventoryService]: requests interleaved over one database;
    - [InventoryGrpc], [GrpcEdge] ([adapter/inbound/grpcapi]); [InventoryContract]: what
      order-service may conclude from an answer.

    notification-service ([notification-service/internal]):
    - [SentNotifications], [HandleOrderAccepted], [EmailLog], [NotificationService]: claims,
      the use case, the sender, and any number of workers over one table;
    - [Topology], [Consumer], [NotificationEvents], [Session], [Forwarders]
      ([adapter/inbound/amqpapi]): queues, one delivery, its decoding, the session and
      reconnection loops, and the goroutines that feed them;
    - [EndToEnd]: the bytes order-service publishes against what this service reads;
      [WholeSystem]: the three services in one interleaving, with the answers of inventory
      and the broker's messages between them; [WholeLiveness], [OrderJourney]: the same
      system while nothing fails, from an accepted order to its email, and from the request.

    All services: [Correlation], [Settings], [ServiceConfig], [ConfigLoad], [Observability]
    ([platform]), and [Lifecycle], [Bootstraps], [ConsumerGoroutine], [Processes]
    ([bootstrap]): what is loaded from the file and the environment, start, signals and
    shutdown. The main goroutine of each process is its [Run]; the consumer beside it is
    that of [Session], and the event worker and the requests are any programs at all.

    ** How the model follows the code

    A function of the source is one Definition or Fixpoint with its branches in the
    source's order; a call of a port is an event of a signature ([orderE], [workerE],
    [notifyE], [deliveryE], [sessionE], [lifeE], ...), and a deferred call is issued where it
    runs. A [context.Context] is the request id it carries; cancellation and deadlines
    appear as answers of the calls that observe them. Integers are [Z], with the
    wrap-around written where the source can leave its width; times are nanoseconds, the
    zero time apart. A table is a finite map and a statement a function of it with its
    constraints; a connection may fail before a statement, or lose the answer of a commit.
    Errors are trees, searched as [errors.Is] searches them. A config struct is a list of
    fields with their names, kinds and rules, and its values a tuple of that type. Orders
    are values; [OrderHeap] has the pointers and shows that nothing outside can tell.

    ** What the theorems show

    - The three services together ([whole_system_sound], with an executed schedule), and
      each under every interleaving of its own ([order_service_sound],
      [inventory_service_sound], [notification_service_sound], [claim_all_or_nothing],
      [stale_claim_changes_nothing]): an accepted order holds its stock and has its event,
      stock is never oversold, an order is sent no more emails than its budget; and a client
      is answered the stored order, the same one for every request of a key
      ([answers_stand], and over HTTP in [whole_system_sound]).
    - The use cases against any environment ([Execute_discipline],
      [publishNext_discipline], [handle_settles], [sessions_settle_all], [Publish_verdict]):
      which calls follow which, how long is waited between two attempts or two dials, and
      that nothing is acknowledged before it is safe.
    - Refinement and round trips ([repository_refines_contract], [mapper_roundtrip],
      [payload_roundtrip], [accepted_order_is_confirmed], [shortfalls_survive],
      [orders_are_values]).
    - A request through router, handler, use case and adapters ([wired_requests]), and what
      settings a service starts with ([config_Load_exact], [loaded_settings]).
    - Progress and termination: while nothing fails a request leads to an answer, which is
      500 for a basket that inventory-service refuses as a request, and, once its order is
      accepted, to the customer's email ([order_reaches_its_customer]); no
      state leaves an order stuck, pending ([no_pending_order_is_stuck]) or accepted
      ([no_accepted_order_is_stuck]); the worker empties the outbox ([worker_drains_outbox]);
      and when a loop ends ([drainReturns_end]).
    - Arithmetic ([calculateTotal_exact]), canonical forms, error tables, topology and
      correlation.
    - Processes ([order_process_sound], [inventory_process_sound],
      [notification_process_sound]): what is open while it is used, by whom it may be used
      later, and that it is closed in the end.

    ** Fuel and bounds

    [retryDelay] needs seven rounds of its loop, as its delay doubles to a cap. [drain] and
    [drainReturns] take the number of looks at a channel the library still fills; theorems
    are for every number, and [drainReturns_end] says when they end. [Run] of the worker is
    given its number of rounds and [consumer_Run] the sessions and deliveries it sees; what
    is shown to hold always holds for all of them, and what is shown to be reached asks for a
    round for each due event and two looks. [consumer_goroutine] is given the same numbers.

    ** Not modelled

    Generated protobuf code (a message is a record, its bytes a codec with the round-trip
    law), gin's and gRPC's own matching and transport, how viper parses a file and a value
    and how validator words a failure (parameters with laws; which file, names and rules
    they are given is modelled), the text of log lines apart from the fields a theorem is
    about, connection pool sizes and server timeouts, and the passing of time other than
    through the clocks and leases of the statements. *)
From stdpp Require Export base option list sets gmap strings numbers sorting pretty.
From Stdlib Require Export ZArith Lia.

#[global] Set Default Goal Selector "!".

(** ** Results of fallible operations

    A Go function returning [(A, error)] is modelled as a value of
    [result E A]: the callers of the modelled code never look at the value when
    the error is not nil. *)
Inductive result (E A : Type) : Type :=
| Ok (a : A)
| Err (e : E).
Arguments Ok {E A} a.
Arguments Err {E A} e.

#[export] Instance result_ret {E} : MRet (result E) := λ A a, Ok a.
#[export] Instance result_bind {E} : MBind (result E) := λ A B f m,
  match m with Ok a => f a | Err e => Err e end.
#[export] Instance result_fmap {E} : FMap (result E) := λ A B f m,
  match m with Ok a => Ok (f a) | Err e => Err e end.

(** [map_err f r] rewraps the error of [r], as [fmt.Errorf("...: %w", err)] does. *)
Definition map_err {E F A} (f : E → F) (r : result E A) : result F A :=
  match r with Ok a => Ok a | Err e => Err (f e) end.

Definition is_ok {E A} (r : result E A) : bool :=
  match r with Ok _ => true | Err _ => false end.

Lemma result_bind_ok {E A B} (m : result E A) (f : A → result E B) b :
  m ≫= f = Ok b ↔ ∃ a, m = Ok a ∧ f a = Ok b.
Proof.
  destruct m as [a|e]; cbn; [split; [by exists a|by intros (? & [= ->] & ?)]|].
  split; [done|by intros (? & ? & ?)].
Qed.

Lemma map_err_ok {E F A} (f : E → F) (r : result E A) a :
  map_err f r = Ok a ↔ r = Ok a.
Proof. destruct r; cbn; split; congruence. Qed.

Lemma map_err_err {E F A} (f : E → F) (r : result E A) e :
  map_err f r = Err e ↔ ∃ e', r = Err e' ∧ e = f e'.
Proof.
  destruct r; cbn; split; [done|by intros (? & ? & _)| |by intros (? & [= <-] & ->)].
  intros [= <-]. by eexists.
Qed.

(** A loop that runs a fallible body over a list and stops at the first error. *)
Fixpoint mapM_result {E A B} (f : A → result E B) (l : list A) : result E (list B) :=
  match l with
  | [] => Ok []
  | a :: l' =>
      match f a with
      | Err e => Err e
      | Ok b => match mapM_result f l' with
                | Err e => Err e
                | Ok bs => Ok (b :: bs)
                end
      end
  end.

Lemma mapM_result_Forall2 {E A B} (f : A → result E B) l bs :
  mapM_result f l = Ok bs ↔ Forall2 (λ a b, f a = Ok b) l bs.
Proof.
  revert bs. induction l as [|a l IH]; intros bs; cbn.
  - split; [intros [= <-]; constructor | by inversion 1].
  - split.
    + destruct (f a) eqn:?; [|done]. destruct (mapM_result f l) eqn:?; [|done].
      intros [= <-]. constructor; [done|]. by apply IH.
    + inversion 1 as [|? ? ? ? Ha Hl]; subst. rewrite Ha. apply IH in Hl. by rewrite Hl.
Qed.

(** ** Machine integers

    An [int], [int64] or [time.Duration] is a [Z] in the 64-bit range, an
    [int32] a [Z] in the 32-bit range; every conversion or operation of the
    source that can leave its range is written with the wrap-around. *)
Definition MaxInt64 : Z := 2 ^ 63 - 1.
Definition MinInt64 : Z := - 2 ^ 63.
Definition MaxInt32 : Z := 2 ^ 31 - 1.
Definition MinInt32 : Z := - 2 ^ 31.

Definition in_int64 (z : Z) : Prop := (MinInt64 ≤ z ≤ MaxInt64)%Z.
Definition in_int32 (z : Z) : Prop := (MinInt32 ≤ z ≤ MaxInt32)%Z.

Definition wrap64 (z : Z) : Z := ((z + 2 ^ 63) `mod` 2 ^ 64 - 2 ^ 63)%Z.
Definition wrap32 (z : Z) : Z := ((z + 2 ^ 31) `mod` 2 ^ 32 - 2 ^ 31)%Z.

#[export] Instance in_int64_dec z : Decision (in_int64 z).
Proof. unfold in_int64; apply _. Defined.
#[export] Instance in_int32_dec z : Decision (in_int32 z).
Proof. unfold in_int32; apply _. Defined.

Create HintDb gosys.
Create Rewrite HintDb gosys_simpl.

Ltac int_unfold :=
  unfold in_int64, in_int32, MaxInt64, MinInt64, MaxInt32, MinInt32 in *.

Lemma wrap64_id z : in_int64 z → wrap64 z = z.
Proof. int_unfold. unfold wrap64. intros ?. rewrite Z.mod_small; lia. Qed.

Lemma wrap32_id z : in_int32 z → wrap32 z = z.
Proof. int_unfold. unfold wrap32. intros ?. rewrite Z.mod_small; lia. Qed.

Lemma wrap32_range z : in_int32 (wrap32 z).
Proof.
  int_unfold. unfold wrap32.
  pose proof (Z.mod_pos_bound (z + 2 ^ 31) (2 ^ 32)) as H. lia.
Qed.

Lemma wrap64_range z : in_int64 (wrap64 z).
Proof.
  int_unfold. unfold wrap64.
  pose proof (Z.mod_pos_bound (z + 2 ^ 63) (2 ^ 64)) as H. lia.
Qed.

#[export] Hint Resolve wrap32_range wrap64_range : gosys.

(** ** Durations and instants

    A [time.Duration] counts nanoseconds; a [time.Time] is the number of
    nanoseconds since Go's zero time, so that [IsZero] is a comparison with 0. *)
Definition Nanosecond : Z := 1.
Definition Microsecond : Z := 1000.
Definition Millisecond : Z := 1000000.
Definition Second : Z := 1000000000.
Definition Minute : Z := 60 * Second.
Definition Hour : Z := 60 * Minute.

Definition IsZero (t : Z) : bool := bool_decide (t = 0%Z).
Definition Before (t u : Z) : bool := (t <? u)%Z.

(** [t.Sub(u)] saturates at the ends of the [Duration] range. *)
Definition Sub (t u : Z) : Z := Z.max MinInt64 (Z.min MaxInt64 (t - u)).

(** ** Generic lemmas on lists *)
Lemma NoDup_fmap_inj_on {A B} (f : A → B) (l : list A) :
  (∀ x y, x ∈ l → y ∈ l → f x = f y → x = y) → NoDup l → NoDup (f <$> l).
Proof.
  induction l as [|a l IH]; intros Hinj Hnd; [constructor|].
  apply NoDup_cons in Hnd as [Ha Hnd]. cbn. apply NoDup_cons. split.
  - intros (y & Heq & Hy)%list_elem_of_fmap.
    assert (a = y) as -> by (apply Hinj; [left|by right|done]). done.
  - apply IH; [|done]. intros x y Hx Hy. apply Hinj; by right.
Qed.

Lemma Forall2_fmap_eq {A B C} (f : A → C) (g : B → C) l k :
  Forall2 (λ a b, f a = g b) l k → f <$> l = g <$> k.
Proof. induction 1; cbn; congruence. Qed.

Lemma Sorted_mono {A} (R R' : relation A) l :
  (∀ a b, R a b → R' a b) → Sorted R l → Sorted R' l.
Proof.
  intros HR. induction 1 as [|a l _ IH Hd]; constructor; [done|].
  destruct Hd; constructor. by apply HR.
Qed.

(** A set smaller than a list of different elements misses one of them. *)
Lemma missing_element {A} `{Countable A} (l : list A) (X : gset A) :
  NoDup l → (size X < length l)%nat → ∃ x, x ∈ l ∧ x ∉ X.
Proof.
  intros Hnd Hsize. destruct (decide (Forall (.∈ X) l)) as [Hall|Hnot].
  - exfalso. assert (size (list_to_set (C := gset A) l) ≤ size X)%nat as Hle.
    { apply subseteq_size. intros x Hx%elem_of_list_to_set. by eapply Forall_forall in Hall. }
    rewrite size_list_to_set in Hle by done. lia.
  - apply not_Forall_Exists in Hnot; [|apply _]. by apply Exists_exists in Hnot.
Qed.

(** Two sorted permutations of each other are equal: sorting has one answer. *)
Lemma sorted_perm_unique {A} (R : relation A) `{!AntiSymm (=) R, !Transitive R} l k :
  Sorted R l → Sorted R k → l ≡ₚ k → l = k.
Proof.
  intros Hl Hk. apply (StronglySorted_unique R); by apply Sorted_StronglySorted.
Qed.

(** ** Automation *)

(** Split a hypothesis that a chain of fallible steps succeeded. *)
Ltac ok_inv :=
  repeat match goal with
    | H : Ok _ = Ok _ |- _ => injection H as H
    | H : Err _ = Err _ |- _ => injection H as H
    | H : Ok _ = Err _ |- _ => discriminate H
    | H : Err _ = Ok _ |- _ => discriminate H
    | H : map_err _ _ = Ok _ |- _ => apply map_err_ok in H
    | H : _ ≫= _ = Ok _ |- _ =>
        let a := fresh "a" in let H1 := fresh H in
        apply result_bind_ok in H as (a & H1 & H)
    end; subst.

(** Case analysis on the innermost scrutinee of a hypothesis. *)
Ltac break_match_in H :=
  match type of H with
  | context [ match ?x with _ => _ end ] =>
      lazymatch x with
      | context [ match _ with _ => _ end ] => fail
      | _ => let E := fresh "E" in destruct x eqn:E
      end
  end.

Ltac break_match_goal :=
  match goal with
  | |- context [ match ?x with _ => _ end ] =>
      lazymatch x with
      | context [ match _ with _ => _ end ] => fail
      | _ => let E := fresh "E" in destruct x eqn:E
      end
  end.

(** Reflect the boolean tests the code makes into propositions. *)
Ltac reflect_bools :=
  repeat match goal with
    | H : bool_decide _ = true |- _ => apply bool_decide_eq_true in H
    | H : bool_decide _ = false |- _ => apply bool_decide_eq_false in H
    | H : (_ || _)%bool = true |- _ => apply orb_true_iff in H
    | H : (_ || _)%bool = false |- _ => apply orb_false_iff in H as [? ?]
    | H : (_ && _)%bool = true |- _ => apply andb_true_iff in H as [? ?]
    | H : (_ && _)%bool = false |- _ => apply andb_false_iff in H
    | H : negb _ = true |- _ => apply negb_true_iff in H
    | H : negb _ = false |- _ => apply negb_false_iff in H
    | H : (_ <? _)%Z = true |- _ => apply Z.ltb_lt in H
    | H : (_ <? _)%Z = false |- _ => apply Z.ltb_ge in H
    | H : (_ <=? _)%Z = true |- _ => apply Z.leb_le in H
    | H : (_ <=? _)%Z = false |- _ => apply Z.leb_gt in H
    | H : (_ =? _)%Z = true |- _ => apply Z.eqb_eq in H
    | H : (_ =? _)%Z = false |- _ => apply Z.eqb_neq in H
    end.
