(* ===== verification/GoErrors.v ===== *)
(** * Go error values

    The standard library's wrapped errors: what [fmt.Errorf] with [%w] builds
    and how [errors.Is] and [errors.As] search it. A service instantiates the
    tree with its own sentinels and typed errors through [GoError]. *)
From S2P Require Import Prelude.

(** An error value. [Leaf] is a sentinel or a typed error of the service;
    [Opaque] an error of code outside it (a driver, a codec), of which only the
    text is known; the other constructors are the shapes [fmt.Errorf] is called
    with: ["prefix: %w"], ["%w: suffix"] and ["%w: %w"]. *)
Inductive error (L : Type) : Type :=
| Leaf (l : L)
| Opaque (text : string)
| Wrap (prefix : string) (cause : error L)
| Note (cause : error L) (suffix : string)
| Join (first second : error L).
Arguments Leaf {L} l.
Arguments Opaque {L} text.
Arguments Wrap {L} prefix cause.
Arguments Note {L} cause suffix.
Arguments Join {L} first second.

(** A service's leaves: [leaf_is l s] says that comparing [l], or what its
    [Unwrap] returns, with the sentinel [s] succeeds. *)
Class GoError (L S : Type) : Type := {
  leaf_is : L → S → bool;
  leaf_text : L → string;
}.

Section errors.
Context {L S : Type} `{!GoError L S}.

(** [err.Error()]. *)
Fixpoint Error (err : error L) : string :=
  match err with
  | Leaf l => leaf_text l
  | Opaque text => text
  | Wrap prefix cause => prefix +:+ ": " +:+ Error cause
  | Note cause suffix => Error cause +:+ ": " +:+ suffix
  | Join first second => Error first +:+ ": " +:+ Error second
  end.

(** [errors.Is(err, target)]. *)
Fixpoint errors_Is (err : error L) (target : S) : bool :=
  match err with
  | Leaf l => leaf_is l target
  | Opaque _ => false
  | Wrap _ cause | Note cause _ => errors_Is cause target
  | Join first second => errors_Is first target || errors_Is second target
  end.

(** [errors.As(err, &target)]: [pick] recognises the target's type. *)
Fixpoint errors_As {T} (pick : L → option T) (err : error L) : option T :=
  match err with
  | Leaf l => pick l
  | Opaque _ => None
  | Wrap _ cause | Note cause _ => errors_As pick cause
  | Join first second =>
      match errors_As pick first with
      | Some t => Some t
      | None => errors_As pick second
      end
  end.

(** A typed error that unwraps to a sentinel is found by [errors.Is] wherever
    [errors.As] finds it. *)
Lemma errors_As_Is {T} (pick : L → option T) (target : S) err t :
  (∀ l t', pick l = Some t' → leaf_is l target = true) →
  errors_As pick err = Some t → errors_Is err target = true.
Proof.
  intros Hpick. induction err as [l| |p c IH|c IH s|a IHa b IHb]; cbn; try done.
  - by apply Hpick.
  - destruct (errors_As pick a) eqn:Ha.
    + intros [= ->]. by rewrite IHa.
    + intros Hb. by rewrite IHb, orb_true_r.
Qed.
End errors.
