(* ===== verification/GoStrings.v ===== *)
(** * The strings package

    The functions of Go's [strings] package the services use, on byte strings:
    [TrimSpace] with the full set of Unicode spaces, [Compare], [Join], [Cut],
    and decimal formatting. A Rocq [string] is a sequence of bytes, as a Go one. *)
From Stdlib Require Import Ascii OrdersEx.
From Stdlib Require String.
From S2P Require Import Prelude.

(** ** TrimSpace *)

Definition byte (a : ascii) : N := N_of_ascii a.

(** The UTF-8 encodings of the runes [unicode.IsSpace] accepts, by length: tab,
    line feed, vertical tab, form feed, carriage return and space; U+0085 and
    U+00A0; U+1680, U+2000 to U+200A, U+2028, U+2029, U+202F, U+205F, U+3000. *)
Definition space1 (a : ascii) : bool :=
  let a := byte a in ((9 <=? a) && (a <=? 13))%N || (a =? 32)%N.
Definition space2 (a b : ascii) : bool :=
  let a := byte a in let b := byte b in
  (a =? 194)%N && ((b =? 133) || (b =? 160))%N.
Definition space3 (a b c : ascii) : bool :=
  let a := byte a in let b := byte b in let c := byte c in
  ((a =? 225) && (b =? 154) && (c =? 128))%N
  || ((a =? 226) && (b =? 128)
      && (((128 <=? c) && (c <=? 138)) || (c =? 168) || (c =? 169) || (c =? 175)))%N
  || ((a =? 226) && (b =? 129) && (c =? 159))%N
  || ((a =? 227) && (b =? 128) && (c =? 128))%N.

Section strip.
Variable s1 : ascii → bool.
Variable s2 : ascii → ascii → bool.
Variable s3 : ascii → ascii → ascii → bool.

(** Drop leading runes while they are spaces, as the trimming loops do. *)
Fixpoint strip (l : list ascii) : list ascii :=
  match l with
  | [] => []
  | a :: l1 =>
      if s1 a then strip l1 else
      match l1 with
      | [] => l
      | b :: l2 =>
          if s2 a b then strip l2 else
          match l2 with
          | [] => l
          | c :: l3 => if s3 a b c then strip l3 else l
          end
      end
  end.

(** Whether the first rune is a space. *)
Definition leads (l : list ascii) : bool :=
  match l with
  | [] => false
  | a :: l1 => s1 a ||
      match l1 with
      | [] => false
      | b :: l2 => s2 a b || match l2 with [] => false | c :: _ => s3 a b c end
      end
  end.

Lemma strip_not_leads l : leads (strip l) = false.
Proof.
  enough (∀ (n : nat) l, (length l ≤ n)%nat → leads (strip l) = false) by eauto.
  clear l. induction n as [|n IH]; intros [|a l1] Hlen; cbn in Hlen; try done; try lia.
  cbn [strip]. destruct (s1 a) eqn:Ha; [apply IH; lia|].
  destruct l1 as [|b l2]; cbn in *; [by rewrite Ha|].
  destruct (s2 a b) eqn:Hb; [apply IH; lia|].
  destruct l2 as [|c l3]; cbn in *; [by rewrite Ha, Hb|].
  destruct (s3 a b c) eqn:Hc; [apply IH; lia|]. cbn. by rewrite Ha, Hb, Hc.
Qed.

Lemma strip_id l : leads l = false → strip l = l.
Proof.
  destruct l as [|a [|b [|c l]]]; cbn; [done|..];
    destruct (s1 a); cbn; try done; destruct (s2 a b); cbn; try done.
  by intros ->.
Qed.

Lemma strip_suffix l : ∃ p, l = p ++ strip l.
Proof.
  enough (∀ (n : nat) l, (length l ≤ n)%nat → ∃ p, l = p ++ strip l) by eauto.
  clear l. induction n as [|n IH]; intros [|a l1] Hlen; cbn in Hlen;
    try (by exists []); try lia.
  cbn [strip]. destruct (s1 a).
  { destruct (IH l1) as [p Hp]; [lia|]. exists (a :: p). cbn. by rewrite <-Hp. }
  destruct l1 as [|b l2]; [by exists []|]. cbn in Hlen. destruct (s2 a b).
  { destruct (IH l2) as [p Hp]; [lia|]. exists (a :: b :: p). cbn. by rewrite <-Hp. }
  destruct l2 as [|c l3]; [by exists []|]. cbn in Hlen. destruct (s3 a b c).
  { destruct (IH l3) as [p Hp]; [lia|]. exists (a :: b :: c :: p). cbn. by rewrite <-Hp. }
  by exists [].
Qed.

Lemma leads_prefix p q : leads (p ++ q) = false → leads p = false.
Proof.
  destruct p as [|a [|b [|c p]]]; cbn; try done; destruct (s1 a); try done.
  destruct (s2 a b); cbn; try done.
Qed.
End strip.

Definition trim_left : list ascii → list ascii := strip space1 space2 space3.

(** The trailing loop decodes the last rune: the same patterns, read backwards. *)
Definition trim_right (l : list ascii) : list ascii :=
  rev (strip space1 (λ b a, space2 a b) (λ c b a, space3 a b c) (rev l)).

(** [strings.TrimSpace]. *)
Definition TrimSpace (s : string) : string :=
  String.string_of_list_ascii (trim_right (trim_left (String.list_ascii_of_string s))).

#[global] Arguments TrimSpace : simpl never.

Lemma trim_right_prefix l : ∃ q, l = trim_right l ++ q.
Proof.
  unfold trim_right. destruct (strip_suffix space1 (λ b a, space2 a b)
    (λ c b a, space3 a b c) (rev l)) as [p Hp].
  exists (rev p). rewrite <-rev_app_distr, <-Hp. by rewrite rev_involutive.
Qed.

Lemma TrimSpace_idemp s : TrimSpace (TrimSpace s) = TrimSpace s.
Proof.
  unfold TrimSpace. f_equal. rewrite String.list_ascii_of_string_of_list_ascii.
  set (l := trim_left (String.list_ascii_of_string s)).
  assert (trim_left (trim_right l) = trim_right l) as ->.
  { apply strip_id. destruct (trim_right_prefix l) as [q Hq].
    eapply leads_prefix. rewrite <-Hq. unfold l, trim_left. apply strip_not_leads. }
  unfold trim_right. rewrite rev_involutive. f_equal. apply strip_id, strip_not_leads.
Qed.

Lemma TrimSpace_empty : TrimSpace "" = "".
Proof. reflexivity. Qed.
#[export] Hint Rewrite TrimSpace_idemp TrimSpace_empty : gosys_simpl.

Example TrimSpace_ascii : TrimSpace "  SKU-A 1 " = "SKU-A 1".
Proof. reflexivity. Qed.
Example TrimSpace_nbsp :
  let nbsp := String (ascii_of_nat 194) (String (ascii_of_nat 160) EmptyString) in
  TrimSpace (nbsp +:+ "x" +:+ nbsp) = "x".
Proof. reflexivity. Qed.
(** A byte that is not part of an encoded space is kept. *)
Example TrimSpace_stray :
  let stray := String (ascii_of_nat 160) EmptyString in TrimSpace (stray +:+ " ") = stray.
Proof. reflexivity. Qed.

(** ** Compare *)

(** [strings.Compare(a, b) <= 0]: byte order. *)
Definition string_le (a b : string) : Prop := String.leb a b = true.
#[export] Instance string_le_dec a b : Decision (string_le a b).
Proof. unfold string_le; apply _. Defined.

Lemma string_le_lteq a b : string_le a b ↔ a = b ∨ String_as_OT.lt a b.
Proof.
  assert (String.compare a b = String_as_OT.compare a b) as Hc.
  { revert b. induction a as [|x a IH]; intros [|y b]; done. }
  unfold string_le, String.leb, String_as_OT.lt. rewrite Hc.
  destruct (String_as_OT.compare_spec a b) as [->|Hlt|Hgt].
  - split; auto.
  - split; auto.
  - split; [done|]. intros [->|?]; [|done]. by destruct (irreflexivity String_as_OT.lt b).
Qed.

#[export] Instance string_le_trans : Transitive string_le.
Proof.
  intros a b c. rewrite !string_le_lteq. intros [->|?] [->|?]; auto.
  right. by etransitivity.
Qed.
#[export] Instance string_le_antisymm : AntiSymm (=) string_le.
Proof.
  intros a b. rewrite !string_le_lteq. intros [?|?] [?|?]; auto.
  exfalso. eapply (irreflexivity String_as_OT.lt a). by etransitivity.
Qed.
#[export] Instance string_le_total : Total string_le.
Proof. intros a b. apply String.leb_total. Qed.
#[export] Instance string_le_refl : Reflexive string_le.
Proof. intros a. apply string_le_lteq. by left. Qed.

(** Strict byte order: the order in which sorted lines lock their rows. *)
Definition string_lt (a b : string) : Prop := string_le a b ∧ a ≠ b.
#[export] Instance string_lt_trans : Transitive string_lt.
Proof.
  intros a b c [H1 N1] [H2 N2]. split; [by etransitivity|].
  intros ->. apply N2. by apply (anti_symm string_le).
Qed.
#[export] Instance string_lt_irrefl : Irreflexive string_lt.
Proof. intros a [_ H]. done. Qed.

(** ** Join, Cut and formatting *)
Fixpoint strings_Join (parts : list string) (sep : string) : string :=
  match parts with
  | [] => ""
  | [p] => p
  | p :: parts' => p +:+ sep +:+ strings_Join parts' sep
  end.

(** [strings.Cut(s, sep)] for a one-byte separator. *)
Fixpoint strings_Cut (s : string) (sep : ascii) : string * string * bool :=
  match s with
  | EmptyString => (EmptyString, EmptyString, false)
  | String a s' =>
      if bool_decide (a = sep) then (EmptyString, s', true)
      else let '(before, after, found) := strings_Cut s' sep in
           if found then (String a before, after, true) else (s, EmptyString, false)
  end.

(** The ["%d"] verb. *)
Definition Itoa (z : Z) : string := pretty z.

(** The ["%q"] verb: [strconv.Quote], exact on ASCII; a longer rune is written as it is,
    as the function does for those it can print. *)
Definition dquote : string := String (ascii_of_nat 34) EmptyString.
Definition hex_digit (n : N) : ascii := ascii_of_N (if n <? 10 then 48 + n else 87 + n)%N.
Definition escape (a : ascii) : string :=
  let x := byte a in
  let backslash c := String (ascii_of_nat 92) (String c EmptyString) in
  if bool_decide (x ∈ [34; 92]%N) then backslash a
  else if (x =? 7)%N then backslash "a"%char
  else if (x =? 8)%N then backslash "b"%char
  else if (x =? 9)%N then backslash "t"%char
  else if (x =? 10)%N then backslash "n"%char
  else if (x =? 11)%N then backslash "v"%char
  else if (x =? 12)%N then backslash "f"%char
  else if (x =? 13)%N then backslash "r"%char
  else if (x <? 32)%N || (x =? 127)%N
  then backslash "x"%char +:+ String (hex_digit (x / 16)) (String (hex_digit (x `mod` 16)) EmptyString)
  else String a EmptyString.
Definition Quote (s : string) : string :=
  dquote +:+ String.concat "" (escape <$> String.list_ascii_of_string s) +:+ dquote.
#[global] Arguments Quote : simpl never.

(** ** UTF-8 *)

Definition continuation (a : ascii) : bool := (128 <=? byte a)%N && (byte a <=? 191)%N.

(** [utf8.ValidString]: no truncated, overlong, surrogate or out-of-range rune. *)
Fixpoint utf8_valid_bytes (l : list ascii) : bool :=
  match l with
  | [] => true
  | a :: l1 =>
      let x := byte a in
      if (x <? 128)%N then utf8_valid_bytes l1 else
      match l1 with
      | [] => false
      | b :: l2 =>
          let y := byte b in
          if ((194 <=? x) && (x <=? 223))%N then continuation b && utf8_valid_bytes l2 else
          match l2 with
          | [] => false
          | c :: l3 =>
              if ((224 <=? x) && (x <=? 239))%N
              then continuation b && continuation c
                   && negb ((x =? 224) && (y <? 160))%N && negb ((x =? 237) && (159 <? y))%N
                   && utf8_valid_bytes l3
              else
              match l3 with
              | [] => false
              | d :: l4 =>
                  ((240 <=? x) && (x <=? 244))%N
                  && continuation b && continuation c && continuation d
                  && negb ((x =? 240) && (y <? 144))%N && negb ((x =? 244) && (143 <? y))%N
                  && utf8_valid_bytes l4
              end
          end
      end
  end.
Definition utf8_ValidString (s : string) : bool :=
  utf8_valid_bytes (String.list_ascii_of_string s).

(** Whether a text has a byte other than the ASCII space: [length(btrim(s)) > 0]. *)
Definition btrim_not_blank (s : string) : bool :=
  existsb (λ a, negb (byte a =? 32)%N) (String.list_ascii_of_string s).

Lemma TrimSpace_not_blank s : TrimSpace s ≠ "" → btrim_not_blank s = true.
Proof.
  intros Hs. destruct (btrim_not_blank s) eqn:Hb; [done|]. destruct Hs.
  unfold btrim_not_blank, TrimSpace in *.
  assert (trim_left (String.list_ascii_of_string s) = []) as ->; [|done].
  induction (String.list_ascii_of_string s) as [|a l IH]; [done|].
  cbn in Hb. apply orb_false_iff in Hb as [Ha%negb_false_iff Hl].
  cbn. unfold space1 at 1. rewrite Ha, orb_true_r. by apply IH.
Qed.

(** ** Errors as text

    [fmt.Errorf] of a message and a wrapped error, and [errors.Join] of a first error with
    another that may be nil, where only the text is looked at. *)
Definition errorf (message err : string) : string := message +:+ ": " +:+ err.
Definition errors_Join (err : string) (other : option string) : string :=
  match other with None => err | Some e => strings_Join [err; e] (String (Ascii.ascii_of_nat 10) "") end.
