(* ===== verification/Prog.v ===== *)
(** * Programs over ports

    A use case of the source is a straight-line or looping piece of Go that
    calls its ports (repositories, clients, clocks). It is translated into a
    [prog E A]: a tree that issues events of the port signature [E] and
    continues with their answers. The same translation is then read in three
    ways:
    - [all_runs]: every answer is possible at every call, which gives the
      properties the code has whatever its environment does;
    - [run]: a deterministic handler over a state, which executes the code;
    - [pool_step]: many threads over one shared state, each call being one
      atomic step, which gives the properties under interleaving, proved with
      the rely-guarantee weakest precondition [wp]. *)
From S2P Require Import Prelude.

Inductive prog (E : Type → Type) (A : Type) : Type :=
| Ret (a : A)
| Vis {R : Type} (e : E R) (k : R → prog E A).
Arguments Ret {E A} a.
Arguments Vis {E A R} e k.

Definition trigger {E R} (e : E R) : prog E R := Vis e Ret.

Fixpoint prog_bind_go {E A B} (f : A → prog E B) (p : prog E A) : prog E B :=
  match p with
  | Ret a => f a
  | Vis e k => Vis e (λ r, prog_bind_go f (k r))
  end.
#[export] Instance prog_ret {E} : MRet (prog E) := λ A a, Ret a.
#[export] Instance prog_bind {E} : MBind (prog E) := λ A B f p, prog_bind_go f p.

(** One call and its answer. *)
Inductive call (E : Type → Type) : Type :=
| Call {R : Type} (e : E R) (r : R).
Arguments Call {E R} e r.

(** ** All runs against an arbitrary environment *)
Section traces.
Context {E : Type → Type}.

(** [all_runs p h P]: whatever the ports answer, a run of [p] that extends the
    calls [h] made so far ends with a history and a value satisfying [P]. *)
Fixpoint all_runs {A} (p : prog E A) (h : list (call E)) (P : list (call E) → A → Prop) : Prop :=
  match p with
  | Ret a => P h a
  | Vis e k => ∀ r, all_runs (k r) (h ++ [Call e r]) P
  end.

Lemma all_runs_mono {A} (p : prog E A) h (P Q : list (call E) → A → Prop) :
  (∀ h' a, P h' a → Q h' a) → all_runs p h P → all_runs p h Q.
Proof. intros HPQ. revert h. induction p as [a|R e k IH]; cbn; intros h; eauto. Qed.

Lemma all_runs_bind {A B} (p : prog E A) (f : A → prog E B) h P :
  all_runs p h (λ h' a, all_runs (f a) h' P) → all_runs (p ≫= f) h P.
Proof.
  unfold mbind, prog_bind. revert h. induction p as [a|R e k IH]; cbn; intros h; eauto.
Qed.

(** The runs themselves, for statements about one of them. *)
Inductive runs {A} : prog E A → list (call E) → A → Prop :=
| runs_ret a : runs (Ret a) [] a
| runs_vis {R} (e : E R) k r h a : runs (k r) h a → runs (Vis e k) (Call e r :: h) a.

Lemma runs_inv {A} (p : prog E A) h a :
  runs p h a →
  match p with
  | Ret a' => h = [] ∧ a = a'
  | Vis e k => ∃ r h', h = Call e r :: h' ∧ runs (k r) h' a
  end.
Proof. destruct 1; eauto. Qed.

Lemma runs_trigger {A R} (e : E R) (k : R → prog E A) h a :
  runs (trigger e ≫= k) h a → ∃ r h', h = Call e r :: h' ∧ runs (k r) h' a.
Proof. exact (runs_inv _ h a). Qed.

Lemma runs_bind {A B} (p : prog E A) (f : A → prog E B) h1 h2 a b :
  runs p h1 a → runs (f a) h2 b → runs (p ≫= f) (h1 ++ h2) b.
Proof. induction 1; cbn; [done|]. intros Hf. constructor. auto. Qed.

Lemma runs_bind_inv {A B} (p : prog E A) (f : A → prog E B) h b :
  runs (p ≫= f) h b → ∃ h1 h2 a, h = h1 ++ h2 ∧ runs p h1 a ∧ runs (f a) h2 b.
Proof.
  unfold mbind, prog_bind. revert h. induction p as [a|R e k IH]; cbn; intros h Hr.
  - exists [], h, a. split_and!; [done|constructor|done].
  - apply runs_inv in Hr as (r & h' & -> & Hr). destruct (IH r h' Hr) as (h1 & h2 & a & -> & H1 & H2).
    exists (Call e r :: h1), h2, a. split_and!; [done|by constructor|done].
Qed.

Lemma all_runs_sound {A} (p : prog E A) h0 P h a :
  all_runs p h0 P → runs p h a → P (h0 ++ h) a.
Proof.
  intros Hall Hruns. revert h0 Hall. induction Hruns as [a|R e k r h a _ IH]; cbn; intros h0 Hall.
  - by rewrite app_nil_r.
  - specialize (IH _ (Hall r)). by rewrite <-app_assoc in IH.
Qed.

Lemma all_runs_complete {A} (p : prog E A) h0 P :
  (∀ h a, runs p h a → P (h0 ++ h) a) → all_runs p h0 P.
Proof.
  revert h0. induction p as [a|R e k IH]; cbn; intros h0 H.
  - rewrite <-(app_nil_r h0). by apply H, runs_ret.
  - intros r. apply IH. intros h a Hr. rewrite <-app_assoc. by apply H, runs_vis.
Qed.
End traces.

(** ** Call discipline

    [respects allowed p h Q]: along every run of [p] that extends the calls [h],
    each call is allowed after the calls before it, and the value the run ends
    with satisfies [Q]. *)
Section discipline.
Context {E : Type → Type} (allowed : list (call E) → ∀ R, E R → Prop).

Fixpoint respects {A} (p : prog E A) (h : list (call E)) (Q : list (call E) → A → Prop) : Prop :=
  match p with
  | Ret a => Q h a
  | Vis e k => allowed h _ e ∧ ∀ r, respects (k r) (h ++ [Call e r]) Q
  end.

(** Every call of a history is allowed after its prefix. *)
Definition disciplined (h : list (call E)) : Prop :=
  ∀ h1 R (e : E R) r h2, h = h1 ++ Call e r :: h2 → allowed h1 R e.

Lemma respects_mono {A} (p : prog E A) h (Q Q' : list (call E) → A → Prop) :
  (∀ h' a, Q h' a → Q' h' a) → respects p h Q → respects p h Q'.
Proof.
  intros HQ. revert h. induction p as [a|R e k IH]; cbn; intros h; [eauto|].
  intros [Ha Hk]. eauto.
Qed.

Lemma respects_bind {A B} (p : prog E A) (f : A → prog E B) h Q :
  respects p h (λ h' a, respects (f a) h' Q) → respects (p ≫= f) h Q.
Proof.
  unfold mbind, prog_bind. revert h. induction p as [a|R e k IH]; cbn; intros h; [eauto|].
  intros [Ha Hk]. eauto.
Qed.

Lemma respects_trigger {A R} (e : E R) (f : R → prog E A) h Q :
  allowed h _ e → (∀ r, respects (f r) (h ++ [Call e r]) Q) →
  respects (trigger e ≫= f) h Q.
Proof. by split. Qed.

Lemma disciplined_nil : disciplined [].
Proof. intros [|? h1] R e r h2 Heq; discriminate Heq. Qed.

Lemma disciplined_snoc h R (e : E R) r :
  disciplined h → allowed h R e → disciplined (h ++ [Call e r]).
Proof.
  intros Hd Ha h1 R' e' r' h2 Heq.
  destruct h2 as [|c h2' _] using rev_ind.
  - apply app_inj_tail in Heq as [<- Heq].
    change (allowed h R' e'). injection Heq. intros.
    by refine (match Heq in _ = c return match c with Call e0 _ => allowed h _ e0 end with eq_refl => Ha end).
  - rewrite app_comm_cons, app_assoc in Heq. apply app_inj_tail in Heq as [-> _]. by eapply Hd.
Qed.

Lemma respects_sound {A} (p : prog E A) h Q h' a :
  disciplined h → respects p h Q → runs p h' a → disciplined (h ++ h') ∧ Q (h ++ h') a.
Proof.
  intros Hd Hr Hruns. revert h Hd Hr. induction Hruns as [a|R e k r h' a _ IH]; cbn; intros h Hd Hr.
  - by rewrite app_nil_r.
  - destruct Hr as [Ha Hk].
    destruct (IH (h ++ [Call e r])) as [H1 H2]; [by apply disciplined_snoc|done|].
    by rewrite <-app_assoc in H1, H2.
Qed.
End discipline.

(** ** Execution by a deterministic handler *)
Section run.
Context {E : Type → Type} {W : Type} (handler : ∀ R, E R → W → R * W).

Fixpoint run {A} (p : prog E A) (w : W) : A * W :=
  match p with
  | Ret a => (a, w)
  | Vis e k => let '(r, w') := handler _ e w in run (k r) w'
  end.

Lemma run_bind {A B} (p : prog E A) (f : A → prog E B) w :
  run (p ≫= f) w = let '(a, w') := run p w in run (f a) w'.
Proof.
  unfold mbind, prog_bind. revert w. induction p as [a|R e k IH]; cbn; intros w; [done|].
  by destruct (handler R e w) as [r w'].
Qed.
End run.

(** ** Interleaved execution and rely-guarantee *)
Section interleaving.
Context {E : Type → Type} {W : Type}.
(** [H i e w r w']: in state [w], the call [e] of thread [i] may answer [r]
    and leave the state [w']. *)
Variable H : nat → ∀ R, E R → W → R → W → Prop.
(** What the environment may do on its own: time, administrators, brokers. *)
Variable Env : relation W.
(** The invariant of the shared state and, per thread, the interference it
    tolerates ([Rely]) and the steps it makes ([Guar]). *)
Variable Inv : W → Prop.
Variable Rely Guar : nat → relation W.

Fixpoint wp {A} (i : nat) (p : prog E A) (Q : A → W → Prop) (w : W) : Prop :=
  ∀ w1, Rely i w w1 → Inv w1 →
  match p with
  | Ret a => Q a w1
  | Vis e k => ∀ r w2, H i _ e w1 r w2 → Inv w2 ∧ Guar i w1 w2 ∧ wp i (k r) Q w2
  end.

Lemma wp_vis {A R} i (e : E R) (k : R → prog E A) Q w :
  (∀ w1, Rely i w w1 → Inv w1 → ∀ r w2, H i _ e w1 r w2 →
    Inv w2 ∧ Guar i w1 w2 ∧ wp i (k r) Q w2) →
  wp i (Vis e k) Q w.
Proof. done. Qed.

Lemma wp_ret {A} i (a : A) (Q : A → W → Prop) w :
  (∀ w1, Rely i w w1 → Inv w1 → Q a w1) → wp i (Ret a) Q w.
Proof. done. Qed.

Context `{HR : ∀ i, PreOrder (Rely i)}.

Lemma wp_rely {A} i (p : prog E A) Q w w1 : wp i p Q w → Rely i w w1 → wp i p Q w1.
Proof.
  intros Hwp Hr. destruct p; cbn in *; intros w2 Hr2; apply Hwp; by etransitivity.
Qed.

Lemma wp_mono {A} i (p : prog E A) (Q Q' : A → W → Prop) w :
  (∀ a w', Q a w' → Q' a w') → wp i p Q w → wp i p Q' w.
Proof.
  intros HQ. revert w. induction p as [a|R e k IH]; cbn; intros w Hwp w1 Hr Hi.
  - eauto.
  - intros r w2 Hstep. destruct (Hwp w1 Hr Hi r w2 Hstep) as (? & ? & ?). eauto.
Qed.

(** What neither the others nor the thread undo is there at the end. *)
Lemma wp_stable {A} (P : W → Prop) i (p : prog E A) Q w :
  (∀ w1 w2, P w1 → Rely i w1 w2 ∨ Guar i w1 w2 → P w2) → P w →
  wp i p Q w → wp i p (λ a w', Q a w' ∧ P w') w.
Proof.
  intros HP. revert w. induction p as [a|R e k IH]; cbn; intros w Hw Hwp w1 Hr Hi;
    (assert (P w1) as Hw1 by (eapply HP; eauto)); [by split; [apply Hwp|]|].
  intros r w2 Hstep. destruct (Hwp w1 Hr Hi r w2 Hstep) as (? & Hg & ?). split_and!; [done..|].
  apply IH; [|done]. eapply HP; eauto.
Qed.

Lemma wp_bind {A B} i (p : prog E A) (f : A → prog E B) Q w :
  wp i p (λ a w', wp i (f a) Q w') w → wp i (p ≫= f) Q w.
Proof.
  unfold mbind, prog_bind. revert w. induction p as [a|R e k IH]; cbn; intros w Hwp.
  - destruct (f a) as [b|R e k] eqn:Hf; cbn in *; intros w1 Hr Hi.
    + apply (Hwp w1 Hr Hi); [reflexivity|done].
    + apply (Hwp w1 Hr Hi); [reflexivity|done].
  - intros w1 Hr Hi r w2 Hstep. destruct (Hwp w1 Hr Hi r w2 Hstep) as (? & ? & ?). eauto.
Qed.

(** A pool of threads over the shared state. A step runs one call of one
    thread, or is a step of the environment. *)
Inductive pool_step {A} : relation (list (prog E A) * W) :=
| pool_thread i R (e : E R) k r ts w w' :
    ts !! i = Some (Vis e k) → H i _ e w r w' →
    pool_step (ts, w) (<[i := k r]> ts, w')
| pool_env ts w w' : Env w w' → pool_step (ts, w) (ts, w').

(** What each thread promises of its result. *)
Context {A : Type} (Q : nat → A → W → Prop).

Definition pool_ok (c : list (prog E A) * W) : Prop :=
  Inv c.2 ∧ ∀ i t, c.1 !! i = Some t → wp i t (Q i) c.2.

Hypothesis Guar_Rely : ∀ i j w w', i ≠ j → Guar j w w' → Rely i w w'.
Hypothesis Env_Rely : ∀ i w w', Inv w → Env w w' → Rely i w w'.
Hypothesis Env_Inv : ∀ w w', Inv w → Env w w' → Inv w'.

Lemma pool_step_ok c c' : pool_ok c → pool_step c c' → pool_ok c'.
Proof.
  intros [HI Hts] Hstep. destruct Hstep as [i R e k r ts w w' Hi Hh|ts w w' He]; cbn in *.
  - pose proof (Hts i _ Hi) as Hwp. cbn in Hwp.
    destruct (Hwp w ltac:(reflexivity) HI r w' Hh) as (HI' & HG & Hwp').
    split; [done|]. intros j t Hj. cbn in *. destruct (decide (i = j)) as [<-|Hne].
    + rewrite list_lookup_insert_eq in Hj; [by injection Hj as <-|].
      by apply lookup_lt_Some in Hi.
    + rewrite list_lookup_insert_ne in Hj by done.
      eapply wp_rely; [by apply Hts|]. by eapply Guar_Rely; [apply not_eq_sym|].
  - split; cbn; [eauto|]. intros j t Hj. eapply wp_rely; [by apply Hts|]. eauto.
Qed.

(** Adequacy: after any interleaving the invariant holds, and so does the promise of
    every thread that is done. *)
Lemma pool_adequate c c' :
  pool_ok c → rtc pool_step c c' →
  Inv c'.2 ∧ ∀ i a, c'.1 !! i = Some (Ret a) → Q i a c'.2.
Proof.
  intros Hok Hsteps.
  assert (pool_ok c') as [HI Hts].
  { induction Hsteps as [|? ? ? Hs _ IH]; [done|]. apply IH. by eapply pool_step_ok. }
  split; [done|]. intros i a Hi. by apply (Hts i _ Hi).
Qed.
End interleaving.

(** ** One schedule

    A pool executed by a handler: each entry of the schedule is the thread whose next call
    runs; a thread that is done lets its turn pass. *)
Section schedule.
Context {E : Type → Type} {W A : Type} (handler : nat → ∀ R, E R → W → option (R * W)).

Fixpoint exec_pool (schedule : list nat) (c : list (prog E A) * W) : option (list (prog E A) * W) :=
  match schedule with
  | [] => Some c
  | i :: schedule =>
      match c.1 !! i with
      | Some (Vis e k) =>
          '(r, w) ← handler i _ e c.2; exec_pool schedule (<[i := k r]> c.1, w)
      | _ => exec_pool schedule c
      end
  end.

Lemma exec_pool_steps H (Env : relation W) schedule c c' :
  (∀ i R (e : E R) w r w', handler i R e w = Some (r, w') → H i R e w r w') →
  exec_pool schedule c = Some c' → rtc (pool_step H Env) c c'.
Proof.
  intros Hh. revert c. induction schedule as [|i schedule IH]; cbn; intros c Hc; [injection Hc as ->; apply rtc_refl|].
  destruct (c.1 !! i) as [[a|R e k]|] eqn:Hi; [by apply IH| |by apply IH].
  apply bind_Some in Hc as ([r w] & Hr & Hc). destruct c as [ts w0].
  eapply rtc_l; [|by apply IH]. by eapply pool_thread; [|apply Hh].
Qed.
End schedule.

(** A program that runs by itself is a pool of one. *)
Lemma run_pool {E W A} (H : nat → ∀ R, E R → W → R → W → Prop) (Env : relation W)
    (handler : ∀ R, E R → W → R * W) (p : prog E A) w :
  (∀ R (e : E R) w, H 0 R e w (handler R e w).1 (handler R e w).2) →
  rtc (pool_step H Env) ([p], w) ([Ret (run handler p w).1], (run handler p w).2).
Proof.
  intros HH. revert w. induction p as [a|R e k IH]; cbn; intros w; [apply rtc_refl|].
  specialize (HH R e w). destruct (handler R e w) as [r w1]. cbn in HH.
  eapply rtc_l; [|apply IH]. by apply (pool_thread H Env 0 R e k r [Vis e k] w w1).
Qed.

(** ** Threads of several kinds *)

(** A signature with the calls of both. *)
Inductive sumE (E F : Type → Type) : Type → Type :=
| inlE {R} (e : E R) : sumE E F R
| inrE {R} (f : F R) : sumE E F R.
Arguments inlE {E F R} e.
Arguments inrE {E F R} f.

Definition sum_handler {E F W} (H1 : nat → ∀ R, E R → W → R → W → Prop)
    (H2 : nat → ∀ R, F R → W → R → W → Prop)
    (i : nat) (R : Type) (e : sumE E F R) : W → R → W → Prop :=
  match e with inlE e => H1 i _ e | inrE f => H2 i _ f end.

Fixpoint embed {E G A} (φ : ∀ R, E R → G R) (p : prog E A) : prog G A :=
  match p with
  | Ret a => Ret a
  | Vis e k => Vis (φ _ e) (λ r, embed φ (k r))
  end.

Definition embed_call {E G} (φ : ∀ R, E R → G R) (c : call E) : call G :=
  match c with Call e r => Call (φ _ e) r end.

(** A weaker discipline is kept too. *)
Lemma respects_weaken {E A} (allowed allowed' : list (call E) → ∀ R, E R → Prop) (p : prog E A) h Q :
  (∀ h R e, allowed h R e → allowed' h R e) → respects allowed p h Q → respects allowed' p h Q.
Proof.
  intros HR. revert h. induction p as [a|R e k IH]; cbn; intros h; [done|].
  intros [Ha Hk]. auto.
Qed.

(** A discipline carries over to the embedded program, after any calls [base]. *)
Lemma respects_embed {E G A} (φ : ∀ R, E R → G R) allowed allowed' (p : prog E A) base h Q :
  (∀ h' R e, allowed h' R e → allowed' (base ++ (embed_call φ <$> h')) R (φ R e)) →
  respects allowed p h Q →
  respects allowed' (embed φ p) (base ++ (embed_call φ <$> h))
    (λ h' a, ∃ k, h' = base ++ (embed_call φ <$> k) ∧ Q k a).
Proof.
  intros Hφ. revert h. induction p as [a|R e k IH]; cbn; intros h Hr; [by exists h|].
  destruct Hr as [Ha Hk]. split; [by apply Hφ|]. intros r.
  specialize (IH r _ (Hk r)). by rewrite fmap_app, app_assoc in IH.
Qed.

(** Every history of a run is one. *)
Lemma respects_runs {E A} (p : prog E A) h :
  respects (λ _ _ _, True) p h (λ h' a, ∃ k, h' = h ++ k ∧ runs p k a).
Proof.
  revert h. induction p as [a|R e k IH]; cbn; intros h.
  - exists []. split; [by rewrite app_nil_r|constructor].
  - split; [done|]. intros r. eapply respects_mono; [|apply IH].
    intros h' a (k' & -> & Hk'). exists (Call e r :: k'). rewrite <-app_assoc. split; [done|by constructor].
Qed.

Lemma wp_embed {E G W A} (H : nat → ∀ R, E R → W → R → W → Prop)
    (H' : nat → ∀ R, G R → W → R → W → Prop) Inv Rely Guar (φ : ∀ R, E R → G R) i
    (p : prog E A) Q w :
  (∀ R e w r w', H' i R (φ R e) w r w' → H i R e w r w') →
  wp H Inv Rely Guar i p Q w → wp H' Inv Rely Guar i (embed φ p) Q w.
Proof.
  intros Hφ. revert w. induction p as [a|R e k IH]; cbn; intros w Hwp w1 Hr Hi; [by apply Hwp|].
  intros r w2 Hstep%Hφ. destruct (Hwp w1 Hr Hi r w2 Hstep) as (? & ? & ?). eauto.
Qed.

(** ** Calls that are programs

    [interp φ p] runs [p] with each of its calls replaced by a program that answers it. *)
Fixpoint interp {E G A} (φ : ∀ R, E R → prog G R) (p : prog E A) : prog G A :=
  match p with
  | Ret a => Ret a
  | Vis e k => φ _ e ≫= λ r, interp φ (k r)
  end.

(** The calls of an interpreted run are those of the answers' programs, in order. *)
Inductive interpreted {E G} (φ : ∀ R, E R → prog G R) : list (call E) → list (call G) → Prop :=
| interpreted_nil : interpreted φ [] []
| interpreted_call {R} (e : E R) r k hs h :
    runs (φ _ e) k r → interpreted φ hs h → interpreted φ (Call e r :: hs) (k ++ h).

Lemma interp_runs {E G A} (φ : ∀ R, E R → prog G R) (p : prog E A) h a :
  runs (interp φ p) h a → ∃ hs, runs p hs a ∧ interpreted φ hs h.
Proof.
  revert h. induction p as [a'|R e k IH]; cbn; intros h Hr.
  - apply runs_inv in Hr as [-> ->]. exists []. split; constructor.
  - apply runs_bind_inv in Hr as (h1 & h2 & r & -> & He & Hk).
    destruct (IH r h2 Hk) as (hs & Hp & Hi). exists (Call e r :: hs). split; by constructor.
Qed.

(** A call of the run is made to answer one of the program's, and the other way around. *)
Lemma interpreted_from {E G} (φ : ∀ R, E R → prog G R) hs h c :
  interpreted φ hs h → c ∈ h →
  ∃ hs1 R (e : E R) r hs2 k, hs = hs1 ++ Call e r :: hs2 ∧ runs (φ _ e) k r ∧ c ∈ k.
Proof.
  induction 1 as [|R e r k hs h Hrun _ IH]; [by intros ?%elem_of_nil|].
  intros [Hc|Hc]%elem_of_app; [by exists [], R, e, r, hs, k|].
  destruct (IH Hc) as (hs1 & R' & e' & r' & hs2 & k' & -> & ? & ?).
  by exists (Call e r :: hs1), R', e', r', hs2, k'.
Qed.
Lemma interpreted_to {E G} (φ : ∀ R, E R → prog G R) hs h R (e : E R) r :
  interpreted φ hs h → Call e r ∈ hs → ∃ k, runs (φ _ e) k r ∧ k ⊆ h.
Proof.
  enough (∀ c, interpreted φ hs h → c ∈ hs →
    match c with @Call _ R e r => ∃ k, runs (φ R e) k r ∧ k ⊆ h end) as H by exact (H (Call e r)).
  clear. intros c. induction 1 as [|R e r k hs h Hrun _ IH]; [by intros ?%elem_of_nil|].
  intros [->|Hc]%elem_of_cons; [exists k; split; [done|set_solver]|].
  destruct c as [R' e' r']. destruct (IH Hc) as (k' & ? & ?). exists k'. split; [done|set_solver].
Qed.

Section wp_interp.
Context {E G : Type → Type} {W : Type} (H : nat → ∀ R, G R → W → R → W → Prop).
Context (Inv : W → Prop) (Rely Guar : nat → relation W) `{HR : ∀ i, PreOrder (Rely i)}.
Context (φ : ∀ R, E R → prog G R).
Abbreviation wp_ := (wp H Inv Rely Guar).

Lemma wp_bind_mono {A B C} i (p : prog G A) (f : A → prog G B) (g : A → prog G C) P Q w :
  (∀ a w', wp_ i (f a) P w' → wp_ i (g a) Q w') → wp_ i (p ≫= f) P w → wp_ i (p ≫= g) Q w.
Proof.
  intros Hfg. unfold mbind, prog_bind. revert w. induction p as [a|R e k IH]; cbn; [by apply Hfg|].
  intros w Hwp w1 Hr Hi r w2 Hstep. destruct (Hwp w1 Hr Hi r w2 Hstep) as (? & ? & ?). eauto.
Qed.

Lemma wp_interp_call {A R} i (e : E R) (k : R → prog E A) Q w :
  wp_ i (φ _ e) (λ r w', wp_ i (interp φ (k r)) Q w') w → wp_ i (interp φ (trigger e ≫= k)) Q w.
Proof. intros Hwp. by apply wp_bind. Qed.

Lemma wp_interp_bind {A B} i (p : prog E A) (f : A → prog E B) Q w :
  wp_ i (interp φ p) (λ a w', wp_ i (interp φ (f a)) Q w') w → wp_ i (interp φ (p ≫= f)) Q w.
Proof.
  unfold mbind at 1, prog_bind at 1. revert w. induction p as [a|R e k IH]; intros w Hwp.
  - exact (wp_bind H Inv Rely Guar i (Ret a) (λ a, interp φ (f a)) Q w Hwp).
  - cbn [prog_bind_go interp] in *. eapply wp_bind_mono; [|exact Hwp]. intros r w' Hr. by apply IH.
Qed.
End wp_interp.

(** ** Every run of one thread

    [must H p Q w]: in the state [w] there is an answer to each call of [p], and whatever
    the answers are, among those [H] allows, [p] ends with a value satisfying [Q]. *)
Section must.
Context {E : Type → Type} {W : Type} (H : ∀ R, E R → W → R → W → Prop).

Fixpoint must {A} (p : prog E A) (Q : A → W → Prop) (w : W) : Prop :=
  match p with
  | Ret a => Q a w
  | Vis e k => (∃ r w', H _ e w r w') ∧ ∀ r w', H _ e w r w' → must (k r) Q w'
  end.

Lemma must_mono {A} (p : prog E A) (Q Q' : A → W → Prop) w :
  (∀ a w', Q a w' → Q' a w') → must p Q w → must p Q' w.
Proof.
  intros HQ. revert w. induction p as [a|R e k IH]; cbn; intros w; [by apply HQ|].
  intros [Hex Hall]. split; [done|]. eauto.
Qed.
Lemma must_bind {A B} (p : prog E A) (f : A → prog E B) Q w :
  must p (λ a w', must (f a) Q w') w → must (p ≫= f) Q w.
Proof.
  unfold mbind, prog_bind. revert w. induction p as [a|R e k IH]; cbn; intros w; [done|].
  intros [Hex Hall]. split; [done|]. eauto.
Qed.
Lemma must_trigger {A R} (e : E R) (k : R → prog E A) Q w :
  (∃ r w', H _ e w r w') → (∀ r w', H _ e w r w' → must (k r) Q w') → must (trigger e ≫= k) Q w.
Proof. by split. Qed.

(** What every call keeps, the program keeps. *)
Lemma must_keeps {A} (R : relation W) `{!PreOrder R} (p : prog E A) Q w :
  (∀ T (e : E T) w r w', H T e w r w' → R w w') → must p Q w → must p (λ a w', R w w' ∧ Q a w') w.
Proof.
  intros HR. revert w. induction p as [a|T e k IH]; cbn; intros w; [by split|].
  intros [Hex Hall]. split; [done|]. intros r w1 Hstep.
  eapply must_mono; [|by apply IH, Hall]. intros a w2 [Hk HQ]. split; [|done].
  etransitivity; [by eapply HR|done].
Qed.

(** A must-run has a run. *)
Lemma must_runs {A} (p : prog E A) Q w : must p Q w → ∃ h a w', runs p h a ∧ Q a w'.
Proof.
  revert w. induction p as [a|R e k IH]; cbn; intros w Hm; [exists [], a, w; by split; [constructor|]|].
  destruct Hm as [(r & w' & Hstep) Hall]. destruct (IH r w' (Hall _ _ Hstep)) as (h & a & w2 & Hr & HQ).
  exists (Call e r :: h), a, w2. by split; [constructor|].
Qed.

(** What the thread keeps and promises when it is interleaved, it does when alone. *)
Lemma must_wp {A} (H' : nat → ∀ R, E R → W → R → W → Prop) Inv Rely Guar
    `{!∀ i, PreOrder (Rely i)} i (p : prog E A) (Q Q' : A → W → Prop) w :
  (∀ R e w r w', H R e w r w' → H' i R e w r w') →
  Inv w → wp H' Inv Rely Guar i p Q w → must p Q' w → must p (λ a w', Inv w' ∧ Q a w' ∧ Q' a w') w.
Proof.
  intros Hsub. revert w. induction p as [a|R e k IH]; cbn; intros w Hi Hwp.
  - intros HQ'. split_and!; [done| |done]. apply (Hwp w); [reflexivity|done].
  - intros [Hex Hall]. split; [done|]. intros r w' Hstep.
    destruct (Hwp w ltac:(reflexivity) Hi r w' (Hsub _ _ _ _ _ Hstep)) as (Hi' & _ & Hk). eauto.
Qed.

(** What a run reached satisfies what all runs do. *)
Lemma must_reached {A} (p : prog E A) Q ts w a w' :
  must p Q w → rtc (pool_step (λ _, H) (λ _ _, False)) ([p], w) (ts, w') → ts = [Ret a] → Q a w'.
Proof.
  intros Hm Hrun. remember ([p], w) as c eqn:Hc. remember (ts, w') as c' eqn:Hc'.
  revert p w Hm Hc Hc'. induction Hrun as [c|c c1 c2 Hstep _ IH]; intros p w Hm -> Hc'.
  { intros ->. injection Hc' as -> ->. exact Hm. }
  inversion Hstep as [i R e k r ts1 w1 w2 Hi Hs|]; [|done]; subst.
  destruct i; [|done]. injection Hi as ->. destruct Hm as [_ Hall].
  by apply (IH (k r) w2 (Hall _ _ Hs)).
Qed.

(** The run of a thread in a pool. *)
Lemma must_pool {A} (H' : nat → ∀ R, E R → W → R → W → Prop) Env i (p : prog E A) Q ts w :
  (∀ R e w r w', H R e w r w' → H' i R e w r w') →
  ts !! i = Some p → must p Q w →
  ∃ a w', rtc (pool_step H' Env) (ts, w) (<[i := Ret a]> ts, w') ∧ Q a w'.
Proof.
  intros Hsub. revert ts w. induction p as [a|R e k IH]; cbn; intros ts w Hi Hm.
  - exists a, w. rewrite list_insert_id by done. by split.
  - destruct Hm as [(r & w1 & Hstep) Hall].
    destruct (IH r (<[i := k r]> ts) w1) as (a & w2 & Hsteps & HQ);
      [by eapply list_lookup_insert_eq, lookup_lt_Some|by apply Hall|].
    exists a, w2. split; [|done]. rewrite list_insert_insert_eq in Hsteps.
    eapply rtc_l; [|exact Hsteps]. eapply pool_thread; [done|by apply Hsub].
Qed.
End must.

(** A state [proj] of which the program sees: its calls are answered as it expects there. *)
Lemma must_lift {E V W A} (H1 : ∀ R, E R → V → R → V → Prop) (H2 : ∀ R, E R → W → R → W → Prop)
    (proj : W → V) (p : prog E A) Q w :
  (∀ R (e : E R) w, (∃ r v, H1 R e (proj w) r v) → ∃ r w', H2 R e w r w') →
  (∀ R (e : E R) w r w', H2 R e w r w' → H1 R e (proj w) r (proj w')) →
  must H1 p Q (proj w) → must H2 p (λ a w', Q a (proj w')) w.
Proof.
  intros Hex Hsim. revert w. induction p as [a|R e k IH]; cbn; intros w; [done|].
  intros [Ha Hall]. split; [by apply Hex|]. intros r w' Hstep. by apply IH, Hall, Hsim.
Qed.

Lemma must_embed {E G W A} (H : ∀ R, G R → W → R → W → Prop) (φ : ∀ R, E R → G R) (p : prog E A) Q w :
  must (λ R e, H R (φ R e)) p Q w → must H (embed φ p) Q w.
Proof.
  revert w. induction p as [a|R e k IH]; cbn; intros w; [done|]. intros [Hex Hall]. eauto.
Qed.
Lemma must_interp_call {E G W A R} (H : ∀ R, G R → W → R → W → Prop) (φ : ∀ R, E R → prog G R)
    (e : E R) (k : R → prog E A) Q w :
  must H (φ _ e) (λ r w', must H (interp φ (k r)) Q w') w → must H (interp φ (trigger e ≫= k)) Q w.
Proof. apply must_bind. Qed.
Lemma must_interp_bind {E G W A B} (H : ∀ R, G R → W → R → W → Prop) (φ : ∀ R, E R → prog G R)
    (p : prog E A) (f : A → prog E B) Q w :
  must H (interp φ p) (λ a w', must H (interp φ (f a)) Q w') w → must H (interp φ (p ≫= f)) Q w.
Proof.
  unfold mbind at 1, prog_bind at 1. revert w. induction p as [a|R e k IH]; intros w Hm; [done|].
  cbn [prog_bind_go interp] in *. apply must_bind.
  enough (∀ (p : prog G R) w, must H (p ≫= λ r, interp φ (k r)) (λ a w', must H (interp φ (f a)) Q w') w →
    must H p (λ r w', must H (interp φ (prog_bind_go f (k r))) Q w') w) as Hgo by by apply Hgo.
  clear w Hm. unfold mbind, prog_bind. intros q. induction q as [r|R' e' k' IH']; cbn; intros w; [by apply IH|].
  intros [Hex Hall]. eauto.
Qed.
