(* ===== verification/Postgres.v ===== *)
(** * PostgreSQL, as the stores of the services use it

    The errors a statement reports, what the server does to the values it stores,
    and the faults a connection adds. The tables and queries themselves are in the
    files of the stores that own them. *)
From Stdlib Require String.
From S2P Require Import Prelude GoStrings.

(** What a statement fails with: an error the server reports, with its SQLSTATE
    and the constraint it names, or an error of the driver or the connection. *)
Inductive pg_error :=
| PgError (Code ConstraintName : string)
| DriverError (text : string).

(** What the documentation of PostgreSQL and its driver leaves to the server: the
    rounding of a timestamp, the text of an error, the normalised form of a JSON
    document, and the identifiers [gen_random_uuid()] gives. *)
Class Postgres : Type := {
  timestamptz : Z → Z;
  pg_error_text : pg_error → string;
  jsonb : string → option string;
}.

(** A timestamp has microsecond resolution. *)
Class PostgresLaws (P : Postgres) : Prop := {
  timestamptz_microseconds : ∀ t, (t `mod` Microsecond = 0)%Z → timestamptz t = t;
}.

(** A text value is valid UTF-8 without a zero byte. *)
Definition text_ok (s : string) : bool :=
  utf8_ValidString s
  && negb (existsb (λ a, (byte a =? 0)%N) (String.list_ascii_of_string s)).
Definition pg_encoding_error : pg_error := PgError "22021" "".

(** An INTEGER parameter is refused outside the int4 range. *)
Definition int4_ok (z : Z) : bool := (MinInt32 <=? z)%Z && (z <=? MaxInt32)%Z.
Definition pg_int4_error : pg_error := DriverError "is greater than maximum value for int4".

Lemma int4_ok_spec z : int4_ok z = true ↔ in_int32 z.
Proof. unfold int4_ok, in_int32. rewrite andb_true_iff, !Z.leb_le. done. Qed.

(** [duration.Milliseconds()] truncates towards zero. *)
Definition Milliseconds (duration : Z) : Z := Z.quot duration Millisecond.
(** What the server reads in the text ["N milliseconds"], as a duration. *)
Definition interval_value (duration : Z) : Z := (Milliseconds duration * Millisecond)%Z.

(** The faults of one call of a store. [flt_stmt n] makes its [n]-th statement
    fail and says whether the server had applied it: that matters only outside a
    transaction, since an open transaction is rolled back. [flt_commit] loses the
    answer of COMMIT, with the same choice. *)
Record faults := mkFaults {
  flt_begin : option string;
  flt_stmt : nat → option (string * bool);
  flt_rows : option string;
  flt_commit : option (string * bool);
}.
Definition no_faults : faults := mkFaults None (λ _, None) None None.

(** A statement of a transaction. *)
Definition exec_stmt {A} (f : faults) (n : nat) (s : result pg_error A) : result pg_error A :=
  match flt_stmt f n with
  | Some (text, _) => Err (DriverError text)
  | None => s
  end.

(** A query of an autocommit connection: nothing to apply. *)
Abbreviation exec_query := exec_stmt.

(** A write of an autocommit connection: its state change survives a lost
    answer when the server had applied it. *)
Definition exec_write {S A} (f : faults) (n : nat) (s : result pg_error (A * S)) (w : S)
    : result pg_error A * S :=
  match flt_stmt f n with
  | Some (text, applied) =>
      (Err (DriverError text),
       match s with Ok (_, w') => if applied then w' else w | Err _ => w end)
  | None => match s with Ok (a, w') => (Ok a, w') | Err e => (Err e, w) end
  end.

Lemma exec_write_cases {S A} f n (s : result pg_error (A * S)) w r w' :
  exec_write f n s w = (r, w') →
  (∃ a, r = Ok a ∧ s = Ok (a, w'))
  ∨ (∃ err, r = Err err ∧ (w' = w ∨ ∃ a, s = Ok (a, w'))).
Proof.
  unfold exec_write. destruct (flt_stmt f n) as [[text applied]|].
  - intros [= <- <-]. right. eexists. split; [done|]. destruct s as [[a w1]|e]; [|by left].
    destruct applied; eauto.
  - destruct s as [[a w1]|e]; intros [= <- <-]; eauto.
Qed.

(** COMMIT of the work [w'] done since [w]. *)
Definition exec_commit {S} (f : faults) (w w' : S) : result pg_error unit * S :=
  match flt_commit f with
  | Some (text, applied) => (Err (DriverError text), if applied then w' else w)
  | None => (Ok tt, w')
  end.

Lemma exec_commit_cases {S} f (w w' : S) :
  exec_commit f w w' = (Ok tt, w')
  ∨ ∃ text, exec_commit f w w' = (Err (DriverError text), w)
            ∨ exec_commit f w w' = (Err (DriverError text), w').
Proof. unfold exec_commit. destruct (flt_commit f) as [[text []]|]; eauto. Qed.

(** ORDER BY a key that is unique has one answer. *)
Lemma sorted_by_key_unique {A B} (R : relation B) `{!AntiSymm (=) R, !Transitive R}
    (key : A → B) (l k : list A) :
  NoDup (key <$> l) → Sorted R (key <$> l) → Sorted R (key <$> k) → l ≡ₚ k → l = k.
Proof.
  intros Hnd Hl Hk Hp.
  assert (key <$> l = key <$> k) as Heq.
  { apply (sorted_perm_unique R); [done|done|]. by apply fmap_Permutation. }
  clear Hl Hk. revert k Hp Heq.
  induction l as [|a l IH]; intros [|b k] Hp Heq; try discriminate Heq; [done|].
  injection Heq as Hab Heq. cbn in Hnd. apply NoDup_cons in Hnd as [Ha Hnd].
  assert (a ∈ b :: k) as [->|Hin]%elem_of_cons by (rewrite <-Hp; by left).
  - f_equal. apply IH; [done| |done]. by eapply Permutation_cons_inv.
  - destruct Ha. fold (key <$> l) in *. unfold fmap in *. rewrite Heq. by apply list_elem_of_fmap_2.
Qed.

(** A server for the witnesses: timestamps are truncated, documents are kept. *)
#[export] Instance sample_postgres : Postgres := {|
  timestamptz t := (t - t `mod` Microsecond)%Z;
  pg_error_text e := match e with
    | PgError c n => "ERROR: " +:+ n +:+ " (SQLSTATE " +:+ c +:+ ")"
    | DriverError t => t
    end;
  jsonb b := Some b;
|}.
#[export] Instance sample_postgres_laws : PostgresLaws sample_postgres.
Proof. split. intros t Ht. cbn. rewrite Ht. lia. Qed.
