(* ===== verification/External.v ===== *)
(** * Code outside the repository

    The libraries the services call, as parameters: each is a class whose fields
    are the functions the source uses, and, separately, a class of the laws of
    their documentation that theorems rely on. Concrete instances at the end of
    the file serve the witnesses. *)
From S2P Require Import Prelude GoStrings Postgres.

(** [net/mail.ParseAddress], reduced to the [Address] field of its answer. *)
Class MailLib : Type := { ParseAddress : string → option string }.

(** [github.com/google/uuid]: [uuid.Parse] and [UUID.String]. *)
Class UuidLib : Type := {
  uuid : Type;
  uuid_eq_dec :: EqDecision uuid;
  uuid_countable :: Countable uuid;
  uuid_Parse : string → option uuid;
  uuid_String : uuid → string;
  uuid_Parse_error : string → string;
}.

(** The canonical text of a parsed identifier parses back to it. *)
Class UuidLaws (U : UuidLib) : Prop := {
  uuid_Parse_String : ∀ u, uuid_Parse (uuid_String u) = Some u;
  uuid_String_trimmed : ∀ u, TrimSpace (uuid_String u) = uuid_String u;
  uuid_String_nonempty : ∀ u, uuid_String u ≠ "";
}.

#[export] Instance uuid_String_inj {U : UuidLib} {L : UuidLaws U} : Inj (=) (=) uuid_String.
Proof. intros u v Heq. apply (f_equal uuid_Parse) in Heq. rewrite !uuid_Parse_String in Heq. congruence. Qed.

(** A codec between values and bytes: [encoding/json] on one struct type, or
    [google.golang.org/protobuf/proto] on one message type. *)
Class Codec (T : Type) : Type := {
  Marshal : T → result string string;
  Unmarshal : string → result string T;
}.

(** Decoding gives back a value all of whose texts are valid UTF-8 ([exact]):
    JSON replaces an invalid byte, protobuf refuses it. *)
Class CodecLaws {T} (C : Codec T) (exact : T → Prop) : Prop := {
  Unmarshal_Marshal : ∀ t b, exact t → Marshal t = Ok b → Unmarshal b = Ok t;
}.

(** ** Instances for the witnesses *)

(** An address is accepted when it has an at sign, and is its own address. *)
#[export] Instance sample_mail : MailLib := {|
  ParseAddress s :=
    let '(local, domain, found) := strings_Cut s (Ascii.ascii_of_nat 64) in
    if found && negb (bool_decide (local = "")) && negb (bool_decide (domain = ""))
    then Some s else None
|}.

(** Identifiers are non-empty texts without surrounding space, which the server takes. *)
Definition sample_uuid_ok (s : string) : bool :=
  bool_decide (s ≠ "") && bool_decide (TrimSpace s = s) && text_ok s.
Definition sample_uuid_type : Type := { s : string | sample_uuid_ok s = true }.

Definition sample_uuid_parse (s : string) : option sample_uuid_type :=
  match Sumbool.sumbool_of_bool (sample_uuid_ok s) with
  | left H => Some (exist _ s H)
  | right _ => None
  end.

#[export] Instance sample_uuid_eq_dec : EqDecision sample_uuid_type.
Proof. intros [x Hx] [y Hy]. destruct (decide (x = y)) as [->|Hne].
  - left. f_equal. apply proof_irrel.
  - right. congruence.
Defined.
#[export] Instance sample_uuid_countable : Countable sample_uuid_type.
Proof.
  refine (inj_countable proj1_sig sample_uuid_parse _).
  intros [s Hs]. unfold sample_uuid_parse. cbn.
  destruct (Sumbool.sumbool_of_bool (sample_uuid_ok s)) as [H|H]; [|congruence].
  do 2 f_equal. apply proof_irrel.
Defined.

#[export] Instance sample_uuid : UuidLib := {|
  uuid := sample_uuid_type;
  uuid_Parse := sample_uuid_parse;
  uuid_String := proj1_sig;
  uuid_Parse_error s := "invalid UUID: " +:+ s;
|}.

#[export] Instance sample_uuid_laws : UuidLaws sample_uuid.
Proof.
  split.
  - intros u. cbn. unfold sample_uuid_parse. destruct u as [v Hv]. cbn.
    destruct (Sumbool.sumbool_of_bool (sample_uuid_ok v)) as [H|H]; [|congruence].
    do 2 f_equal. apply proof_irrel.
  - intros [s Hs]. cbn. unfold sample_uuid_ok in Hs. reflect_bools. done.
  - intros [s Hs]. cbn. unfold sample_uuid_ok in Hs. reflect_bools. done.
Qed.

Lemma sample_uuid_text s (u : sample_uuid_type) : uuid_Parse s = Some u → uuid_String u = s.
Proof.
  cbn. unfold sample_uuid_parse. destruct (Sumbool.sumbool_of_bool _); [|done]. by intros [= <-].
Qed.

(** A codec of any countable type: the bits of its code, as text. *)
Fixpoint bits (p : positive) : string :=
  match p with
  | xH => ""
  | xO p' => String (Ascii.ascii_of_nat 48) (bits p')
  | xI p' => String (Ascii.ascii_of_nat 49) (bits p')
  end.
Fixpoint of_bits (s : string) : positive :=
  match s with
  | EmptyString => xH
  | String a s' => if bool_decide (a = Ascii.ascii_of_nat 48) then xO (of_bits s') else xI (of_bits s')
  end.
Lemma of_bits_bits p : of_bits (bits p) = p.
Proof. induction p; cbn; by rewrite ?IHp. Qed.

Definition countable_codec (T : Type) `{Countable T} : Codec T := {|
  Marshal t := Ok (bits (encode t));
  Unmarshal b := match decode (of_bits b) with Some t => Ok t | None => Err "malformed document" end;
|}.
Lemma countable_codec_laws T `{Countable T} exact : CodecLaws (countable_codec T) exact.
Proof. split. intros t b _ [= <-]. cbn. by rewrite of_bits_bits, decode_encode. Qed.
