(* ===== verification/Correlation.v ===== *)
(** * Correlation ids

    The three [platform/correlation] packages, the HTTP middleware that mints a
    request id, the gRPC client interceptor that forwards it and the server
    interceptor that accepts it. A [context.Context] is reduced to the request
    id it carries. *)
From Stdlib Require Import Ascii.
From Stdlib Require String.
From S2P Require Import Prelude GoStrings.

Module correlation.

(* @src order-service/internal/platform/correlation/correlation.go:21-21 MaxLength *)
Definition MaxLength : nat := 64.

(** The characters of the [switch]. Go ranges over runes; a byte above 127 is
    part of a rune above 127 or decodes to U+FFFD, and neither is accepted, so
    testing bytes is testing runes. *)
(* @src order-service/internal/platform/correlation/correlation.go:45-54 Acceptable *)
Definition acceptable_char (a : ascii) : bool :=
  let c := byte a in
  ((97 <=? c) && (c <=? 122))%N || ((65 <=? c) && (c <=? 90))%N
  || ((48 <=? c) && (c <=? 57))%N || (c =? 45)%N || (c =? 95)%N.

(* @go order-service/internal/platform/correlation/correlation.go Acceptable *)
Definition Acceptable (requestID : string) : string :=
  if bool_decide (requestID = "") || bool_decide (MaxLength < String.length requestID)%nat
  then ""
  else if forallb acceptable_char (String.list_ascii_of_string requestID)
  then requestID else "".

(** The context key holds the id; a context without one reads as empty. *)
Record Context := mkContext { request_id : option string }.
Definition Background : Context := mkContext None.
(* @go order-service/internal/platform/correlation/correlation.go WithRequestID *)
Definition WithRequestID (ctx : Context) (requestID : string) : Context :=
  mkContext (Some requestID).
(* @go order-service/internal/platform/correlation/correlation.go FromContext *)
Definition FromContext (ctx : Context) : string := default "" (request_id ctx).

End correlation.

(** The packages of the other two services have the same text, less the HTTP header. *)
Module service_correlation.
Import correlation.

(* @go inventory-service/internal/platform/correlation/correlation.go Acceptable *)
Definition inventory_Acceptable : string → string := Acceptable.
(* @go inventory-service/internal/platform/correlation/correlation.go WithRequestID *)
Definition inventory_WithRequestID : Context → string → Context := WithRequestID.
(* @go inventory-service/internal/platform/correlation/correlation.go FromContext *)
Definition inventory_FromContext : Context → string := FromContext.
(* @go notification-service/internal/platform/correlation/correlation.go Acceptable *)
Definition notification_Acceptable : string → string := Acceptable.
(* @go notification-service/internal/platform/correlation/correlation.go WithRequestID *)
Definition notification_WithRequestID : Context → string → Context := WithRequestID.
(* @go notification-service/internal/platform/correlation/correlation.go FromContext *)
Definition notification_FromContext : Context → string := FromContext.

End service_correlation.

(** ** encoding/hex *)
Definition hex_digit (n : N) : ascii :=
  match String.get (N.to_nat n) "0123456789abcdef" with Some a => a | None => "0"%char end.
Fixpoint hex_EncodeToString (bytes : list N) : string :=
  match bytes with
  | [] => ""
  | b :: bs => String.String (hex_digit ((b / 16) mod 16))
                 (String.String (hex_digit (b mod 16)) (hex_EncodeToString bs))
  end.

Module middleware.
Import correlation.

(* @go order-service/internal/order/adapter/inbound/httpgin/middleware/request_id.go generatedRequestIDBytes *)
Definition generatedRequestIDBytes : nat := 16.

(** [buffer] is what [crypto/rand.Read] filled in. *)
(* @go order-service/internal/order/adapter/inbound/httpgin/middleware/request_id.go generateRequestID *)
Definition generateRequestID (buffer : list N) : string := hex_EncodeToString buffer.

(** The header set on the response and the context of the request. *)
(* @go order-service/internal/order/adapter/inbound/httpgin/middleware/request_id.go RequestID *)
Definition RequestID (buffer : list N) (header : string) : string * Context :=
  let requestID := Acceptable header in
  let requestID := if bool_decide (requestID = "") then generateRequestID buffer else requestID in
  (requestID, WithRequestID Background requestID).

End middleware.

Module inventorygrpc_correlation.
Import correlation.

(** The outgoing call metadata: values appended under the key. *)
(* @go order-service/internal/order/adapter/outbound/inventorygrpc/correlation.go Correlation *)
Definition inventorygrpc_Correlation (ctx : Context) (metadata : list string) : list string :=
  let requestID := FromContext ctx in
  if bool_decide (requestID = "") then metadata else metadata ++ [requestID].

End inventorygrpc_correlation.

Module grpcapi_correlation.
Import correlation.

(** [None] is a call without metadata. *)
(* @go inventory-service/internal/inventory/adapter/inbound/grpcapi/correlation.go Correlation *)
Definition grpcapi_Correlation (ctx : Context) (incoming : option (list string)) : Context :=
  match incoming with
  | None => ctx
  | Some values =>
      match values with
      | [] => ctx
      | value :: _ =>
          let requestID := service_correlation.inventory_Acceptable value in
          if bool_decide (requestID = "") then ctx
          else service_correlation.inventory_WithRequestID ctx requestID
      end
  end.

End grpcapi_correlation.

(** ** Lemmas *)
Import correlation.

Lemma Acceptable_cases s : Acceptable s = "" ∨ Acceptable s = s.
Proof. unfold Acceptable. repeat case_match; auto. Qed.

Lemma Acceptable_idemp s : Acceptable (Acceptable s) = Acceptable s.
Proof. destruct (Acceptable_cases s) as [H|H]; rewrite H; [done|exact H]. Qed.

(** What passes the filter is bounded and made of harmless characters. *)
Lemma Acceptable_spec s :
  Acceptable s ≠ "" ↔
  s ≠ "" ∧ (String.length s ≤ MaxLength)%nat
  ∧ Forall (λ a, acceptable_char a = true) (String.list_ascii_of_string s).
Proof.
  unfold Acceptable. rewrite Forall_forall.
  destruct (forallb _ _) eqn:Hall.
  - rewrite forallb_forall in Hall. setoid_rewrite <-list_elem_of_In in Hall.
    repeat case_match; reflect_bools; split; intros; destruct_and?; try done.
    + destruct H; reflect_bools; [done|lia].
    + split_and!; [done|lia|done].
  - split; [by repeat case_match|]. intros (_ & _ & HF).
    assert (forallb acceptable_char (String.list_ascii_of_string s) = true); [|congruence].
    apply forallb_forall. intros x Hx. by apply HF, list_elem_of_In.
Qed.

Lemma hex_digit_acceptable n : (n < 16)%N → acceptable_char (hex_digit n) = true.
Proof.
  intros Hn. assert (∃ k, n = N.of_nat k ∧ (k < 16)%nat) as (k & -> & Hk).
  { exists (N.to_nat n). lia. }
  do 16 (destruct k as [|k]; [reflexivity|]). lia.
Qed.

Lemma hex_length bytes : String.length (hex_EncodeToString bytes) = (2 * length bytes)%nat.
Proof. induction bytes as [|b bs IH]; cbn; [done|]. rewrite IH. lia. Qed.

Lemma hex_acceptable bytes :
  Forall (λ a, acceptable_char a = true)
    (String.list_ascii_of_string (hex_EncodeToString bytes)).
Proof.
  induction bytes as [|b bs IH]; cbn; [constructor|].
  repeat constructor; [..|done]; apply hex_digit_acceptable; by apply N.mod_lt.
Qed.

Lemma generateRequestID_acceptable buffer :
  length buffer = middleware.generatedRequestIDBytes →
  Acceptable (middleware.generateRequestID buffer) = middleware.generateRequestID buffer
  ∧ middleware.generateRequestID buffer ≠ "".
Proof.
  intros Hlen. unfold middleware.generateRequestID.
  assert (hex_EncodeToString buffer ≠ "") as Hne.
  { intros He. pose proof (hex_length buffer) as Hl. rewrite He, Hlen in Hl. done. }
  split; [|done].
  destruct (Acceptable_cases (hex_EncodeToString buffer)) as [He|He]; [exfalso|done].
  revert He. apply Acceptable_spec. split_and!; [done| |apply hex_acceptable].
  rewrite hex_length, Hlen. unfold MaxLength, middleware.generatedRequestIDBytes. lia.
Qed.

(** the request id the HTTP middleware puts in the response header is the
    one inventory's interceptor accepts and puts in its own context, whether the
    caller sent an acceptable id, an unacceptable one or none. *)
Theorem correlation_end_to_end buffer header :
  length buffer = middleware.generatedRequestIDBytes →
  let '(response, ctx) := middleware.RequestID buffer header in
  FromContext (grpcapi_correlation.grpcapi_Correlation Background
    (Some (inventorygrpc_correlation.inventorygrpc_Correlation ctx []))) = response
  ∧ response ≠ ""
  ∧ (Acceptable header = header → header ≠ "" → response = header).
Proof.
  intros Hlen. destruct (generateRequestID_acceptable buffer Hlen) as [Hg Hgne].
  unfold middleware.RequestID. case_bool_decide as He; cbn.
  - unfold inventorygrpc_correlation.inventorygrpc_Correlation, FromContext. cbn.
    rewrite bool_decide_eq_false_2 by done. cbn. unfold service_correlation.inventory_Acceptable. rewrite Hg.
    rewrite bool_decide_eq_false_2 by done. cbn. split_and!; [done..|]. congruence.
  - unfold inventorygrpc_correlation.inventorygrpc_Correlation, FromContext. cbn.
    rewrite bool_decide_eq_false_2 by done. cbn. unfold service_correlation.inventory_Acceptable.
    rewrite Acceptable_idemp.
    rewrite bool_decide_eq_false_2 by done. done.
Qed.

Lemma correlation_end_to_end_witness :
  FromContext (grpcapi_correlation.grpcapi_Correlation Background
    (Some (inventorygrpc_correlation.inventorygrpc_Correlation
       (middleware.RequestID (replicate 16 171%N) "bad id!").2 []))) =
  "abababababababababababababababab".
Proof.
  exact (proj1 (correlation_end_to_end (replicate 16 171%N) "bad id!" eq_refl)).
Defined.
