(* ===== verification/OrderErrors.v ===== *)
(** * Errors of order-service

    The sentinels and typed errors of the domain, application, inventory client
    and RabbitMQ packages, and of the standard [context] package, as the leaves
    of one error tree. *)
From S2P Require Import Prelude GoErrors GoStrings.

(* @src order-service/internal/order/domain/errors.go:5-10 var *)
Inductive domain_sentinel :=
| ErrInvalidOrder | ErrInvalidOrderItem | ErrInvalidMoney | ErrInvalidStatusTransition.

(* @src order-service/internal/order/application/errors.go:9-31 var *)
Inductive application_sentinel :=
| ErrOrderNotFound | ErrDuplicateIdempotencyKey | ErrOrderStateConflict
| ErrProductNotFound | ErrCatalogUnavailable | ErrInsufficientStock
| ErrInventoryUnavailable | ErrOutboxEmpty | ErrOutboxClaimLost
| ErrPublisherUnavailable | ErrPublicationOutcomeUnknown | ErrEventUnpublishable.

(* @src order-service/internal/platform/rabbitmq/publisher.go:31-36 var *)
Inductive rabbitmq_sentinel :=
| ErrUnavailable | ErrUnroutable | ErrRejected | ErrOutcomeUnknown.

(** [context.Canceled] and [context.DeadlineExceeded]. *)
Inductive context_sentinel := Canceled | DeadlineExceeded.

Inductive order_sentinel :=
| SDomain (s : domain_sentinel)
| SApplication (s : application_sentinel)
| SRabbitmq (s : rabbitmq_sentinel)
| SContext (s : context_sentinel)
| ErrInventoryRejectedRequest.

#[export] Instance domain_sentinel_eq_dec : EqDecision domain_sentinel.
Proof. solve_decision. Defined.
#[export] Instance application_sentinel_eq_dec : EqDecision application_sentinel.
Proof. solve_decision. Defined.
#[export] Instance rabbitmq_sentinel_eq_dec : EqDecision rabbitmq_sentinel.
Proof. solve_decision. Defined.
#[export] Instance context_sentinel_eq_dec : EqDecision context_sentinel.
Proof. solve_decision. Defined.
#[export] Instance order_sentinel_eq_dec : EqDecision order_sentinel.
Proof. solve_decision. Defined.

(* @src order-service/internal/order/application/errors.go:42-49 Shortfall *)
Record OrderShortfall := mkOrderShortfall {
  osf_ProductSKU : string;
  osf_Requested : Z;
  osf_Available : Z;
}.

(** What can stand at the bottom of an error of this service. *)
(* @src order-service/internal/order/application/errors.go:57-87 InsufficientStockError ProductNotFoundError *)
Inductive order_leaf :=
| Sentinel (s : order_sentinel)
| InsufficientStockError (Shortfalls : list OrderShortfall)
| ProductNotFoundError (ProductSKUs : list string).

Definition order_sentinel_text (s : order_sentinel) : string :=
  match s with
  | SDomain ErrInvalidOrder => "invalid order"
  | SDomain ErrInvalidOrderItem => "invalid order item"
  | SDomain ErrInvalidMoney => "invalid money"
  | SDomain ErrInvalidStatusTransition => "invalid order status transition"
  | SApplication ErrOrderNotFound => "order not found"
  | SApplication ErrDuplicateIdempotencyKey => "duplicate idempotency key"
  | SApplication ErrOrderStateConflict => "order state conflict"
  | SApplication ErrProductNotFound => "product not found"
  | SApplication ErrCatalogUnavailable => "product catalog unavailable"
  | SApplication ErrInsufficientStock => "insufficient stock"
  | SApplication ErrInventoryUnavailable => "inventory unavailable"
  | SApplication ErrOutboxEmpty => "no outbox event is due"
  | SApplication ErrOutboxClaimLost => "outbox claim lost"
  | SApplication ErrPublisherUnavailable => "event publisher unavailable"
  | SApplication ErrPublicationOutcomeUnknown => "publication outcome unknown"
  | SApplication ErrEventUnpublishable => "event cannot be published"
  | SRabbitmq ErrUnavailable => "broker unavailable"
  | SRabbitmq ErrUnroutable => "no queue was bound to receive the message"
  | SRabbitmq ErrRejected => "broker refused the message"
  | SRabbitmq ErrOutcomeUnknown => "publication outcome unknown"
  | SContext Canceled => "context canceled"
  | SContext DeadlineExceeded => "context deadline exceeded"
  | ErrInventoryRejectedRequest => "inventory rejected the request"
  end.

(* @src order-service/internal/order/application/errors.go:63-70 Error *)
Definition describe_shortfall (s : OrderShortfall) : string :=
  osf_ProductSKU s +:+ " (" +:+ Itoa (osf_Requested s) +:+ " requested, "
  +:+ Itoa (osf_Available s) +:+ " available)".

(** [Unwrap] of the typed errors, and the identity of a sentinel. *)
(* @src order-service/internal/order/application/errors.go:75-75 Unwrap *)
Definition order_leaf_is (l : order_leaf) (s : order_sentinel) : bool :=
  match l with
  | Sentinel s' => bool_decide (s' = s)
  | InsufficientStockError _ => bool_decide (SApplication ErrInsufficientStock = s)
  | ProductNotFoundError _ => bool_decide (SApplication ErrProductNotFound = s)
  end.

(* @src order-service/internal/order/application/errors.go:61-73 Error *)
Definition order_leaf_text (l : order_leaf) : string :=
  match l with
  | Sentinel s => order_sentinel_text s
  | InsufficientStockError shortfalls =>
      order_sentinel_text (SApplication ErrInsufficientStock) +:+ ": "
      +:+ strings_Join (describe_shortfall <$> shortfalls) ", "
  | ProductNotFoundError skus =>
      order_sentinel_text (SApplication ErrProductNotFound) +:+ ": "
      +:+ strings_Join skus ", "
  end.

#[export] Instance order_GoError : GoError order_leaf order_sentinel := {|
  leaf_is := order_leaf_is;
  leaf_text := order_leaf_text;
|}.

Abbreviation order_error := (error order_leaf).
Abbreviation order_result := (result order_error).

(** The sentinels as error values and as targets of [errors.Is]. *)
Definition sentinel (s : order_sentinel) : order_error := Leaf (Sentinel s).
Definition dom (s : domain_sentinel) : order_error := sentinel (SDomain s).
Definition app (s : application_sentinel) : order_error := sentinel (SApplication s).
Definition mq (s : rabbitmq_sentinel) : order_error := sentinel (SRabbitmq s).
Definition ctx_err (s : context_sentinel) : order_error := sentinel (SContext s).

Definition is_app (err : order_error) (s : application_sentinel) : bool :=
  errors_Is err (SApplication s).
Definition is_dom (err : order_error) (s : domain_sentinel) : bool :=
  errors_Is err (SDomain s).
Definition is_mq (err : order_error) (s : rabbitmq_sentinel) : bool :=
  errors_Is err (SRabbitmq s).

(** The typed-error targets of [errors.As]. *)
Definition as_InsufficientStock (l : order_leaf) : option (list OrderShortfall) :=
  match l with InsufficientStockError s => Some s | _ => None end.
Definition as_ProductNotFound (l : order_leaf) : option (list string) :=
  match l with ProductNotFoundError s => Some s | _ => None end.

Lemma as_InsufficientStock_is (err : order_error) s :
  errors_As as_InsufficientStock err = Some s → is_app err ErrInsufficientStock = true.
Proof.
  apply (errors_As_Is (L := order_leaf)).
  by intros [] ? H; cbn in H; try discriminate H.
Qed.

Lemma as_ProductNotFound_is (err : order_error) s :
  errors_As as_ProductNotFound err = Some s → is_app err ErrProductNotFound = true.
Proof.
  apply (errors_As_Is (L := order_leaf)).
  by intros [] ? H; cbn in H; try discriminate H.
Qed.
