(* ===== verification/OrderDomain.v ===== *)
(** * The order aggregate

    Package [domain] of order-service: money, order items, the status machine
    and the aggregate's constructors, transitions and validation. *)
From S2P Require Import Prelude GoErrors GoStrings External OrderErrors.

(** ** Money and order items *)

(* @go order-service/internal/order/domain/order_item.go Money *)
Record Money := mkMoney { AmountInCents : Z; Currency : string }.
#[export] Instance Money_eq_dec : EqDecision Money.
Proof. solve_decision. Defined.

(* @go order-service/internal/order/domain/order_item.go OrderItem *)
Record OrderItem := mkOrderItem { productSKU : string; quantity : Z; unitPrice : Money }.
#[export] Instance OrderItem_eq_dec : EqDecision OrderItem.
Proof. solve_decision. Defined.

(* @go order-service/internal/order/domain/order_item.go isCurrencySupported *)
Definition isCurrencySupported (currency : string) : bool :=
  bool_decide (currency = "EUR") || bool_decide (currency = "USD").

(* @go order-service/internal/order/domain/order_item.go OrderItem.validate *)
Definition validateItem (orderItem : OrderItem) : order_result unit :=
  if bool_decide (TrimSpace (productSKU orderItem) = "")
  then Err (Note (dom ErrInvalidOrderItem) "product SKU is required")
  else if (quantity orderItem <=? 0)%Z
  then Err (Note (dom ErrInvalidOrderItem) "quantity must be positive")
  else if (AmountInCents (unitPrice orderItem) <? 0)%Z
  then Err (Note (dom ErrInvalidMoney) "amount in cents cannot be negative")
  else if negb (isCurrencySupported (Currency (unitPrice orderItem)))
  then Err (Note (dom ErrInvalidMoney) "currency must be EUR or USD")
  else Ok tt.

(* @go order-service/internal/order/domain/order_item.go NewOrderItem *)
Definition NewOrderItem (sku : string) (q : Z) (price : Money) : order_result OrderItem :=
  let orderItem := mkOrderItem (TrimSpace sku) q price in
  match validateItem orderItem with
  | Err err => Err err
  | Ok _ => Ok orderItem
  end.

(** ** Status *)

(** [type Status string]: a row may carry any text. *)
Definition Status := string.
(* @go order-service/internal/order/domain/status.go StatusPending *)
Definition StatusPending : Status := "pending".
(* @go order-service/internal/order/domain/status.go StatusAccepted *)
Definition StatusAccepted : Status := "accepted".
(* @go order-service/internal/order/domain/status.go StatusRejected *)
Definition StatusRejected : Status := "rejected".
(* @go order-service/internal/order/domain/status.go StatusShipped *)
Definition StatusShipped : Status := "shipped".
(* @go order-service/internal/order/domain/status.go StatusCancelled *)
Definition StatusCancelled : Status := "cancelled".

(* @go order-service/internal/order/domain/status.go Status.isValid *)
Definition isValidStatus (status : Status) : bool :=
  bool_decide (status ∈ [StatusPending; StatusAccepted; StatusRejected; StatusShipped; StatusCancelled]).

(* @go order-service/internal/order/domain/status.go Status.canTransitionTo *)
Definition canTransitionTo (status next : Status) : bool :=
  if bool_decide (status = StatusPending)
  then bool_decide (next = StatusAccepted) || bool_decide (next = StatusRejected)
       || bool_decide (next = StatusCancelled)
  else if bool_decide (status = StatusAccepted)
  then bool_decide (next = StatusShipped) || bool_decide (next = StatusCancelled)
  else false.

(** ** The aggregate *)

(* @go order-service/internal/order/domain/order.go Order *)
Record Order := mkOrder {
  ord_id : string;
  ord_customerID : string;
  ord_customerEmail : string;
  ord_status : Status;
  ord_idempotencyKey : string;
  ord_orderItems : list OrderItem;
  ord_total : Money;
  ord_createdAt : Z;
  ord_updatedAt : Z;
}.
#[export] Instance Order_eq_dec : EqDecision Order.
Proof. solve_decision. Defined.

(** The loop of [calculateTotal], from the amount accumulated so far. The
    division is by a quantity [validateItem] has found positive. *)
(* @src order-service/internal/order/domain/order.go:204-224 calculateTotal *)
Fixpoint calculateTotal_loop (currency : string) (amountInCents : Z) (items : list OrderItem)
    : order_result Z :=
  match items with
  | [] => Ok amountInCents
  | orderItem :: items' =>
      match validateItem orderItem with
      | Err err => Err err
      | Ok _ =>
          if negb (bool_decide (Currency (unitPrice orderItem) = currency))
          then Err (Note (dom ErrInvalidMoney) "item currencies do not match")
          else
          let q := quantity orderItem in
          if (Z.quot MaxInt64 q <? AmountInCents (unitPrice orderItem))%Z
          then Err (Note (dom ErrInvalidMoney) "item total overflows int64")
          else
          let lineAmountInCents := wrap64 (AmountInCents (unitPrice orderItem) * q) in
          if (wrap64 (MaxInt64 - lineAmountInCents) <? amountInCents)%Z
          then Err (Note (dom ErrInvalidMoney) "order total overflows int64")
          else calculateTotal_loop currency (wrap64 (amountInCents + lineAmountInCents)) items'
      end
  end.

(* @go order-service/internal/order/domain/order.go calculateTotal *)
Definition calculateTotal (orderItems : list OrderItem) : order_result Money :=
  match orderItems with
  | [] => Err (Note (dom ErrInvalidOrder) "at least one item is required")
  | first :: _ =>
      let currency := Currency (unitPrice first) in
      match calculateTotal_loop currency 0 orderItems with
      | Err err => Err err
      | Ok amountInCents => Ok (mkMoney amountInCents currency)
      end
  end.

Section order.
Context `{!MailLib}.

(* @go order-service/internal/order/domain/order.go isEmailValid *)
Definition isEmailValid (email : string) : bool :=
  if negb (bool_decide (TrimSpace email = email)) || bool_decide (email = "") then false
  else match ParseAddress email with
       | None => false
       | Some address => bool_decide (address = email)
       end.

(* @go order-service/internal/order/domain/order.go Order.validate *)
Definition validateOrder (order : Order) : order_result unit :=
  if bool_decide (TrimSpace (ord_id order) = "")
  then Err (Note (dom ErrInvalidOrder) "id is required")
  else if bool_decide (TrimSpace (ord_customerID order) = "")
  then Err (Note (dom ErrInvalidOrder) "customer id is required")
  else if negb (isEmailValid (ord_customerEmail order))
  then Err (Note (dom ErrInvalidOrder) "customer email is invalid")
  else if bool_decide (TrimSpace (ord_idempotencyKey order) = "")
  then Err (Note (dom ErrInvalidOrder) "idempotency key is required")
  else if negb (isValidStatus (ord_status order))
  then Err (Note (dom ErrInvalidOrder) ("unknown status " +:+ Quote (ord_status order)))
  else if IsZero (ord_createdAt order) || IsZero (ord_updatedAt order)
          || Before (ord_updatedAt order) (ord_createdAt order)
  then Err (Note (dom ErrInvalidOrder) "timestamps are invalid")
  else
  match calculateTotal (ord_orderItems order) with
  | Err err => Err err
  | Ok calculatedTotal =>
      if negb (bool_decide (calculatedTotal = ord_total order))
      then Err (Note (dom ErrInvalidOrder) "stored total does not match order items")
      else Ok tt
  end.

(* @go order-service/internal/order/domain/order.go NewOrder *)
Definition NewOrder (id customerID email idempotencyKey : string)
    (orderItems : list OrderItem) (now : Z) : order_result Order :=
  match calculateTotal orderItems with
  | Err err => Err err
  | Ok total =>
      let order := {|
        ord_id := TrimSpace id;
        ord_customerID := TrimSpace customerID;
        ord_customerEmail := TrimSpace email;
        ord_status := StatusPending;
        ord_idempotencyKey := idempotencyKey;
        ord_orderItems := orderItems;
        ord_total := total;
        ord_createdAt := now;
        ord_updatedAt := now;
      |} in
      match validateOrder order with
      | Err err => Err err
      | Ok _ => Ok order
      end
  end.

(* @go order-service/internal/order/domain/order.go Reconstitute *)
Definition Reconstitute (id customerID email : string) (status : Status)
    (idempotencyKey : string) (orderItems : list OrderItem) (total : Money)
    (createdAt updatedAt : Z) : order_result Order :=
  let order := mkOrder id customerID email status idempotencyKey orderItems total
                 createdAt updatedAt in
  match validateOrder order with
  | Err err => Err (Wrap "reconstitute order" err)
  | Ok _ => Ok order
  end.
End order.

(** The pointer receiver mutates the order in place: the answer is the mutated
    order, or the error that left it alone. *)
(* @go order-service/internal/order/domain/order.go Order.transitionTo *)
Definition transitionTo (order : Order) (status : Status) (now : Z) : order_result Order :=
  if negb (canTransitionTo (ord_status order) status)
  then Err (Note (dom ErrInvalidStatusTransition) (ord_status order +:+ " to " +:+ status))
  else if IsZero now || Before now (ord_updatedAt order)
  then Err (Note (dom ErrInvalidOrder) "transition time is invalid")
  else Ok {|
    ord_id := ord_id order;
    ord_customerID := ord_customerID order;
    ord_customerEmail := ord_customerEmail order;
    ord_status := status;
    ord_idempotencyKey := ord_idempotencyKey order;
    ord_orderItems := ord_orderItems order;
    ord_total := ord_total order;
    ord_createdAt := ord_createdAt order;
    ord_updatedAt := now;
  |}.

(* @go order-service/internal/order/domain/order.go Order.Accept *)
Definition Accept (order : Order) (now : Z) : order_result Order :=
  transitionTo order StatusAccepted now.
(* @go order-service/internal/order/domain/order.go Order.Reject *)
Definition Reject (order : Order) (now : Z) : order_result Order :=
  transitionTo order StatusRejected now.

(** ** Money: the total is the exact sum, or an error *)

Definition line_amount (i : OrderItem) : Z := AmountInCents (unitPrice i) * quantity i.
Definition exact_total (items : list OrderItem) : Z := foldr Z.add 0%Z (line_amount <$> items).
Definition item_valid (i : OrderItem) : Prop := validateItem i = Ok tt.

Lemma validateItem_spec i :
  item_valid i ↔
  TrimSpace (productSKU i) ≠ "" ∧ (0 < quantity i)%Z ∧ (0 ≤ AmountInCents (unitPrice i))%Z
  ∧ isCurrencySupported (Currency (unitPrice i)) = true.
Proof.
  unfold item_valid, validateItem. repeat case_match; reflect_bools;
    split; intros; destruct_and?; try done; try lia; try congruence.
Qed.

Lemma item_valid_nonneg i : item_valid i → (0 ≤ line_amount i)%Z.
Proof. rewrite validateItem_spec. unfold line_amount. intros (? & ? & ? & _). nia. Qed.

Lemma exact_total_nonneg items : Forall item_valid items → (0 ≤ exact_total items)%Z.
Proof.
  unfold exact_total. induction 1 as [|i items Hi _ IH]; cbn; [lia|].
  apply item_valid_nonneg in Hi. lia.
Qed.

(** The guard by division tests the exact product. *)
Lemma quot_guard a q :
  (0 < q)%Z → (0 ≤ a)%Z → (Z.quot MaxInt64 q <? a)%Z = false ↔ (a * q ≤ MaxInt64)%Z.
Proof.
  intros Hq Ha. rewrite Z.quot_div_nonneg by (unfold MaxInt64; lia). rewrite Z.ltb_ge.
  split; intros H.
  - pose proof (Z.mul_div_le MaxInt64 q Hq). nia.
  - apply Z.div_le_lower_bound; lia.
Qed.

Lemma calculateTotal_loop_spec currency acc items t :
  (0 ≤ acc ≤ MaxInt64)%Z →
  calculateTotal_loop currency acc items = Ok t ↔
  Forall (λ i, item_valid i ∧ Currency (unitPrice i) = currency) items
  ∧ t = (acc + exact_total items)%Z ∧ (t ≤ MaxInt64)%Z.
Proof.
  revert acc. induction items as [|i items IH]; intros acc Hacc.
  - cbn. rewrite Z.add_0_r. split; [|by intros (_ & -> & _)].
    intros [= <-]. split_and!; [constructor|done|lia].
  - cbn [calculateTotal_loop]. rewrite Forall_cons. cbn [exact_total fmap list_fmap foldr].
    destruct (validateItem i) as [[]|e] eqn:Hv; [|split; [done|]].
    2: { unfold item_valid. rewrite Hv. by intros [[[? ?] ?] ?]. }
    assert (item_valid i) as Hval by done.
    apply validateItem_spec in Hv as (_ & Hq0 & Hp0 & _).
    case_bool_decide as Hc; cbn; [|split; [done|naive_solver]].
    pose proof (quot_guard _ _ Hq0 Hp0) as Hguard. fold (line_amount i) in *.
    pose proof (item_valid_nonneg i Hval) as Hline.
    destruct (Z.quot _ _ <? _)%Z.
    + assert (¬ (line_amount i ≤ MaxInt64)%Z) by (intros H; by apply Hguard in H).
      split; [done|]. intros ([_ Hf] & -> & ?).
      assert (0 ≤ exact_total items)%Z by (eapply exact_total_nonneg, Forall_impl; [done|naive_solver]).
      unfold exact_total in *. lia.
    + destruct Hguard as [Hle _]. specialize (Hle eq_refl).
      rewrite (wrap64_id (line_amount i)) by (int_unfold; lia).
      rewrite (wrap64_id (MaxInt64 - line_amount i)) by (int_unfold; lia).
      destruct (_ <? acc)%Z eqn:Hover; reflect_bools.
      * split; [done|]. intros ([_ Hf] & -> & ?).
        assert (0 ≤ exact_total items)%Z by (eapply exact_total_nonneg, Forall_impl; [done|naive_solver]).
        unfold exact_total in *. lia.
      * rewrite wrap64_id by (int_unfold; lia).
        rewrite IH by lia. unfold exact_total. rewrite Z.add_assoc. naive_solver.
Qed.

(** C24: [calculateTotal] succeeds exactly when there is at least one item, every
    item is valid, all carry the first item's currency and the exact sum of
    price times quantity fits an int64; the amount is then that sum, so no
    intermediate product or addition ever wraps. *)
Theorem calculateTotal_exact items m :
  calculateTotal items = Ok m ↔
  ∃ first rest, items = first :: rest
    ∧ Forall (λ i, item_valid i ∧ Currency (unitPrice i) = Currency (unitPrice first)) items
    ∧ m = mkMoney (exact_total items) (Currency (unitPrice first))
    ∧ (exact_total items ≤ MaxInt64)%Z.
Proof.
  destruct items as [|first rest]; cbn [calculateTotal]; [naive_solver|].
  pose proof (λ t, calculateTotal_loop_spec (Currency (unitPrice first)) 0 (first :: rest) t) as Hspec.
  specialize (λ t, Hspec t ltac:(unfold MaxInt64; lia)).
  setoid_rewrite Z.add_0_l in Hspec.
  destruct (calculateTotal_loop _ _ _) as [t|e].
  - destruct (Hspec t) as [Ht _]. destruct (Ht eq_refl) as (Hf & -> & Hmax).
    split; [intros [= <-]; by eexists _, _|]. by intros (? & ? & [= <- <-] & _ & -> & _).
  - split; [done|]. intros (? & ? & [= <- <-] & Hf & -> & Hmax).
    destruct (Hspec (exact_total (first :: rest))) as [_ H]. by specialize (H (conj Hf (conj eq_refl Hmax))).
Qed.

Lemma calculateTotal_exact_witness :
  let items := [mkOrderItem "SKU-B" 1 (mkMoney 500 "EUR"); mkOrderItem "SKU-A" 2 (mkMoney 1250 "EUR")] in
  calculateTotal items = Ok (mkMoney 3000 "EUR")
  ∧ (calculateTotal (items ++ [mkOrderItem "SKU-C" 1 (mkMoney MaxInt64 "EUR")])
     = Ok (mkMoney (3000 + MaxInt64) "EUR") → False).
Proof.
  split.
  - apply (calculateTotal_exact
      [mkOrderItem "SKU-B" 1 (mkMoney 500 "EUR"); mkOrderItem "SKU-A" 2 (mkMoney 1250 "EUR")]).
    do 2 eexists. split_and!; [reflexivity| |reflexivity|vm_compute; discriminate].
    repeat constructor.
  - intros H. apply (calculateTotal_exact
      [mkOrderItem "SKU-B" 1 (mkMoney 500 "EUR"); mkOrderItem "SKU-A" 2 (mkMoney 1250 "EUR");
       mkOrderItem "SKU-C" 1 (mkMoney MaxInt64 "EUR")]) in H.
    destruct H as (? & ? & _ & _ & _ & H). vm_compute in H. by apply H.
Defined.

(** ** The aggregate's invariant *)
Section order_facts.
Context `{!MailLib}.

Definition order_valid (o : Order) : Prop := validateOrder o = Ok tt.

Lemma validateOrder_spec o :
  order_valid o ↔
  TrimSpace (ord_id o) ≠ "" ∧ TrimSpace (ord_customerID o) ≠ ""
  ∧ isEmailValid (ord_customerEmail o) = true
  ∧ TrimSpace (ord_idempotencyKey o) ≠ "" ∧ isValidStatus (ord_status o) = true
  ∧ ord_createdAt o ≠ 0%Z ∧ ord_updatedAt o ≠ 0%Z
  ∧ (ord_createdAt o ≤ ord_updatedAt o)%Z
  ∧ calculateTotal (ord_orderItems o) = Ok (ord_total o).
Proof.
  unfold order_valid, validateOrder, IsZero, Before.
  repeat (case_bool_decide; cbn; [split; [done|tauto]|]).
  destruct (isEmailValid _); cbn; [|split; [done|naive_solver]].
  case_bool_decide; cbn; [split; [done|tauto]|].
  destruct (isValidStatus _); cbn; [|split; [done|naive_solver]].
  repeat (case_bool_decide; cbn; [split; [done|tauto]|]).
  destruct (_ <? _)%Z eqn:Hlt; cbn; reflect_bools; [split; [done|lia]|].
  destruct (calculateTotal _) as [t|e]; [|split; [done|naive_solver]].
  case_bool_decide as Ht; cbn; [subst|split; [done|naive_solver]].
  split; [|done]. intros _. split_and!; done || lia.
Qed.

Lemma order_valid_total o :
  order_valid o →
  isCurrencySupported (Currency (ord_total o)) = true ∧ (0 ≤ AmountInCents (ord_total o))%Z
  ∧ ord_orderItems o ≠ [] ∧ Forall item_valid (ord_orderItems o).
Proof.
  intros (_ & _ & _ & _ & _ & _ & _ & _ & Ht)%validateOrder_spec.
  destruct (ord_orderItems o) as [|i items]; [done|]. cbn [calculateTotal] in Ht.
  destruct (calculateTotal_loop _ _ _) as [t|] eqn:Hl; [|done]. injection Ht as <-. cbn.
  apply calculateTotal_loop_spec in Hl as (Hf & -> & _); [|unfold MaxInt64; lia].
  assert (Forall item_valid (i :: items)) as Hv by (eapply Forall_impl; [exact Hf|naive_solver]).
  split_and!; [|apply exact_total_nonneg in Hv; lia|done|done].
  apply Forall_cons in Hv as [(_ & _ & _ & Hc)%validateItem_spec _]. done.
Qed.

Lemma NewOrder_ok id customerID email key items now o :
  NewOrder id customerID email key items now = Ok o ↔
  ∃ total, calculateTotal items = Ok total
    ∧ TrimSpace id ≠ "" ∧ TrimSpace customerID ≠ ""
    ∧ isEmailValid (TrimSpace email) = true ∧ TrimSpace key ≠ "" ∧ now ≠ 0%Z
    ∧ o = mkOrder (TrimSpace id) (TrimSpace customerID) (TrimSpace email) StatusPending
            key items total now now
    ∧ order_valid o.
Proof.
  unfold NewOrder. destruct (calculateTotal items) as [total|e] eqn:Ht; [|naive_solver].
  set (o' := mkOrder _ _ _ _ _ _ _ _ _).
  pose proof (validateOrder_spec o') as Hv. unfold order_valid in *. cbn in Hv.
  rewrite !TrimSpace_idemp in Hv. destruct (validateOrder o') as [[]|e] eqn:Hvo.
  - split; [|by intros (? & [= <-] & ? & ? & ? & ? & ? & -> & ?)].
    intros [= <-]. destruct Hv as [Hv _]. destruct (Hv eq_refl) as (? & ? & ? & ? & _ & ? & _).
    by exists total.
  - split; [done|]. intros (? & [= <-] & ? & ? & ? & ? & ? & -> & Hval).
    unfold o' in Hvo. congruence.
Qed.

(** [NewOrder] succeeds exactly when the items total, the trimmed ids are
    not empty, the trimmed email is valid, the key is not blank and the clock is
    set; the order is then pending, keeps the item order, is stamped [now] twice
    and satisfies the aggregate's invariant. *)
Theorem NewOrder_spec id customerID email key items now o :
  NewOrder id customerID email key items now = Ok o ↔
  ∃ total, calculateTotal items = Ok total
    ∧ TrimSpace id ≠ "" ∧ TrimSpace customerID ≠ ""
    ∧ isEmailValid (TrimSpace email) = true ∧ TrimSpace key ≠ "" ∧ now ≠ 0%Z
    ∧ o = mkOrder (TrimSpace id) (TrimSpace customerID) (TrimSpace email) StatusPending
            key items total now now
    ∧ order_valid o.
Proof. exact (NewOrder_ok id customerID email key items now o). Qed.

Lemma Reconstitute_ok id cid email st key items total c u o :
  Reconstitute id cid email st key items total c u = Ok o ↔
  o = mkOrder id cid email st key items total c u ∧ order_valid o.
Proof.
  unfold Reconstitute, order_valid. destruct (validateOrder _) as [[]|e] eqn:Hv.
  - split; [by intros [= <-]|by intros [-> _]].
  - split; [done|]. intros [-> Hv']. congruence.
Qed.

(** ** The status machine *)

Lemma transitionTo_ok o st now o' :
  transitionTo o st now = Ok o' ↔
  canTransitionTo (ord_status o) st = true ∧ now ≠ 0%Z ∧ (ord_updatedAt o ≤ now)%Z
  ∧ o' = mkOrder (ord_id o) (ord_customerID o) (ord_customerEmail o) st
           (ord_idempotencyKey o) (ord_orderItems o) (ord_total o) (ord_createdAt o) now.
Proof.
  unfold transitionTo, IsZero, Before. destruct (canTransitionTo _ _); cbn; [|naive_solver].
  case_bool_decide; cbn; [naive_solver|].
  destruct (_ <? _)%Z eqn:Hlt; reflect_bools; [split; [done|lia]|]. naive_solver.
Qed.

Lemma canTransitionTo_cases st next :
  canTransitionTo st next = true →
  (st = StatusPending ∧ (next = StatusAccepted ∨ next = StatusRejected ∨ next = StatusCancelled))
  ∨ (st = StatusAccepted ∧ (next = StatusShipped ∨ next = StatusCancelled)).
Proof.
  unfold canTransitionTo. repeat case_bool_decide; subst; cbn; tauto || done.
Qed.

(** One successful transition of an order. *)
Definition order_step (o o' : Order) : Prop := ∃ st now, transitionTo o st now = Ok o'.

(** How many transitions a status is from the end of its life, at most. *)
Definition status_rank (st : Status) : nat :=
  if bool_decide (st = StatusPending) then 2
  else if bool_decide (st = StatusAccepted) then 1 else 0.

Lemma order_step_rank o o' :
  order_step o o' → (status_rank (ord_status o') < status_rank (ord_status o))%nat.
Proof.
  intros (st & now & (Hc & _ & _ & ->)%transitionTo_ok). cbn.
  apply canTransitionTo_cases in Hc. unfold status_rank.
  destruct Hc as [[-> [-> | [-> | ->]]]|[-> [-> | ->]]]; vm_compute; lia.
Qed.

Lemma order_step_valid o o' :
  order_valid o → order_step o o' →
  order_valid o' ∧ ord_id o' = ord_id o ∧ ord_orderItems o' = ord_orderItems o
  ∧ ord_total o' = ord_total o ∧ ord_idempotencyKey o' = ord_idempotencyKey o
  ∧ ord_createdAt o' = ord_createdAt o ∧ (ord_updatedAt o ≤ ord_updatedAt o')%Z.
Proof.
  intros Hv (st & now & (Hc & Hz & Hle & ->)%transitionTo_ok). cbn. split_and!; try done.
  apply validateOrder_spec in Hv as (? & ? & ? & ? & _ & ? & ? & ? & ?).
  apply validateOrder_spec. cbn. split_and!; try done; [|lia].
  apply canTransitionTo_cases in Hc as [[_ [-> | [-> | ->]]]|[_ [-> | ->]]]; reflexivity.
Qed.

(** C17: along any sequence of successful transitions a valid order stays valid,
    keeps its identity, items and total, never moves back in time, and takes at
    most two transitions, none of them out of rejected, shipped or cancelled. *)
Theorem order_lifecycle n o o' :
  order_valid o → nsteps order_step n o o' →
  order_valid o' ∧ ord_id o' = ord_id o ∧ ord_orderItems o' = ord_orderItems o
  ∧ ord_total o' = ord_total o ∧ (ord_updatedAt o ≤ ord_updatedAt o')%Z
  ∧ (n + status_rank (ord_status o') ≤ status_rank (ord_status o))%nat ∧ (n ≤ 2)%nat
  ∧ (ord_status o ∈ [StatusRejected; StatusShipped; StatusCancelled] → n = 0%nat ∧ o' = o).
Proof.
  intros Hv Hn.
  assert (order_valid o' ∧ ord_id o' = ord_id o ∧ ord_orderItems o' = ord_orderItems o
    ∧ ord_total o' = ord_total o ∧ (ord_updatedAt o ≤ ord_updatedAt o')%Z
    ∧ (n + status_rank (ord_status o') ≤ status_rank (ord_status o))%nat) as Hmain.
  { induction Hn as [o|n o o1 o' Hs _ IH]; [split_and!; done || lia|].
    destruct (order_step_valid _ _ Hv Hs) as (Hv1 & E1 & E2 & E3 & _ & _ & ?).
    destruct (IH Hv1) as (? & ? & ? & ? & ? & ?). pose proof (order_step_rank _ _ Hs).
    split_and!; [done|congruence..|lia|lia]. }
  destruct_and! Hmain. assert (status_rank (ord_status o) ≤ 2)%nat.
  { unfold status_rank. repeat case_bool_decide; lia. }
  split_and!; try done; [lia|]. intros Hfin.
  assert (status_rank (ord_status o) = 0%nat).
  { revert Hfin. rewrite !elem_of_cons, elem_of_nil. intros [-> |[-> |[-> |[]]]]; reflexivity. }
  assert (n = 0%nat) as -> by lia. by inversion Hn.
Qed.
End order_facts.

(** Witnesses: one order through its life. *)
Definition sample_items : list OrderItem :=
  [mkOrderItem "SKU-A" 2 (mkMoney 1250 "EUR"); mkOrderItem "SKU-B" 1 (mkMoney 500 "EUR")].
Definition sample_order : Order :=
  mkOrder "o-1" "c-1" "a@b.example" StatusPending "key-1" sample_items (mkMoney 3000 "EUR") 10 10.

Lemma NewOrder_spec_witness :
  NewOrder "o-1 " "c-1" "a@b.example" "key-1" sample_items 10 = Ok sample_order.
Proof.
  apply (NewOrder_spec "o-1 " "c-1" "a@b.example" "key-1" sample_items 10 sample_order).
  exists (mkMoney 3000 "EUR"). split_and!; try reflexivity; vm_compute; discriminate.
Defined.

Lemma order_lifecycle_witness :
  ∃ o', order_valid o' ∧ ord_status o' = StatusShipped.
Proof.
  exists (mkOrder "o-1" "c-1" "a@b.example" StatusShipped "key-1" sample_items (mkMoney 3000 "EUR") 10 30).
  split; [|reflexivity].
  eapply (order_lifecycle 2 sample_order); [reflexivity|].
  eapply nsteps_l; [exists StatusAccepted, 20%Z; reflexivity|].
  eapply nsteps_l; [exists StatusShipped, 30%Z; reflexivity|]. apply nsteps_O.
Defined.
