(* ===== verification/OrderHeap.v ===== *)
(** * Orders in memory

    An order is an object the rest of the program holds a pointer to, and its items are a
    slice. The other files treat orders as values; here is why they may: the items an order
    is built from are cloned, and so are those it hands out, so that no write through a
    slice the rest of the program holds reaches into an order. *)
From S2P Require Import Prelude GoErrors GoStrings External OrderErrors OrderDomain.

(** ** Memory *)

#[local] Abbreviation keys := (stdpp.base.dom (D := gset nat)).

(** A window of a backing array. *)
Record slice := mkSlice { sl_array : nat; sl_from : nat; sl_len : nat }.

Record OrderObject := mkOrderObject {
  obj_id : string;
  obj_customerID : string;
  obj_customerEmail : string;
  obj_status : Status;
  obj_idempotencyKey : string;
  obj_orderItems : option slice;
  obj_total : Money;
  obj_createdAt : Z;
  obj_updatedAt : Z;
}.

Record heap := mkHeap {
  hp_arrays : gmap nat (list OrderItem);
  hp_orders : gmap nat OrderObject;
}.
Definition with_array (a : nat) (l : list OrderItem) (h : heap) : heap :=
  mkHeap (<[a := l]> (hp_arrays h)) (hp_orders h).
Definition with_order (o : nat) (obj : OrderObject) (h : heap) : heap :=
  mkHeap (hp_arrays h) (<[o := obj]> (hp_orders h)).

(** The elements of a slice; [None] is the nil slice. *)
Definition contents (h : heap) (s : option slice) : list OrderItem :=
  match s with
  | None => []
  | Some s => take (sl_len s) (drop (sl_from s) (default [] (hp_arrays h !! sl_array s)))
  end.

(** [slices.Clone]: a new array, unless there is nothing to copy. *)
Definition Clone (s : option slice) (h : heap) : option slice * heap :=
  match s with
  | None => (None, h)
  | Some w =>
      match contents h s with
      | [] => (Some (mkSlice (sl_array w) (sl_from w) 0), h)
      | l => let a := fresh (keys (hp_arrays h)) in (Some (mkSlice a 0 (length l)), with_array a l h)
      end
  end.

(** What a caller reads of an order through its getters. *)
(* @src order-service/internal/order/domain/order.go:103-137 Order *)
Definition heap_view (h : heap) (obj : OrderObject) : Order := {|
  ord_id := obj_id obj;
  ord_customerID := obj_customerID obj;
  ord_customerEmail := obj_customerEmail obj;
  ord_status := obj_status obj;
  ord_idempotencyKey := obj_idempotencyKey obj;
  ord_orderItems := contents h (obj_orderItems obj);
  ord_total := obj_total obj;
  ord_createdAt := obj_createdAt obj;
  ord_updatedAt := obj_updatedAt obj;
|}.
Definition orders (h : heap) : gmap nat Order := heap_view h <$> hp_orders h.

(** ** The operations on the heap *)
Section ops.
Context `{!MailLib}.

Definition alloc_order (obj : OrderObject) (h : heap) : nat * heap :=
  let o := fresh (keys (hp_orders h)) in (o, with_order o obj h).

(* @go order-service/internal/order/domain/order.go NewOrder *)
Definition heap_NewOrder (id customerID email idempotencyKey : string) (orderItems : option slice)
    (now : Z) (h : heap) : order_result nat * heap :=
  match calculateTotal (contents h orderItems) with
  | Err err => (Err err, h)
  | Ok total =>
      let '(cloned, h) := Clone orderItems h in
      let order := {|
        obj_id := TrimSpace id;
        obj_customerID := TrimSpace customerID;
        obj_customerEmail := TrimSpace email;
        obj_status := StatusPending;
        obj_idempotencyKey := idempotencyKey;
        obj_orderItems := cloned;
        obj_total := total;
        obj_createdAt := now;
        obj_updatedAt := now;
      |} in
      match validateOrder (heap_view h order) with
      | Err err => (Err err, h)
      | Ok _ => let '(o, h) := alloc_order order h in (Ok o, h)
      end
  end.

(* @go order-service/internal/order/domain/order.go Reconstitute *)
Definition heap_Reconstitute (id customerID email : string) (status : Status) (idempotencyKey : string)
    (orderItems : option slice) (total : Money) (createdAt updatedAt : Z) (h : heap)
    : order_result nat * heap :=
  let '(cloned, h) := Clone orderItems h in
  let order := mkOrderObject id customerID email status idempotencyKey cloned total createdAt updatedAt in
  match validateOrder (heap_view h order) with
  | Err err => (Err (Wrap "reconstitute order" err), h)
  | Ok _ => let '(o, h) := alloc_order order h in (Ok o, h)
  end.

(* @go order-service/internal/order/domain/order.go Order.OrderItems *)
Definition heap_OrderItems (obj : OrderObject) (h : heap) : option slice * heap :=
  Clone (obj_orderItems obj) h.

(* @go order-service/internal/order/domain/order.go Order.transitionTo *)
Definition heap_transitionTo (o : nat) (order : OrderObject) (status : Status) (now : Z) (h : heap)
    : order_result unit * heap :=
  if negb (canTransitionTo (obj_status order) status)
  then (Err (Note (dom ErrInvalidStatusTransition) (obj_status order +:+ " to " +:+ status)), h)
  else if IsZero now || Before now (obj_updatedAt order)
  then (Err (Note (dom ErrInvalidOrder) "transition time is invalid"), h)
  else (Ok tt, with_order o (mkOrderObject (obj_id order) (obj_customerID order) (obj_customerEmail order)
          status (obj_idempotencyKey order) (obj_orderItems order) (obj_total order)
          (obj_createdAt order) now) h).

(** ** The rest of the program

    Code outside the package has pointers to orders and the arrays it made or was given by
    [OrderItems]; it may write to those arrays through any window of them. *)
Record program := mkProgram { pg_heap : heap; pg_reach : gset nat }.

Inductive client_op :=
| MakeItems (l : list OrderItem)
| SetItem (s : slice) (i : nat) (item : OrderItem)
| CallNewOrder (id customerID email key : string) (items : option slice) (now : Z)
| CallReconstitute (id customerID email : string) (status : Status) (key : string)
    (items : option slice) (total : Money) (createdAt updatedAt : Z)
| CallAccept (o : nat) (now : Z)
| CallReject (o : nat) (now : Z)
| CallOrderItems (o : nat).

(** A slice the program may have. *)
Definition within_reach (p : program) (s : option slice) : bool :=
  match s with
  | None => true
  | Some w => bool_decide (sl_array w ∈ pg_reach p)
      && bool_decide (sl_from w + sl_len w ≤ length (default [] (hp_arrays (pg_heap p) !! sl_array w)))%nat
  end.
Definition arrays_of (s : option slice) : gset nat :=
  match s with Some w => {[ sl_array w ]} | None => ∅ end.

(** One operation of the program, if it is able to do it. *)
Definition do_op (p : program) (op : client_op) : option program :=
  let h := pg_heap p in
  match op with
  | MakeItems l =>
      let a := fresh (keys (hp_arrays h)) in Some (mkProgram (with_array a l h) ({[ a ]} ∪ pg_reach p))
  | SetItem s i item =>
      if within_reach p (Some s) && bool_decide (i < sl_len s)%nat
      then Some (mkProgram (with_array (sl_array s)
             (<[(sl_from s + i)%nat := item]> (default [] (hp_arrays h !! sl_array s))) h) (pg_reach p))
      else None
  | CallNewOrder id customerID email key items now =>
      if within_reach p items
      then Some (mkProgram (heap_NewOrder id customerID email key items now h).2 (pg_reach p)) else None
  | CallReconstitute id customerID email status key items total createdAt updatedAt =>
      if within_reach p items
      then Some (mkProgram (heap_Reconstitute id customerID email status key items total createdAt updatedAt h).2
             (pg_reach p)) else None
  | CallAccept o now =>
      obj ← hp_orders h !! o; Some (mkProgram (heap_transitionTo o obj StatusAccepted now h).2 (pg_reach p))
  | CallReject o now =>
      obj ← hp_orders h !! o; Some (mkProgram (heap_transitionTo o obj StatusRejected now h).2 (pg_reach p))
  | CallOrderItems o =>
      obj ← hp_orders h !! o;
      let '(s, h) := heap_OrderItems obj h in Some (mkProgram h (arrays_of s ∪ pg_reach p))
  end.
Fixpoint do_ops (p : program) (ops : list client_op) : option program :=
  match ops with [] => Some p | op :: ops => p ← do_op p op; do_ops p ops end.
Definition fresh_program : program := mkProgram (mkHeap ∅ ∅) ∅.

(** What the operation does to the orders as values: those of the other files. *)
Definition added (r : order_result Order) (m m' : gmap nat Order) : Prop :=
  match r with Ok v => ∃ o, m !! o = None ∧ m' = <[o := v]> m | Err _ => m' = m end.
Definition moved (o : nat) (f : Order → order_result Order) (m m' : gmap nat Order) : Prop :=
  ∃ v, m !! o = Some v ∧ m' = match f v with Ok v' => <[o := v']> m | Err _ => m end.
Definition value_step (h : heap) (op : client_op) (m m' : gmap nat Order) : Prop :=
  match op with
  | MakeItems _ | SetItem _ _ _ | CallOrderItems _ => m' = m
  | CallNewOrder id customerID email key items now =>
      added (NewOrder id customerID email key (contents h items) now) m m'
  | CallReconstitute id customerID email status key items total createdAt updatedAt =>
      added (Reconstitute id customerID email status key (contents h items) total createdAt updatedAt) m m'
  | CallAccept o now => moved o (λ v, Accept v now) m m'
  | CallReject o now => moved o (λ v, Reject v now) m m'
  end.

(** ** Ownership *)

(** An order's items are in an array of its own. *)
Definition owns (p : program) (obj : OrderObject) : Prop :=
  order_valid (heap_view (pg_heap p) obj)
  ∧ ∃ w, obj_orderItems obj = Some w ∧ sl_array w ∈ keys (hp_arrays (pg_heap p)) ∧ sl_array w ∉ pg_reach p.
Definition owned (p : program) : Prop :=
  pg_reach p ⊆ keys (hp_arrays (pg_heap p))
  ∧ ∀ o obj, hp_orders (pg_heap p) !! o = Some obj → owns p obj.

Lemma contents_with_array h a l s :
  (∀ w, s = Some w → sl_array w ≠ a) → contents (with_array a l h) s = contents h s.
Proof.
  destruct s as [w|]; [|done]. intros Hne. cbn. by rewrite lookup_insert_ne by (apply not_eq_sym; by apply Hne).
Qed.
Lemma orders_with_array h a l :
  (∀ o obj w, hp_orders h !! o = Some obj → obj_orderItems obj = Some w → sl_array w ≠ a) →
  orders (with_array a l h) = orders h.
Proof.
  intros Hne. apply map_fmap_ext. intros o obj Ho. unfold heap_view. f_equal.
  apply contents_with_array. intros w Hw. by eapply Hne.
Qed.

(** Writing an array no order has leaves every order as it was and owned. *)
Lemma owned_with_array p a l reach :
  owned p → (∀ o obj w, hp_orders (pg_heap p) !! o = Some obj → obj_orderItems obj = Some w → sl_array w ≠ a) →
  reach ⊆ {[ a ]} ∪ pg_reach p →
  owned (mkProgram (with_array a l (pg_heap p)) reach)
  ∧ orders (with_array a l (pg_heap p)) = orders (pg_heap p).
Proof.
  intros [Hreach Hown] Hne Hsub. split; [split|by apply orders_with_array].
  - cbn. rewrite dom_insert_L. set_solver.
  - intros o obj Ho. destruct (Hown o obj Ho) as (Hv & w & Hw & Hdom & Hnot). split.
    + cbn. unfold heap_view in *. cbn in *. rewrite contents_with_array; [done|]. intros w' Hw'. by eapply Hne.
    + exists w. cbn. rewrite dom_insert_L. pose proof (Hne o obj w Ho Hw). set_solver.
Qed.
Lemma owned_fresh p :
  owned p →
  ∀ o obj w, hp_orders (pg_heap p) !! o = Some obj → obj_orderItems obj = Some w →
    sl_array w ≠ fresh (keys (hp_arrays (pg_heap p))).
Proof.
  intros [_ Hown] o obj w Ho Hw Heq. destruct (Hown o obj Ho) as (_ & w' & Hw' & Hdom & _).
  assert (w' = w) as -> by congruence. rewrite Heq in Hdom. by apply is_fresh in Hdom.
Qed.

Lemma Clone_some h s :
  contents h s ≠ [] →
  Clone s h = (Some (mkSlice (fresh (keys (hp_arrays h))) 0 (length (contents h s))),
               with_array (fresh (keys (hp_arrays h))) (contents h s) h).
Proof. destruct s as [w|]; [|done]. unfold Clone. by destruct (contents h (Some w)). Qed.
Lemma Clone_none h s : contents h s = [] → (Clone s h).2 = h ∧ contents h (Clone s h).1 = [].
Proof.
  destruct s as [w|]; [|done]. unfold Clone. intros ->. split; [done|]. cbn. by rewrite take_0.
Qed.
Lemma contents_new h a l : contents (with_array a l h) (Some (mkSlice a 0 (length l))) = l.
Proof. cbn. by rewrite lookup_insert_eq, drop_0, firstn_all. Qed.
Lemma orders_with_order o obj h : orders (with_order o obj h) = <[o := heap_view h obj]> (orders h).
Proof. unfold orders. cbn. by rewrite fmap_insert. Qed.
Lemma valid_items v : order_valid v → ord_orderItems v ≠ [].
Proof. intros Hv Hnil. apply validateOrder_spec in Hv. rewrite Hnil in Hv. naive_solver. Qed.

(** A constructor of the heap does as [r], what the constructor of values answers. *)
Definition builds (h : heap) (items : option slice) (r : order_result Order) (hr : order_result nat * heap)
    : Prop :=
  let l := contents h items in
  let a := fresh (keys (hp_arrays h)) in
  match r with
  | Err err => hr.1 = Err err ∧ (hr.2 = h ∨ hr.2 = with_array a l h)
  | Ok v => order_valid v ∧ ∃ obj, heap_view (with_array a l h) obj = v
      ∧ obj_orderItems obj = Some (mkSlice a 0 (length l))
      ∧ hr = (Ok (fresh (keys (hp_orders h))), with_order (fresh (keys (hp_orders h))) obj (with_array a l h))
  end.

Lemma heap_NewOrder_builds id customerID email key items now h :
  builds h items (NewOrder id customerID email key (contents h items) now)
    (heap_NewOrder id customerID email key items now h).
Proof.
  unfold builds, NewOrder, heap_NewOrder. destruct (calculateTotal (contents h items)) as [total|err] eqn:Ht;
    [|by split; [|left]].
  assert (contents h items ≠ []) as Hne by (intros Hnil; by rewrite Hnil in Ht).
  rewrite (Clone_some _ _ Hne). unfold heap_view. cbn [obj_id obj_customerID obj_customerEmail obj_status
    obj_idempotencyKey obj_orderItems obj_total obj_createdAt obj_updatedAt]. rewrite contents_new.
  destruct (validateOrder _) as [[]|err] eqn:Hv; [|by split; [|right]].
  split; [done|]. exists (mkOrderObject (TrimSpace id) (TrimSpace customerID) (TrimSpace email) StatusPending key
    (Some (mkSlice (fresh (keys (hp_arrays h))) 0 (length (contents h items)))) total now now).
  split; [|done]. unfold heap_view. cbn [obj_orderItems]. by rewrite contents_new.
Qed.
Lemma heap_Reconstitute_builds id customerID email status key items total createdAt updatedAt h :
  builds h items (Reconstitute id customerID email status key (contents h items) total createdAt updatedAt)
    (heap_Reconstitute id customerID email status key items total createdAt updatedAt h).
Proof.
  unfold builds, Reconstitute, heap_Reconstitute.
  destruct (decide (contents h items = [])) as [Hnil|Hne].
  - destruct (Clone_none _ _ Hnil) as [Hh Hc]. destruct (Clone items h) as [cloned h']. cbn in Hh, Hc. subst h'.
    unfold heap_view. cbn [obj_id obj_customerID obj_customerEmail obj_status
      obj_idempotencyKey obj_orderItems obj_total obj_createdAt obj_updatedAt]. rewrite Hc, Hnil.
    destruct (validateOrder _) as [[]|err] eqn:Hv; [|by split; [|left]]. by apply valid_items in Hv.
  - rewrite (Clone_some _ _ Hne). unfold heap_view. cbn [obj_id obj_customerID obj_customerEmail obj_status
      obj_idempotencyKey obj_orderItems obj_total obj_createdAt obj_updatedAt]. rewrite contents_new.
    destruct (validateOrder _) as [[]|err] eqn:Hv; [|by split; [|right]].
    split; [done|]. exists (mkOrderObject id customerID email status key
      (Some (mkSlice (fresh (keys (hp_arrays h))) 0 (length (contents h items)))) total createdAt updatedAt).
    split; [|done]. unfold heap_view. cbn [obj_orderItems]. by rewrite contents_new.
Qed.

Lemma builds_step p items r hr :
  owned p → builds (pg_heap p) items r hr →
  owned (mkProgram hr.2 (pg_reach p)) ∧ added r (orders (pg_heap p)) (orders hr.2).
Proof.
  intros Hown Hb. unfold builds in Hb. set (h := pg_heap p) in *. set (a := fresh (keys (hp_arrays h))) in *.
  destruct (owned_with_array p a (contents h items) (pg_reach p) Hown (owned_fresh p Hown)) as [Hown' Horders];
    [set_solver|]. fold h in Hown', Horders.
  destruct r as [v|err].
  - destruct Hb as (Hv & obj & Hview & Hitems & ->). cbn [snd added].
    set (o := fresh (keys (hp_orders h))).
    assert (hp_orders h !! o = None) as Ho by (apply not_elem_of_dom, is_fresh).
    rewrite orders_with_order, Hview, Horders. split; [|exists o; split; [|done]].
    + destruct Hown' as [Hreach Hall]. split; [done|]. intros o' obj' Hobj. cbn in Hobj.
      apply lookup_insert_Some in Hobj as [[<- <-]|[_ Hobj]]; [|exact (Hall o' obj' Hobj)].
      split; [by rewrite <-Hview in Hv|]. exists (mkSlice a 0 (length (contents h items))). split; [done|]. cbn.
      rewrite dom_insert_L. split; [set_solver|]. intros Ha. apply (is_fresh (keys (hp_arrays h))).
      destruct Hown as [Hsub _]. by apply Hsub.
    + unfold orders. by rewrite lookup_fmap, Ho.
  - destruct Hb as [_ [-> | ->]]; [|done]. by destruct p.
Qed.

(** A status change touches one order, in place. *)
Lemma transition_step p o obj status now :
  owned p → hp_orders (pg_heap p) !! o = Some obj →
  let h' := (heap_transitionTo o obj status now (pg_heap p)).2 in
  owned (mkProgram h' (pg_reach p))
  ∧ moved o (λ v, transitionTo v status now) (orders (pg_heap p)) (orders h').
Proof.
  intros [Hreach Hown] Ho. cbv zeta. destruct (Hown o obj Ho) as (Hv & w & Hw & Hdom & Hnot).
  assert (orders (pg_heap p) !! o = Some (heap_view (pg_heap p) obj)) as Hview
    by (unfold orders; by rewrite lookup_fmap, Ho).
  assert (moved o (λ v, transitionTo v status now) (orders (pg_heap p))
    (orders (heap_transitionTo o obj status now (pg_heap p)).2)) as Hmoved.
  { exists (heap_view (pg_heap p) obj). split; [done|]. unfold heap_transitionTo, transitionTo. cbn [heap_view ord_status ord_updatedAt].
    destruct (negb _); [done|]. destruct (_ || _); [done|]. cbn [snd]. by rewrite orders_with_order. }
  split; [|done]. unfold heap_transitionTo in *.
  destruct (negb _) eqn:Hc; [by destruct p|]. destruct (_ || _) eqn:Ht; [by destruct p|].
  split; [done|]. intros o' obj' Hobj. cbn in Hobj.
  apply lookup_insert_Some in Hobj as [[<- <-]|[_ Hobj]]; [|exact (Hown o' obj' Hobj)].
  split; [|by exists w]. eapply (order_step_valid (heap_view (pg_heap p) obj)); [done|].
  exists status, now. unfold transitionTo. cbn [heap_view ord_status ord_updatedAt]. by rewrite Hc, Ht.
Qed.

Lemma do_op_step p op p' :
  owned p → do_op p op = Some p' →
  owned p' ∧ value_step (pg_heap p) op (orders (pg_heap p)) (orders (pg_heap p')).
Proof.
  intros Hown. destruct op as [l|s i item|id cid email key items now|id cid email st key items total c u|o now|o now|o];
    cbn [do_op value_step].
  - intros [= <-]. apply owned_with_array; [done|by apply owned_fresh|done].
  - destruct (_ && _) eqn:Hin; [|done]. intros [= <-]. apply owned_with_array; [done| |set_solver].
    intros o obj w Ho Hw Heq. destruct Hown as [_ Hall]. destruct (Hall o obj Ho) as (_ & w' & Hw' & _ & Hnot).
    assert (w' = w) as -> by congruence. apply Hnot. rewrite Heq. cbn in Hin. reflect_bools. tauto.
  - destruct (within_reach p items); [|done]. intros [= <-].
    exact (builds_step p items _ _ Hown (heap_NewOrder_builds id cid email key items now _)).
  - destruct (within_reach p items); [|done]. intros [= <-].
    exact (builds_step p items _ _ Hown (heap_Reconstitute_builds id cid email st key items total c u _)).
  - intros (obj & Ho & [= <-])%bind_Some. by apply transition_step.
  - intros (obj & Ho & [= <-])%bind_Some. by apply transition_step.
  - intros (obj & Ho & Hp)%bind_Some. pose proof Hown as [Hreach Hall].
    destruct (Hall o obj Ho) as (Hv & w & Hw & _). apply valid_items in Hv. cbn in Hv.
    unfold heap_OrderItems in Hp. rewrite (Clone_some _ _ Hv) in Hp. injection Hp as <-.
    apply owned_with_array; [done|by apply owned_fresh|done].
Qed.
Lemma do_ops_owned p ops p' : owned p → do_ops p ops = Some p' → owned p'.
Proof.
  revert p. induction ops as [|op ops IH]; intros p Hown; cbn; [by intros [= <-]|].
  intros (p1 & H1 & H2)%bind_Some. eapply IH; [|done]. by eapply do_op_step.
Qed.
Lemma fresh_owned : owned fresh_program.
Proof. split; [set_solver|]. intros o obj Ho. done. Qed.

(** C23: In memory too an order is a value. Whatever a program does with the arrays it made
    or was given, writing to them before or after it built an order from them, every order
    is valid; its next operation changes the orders exactly as the constructors and the
    transitions of values say, and a write to a slice or a call of OrderItems changes none;
    and what OrderItems answers holds the order's items. *)
Theorem orders_are_values ops p :
  do_ops fresh_program ops = Some p →
  (∀ o v, orders (pg_heap p) !! o = Some v → order_valid v)
  ∧ (∀ op p', do_op p op = Some p' →
       value_step (pg_heap p) op (orders (pg_heap p)) (orders (pg_heap p')))
  ∧ ∀ o obj, hp_orders (pg_heap p) !! o = Some obj →
      let '(s, h) := heap_OrderItems obj (pg_heap p) in
      contents h s = ord_orderItems (heap_view (pg_heap p) obj).
Proof.
  intros Hrun. pose proof (do_ops_owned _ _ _ fresh_owned Hrun) as Hown. split_and!.
  - intros o v Hv. unfold orders in Hv. rewrite lookup_fmap in Hv.
    apply fmap_Some in Hv as (obj & Ho & ->). by apply (proj2 Hown o obj Ho).
  - intros op p' Hop. by eapply do_op_step.
  - intros o obj Ho. destruct (proj2 Hown o obj Ho) as (Hv & _). apply valid_items in Hv. cbn in Hv.
    unfold heap_OrderItems. rewrite (Clone_some _ _ Hv). by rewrite contents_new.
Qed.
End ops.

(** ** A program that writes to what it passed in and to what it was given *)
Definition cheap : OrderItem := mkOrderItem "SKU-A" 1 (mkMoney 1 "EUR").
Definition tampering : list client_op := [
  MakeItems sample_items;
  CallNewOrder "o-1" "c-1" "a@b.example" "key-1" (Some (mkSlice 0 0 2)) 10;
  SetItem (mkSlice 0 0 2) 0 cheap;
  CallOrderItems 0;
  SetItem (mkSlice 2 1 1) 0 cheap;
  CallAccept 0 20].
Definition tampered : program :=
  default fresh_program (do_ops fresh_program tampering).

Lemma orders_are_values_witness :
  do_ops fresh_program tampering = Some tampered
  ∧ orders (pg_heap tampered) !! 0 = Some
      (mkOrder "o-1" "c-1" "a@b.example" StatusAccepted "key-1" sample_items (mkMoney 3000 "EUR") 10 20)
  ∧ ∀ o v, orders (pg_heap tampered) !! o = Some v → order_valid v.
Proof.
  assert (do_ops fresh_program tampering = Some tampered) as Hrun by (vm_compute; reflexivity).
  split; [exact Hrun|]. split; [vm_compute; reflexivity|]. exact (proj1 (orders_are_values _ _ Hrun)).
Defined.
