(* ===== verification/OrderPorts.v ===== *)
(** * Ports of order-service's application layer

    The commands, results and events of the application package, the interfaces
    it declares, and the signature of the calls its use cases make. *)
From S2P Require Import Prelude GoErrors GoStrings External OrderErrors OrderDomain Prog.

(* @go order-service/internal/order/application/ports.go ReservationLine *)
Record ReservationLine := mkReservationLine { rl_ProductSKU : string; rl_Quantity : Z }.
#[export] Instance ReservationLine_eq_dec : EqDecision ReservationLine.
Proof. solve_decision. Defined.
(* @go order-service/internal/order/application/ports.go ReservationRequest *)
Record ReservationRequest := mkReservationRequest {
  rr_OrderID : string;
  rr_Lines : list ReservationLine;
}.
#[export] Instance ReservationRequest_eq_dec : EqDecision ReservationRequest.
Proof. solve_decision. Defined.

(* @go order-service/internal/order/application/events.go OrderAcceptedLine *)
Record OrderAcceptedLine := mkOrderAcceptedLine {
  oal_ProductSKU : string;
  oal_Quantity : Z;
  oal_UnitPrice : Money;
}.
#[export] Instance OrderAcceptedLine_eq_dec : EqDecision OrderAcceptedLine.
Proof. solve_decision. Defined.
(* @go order-service/internal/order/application/events.go OrderAcceptedEvent *)
Record OrderAcceptedEvent := mkOrderAcceptedEvent {
  oae_EventID : string;
  oae_OrderID : string;
  oae_OccurredAt : Z;
  oae_CustomerEmail : string;
  oae_Total : Money;
  oae_Lines : list OrderAcceptedLine;
}.
#[export] Instance OrderAcceptedEvent_eq_dec : EqDecision OrderAcceptedEvent.
Proof. solve_decision. Defined.

(* @go order-service/internal/order/application/events.go newOrderAcceptedEvent *)
Definition newOrderAcceptedEvent (eventID : string) (order : Order) : OrderAcceptedEvent := {|
  oae_EventID := eventID;
  oae_OrderID := ord_id order;
  oae_OccurredAt := ord_updatedAt order;
  oae_CustomerEmail := ord_customerEmail order;
  oae_Total := ord_total order;
  oae_Lines := (λ orderItem,
    mkOrderAcceptedLine (productSKU orderItem) (quantity orderItem) (unitPrice orderItem))
    <$> ord_orderItems order;
|}.

(* @go order-service/internal/order/application/create_order.go CreateOrderItem *)
Record CreateOrderItem := mkCreateOrderItem { coi_ProductSKU : string; coi_Quantity : Z }.
(* @go order-service/internal/order/application/create_order.go CreateOrderCommand *)
Record CreateOrderCommand := mkCreateOrderCommand {
  coc_IdempotencyKey : string;
  coc_CustomerID : string;
  coc_CustomerEmail : string;
  coc_Items : list CreateOrderItem;
}.
(* @go order-service/internal/order/application/create_order.go CreateOrderResult *)
Record CreateOrderResult := mkCreateOrderResult { cor_Order : Order; cor_Created : bool }.

(** [request] asks for the identifier of [o] and, line by line, for its products and
    quantities. *)
Definition asks_for (o : Order) (request : ReservationRequest) : Prop :=
  rr_OrderID request = ord_id o
  ∧ Forall2 (λ item line, rl_ProductSKU line = productSKU item ∧ rl_Quantity line = quantity item)
      (ord_orderItems o) (rr_Lines request).

(** The calls [CreateOrder] makes: [OrderRepository], [ProductCatalog],
    [InventoryReserver], [Clock], [IDGenerator], and the context it is given. *)
(* @src order-service/internal/order/application/ports.go:10-44 OrderRepository InventoryReserver *)
Inductive orderE : Type → Type :=
| FindByIdempotencyKey (key : string) : orderE (order_result Order)
| FindByID (id : string) : orderE (order_result Order)
| Create (order : Order) : orderE (order_result unit)
| Update (order : Order) (expectedStatus : Status) : orderE (order_result unit)
| UpdateAndRecordEvent (order : Order) (expectedStatus : Status) (event : OrderAcceptedEvent)
    : orderE (order_result unit)
| Prices (productSKUs : list string) : orderE (order_result (gmap string Money))
| Reserve (request : ReservationRequest) : orderE (order_result unit)
| Clock : orderE Z
| NewID : orderE string
| CtxErr : orderE (option context_sentinel)
| TimerOrDone (delay : Z) : orderE (option context_sentinel).

(** ** The ports of the outbox worker *)

(** [Event] is the zero event when the row could not be read. *)
(* @go order-service/internal/order/application/ports.go OutboxEntry *)
Record OutboxEntry := mkOutboxEntry {
  oe_EventID : string;
  oe_Event : OrderAcceptedEvent;
  oe_CorrelationID : string;
  oe_Attempts : Z;
  oe_ClaimToken : string;
}.
Definition zero_event : OrderAcceptedEvent := mkOrderAcceptedEvent "" "" 0 "" (mkMoney 0 "") [].
Definition zero_entry : OutboxEntry := mkOutboxEntry "" zero_event "" 0 "".

(** The calls [PublishOrderEvents] makes: [EventOutbox], [OrderEventPublisher], the
    random source, the clock and the context. [ClaimNext] answers an entry even
    with an error. *)
(* @src order-service/internal/order/application/ports.go:46-97 OrderEventPublisher EventOutbox Clock *)
Inductive workerE : Type → Type :=
| ClaimNext (lease : Z) : workerE (OutboxEntry * option order_error)
| MarkPublished (eventID : string) : workerE (order_result unit)
| Release (entry : OutboxEntry) (delay : Z) : workerE (order_result unit)
| ScheduleRetry (entry : OutboxEntry) (delay : Z) (reason : string) : workerE (order_result unit)
| MarkNeedsAttention (entry : OutboxEntry) (countAttempt : bool) (reason : string)
    : workerE (order_result unit)
| DeletePublished (olderThan : Z) (limit : Z) : workerE (order_result Z)
| PublishOrderAccepted (event : OrderAcceptedEvent) (correlationID : string)
    : workerE (order_result unit)
| random (n : Z) : workerE Z
| WorkerClock : workerE Z
| WorkerCtxErr : workerE (option context_sentinel)
| WorkerTimerOrDone (delay : Z) : workerE (option context_sentinel).
