(* ===== verification/CreateOrder.v ===== *)
(** * The create-order use case

    [application.CreateOrder]: the orchestration of POST /orders over its ports,
    with the bounded retry of the reservation and the resolution of conflicts. *)
From S2P Require Import Prelude GoErrors GoStrings External OrderErrors OrderDomain Prog OrderPorts.

(* @go order-service/internal/order/application/create_order.go inventoryReservationAttempts *)
Definition inventoryReservationAttempts : nat := 3.
(* @go order-service/internal/order/application/create_order.go inventoryRetryInitialDelay *)
Definition inventoryRetryInitialDelay : Z := 100 * Millisecond.

(* @go order-service/internal/order/application/create_order.go productSKUs *)
Definition productSKUs (items : list CreateOrderItem) : list string :=
  (λ item, TrimSpace (coi_ProductSKU item)) <$> items.

(* @go order-service/internal/order/application/create_order.go reservationRequestFor *)
Definition reservationRequestFor (order : Order) : ReservationRequest := {|
  rr_OrderID := ord_id order;
  rr_Lines := (λ item, mkReservationLine (productSKU item) (quantity item)) <$> ord_orderItems order;
|}.

(** [select] on the context's [Done] channel and a timer. *)
(* @go order-service/internal/order/application/create_order.go waitForRetry *)
Definition waitForRetry (delay : Z) : prog orderE (option context_sentinel) :=
  trigger (TimerOrDone delay).

(** The loop body for the attempts that remain. *)
(* @src order-service/internal/order/application/create_order.go:207-226 CreateOrder.reserveInventory *)
Fixpoint reserveInventory_loop (remaining attempt : nat) (lastErr : option order_error)
    (request : ReservationRequest) : prog orderE (order_result unit) :=
  match remaining with
  | O => Ret (match lastErr with Some err => Err err | None => Ok tt end)
  | S remaining' =>
      cancelled ← trigger CtxErr;
      match cancelled with
      | Some err => Ret (Err (ctx_err err))
      | None =>
          reserved ← trigger (Reserve request);
          match reserved with
          | Ok _ => Ret (Ok tt)
          | Err err =>
              if negb (is_app err ErrInventoryUnavailable)
                 || bool_decide (attempt = inventoryReservationAttempts - 1)%nat
              then Ret (Err err)
              else
              let delay := (inventoryRetryInitialDelay * Z.of_nat (attempt + 1))%Z in
              stopped ← waitForRetry delay;
              match stopped with
              | Some err => Ret (Err (ctx_err err))
              | None => reserveInventory_loop remaining' (S attempt) (Some err) request
              end
          end
      end
  end.

(* @go order-service/internal/order/application/create_order.go CreateOrder.reserveInventory *)
Definition reserveInventory (request : ReservationRequest) : prog orderE (order_result unit) :=
  reserveInventory_loop inventoryReservationAttempts 0 None request.

(* @go order-service/internal/order/application/create_order.go CreateOrder.resultAfterConflict *)
Definition resultAfterConflict (orderID : string) (created : bool)
    : prog orderE (order_result CreateOrderResult) :=
  found ← trigger (FindByID orderID);
  match found with
  | Err err => Ret (Err (Wrap "reload order after state conflict" err))
  | Ok order =>
      if bool_decide (ord_status order ∈ [StatusAccepted; StatusShipped; StatusCancelled])
      then Ret (Ok (mkCreateOrderResult order created))
      else if bool_decide (ord_status order = StatusRejected)
      then Ret (Err (app ErrInsufficientStock))
      else if bool_decide (ord_status order = StatusPending)
      then Ret (Err (Wrap "reload order after state conflict" (app ErrOrderStateConflict)))
      else Ret (Err (Opaque ("reload order after state conflict: unsupported status "
                             +:+ Quote (ord_status order))))
  end.

(* @go order-service/internal/order/application/create_order.go CreateOrder.reject *)
Definition reject (order : Order) (created : bool) (cause : order_error)
    : prog orderE (order_result CreateOrderResult) :=
  now ← trigger Clock;
  match Reject order now with
  | Err err => Ret (Err (Wrap "reject order" err))
  | Ok order =>
      updated ← trigger (Update order StatusPending);
      match updated with
      | Err err =>
          if is_app err ErrOrderStateConflict
          then resultAfterConflict (ord_id order) created
          else Ret (Err (Wrap "persist rejected order" err))
      | Ok _ => Ret (Err cause)
      end
  end.

(* @go order-service/internal/order/application/create_order.go CreateOrder.processPending *)
Definition processPending (order : Order) (created : bool)
    : prog orderE (order_result CreateOrderResult) :=
  reserved ← reserveInventory (reservationRequestFor order);
  match reserved with
  | Err err =>
      if is_app err ErrInsufficientStock then reject order created err
      else Ret (Err (Wrap "reserve inventory" err))
  | Ok _ =>
      now ← trigger Clock;
      match Accept order now with
      | Err err => Ret (Err (Wrap "accept order" err))
      | Ok order =>
          eventID ← trigger NewID;
          let event := newOrderAcceptedEvent eventID order in
          updated ← trigger (UpdateAndRecordEvent order StatusPending event);
          match updated with
          | Err err =>
              if is_app err ErrOrderStateConflict
              then resultAfterConflict (ord_id order) created
              else Ret (Err (Wrap "persist accepted order" err))
          | Ok _ => Ret (Ok (mkCreateOrderResult order created))
          end
      end
  end.

(* @go order-service/internal/order/application/create_order.go CreateOrder.processPersisted *)
Definition processPersisted (order : Order) (created : bool)
    : prog orderE (order_result CreateOrderResult) :=
  if bool_decide (ord_status order ∈ [StatusAccepted; StatusShipped; StatusCancelled])
  then Ret (Ok (mkCreateOrderResult order created))
  else if bool_decide (ord_status order = StatusRejected)
  then Ret (Err (app ErrInsufficientStock))
  else if bool_decide (ord_status order = StatusPending)
  then processPending order created
  else Ret (Err (Opaque ("process order " +:+ ord_id order +:+ ": unsupported status "
                         +:+ Quote (ord_status order)))).

Section create_order.
Context `{!MailLib}.

(* @go order-service/internal/order/application/create_order.go CreateOrder.buildOrder *)
Definition buildOrder (command : CreateOrderCommand) : prog orderE (order_result Order) :=
  priced ← trigger (Prices (productSKUs (coc_Items command)));
  match priced with
  | Err err => Ret (Err (Wrap "resolve product prices" err))
  | Ok prices =>
      let missing := filter (λ sku, prices !! sku = None) (productSKUs (coc_Items command)) in
      if bool_decide (0 < length missing)%nat
      then Ret (Err (Leaf (ProductNotFoundError missing)))
      else
      match mapM_result (λ commandItem,
              let productSKU := TrimSpace (coi_ProductSKU commandItem) in
              NewOrderItem productSKU (coi_Quantity commandItem)
                (default (mkMoney 0 "") (prices !! productSKU))) (coc_Items command) with
      | Err err => Ret (Err err)
      | Ok items =>
          id ← trigger NewID;
          now ← trigger Clock;
          Ret (NewOrder id (coc_CustomerID command) (coc_CustomerEmail command)
                 (coc_IdempotencyKey command) items now)
      end
  end.

(* @go order-service/internal/order/application/create_order.go CreateOrder.Execute *)
Definition Execute (command : CreateOrderCommand) : prog orderE (order_result CreateOrderResult) :=
  found ← trigger (FindByIdempotencyKey (coc_IdempotencyKey command));
  match found with
  | Ok order => processPersisted order false
  | Err err =>
      if negb (is_app err ErrOrderNotFound)
      then Ret (Err (Wrap "find order by idempotency key" err))
      else
      built ← buildOrder command;
      match built with
      | Err err => Ret (Err err)
      | Ok order =>
          created ← trigger (Create order);
          match created with
          | Err err =>
              if is_app err ErrDuplicateIdempotencyKey
              then
                winner ← trigger (FindByIdempotencyKey (coc_IdempotencyKey command));
                match winner with
                | Err findErr => Ret (Err (Wrap "load concurrent order" findErr))
                | Ok winner => processPersisted winner false
                end
              else Ret (Err (Wrap "create pending order" err))
          | Ok _ => processPersisted order true
          end
      end
  end.
End create_order.

(** ** The call discipline of the use case *)

(** The reservation attempts of a history, with their answers. *)
Definition reserve_call (c : call orderE) : option (ReservationRequest * order_result unit) :=
  match c with
  | @Call _ R e r =>
      match e in orderE R return R → option (ReservationRequest * order_result unit) with
      | Reserve request => λ r, Some (request, r)
      | _ => λ _, None
      end r
  end.
Definition reserve_calls (h : list (call orderE)) : list (ReservationRequest * order_result unit) :=
  omap reserve_call h.

(** The status writes of a history. *)
Definition write_call (c : call orderE) : option Order :=
  match c with
  | @Call _ R e r =>
      match e with
      | Update o _ | UpdateAndRecordEvent o _ _ => Some o
      | _ => None
      end
  end.
Definition write_calls (h : list (call orderE)) : list Order := omap write_call h.

(** The waits between attempts that ran to their end. *)
Definition pause_call (c : call orderE) : option Z :=
  match c with
  | @Call _ R e r =>
      match e in orderE R return R → option Z with
      | TimerOrDone delay => λ r, match r with None => Some delay | Some _ => None end
      | _ => λ _, None
      end r
  end.
Definition pauses (h : list (call orderE)) : list Z := omap pause_call h.

(** The waits that separate [n + 1] attempts: 100 ms, 200 ms, … *)
Definition backoffs (n : nat) : list Z :=
  (λ i, 100 * Z.of_nat i * Millisecond)%Z <$> seq 1 n.

(** [event] announces [o]: its identifier, its customer, its total, the time of its last
    change, and its lines with their prices. *)
Definition announces (o : Order) (event : OrderAcceptedEvent) : Prop :=
  oae_OrderID event = ord_id o ∧ oae_OccurredAt event = ord_updatedAt o
  ∧ oae_CustomerEmail event = ord_customerEmail o ∧ oae_Total event = ord_total o
  ∧ Forall2 (λ item line, oal_ProductSKU line = productSKU item
        ∧ oal_Quantity line = quantity item ∧ oal_UnitPrice line = unitPrice item)
      (ord_orderItems o) (oae_Lines event).

Lemma asks_for_iff o request : asks_for o request ↔ request = reservationRequestFor o.
Proof.
  unfold asks_for. split; [|intros ->; split; [done|]; cbn; apply Forall2_fmap_r, Forall_Forall2_diag, Forall_true; done].
  destruct request as [id lines]. cbn. intros [-> Hlines]. unfold reservationRequestFor. f_equal.
  induction Hlines as [|item [] items lines [E1 E2] _ IH]; [done|]. cbn in *. by subst.
Qed.

Lemma announces_iff o event :
  announces o event ↔ event = newOrderAcceptedEvent (oae_EventID event) o.
Proof.
  unfold announces. split; [|intros ->; split_and!; try done; cbn; apply Forall2_fmap_r, Forall_Forall2_diag, Forall_true; done].
  destruct event. cbn. intros (-> & -> & -> & -> & Hlines). unfold newOrderAcceptedEvent. f_equal.
  induction Hlines as [|item [] items lines (E1 & E2 & E3) _ IH]; [done|]. cbn in *. by subst.
Qed.

(** The repository holds [o]: it stored it or found it under the client's key. *)
Definition stored (key : string) (h : list (call orderE)) (o : Order) : Prop :=
  Call (Create o) (Ok tt) ∈ h ∨ Call (FindByIdempotencyKey key) (Ok o) ∈ h.

Definition unavailable_answer (request : ReservationRequest)
    (attempt : ReservationRequest * order_result unit) : Prop :=
  ∃ err, attempt = (request, Err err) ∧ is_app err ErrInventoryUnavailable = true.

Section discipline.
Context `{!MailLib} (command : CreateOrderCommand).
Let key := coc_IdempotencyKey command.

(** [o] is the order of the command at the prices, identifier and time the calls answered. *)
Definition priced_order (h : list (call orderE)) (o : Order) : Prop :=
  ∃ prices items id now,
    Call (Prices (productSKUs (coc_Items command))) (Ok prices) ∈ h
    ∧ Call NewID id ∈ h ∧ Call Clock now ∈ h
    ∧ Forall2 (λ item line, ∃ price, prices !! TrimSpace (coi_ProductSKU item) = Some price
        ∧ NewOrderItem (TrimSpace (coi_ProductSKU item)) (coi_Quantity item) price = Ok line)
        (coc_Items command) items
    ∧ NewOrder id (coc_CustomerID command) (coc_CustomerEmail command) key items now = Ok o.

Definition create_order_rule (h : list (call orderE)) R (e : orderE R) : Prop :=
  match e with
  | FindByIdempotencyKey k => k = key
  | Create o =>
      order_valid o ∧ ord_status o = StatusPending ∧ ord_idempotencyKey o = key
      ∧ reserve_calls h = [] ∧ write_calls h = [] ∧ priced_order h o
      ∧ ∃ err, Call (FindByIdempotencyKey key) (Err err) ∈ h
               ∧ is_app err ErrOrderNotFound = true
  | Reserve request =>
      (∃ o, stored key h o ∧ ord_status o = StatusPending ∧ asks_for o request)
      ∧ (length (reserve_calls h) < 3)%nat
      ∧ Forall (unavailable_answer request) (reserve_calls h)
      ∧ pauses h = backoffs (length (reserve_calls h))
      ∧ write_calls h = []
  | TimerOrDone delay =>
      delay = (100 * Z.of_nat (length (reserve_calls h)) * Millisecond)%Z
      ∧ (0 < length (reserve_calls h) < 3)%nat
  | UpdateAndRecordEvent o expected event =>
      expected = StatusPending ∧ write_calls h = []
      ∧ announces o event
      ∧ ∃ o0 now request, stored key h o0 ∧ ord_status o0 = StatusPending
          ∧ Call Clock now ∈ h ∧ Accept o0 now = Ok o ∧ asks_for o0 request
          ∧ last (reserve_calls h) = Some (request, Ok tt)
  | Update o expected =>
      expected = StatusPending ∧ write_calls h = []
      ∧ ∃ o0 now request err, stored key h o0 ∧ ord_status o0 = StatusPending
          ∧ Call Clock now ∈ h ∧ Reject o0 now = Ok o ∧ asks_for o0 request
          ∧ last (reserve_calls h) = Some (request, Err err)
          ∧ is_app err ErrInsufficientStock = true
  | _ => True
  end.

(** A successful answer is an order past pending that the repository holds: it
    was loaded in that state, or its acceptance was stored with its event. *)
Definition create_order_post (h : list (call orderE)) (r : order_result CreateOrderResult) : Prop :=
  match r with
  | Ok result =>
      ord_status (cor_Order result) ∈ [StatusAccepted; StatusShipped; StatusCancelled]
      ∧ (Call (FindByIdempotencyKey key) (Ok (cor_Order result)) ∈ h
         ∨ (∃ id, Call (FindByID id) (Ok (cor_Order result)) ∈ h)
         ∨ ∃ event, Call (UpdateAndRecordEvent (cor_Order result) StatusPending event) (Ok tt) ∈ h)
      ∧ (cor_Created result = true → ∃ o, Call (Create o) (Ok tt) ∈ h)
  | Err _ => True
  end.

Lemma stored_app h h' o : stored key h o → stored key (h ++ h') o.
Proof. unfold stored. rewrite !elem_of_app. tauto. Qed.
Lemma reserve_calls_app h h' : reserve_calls (h ++ h') = reserve_calls h ++ reserve_calls h'.
Proof. apply omap_app. Qed.
Lemma write_calls_app h h' : write_calls (h ++ h') = write_calls h ++ write_calls h'.
Proof. apply omap_app. Qed.
Lemma pauses_app h h' : pauses (h ++ h') = pauses h ++ pauses h'.
Proof. apply omap_app. Qed.
Lemma elem_of_snoc_call h (c : call orderE) : c ∈ h ++ [c].
Proof. apply elem_of_app. right. by left. Qed.
Lemma elem_of_app_call h h' (c : call orderE) : c ∈ h → c ∈ h ++ h'.
Proof. rewrite elem_of_app. tauto. Qed.

Hint Resolve stored_app elem_of_snoc_call elem_of_app_call : gosys.
Hint Rewrite reserve_calls_app write_calls_app pauses_app app_nil_r : gosys_simpl.

(** Compute the reservations and writes of a history extended by known calls. *)
Ltac calls_simpl :=
  autorewrite with gosys_simpl;
  cbn [reserve_calls write_calls pauses omap list_omap reserve_call write_call pause_call];
  rewrite ?app_nil_r.

(** What the retry loop establishes about the order it reserves for. *)
Definition reserve_post (o : Order) (h0 h : list (call orderE)) (r : order_result unit) : Prop :=
  (∃ h', h = h0 ++ h') ∧ write_calls h = []
  ∧ match r with
    | Ok _ => last (reserve_calls h) = Some (reservationRequestFor o, Ok tt)
    | Err err => is_app err ErrInsufficientStock = true →
        last (reserve_calls h) = Some (reservationRequestFor o, Err err)
    end.

Lemma reserve_post_app o h h' r h1 : reserve_post o (h ++ h') h1 r → reserve_post o h h1 r.
Proof. intros [(h2 & ->) Hrest]. split; [|done]. exists (h' ++ h2). by rewrite app_assoc. Qed.

Lemma reserveInventory_loop_respects o remaining attempt lastErr h :
  stored key h o → ord_status o = StatusPending → write_calls h = [] →
  (remaining + attempt = inventoryReservationAttempts)%nat →
  length (reserve_calls h) = attempt →
  Forall (unavailable_answer (reservationRequestFor o)) (reserve_calls h) →
  pauses h = backoffs attempt → (remaining = 0%nat → False) →
  respects create_order_rule
    (reserveInventory_loop remaining attempt lastErr (reservationRequestFor o)) h
    (reserve_post o h).
Proof.
  revert attempt lastErr h.
  induction remaining as [|remaining IH]; intros attempt lastErr h Hst Hp Hw Hn Hlen Hun Hpause Hpos;
    [by destruct Hpos|].
  cbn. split; [done|]. intros [c|].
  { cbn. split_and!; [by eexists|by calls_simpl|done]. }
  cbn. split.
  { split_and!; calls_simpl; [|unfold inventoryReservationAttempts in *; lia|done|by rewrite Hlen|done].
    exists o. rewrite asks_for_iff. auto with gosys. }
  intros [[]|err]; cbn.
  { split_and!; [eexists; by rewrite <-app_assoc|by calls_simpl|]. calls_simpl. by rewrite last_snoc. }
  destruct (is_app err ErrInventoryUnavailable) eqn:Hu; cbn.
  2:{ split_and!; [eexists; by rewrite <-app_assoc|by calls_simpl|].
      intros _. calls_simpl. by rewrite last_snoc. }
  case_bool_decide as Ha; cbn.
  { split_and!; [eexists; by rewrite <-app_assoc|by calls_simpl|].
    intros _. calls_simpl. by rewrite last_snoc. }
  unfold inventoryReservationAttempts in *. split.
  { calls_simpl. rewrite length_app. unfold inventoryRetryInitialDelay. cbn. lia. }
  intros [c|]; cbn.
  { split_and!; [eexists; by rewrite <-!app_assoc|by calls_simpl|done]. }
  eapply respects_mono; [|apply IH].
  - intros h' r. by intros ?%reserve_post_app%reserve_post_app%reserve_post_app.
  - auto with gosys.
  - done.
  - by calls_simpl.
  - lia.
  - calls_simpl. rewrite length_app. cbn. lia.
  - calls_simpl. apply Forall_app. split; [done|]. constructor; [|done]. by exists err.
  - calls_simpl. unfold backoffs. rewrite seq_S, fmap_app, Hpause. f_equal. cbn.
    unfold inventoryRetryInitialDelay. f_equal. lia.
  - lia.
Qed.

Lemma resultAfterConflict_respects id created h :
  (created = true → ∃ o, Call (Create o) (Ok tt) ∈ h) →
  respects create_order_rule (resultAfterConflict id created) h create_order_post.
Proof.
  intros Hc. cbn. split; [done|]. intros [o|err]; cbn; [|done].
  case_bool_decide as Hs; cbn; [|by repeat case_bool_decide].
  split_and!; [done|right; left; eauto with gosys|].
  intros [o' Ho']%Hc. eauto with gosys.
Qed.

Lemma reject_respects o created err h :
  (created = true → ∃ o, Call (Create o) (Ok tt) ∈ h) →
  stored key h o → ord_status o = StatusPending → write_calls h = [] →
  last (reserve_calls h) = Some (reservationRequestFor o, Err err) →
  is_app err ErrInsufficientStock = true →
  respects create_order_rule (reject o created err) h create_order_post.
Proof.
  intros Hc Hst Hp Hw Hl Hi. cbn. split; [done|]. intros now.
  destruct (Reject o now) as [o'|e] eqn:Hr; cbn; [|done]. split.
  { split_and!; [done|by calls_simpl|]. exists o, now, (reservationRequestFor o), err.
    rewrite asks_for_iff. split_and!; auto with gosys.
    by calls_simpl. }
  intros [[]|e]; cbn; [done|]. destruct (is_app e ErrOrderStateConflict); [|done].
  apply resultAfterConflict_respects. intros [o1 H1]%Hc. eauto with gosys.
Qed.

Lemma processPending_respects o created h :
  (created = true → ∃ o, Call (Create o) (Ok tt) ∈ h) →
  stored key h o → ord_status o = StatusPending → write_calls h = [] → reserve_calls h = [] →
  pauses h = [] → respects create_order_rule (processPending o created) h create_order_post.
Proof.
  intros Hc Hst Hp Hw Hr Hpause. unfold processPending. apply respects_bind.
  eapply respects_mono; [|apply reserveInventory_loop_respects; rewrite ?Hr; done || constructor].
  intros h' r ((h1 & ->) & Hw' & Hres).
  assert (created = true → ∃ o, Call (Create o) (Ok tt) ∈ h ++ h1) as Hc'.
  { intros [o1 H1]%Hc. eauto with gosys. }
  assert (stored key (h ++ h1) o) as Hst' by auto with gosys.
  generalize dependent (h ++ h1). clear h1. intros h1 Hw' Hres Hc' Hst'.
  destruct r as [[]|err]; cbn.
  - split; [done|]. intros now. destruct (Accept o now) as [o'|e] eqn:Ha; cbn; [|done].
    split; [done|]. intros eventID. split.
    { split_and!; [done|by calls_simpl|by apply announces_iff|].
      exists o, now, (reservationRequestFor o). rewrite asks_for_iff. split_and!; auto with gosys.
      by calls_simpl. }
    intros [[]|e]; cbn.
    + split_and!; [|right; right; eauto with gosys|].
      * apply transitionTo_ok in Ha as (_ & _ & _ & ->). by left.
      * intros [o1 H1]%Hc'. eauto with gosys.
    + destruct (is_app e ErrOrderStateConflict); [|done].
      apply resultAfterConflict_respects. intros [o1 H1]%Hc'. eauto 10 with gosys.
  - destruct (is_app err ErrInsufficientStock) eqn:Hi; [|done].
    apply reject_respects; auto with gosys.
Qed.

Lemma processPersisted_respects o created h :
  (created = true → ∃ o, Call (Create o) (Ok tt) ∈ h) →
  stored key h o → write_calls h = [] → reserve_calls h = [] → pauses h = [] →
  (ord_status o = StatusPending ∨ Call (FindByIdempotencyKey key) (Ok o) ∈ h) →
  respects create_order_rule (processPersisted o created) h create_order_post.
Proof.
  intros Hc Hst Hw Hr Hpause Hf. unfold processPersisted.
  case_bool_decide as H1.
  { cbn. split_and!; [done| |done]. left. destruct Hf as [Hp|]; [|done].
    rewrite Hp in H1. by vm_compute in H1; repeat (apply elem_of_cons in H1 as [?|H1]; [done|]); apply elem_of_nil in H1. }
  case_bool_decide; [done|]. case_bool_decide; [|done]. by apply processPending_respects.
Qed.

Lemma every_item_priced (prices : gmap string Money) (items : list CreateOrderItem) lines :
  ¬ (0 < length (filter (λ sku, prices !! sku = None) (productSKUs items)))%nat →
  Forall2 (λ item line, NewOrderItem (TrimSpace (coi_ProductSKU item)) (coi_Quantity item)
    (default (mkMoney 0 "") (prices !! TrimSpace (coi_ProductSKU item))) = Ok line) items lines →
  Forall2 (λ item line, ∃ price, prices !! TrimSpace (coi_ProductSKU item) = Some price
    ∧ NewOrderItem (TrimSpace (coi_ProductSKU item)) (coi_Quantity item) price = Ok line) items lines.
Proof.
  intros Hmissing Hall. induction Hall as [|item line items lines Hline _ IH]; [constructor|].
  unfold productSKUs in Hmissing. rewrite fmap_cons, filter_cons in Hmissing.
  destruct (prices !! _) as [price|] eqn:Hp.
  - rewrite decide_False in Hmissing by done. constructor; [by exists price|by apply IH].
  - rewrite decide_True in Hmissing by done. cbn in Hmissing. lia.
Qed.

Lemma buildOrder_respects h (Q : list (call orderE) → order_result Order → Prop) :
  (∀ h' r, reserve_calls h' = [] → write_calls h' = [] → pauses h' = [] →
    match r with
    | Ok o => order_valid o ∧ ord_status o = StatusPending ∧ ord_idempotencyKey o = key
        ∧ priced_order h' o
    | Err _ => True
    end → Q (h ++ h') r) →
  respects create_order_rule (buildOrder command) h Q.
Proof.
  intros HQ. cbn. split; [done|]. intros [prices|err]; cbn; [|by apply HQ].
  case_bool_decide as Hmissing; [by apply HQ|].
  destruct (mapM_result _ _) as [items|err] eqn:Hitems; [|by apply HQ]. cbn.
  split; [done|]. intros id. split; [done|]. intros now.
  rewrite <-!app_assoc. apply HQ; [done..|].
  destruct (NewOrder _ _ _ _ _ _) as [o|e] eqn:Ho; [|done]. pose proof Ho as Hnew.
  apply NewOrder_ok in Ho as (t & _ & _ & _ & _ & _ & _ & -> & Hv). split_and!; [done..|].
  exists prices, items, id, now. split_and!; [set_solver..| |done].
  apply mapM_result_Forall2 in Hitems. by eapply every_item_priced.
Qed.

Lemma Execute_respects : respects create_order_rule (Execute command) [] create_order_post.
Proof.
  apply respects_trigger; [done|]. intros [o|err]; cbn [app].
  { apply processPersisted_respects; try done; [right|right]; by left. }
  destruct (is_app err ErrOrderNotFound) eqn:Hn; [|done]. cbn [negb].
  apply respects_bind, buildOrder_respects.
  set (c0 := Call (FindByIdempotencyKey _) (Err err)).
  intros h' r Hr' Hw' Hpause' Hr. destruct r as [o|e]; [|done]. destruct Hr as (Hv & Hp & Hk & Hpriced).
  assert (reserve_calls ([c0] ++ h') = []) as Hr1 by by calls_simpl.
  assert (write_calls ([c0] ++ h') = []) as Hw1 by by calls_simpl.
  assert (pauses ([c0] ++ h') = []) as Hp1 by by calls_simpl.
  assert (c0 ∈ [c0] ++ h') as Hin by by left.
  assert (priced_order ([c0] ++ h') o) as Hpo.
  { destruct Hpriced as (prices & items & id & now & ?). exists prices, items, id, now. set_solver. }
  change ([] ++ [c0]) with [c0]. clear Hpriced. generalize dependent ([c0] ++ h'). clear h' Hr' Hw' Hpause'.
  intros h Hr Hw Hpause Hin Hpo. apply respects_trigger.
  { split_and!; [done..|]. by exists err. }
  intros [[]|e].
  - apply processPersisted_respects; [|left; auto with gosys|by calls_simpl..|by left].
    intros _. eauto with gosys.
  - destruct (is_app e ErrDuplicateIdempotencyKey); [|done].
    apply respects_trigger; [done|]. intros [w|e']; [|done].
    apply processPersisted_respects; [done|right|by calls_simpl..|right]; auto with gosys.
Qed.

(** C10: whatever its ports answer, a run of [Execute] keeps the call discipline:
    it stores only a valid pending order, of the command's lines at the prices the
    catalogue answered with an identifier and a time it was given, and only after the key
    was not found;
    it reserves only for an order the repository holds as pending, that order's products
    and quantities, at most three times, the same basket each time, again only after
    inventory was unavailable and after waits of 100 ms and then 200 ms that were not
    cut short; it records an acceptance only after the last reservation succeeded and
    together with the event that announces that order, a rejection only after the last one reported insufficient stock, and
    writes a status at most once; and it answers an order only when the
    repository holds it accepted, shipped or cancelled. *)
Theorem Execute_discipline h r :
  runs (Execute command) h r → disciplined create_order_rule h ∧ create_order_post h r.
Proof. by apply (respects_sound _ _ []); [apply disciplined_nil|apply Execute_respects]. Qed.
End discipline.

(** A run where the first reservation finds inventory unavailable. *)
Definition sample_command : CreateOrderCommand :=
  mkCreateOrderCommand "key-1" "c-1" "a@b.example"
    [mkCreateOrderItem "SKU-A" 2; mkCreateOrderItem "SKU-B" 1].
Definition sample_prices : gmap string Money :=
  {[ "SKU-A" := mkMoney 1250 "EUR"; "SKU-B" := mkMoney 500 "EUR" ]}.
Definition sample_accepted : Order :=
  mkOrder "o-1" "c-1" "a@b.example" StatusAccepted "key-1" sample_items (mkMoney 3000 "EUR") 10 20.

Ltac answer v := refine (runs_vis _ _ v _ _ _); cbn -[TrimSpace Quote NewOrder NewOrderItem].

Lemma Execute_discipline_witness :
  ∃ h, runs (Execute sample_command) h (Ok (mkCreateOrderResult sample_accepted true))
    ∧ length (reserve_calls h) = 2%nat ∧ disciplined (create_order_rule sample_command) h.
Proof.
  eexists. assert (Hrun : runs (Execute sample_command)
    [Call (FindByIdempotencyKey "key-1") (Err (app ErrOrderNotFound));
     Call (Prices ["SKU-A"; "SKU-B"]) (Ok sample_prices);
     Call NewID "o-1"; Call Clock 10%Z; Call (Create sample_order) (Ok tt);
     Call CtxErr None;
     Call (Reserve (reservationRequestFor sample_order)) (Err (app ErrInventoryUnavailable));
     Call (TimerOrDone (100 * Millisecond)) None; Call CtxErr None;
     Call (Reserve (reservationRequestFor sample_order)) (Ok tt);
     Call Clock 20%Z; Call NewID "e-1";
     Call (UpdateAndRecordEvent sample_accepted StatusPending
             (newOrderAcceptedEvent "e-1" sample_accepted)) (Ok tt)]
    (Ok (mkCreateOrderResult sample_accepted true))).
  { repeat refine (runs_vis _ _ _ _ _ _). exact (runs_ret _). }
  split; [exact Hrun|]. split; [reflexivity|].
  by destruct (Execute_discipline sample_command _ _ Hrun).
Defined.
