(* ===== verification/OrderStore.v ===== *)
(** * The order repository

    Package [postgres] of order-service without the outbox queries: the tables of
    its migrations, the mapper between rows and the aggregate, the JSON payload
    of an event, and the repository's operations with their transactions. *)
From Stdlib Require String.
From S2P Require Import Prelude GoErrors GoStrings External Postgres OrderErrors OrderDomain Prog OrderPorts.

Section order_store.
Context `{!MailLib, !UuidLib, !Postgres}.

(** ** Rows and tables *)

(* @go order-service/internal/order/adapter/outbound/postgres/mapper.go orderRow *)
Record orderRow := mkOrderRow {
  or_id : uuid;
  or_customerID : uuid;
  or_customerEmail : string;
  or_status : string;
  or_idempotencyKey : string;
  or_totalAmountInCents : Z;
  or_currency : string;
  or_createdAt : Z;
  or_updatedAt : Z;
}.
(* @go order-service/internal/order/adapter/outbound/postgres/mapper.go orderItemRow *)
Record orderItemRow := mkOrderItemRow {
  oi_orderID : uuid;
  oi_lineNumber : Z;
  oi_productSKU : string;
  oi_quantity : Z;
  oi_unitAmountInCents : Z;
}.
(** A row of [outbox_events]. *)
(* @src order-service/migrations/000002_create_outbox_events.up.sql:3-52 outbox_events *)
Record outboxRow := mkOutboxRow {
  ob_event_id : uuid;
  ob_event_type : string;
  ob_order_id : uuid;
  ob_payload : string;
  ob_correlation_id : string;
  ob_status : string;
  ob_attempts : Z;
  ob_next_attempt_at : Z;
  ob_claim_token : option uuid;
  ob_last_error : option string;
  ob_created_at : Z;
  ob_published_at : option Z;
  ob_needs_attention_at : option Z;
}.

(** The tables, indexed by their primary keys; the items in insertion order. *)
(* @src order-service/migrations/000001_create_orders.up.sql:3-46 orders order_items *)
Record database := mkDatabase {
  db_orders : gmap uuid orderRow;
  db_items : list orderItemRow;
  db_outbox : gmap uuid outboxRow;
}.
Definition set_orders (db : database) m := mkDatabase m (db_items db) (db_outbox db).
Definition set_items (db : database) l := mkDatabase (db_orders db) l (db_outbox db).
Definition set_outbox (db : database) m := mkDatabase (db_orders db) (db_items db) m.

(** ** Statements *)

(* @go order-service/internal/order/adapter/outbound/postgres/order_repository.go idempotencyConstraint *)
Definition idempotencyConstraint : string := "orders_idempotency_key_uidx".

(** The CHECK constraints of [orders], in the order of the table. *)
(* @src order-service/migrations/000001_create_orders.up.sql:14-23 orders *)
Definition orders_check (row : orderRow) : option string :=
  if negb (isValidStatus (or_status row)) then Some "orders_status_valid"
  else if negb (btrim_not_blank (or_customerEmail row))
  then Some "orders_customer_email_not_blank"
  else if negb (btrim_not_blank (or_idempotencyKey row))
  then Some "orders_idempotency_key_not_blank"
  else if negb (isCurrencySupported (or_currency row)) then Some "orders_currency_supported"
  else if (or_totalAmountInCents row <? 0)%Z
  then Some "orders_total_amount_in_cents_non_negative"
  else None.

Definition order_texts_ok (row : orderRow) : bool :=
  text_ok (or_customerEmail row) && text_ok (or_status row) && text_ok (or_idempotencyKey row)
  && text_ok (or_currency row).

Definition key_taken (key : string) (db : database) : bool :=
  bool_decide (map_Exists (λ _ row, or_idempotencyKey row = key) (db_orders db)).

(* @go order-service/internal/order/adapter/outbound/postgres/order_repository.go insertOrderQuery *)
Definition insertOrder (row : orderRow) (db : database) : result pg_error database :=
  if negb (order_texts_ok row) then Err pg_encoding_error
  else match orders_check row with
  | Some constraint => Err (PgError "23514" constraint)
  | None =>
      if bool_decide (is_Some (db_orders db !! or_id row)) then Err (PgError "23505" "orders_pkey")
      else if key_taken (or_idempotencyKey row) db
      then Err (PgError "23505" idempotencyConstraint)
      else Ok (set_orders db (<[or_id row := mkOrderRow (or_id row) (or_customerID row)
             (or_customerEmail row) (or_status row) (or_idempotencyKey row)
             (or_totalAmountInCents row) (or_currency row)
             (timestamptz (or_createdAt row)) (timestamptz (or_updatedAt row))]> (db_orders db)))
  end.

(* @src order-service/migrations/000001_create_orders.up.sql:29-46 order_items *)
Definition order_items_check (item : orderItemRow) : option string :=
  if (oi_lineNumber item <=? 0)%Z then Some "order_items_line_number_positive"
  else if negb (btrim_not_blank (oi_productSKU item))
  then Some "order_items_product_sku_not_blank"
  else if (oi_quantity item <=? 0)%Z then Some "order_items_quantity_positive"
  else if (oi_unitAmountInCents item <? 0)%Z
  then Some "order_items_unit_amount_in_cents_non_negative"
  else None.

(* @go order-service/internal/order/adapter/outbound/postgres/order_repository.go insertOrderItemQuery *)
Definition insertOrderItem (item : orderItemRow) (db : database) : result pg_error database :=
  if negb (int4_ok (oi_lineNumber item) && int4_ok (oi_quantity item)) then Err pg_int4_error
  else if negb (text_ok (oi_productSKU item)) then Err pg_encoding_error
  else match order_items_check item with
  | Some constraint => Err (PgError "23514" constraint)
  | None =>
      if bool_decide (Exists (λ other, oi_orderID other = oi_orderID item
                                       ∧ oi_lineNumber other = oi_lineNumber item) (db_items db))
      then Err (PgError "23505" "order_items_pkey")
      else if bool_decide (db_orders db !! oi_orderID item = None)
      then Err (PgError "23503" "order_items_order_id_fkey")
      else Ok (set_items db (db_items db ++ [item]))
  end.

(** The number of updated rows, at most one, and the new tables. *)
(* @go order-service/internal/order/adapter/outbound/postgres/order_repository.go updateOrderStateQuery *)
Definition updateOrder (status : string) (updatedAt : Z) (id : uuid) (expected : string)
    (db : database) : result pg_error (Z * database) :=
  if negb (text_ok status && text_ok expected) then Err pg_encoding_error
  else match db_orders db !! id with
  | None => Ok (0%Z, db)
  | Some row =>
      if negb (bool_decide (or_status row = expected)) then Ok (0%Z, db)
      else
      let row' := mkOrderRow (or_id row) (or_customerID row) (or_customerEmail row) status
        (or_idempotencyKey row) (or_totalAmountInCents row) (or_currency row)
        (or_createdAt row) (timestamptz updatedAt) in
      match orders_check row' with
      | Some constraint => Err (PgError "23514" constraint)
      | None => Ok (1%Z, set_orders db (<[id := row']> (db_orders db)))
      end
  end.

(* @go order-service/internal/order/adapter/outbound/postgres/outbox_payload.go eventTypeOrderAccepted *)
Definition eventTypeOrderAccepted : string := "order_accepted".

(** [now] is the server's [now()], the start of the transaction. *)
(* @go order-service/internal/order/adapter/outbound/postgres/order_repository.go insertOutboxEventQuery *)
Definition insertOutboxEvent (now : Z) (eventID : uuid) (eventType : string) (orderID : uuid)
    (payload correlationID : string) (db : database) : result pg_error database :=
  match jsonb payload with
  | None => Err (PgError "22P02" "")
  | Some document =>
      if negb (text_ok eventType && text_ok correlationID) then Err pg_encoding_error
      else if negb (bool_decide (eventType = eventTypeOrderAccepted))
      then Err (PgError "23514" "outbox_events_type_valid")
      else if bool_decide (is_Some (db_outbox db !! eventID))
      then Err (PgError "23505" "outbox_events_pkey")
      else if bool_decide (map_Exists (λ _ row, ob_order_id row = orderID
                                       ∧ ob_event_type row = eventType) (db_outbox db))
      then Err (PgError "23505" "outbox_events_one_per_order")
      else if bool_decide (db_orders db !! orderID = None)
      then Err (PgError "23503" "outbox_events_order_id_fkey")
      else Ok (set_outbox db (<[eventID := mkOutboxRow eventID eventType orderID document
             correlationID "pending" 0 now None None now None None]> (db_outbox db)))
  end.

Definition line_le (a b : orderItemRow) : Prop := (oi_lineNumber a ≤ oi_lineNumber b)%Z.
#[export] Instance line_le_dec a b : Decision (line_le a b).
Proof. unfold line_le; apply _. Defined.

(* @go order-service/internal/order/adapter/outbound/postgres/order_repository.go findOrderItemsQuery *)
Definition selectItems (id : uuid) (db : database) : list orderItemRow :=
  merge_sort line_le
    (filter (λ item, oi_orderID item = id) (db_items db)).

(** The row whose unique key is [key]. *)
(* @go order-service/internal/order/adapter/outbound/postgres/order_repository.go findOrderByIdempotencyKeyQuery *)
Definition selectByKey (key : string) (db : database) : option orderRow :=
  snd <$> list_find (λ row, or_idempotencyKey row = key) (snd <$> map_to_list (db_orders db)).

(** ** The mapper *)

Definition parse_uuid (what s : string) : order_result uuid :=
  match uuid_Parse s with
  | Some u => Ok u
  | None => Err (Wrap what (Opaque (uuid_Parse_error s)))
  end.

(* @src order-service/internal/order/adapter/outbound/postgres/mapper.go:56-70 rowsFromDomain *)
Fixpoint itemRows (orderID : uuid) (index : nat) (items : list OrderItem) : list orderItemRow :=
  match items with
  | [] => []
  | item :: items' =>
      mkOrderItemRow orderID (Z.of_nat index + 1) (productSKU item) (quantity item)
        (AmountInCents (unitPrice item)) :: itemRows orderID (S index) items'
  end.

(* @go order-service/internal/order/adapter/outbound/postgres/mapper.go rowsFromDomain *)
Definition rowsFromDomain (order : Order) : order_result (orderRow * list orderItemRow) :=
  orderID ← parse_uuid "parse order id" (ord_id order);
  customerID ← parse_uuid "parse customer id" (ord_customerID order);
  let total := ord_total order in
  mret ({|
    or_id := orderID;
    or_customerID := customerID;
    or_customerEmail := ord_customerEmail order;
    or_status := ord_status order;
    or_idempotencyKey := ord_idempotencyKey order;
    or_totalAmountInCents := AmountInCents total;
    or_currency := Currency total;
    or_createdAt := ord_createdAt order;
    or_updatedAt := ord_updatedAt order;
  |}, itemRows orderID 0 (ord_orderItems order)).

(* @go order-service/internal/order/adapter/outbound/postgres/mapper.go domainFromRows *)
Definition domainFromRows (storedOrder : orderRow) (storedOrderItems : list orderItemRow)
    : order_result Order :=
  orderItems ← mapM_result (λ stored,
    map_err (Wrap ("map stored order item at line " +:+ Itoa (oi_lineNumber stored)))
      (NewOrderItem (oi_productSKU stored) (oi_quantity stored)
         (mkMoney (oi_unitAmountInCents stored) (or_currency storedOrder)))) storedOrderItems;
  map_err (Wrap ("corrupt persisted order " +:+ uuid_String (or_id storedOrder)))
    (Reconstitute (uuid_String (or_id storedOrder)) (uuid_String (or_customerID storedOrder))
       (or_customerEmail storedOrder) (or_status storedOrder) (or_idempotencyKey storedOrder)
       orderItems (mkMoney (or_totalAmountInCents storedOrder) (or_currency storedOrder))
       (or_createdAt storedOrder) (or_updatedAt storedOrder)).

(** ** The event payload *)

(* @go order-service/internal/order/adapter/outbound/postgres/outbox_payload.go orderAcceptedPayloadLine *)
Record orderAcceptedPayloadLine := mkPayloadLine {
  pl_ProductSKU : string;
  pl_Quantity : Z;
  pl_UnitAmountInCents : Z;
  pl_Currency : string;
}.
(* @go order-service/internal/order/adapter/outbound/postgres/outbox_payload.go orderAcceptedPayload *)
Record orderAcceptedPayload := mkPayload {
  pay_OccurredAt : Z;
  pay_CustomerEmail : string;
  pay_TotalAmountInCents : Z;
  pay_Currency : string;
  pay_Lines : list orderAcceptedPayloadLine;
}.

#[export] Instance orderAcceptedPayloadLine_eq_dec : EqDecision orderAcceptedPayloadLine.
Proof. solve_decision. Defined.
#[export] Instance orderAcceptedPayloadLine_countable : Countable orderAcceptedPayloadLine.
Proof.
  apply (inj_countable'
    (λ l, (pl_ProductSKU l, pl_Quantity l, pl_UnitAmountInCents l, pl_Currency l))
    (λ '(s, q, a, c), mkPayloadLine s q a c)). by intros [].
Defined.
#[export] Instance orderAcceptedPayload_eq_dec : EqDecision orderAcceptedPayload.
Proof. solve_decision. Defined.
#[export] Instance orderAcceptedPayload_countable : Countable orderAcceptedPayload.
Proof.
  apply (inj_countable'
    (λ p, (pay_OccurredAt p, pay_CustomerEmail p, pay_TotalAmountInCents p, pay_Currency p,
           pay_Lines p))
    (λ '(t, e, a, c, l), mkPayload t e a c l)). by intros [].
Defined.

Context `{!Codec orderAcceptedPayload}.

(* @src order-service/internal/order/adapter/outbound/postgres/outbox_payload.go:35-51 payloadFromEvent *)
Definition payload_of_event (event : OrderAcceptedEvent) : orderAcceptedPayload := {|
  pay_OccurredAt := oae_OccurredAt event;
  pay_CustomerEmail := oae_CustomerEmail event;
  pay_TotalAmountInCents := AmountInCents (oae_Total event);
  pay_Currency := Currency (oae_Total event);
  pay_Lines := (λ line, mkPayloadLine (oal_ProductSKU line) (oal_Quantity line)
      (AmountInCents (oal_UnitPrice line)) (Currency (oal_UnitPrice line))) <$> oae_Lines event;
|}.

(* @go order-service/internal/order/adapter/outbound/postgres/outbox_payload.go payloadFromEvent *)
Definition payloadFromEvent (event : OrderAcceptedEvent) : order_result string :=
  map_err Opaque (Marshal (payload_of_event event)).

(* @go order-service/internal/order/adapter/outbound/postgres/outbox_payload.go eventFromPayload *)
Definition eventFromPayload (eventID orderID payload : string) : order_result OrderAcceptedEvent :=
  match Unmarshal payload with
  | Err text => Err (Wrap "decode payload" (Opaque text))
  | Ok stored =>
      if bool_decide (pay_Lines stored = []) || bool_decide (pay_CustomerEmail stored = "")
         || IsZero (pay_OccurredAt stored)
      then Err (Opaque "payload is not a complete order accepted event")
      else Ok {|
        oae_EventID := eventID;
        oae_OrderID := orderID;
        oae_OccurredAt := pay_OccurredAt stored;
        oae_CustomerEmail := pay_CustomerEmail stored;
        oae_Total := mkMoney (pay_TotalAmountInCents stored) (pay_Currency stored);
        oae_Lines := (λ line, mkOrderAcceptedLine (pl_ProductSKU line) (pl_Quantity line)
            (mkMoney (pl_UnitAmountInCents line) (pl_Currency line))) <$> pay_Lines stored;
      |}
  end.

(** ** The operations *)

Definition pg_err (e : pg_error) : order_error := Opaque (pg_error_text e).

(* @go order-service/internal/order/adapter/outbound/postgres/order_repository.go isDuplicateIdempotencyKey *)
Definition isDuplicateIdempotencyKey (err : pg_error) : bool :=
  match err with
  | PgError code constraint =>
      bool_decide (code = "23505") && bool_decide (constraint = idempotencyConstraint)
  | DriverError _ => false
  end.

(* @src order-service/internal/order/adapter/outbound/postgres/order_repository.go:132-145 OrderRepository.Create *)
Fixpoint insertOrderItems (f : faults) (n : nat) (items : list orderItemRow) (db : database)
    : order_result database :=
  match items with
  | [] => Ok db
  | orderItem :: items' =>
      match exec_stmt f n (insertOrderItem orderItem db) with
      | Err err => Err (Wrap ("insert order item at line " +:+ Itoa (oi_lineNumber orderItem))
                          (pg_err err))
      | Ok db' => insertOrderItems f (S n) items' db'
      end
  end.

(** An early return leaves the deferred Rollback to undo the transaction. *)
(* @go order-service/internal/order/adapter/outbound/postgres/order_repository.go OrderRepository.Create *)
Definition repository_Create (f : faults) (order : Order) (db : database)
    : order_result unit * database :=
  match rowsFromDomain order with
  | Err err => (Err (Wrap "map order for creation" err), db)
  | Ok (storedOrder, storedOrderItems) =>
  match flt_begin f with
  | Some text => (Err (Wrap "begin create order transaction" (Opaque text)), db)
  | None =>
  match exec_stmt f 0 (insertOrder storedOrder db) with
  | Err err =>
      (Err (if isDuplicateIdempotencyKey err then app ErrDuplicateIdempotencyKey
            else Wrap "insert order" (pg_err err)), db)
  | Ok db1 =>
  match insertOrderItems f 1 storedOrderItems db1 with
  | Err err => (Err err, db)
  | Ok db2 =>
  match exec_commit f db db2 with
  | (Err err, db') => (Err (Wrap "commit create order transaction" (pg_err err)), db')
  | (Ok _, db') => (Ok tt, db')
  end end end end end.

(** What [updateOrderState] makes of the statement's answer. *)
(* @go order-service/internal/order/adapter/outbound/postgres/order_repository.go updateOrderState *)
Definition updateOrderState (f : faults) (result : result pg_error Z) : order_result unit :=
  match result with
  | Err err => Err (Wrap "update order state" (pg_err err))
  | Ok updated =>
      match flt_rows f with
      | Some text => Err (Wrap "read updated order count" (Opaque text))
      | None => if bool_decide (updated = 0%Z) then Err (app ErrOrderStateConflict) else Ok tt
      end
  end.

(* @go order-service/internal/order/adapter/outbound/postgres/order_repository.go OrderRepository.Update *)
Definition repository_Update (f : faults) (order : Order) (expectedStatus : Status)
    (db : database) : order_result unit * database :=
  match rowsFromDomain order with
  | Err err => (Err (Wrap "map order for update" err), db)
  | Ok (storedOrder, _) =>
      let '(answer, db') := exec_write f 0
        (updateOrder (or_status storedOrder) (or_updatedAt storedOrder) (or_id storedOrder)
           expectedStatus db) db in
      (updateOrderState f answer, db')
  end.

(* @go order-service/internal/order/adapter/outbound/postgres/order_repository.go OrderRepository.UpdateAndRecordEvent *)
Definition repository_UpdateAndRecordEvent (f : faults) (now : Z) (correlationID : string)
    (order : Order) (expectedStatus : Status) (event : OrderAcceptedEvent) (db : database)
    : order_result unit * database :=
  match rowsFromDomain order with
  | Err err => (Err (Wrap "map order for update" err), db)
  | Ok (storedOrder, _) =>
  match parse_uuid "parse event id" (oae_EventID event) with
  | Err err => (Err err, db)
  | Ok eventID =>
  match payloadFromEvent event with
  | Err err => (Err (Wrap "encode outbox payload" err), db)
  | Ok payload =>
  match flt_begin f with
  | Some text => (Err (Wrap "begin update and record event transaction" (Opaque text)), db)
  | None =>
  match exec_stmt f 0 (updateOrder (or_status storedOrder) (or_updatedAt storedOrder)
                         (or_id storedOrder) expectedStatus db) with
  | Err err => (Err (Wrap "update order state" (pg_err err)), db)
  | Ok (updated, db1) =>
  match updateOrderState f (Ok updated) with
  | Err err => (Err err, db)
  | Ok _ =>
  match exec_stmt f 1 (insertOutboxEvent now eventID eventTypeOrderAccepted (or_id storedOrder)
                         payload correlationID db1) with
  | Err err => (Err (Wrap "insert outbox event" (pg_err err)), db)
  | Ok db2 =>
  match exec_commit f db db2 with
  | (Err err, db') => (Err (Wrap "commit update and record event transaction" (pg_err err)), db')
  | (Ok _, db') => (Ok tt, db')
  end end end end end end end end.

(** [QueryRowContext] and [scanOrder]. *)
(* @go order-service/internal/order/adapter/outbound/postgres/order_repository.go scanOrder *)
Definition scanOrder (row : result pg_error (option orderRow)) : order_result orderRow :=
  match row with
  | Err err => Err (Wrap "scan order" (pg_err err))
  | Ok None => Err (app ErrOrderNotFound)
  | Ok (Some storedOrder) => Ok storedOrder
  end.

(** The items are read by a second statement, of a later state [db]. *)
(* @go order-service/internal/order/adapter/outbound/postgres/order_repository.go OrderRepository.loadOrder *)
Definition loadOrder (f : faults) (storedOrder : orderRow) (db : database) : order_result Order :=
  match exec_query f 1 (Ok (selectItems (or_id storedOrder) db)) with
  | Err err => Err (Wrap "query order items" (pg_err err))
  | Ok storedOrderItems =>
      match flt_rows f with
      | Some text => Err (Wrap "iterate order items" (Opaque text))
      | None => domainFromRows storedOrder storedOrderItems
      end
  end.

(* @go order-service/internal/order/adapter/outbound/postgres/order_repository.go OrderRepository.FindByID *)
Definition repository_FindByID (f : faults) (id : string) (db1 db2 : database)
    : order_result Order :=
  parsedID ← parse_uuid "parse order id" id;
  storedOrder ← scanOrder (exec_query f 0 (Ok (db_orders db1 !! parsedID)));
  loadOrder f storedOrder db2.

(* @go order-service/internal/order/adapter/outbound/postgres/order_repository.go OrderRepository.FindByIdempotencyKey *)
Definition repository_FindByIdempotencyKey (f : faults) (key : string) (db1 db2 : database)
    : order_result Order :=
  storedOrder ← scanOrder (exec_query f 0
    (if text_ok key then Ok (selectByKey key db1) else Err pg_encoding_error));
  loadOrder f storedOrder db2.
End order_store.

(** A JSON codec for the witnesses. *)
#[export] Instance sample_json : Codec orderAcceptedPayload := countable_codec _.
#[export] Instance sample_json_laws exact : CodecLaws sample_json exact :=
  countable_codec_laws _ exact.
