(* ===== verification/OrderStoreSpec.v ===== *)
(** * What the order repository promises

    The abstract contents of the tables of [OrderStore]: the order each row loads
    to, and the event each outbox row decodes to. The repository's operations are
    shown to implement a contract stated on those contents only, which is what
    the use case is proved against. *)
From S2P Require Import Prelude GoErrors GoStrings External Postgres OrderErrors OrderDomain Prog OrderPorts OrderStore.

Section store_spec.
Context {Mail : MailLib} {Uuid : UuidLib} {Pg : Postgres} {Json : Codec orderAcceptedPayload}.
Context {UuidL : UuidLaws Uuid} {PgL : PostgresLaws Pg}.

(** Every text of a payload is valid UTF-8. *)
Definition payload_utf8 (p : orderAcceptedPayload) : Prop :=
  utf8_ValidString (pay_CustomerEmail p) = true ∧ utf8_ValidString (pay_Currency p) = true
  ∧ Forall (λ l, utf8_ValidString (pl_ProductSKU l) = true
                 ∧ utf8_ValidString (pl_Currency l) = true) (pay_Lines p).
Context {JsonL : CodecLaws Json payload_utf8}.
(** A JSONB column gives back a document of the same value. *)
Hypothesis jsonb_value : ∀ b b', jsonb b = Some b' → Unmarshal b' = Unmarshal b.

(** ** The mapper *)

(** An order as the use case builds one: valid, its SKUs trimmed, its clock
    readings truncated to microseconds. *)
Definition order_storable (o : Order) : Prop :=
  order_valid o
  ∧ Forall (λ i, TrimSpace (productSKU i) = productSKU i) (ord_orderItems o)
  ∧ (ord_createdAt o `mod` Microsecond = 0)%Z ∧ (ord_updatedAt o `mod` Microsecond = 0)%Z.

(** The order with the canonical texts of its identifiers. *)
Definition canonical (id customerID : uuid) (o : Order) : Order :=
  mkOrder (uuid_String id) (uuid_String customerID) (ord_customerEmail o) (ord_status o)
    (ord_idempotencyKey o) (ord_orderItems o) (ord_total o) (ord_createdAt o) (ord_updatedAt o).

Lemma canonical_valid id cid o : order_valid o → order_valid (canonical id cid o).
Proof.
  intros (_ & _ & ?)%validateOrder_spec. apply validateOrder_spec. cbn.
  rewrite !uuid_String_trimmed. split_and!; try apply uuid_String_nonempty; tauto.
Qed.

Lemma canonical_storable id cid o : order_storable o → order_storable (canonical id cid o).
Proof. intros (? & ? & ? & ?). split_and!; [by apply canonical_valid|done..]. Qed.

(** All the items of a valid order are valid and priced in its currency. *)
Lemma order_valid_items o :
  order_valid o →
  Forall (λ i, item_valid i ∧ Currency (unitPrice i) = Currency (ord_total o)) (ord_orderItems o).
Proof.
  intros (_ & _ & _ & _ & _ & _ & _ & _ & Ht)%validateOrder_spec.
  destruct (ord_orderItems o) as [|i items]; [done|]. cbn [calculateTotal] in Ht.
  assert (∀ acc c l t, calculateTotal_loop c acc l = Ok t →
    Forall (λ i, item_valid i ∧ Currency (unitPrice i) = c) l) as Hloop.
  { intros acc c l. revert acc. induction l as [|j l IH]; intros acc t; cbn; [constructor|].
    destruct (validateItem j) as [[]|] eqn:Hv; [|done]. case_bool_decide; cbn; [|done].
    repeat case_match; try done. intros ?%IH. by constructor. }
  destruct (calculateTotal_loop _ _ _) as [t|] eqn:Hl; [|done]. injection Ht as <-. cbn.
  by eapply Hloop.
Qed.

Lemma order_valid_status o : order_valid o → isValidStatus (ord_status o) = true.
Proof. by intros (_ & _ & _ & _ & ? & _)%validateOrder_spec. Qed.

Lemma itemRows_load (row : orderRow) id n items :
  Forall (λ i, item_valid i ∧ Currency (unitPrice i) = or_currency row) items →
  Forall (λ i, TrimSpace (productSKU i) = productSKU i) items →
  mapM_result (λ stored,
    map_err (Wrap ("map stored order item at line " +:+ Itoa (oi_lineNumber stored)))
      (NewOrderItem (oi_productSKU stored) (oi_quantity stored)
         (mkMoney (oi_unitAmountInCents stored) (or_currency row)))) (itemRows id n items)
  = Ok items.
Proof.
  intros Hv Ht. apply mapM_result_Forall2. revert n.
  induction items as [|i items IH]; intros n; cbn; [constructor|].
  apply Forall_cons in Hv as [[Hi Hc] Hv], Ht as [Hs Ht].
  constructor; [|by apply IH]. apply map_err_ok. cbn. unfold NewOrderItem.
  rewrite Hs, <-Hc. destruct i as [sku q [a c]]; cbn in *. by rewrite Hi.
Qed.

Lemma rows_load o row items :
  order_storable o → rowsFromDomain o = Ok (row, items) →
  uuid_Parse (ord_id o) = Some (or_id row) ∧ uuid_Parse (ord_customerID o) = Some (or_customerID row)
  ∧ domainFromRows row items = Ok (canonical (or_id row) (or_customerID row) o).
Proof.
  intros (Hv & Htrim & _) Hrows. unfold rowsFromDomain, parse_uuid in Hrows.
  destruct (uuid_Parse (ord_id o)) as [id|]; [|done]. cbn in Hrows.
  destruct (uuid_Parse (ord_customerID o)) as [cid|]; [|done]. injection Hrows as <- <-.
  cbn. split_and!; [done..|]. unfold domainFromRows. rewrite itemRows_load; [|by apply order_valid_items|done].
  cbn. apply map_err_ok, Reconstitute_ok. split; [by destruct o as [????? ? [] ??]|].
  by apply (canonical_valid id cid o).
Qed.

(** C26: loading the rows an order is stored as gives the order back, with the
    canonical texts of its identifiers. *)
Theorem mapper_roundtrip o row items :
  order_storable o → rowsFromDomain o = Ok (row, items) →
  uuid_Parse (ord_id o) = Some (or_id row) ∧ uuid_Parse (ord_customerID o) = Some (or_customerID row)
  ∧ domainFromRows row items = Ok (canonical (or_id row) (or_customerID row) o).
Proof. exact (rows_load o row items). Qed.

(** ** The abstract contents *)

(** The order stored under an identifier, as a caller loads it. *)
Definition view (db : database) (id : uuid) : option Order :=
  match db_orders db !! id with
  | None => None
  | Some row =>
      match domainFromRows row (selectItems (or_id row) db) with
      | Ok o => Some o
      | Err _ => None
      end
  end.

(** The outbox holds the event [ev] for the order [id]. *)
Definition recorded (db : database) (id : uuid) (ev : OrderAcceptedEvent) : Prop :=
  ∃ eid row, db_outbox db !! eid = Some row ∧ ob_order_id row = id
    ∧ eventFromPayload (uuid_String eid) (uuid_String id) (ob_payload row) = Ok ev.

(** The texts of an order are what the server takes for a text, and its quantities fit
    the column of 32 bits. *)
Definition order_encodable (o : Order) : Prop :=
  (text_ok (ord_customerEmail o) = true ∧ text_ok (ord_idempotencyKey o) = true)
  ∧ Forall (λ i, text_ok (productSKU i) = true ∧ in_int32 (quantity i)) (ord_orderItems o).

(** The invariant of the tables: keys match rows, identifiers and idempotency
    keys are unique, items belong to stored orders, every stored order loads, and every
    event of the outbox can be read. *)
Record db_wf (db : database) : Prop := {
  wf_key : ∀ id row, db_orders db !! id = Some row → or_id row = id;
  wf_unique : ∀ id1 id2 row1 row2, db_orders db !! id1 = Some row1 →
    db_orders db !! id2 = Some row2 → or_idempotencyKey row1 = or_idempotencyKey row2 → id1 = id2;
  wf_items : Forall (λ item, is_Some (db_orders db !! oi_orderID item)) (db_items db);
  wf_load : ∀ id row, db_orders db !! id = Some row →
    ∃ o, domainFromRows row (selectItems id db) = Ok o ∧ order_storable o ∧ order_encodable o;
  wf_outbox : ∀ eid row, db_outbox db !! eid = Some row →
    ob_event_id row = eid ∧ ob_event_type row = eventTypeOrderAccepted;
  wf_events : ∀ eid row, db_outbox db !! eid = Some row →
    ∃ ev, eventFromPayload (uuid_String eid) (uuid_String (ob_order_id row)) (ob_payload row) = Ok ev;
}.

Lemma domainFromRows_fields row items o :
  domainFromRows row items = Ok o →
  order_valid o ∧ ord_id o = uuid_String (or_id row) ∧ ord_status o = or_status row
  ∧ ord_idempotencyKey o = or_idempotencyKey row ∧ ord_createdAt o = or_createdAt row
  ∧ ord_updatedAt o = or_updatedAt row ∧ ord_customerEmail o = or_customerEmail row
  ∧ Forall (λ i, TrimSpace (productSKU i) = productSKU i) (ord_orderItems o).
Proof.
  unfold domainFromRows. intros Hd. ok_inv. apply Reconstitute_ok in Hd as [-> Hv].
  split_and!; try done. cbn. clear Hv. apply mapM_result_Forall2 in Hd0.
  induction Hd0 as [|x y l k Hxy _ IH]; constructor; [|done].
  apply map_err_ok in Hxy. unfold NewOrderItem in Hxy.
  destruct (validateItem _); [|done]. injection Hxy as <-. cbn. by rewrite TrimSpace_idemp.
Qed.

Lemma view_row db id o :
  db_wf db → view db id = Some o ↔
  ∃ row, db_orders db !! id = Some row ∧ domainFromRows row (selectItems id db) = Ok o.
Proof.
  intros Hwf. unfold view. destruct (db_orders db !! id) as [row|] eqn:Hrow.
  2:{ split; [done|]. by intros (? & ? & _). }
  rewrite (wf_key _ Hwf _ _ Hrow). split.
  - destruct (domainFromRows _ _) eqn:Hd; [|done]. intros [= <-]. eauto.
  - intros (row' & [= <-] & ->). done.
Qed.

Lemma view_None db id : db_wf db → view db id = None ↔ db_orders db !! id = None.
Proof.
  intros Hwf. split.
  - intros Hv. destruct (db_orders db !! id) as [row|] eqn:Hrow; [|done].
    destruct (wf_load _ Hwf _ _ Hrow) as (o & Ho & _).
    assert (view db id = Some o) as Hs by (apply view_row; eauto). congruence.
  - unfold view. by intros ->.
Qed.

(** Keys of rows are keys of orders. *)
Lemma view_key_row db id o :
  db_wf db → view db id = Some o → ∃ row, db_orders db !! id = Some row
    ∧ or_idempotencyKey row = ord_idempotencyKey o ∧ or_status row = ord_status o.
Proof.
  intros Hwf (row & Hrow & Hd)%view_row; [|done]. exists row.
  apply domainFromRows_fields in Hd as (_ & _ & -> & -> & _). done.
Qed.

Lemma selectItems_same items1 db1 db2 id :
  db_items db2 = db_items db1 ++ items1 → Forall (λ item, oi_orderID item ≠ id) items1 →
  selectItems id db2 = selectItems id db1.
Proof.
  intros Heq Hne. unfold selectItems. rewrite Heq, filter_app.
  assert (filter (λ item, oi_orderID item = id) items1 = []) as ->; [|by rewrite app_nil_r].
  clear Heq. induction Hne as [|x l Hx _ IH]; [done|]. by rewrite filter_cons_False.
Qed.

Lemma itemRows_spec id n items :
  Forall (λ item, oi_orderID item = id) (itemRows id n items)
  ∧ Forall (λ item, Z.of_nat n < oi_lineNumber item)%Z (itemRows id n items)
  ∧ NoDup (oi_lineNumber <$> itemRows id n items)
  ∧ Sorted Z.le (oi_lineNumber <$> itemRows id n items).
Proof.
  revert n. induction items as [|i items IH]; intros n; [repeat constructor|].
  destruct (IH (S n)) as (H1 & H2 & H3 & H4). cbn [itemRows fmap list_fmap].
  split_and!; [by constructor| | |].
  - constructor; cbn; [lia|]. eapply Forall_impl; [done|]. cbn. lia.
  - apply NoDup_cons. split; [|done]. intros (y & Hy & Hin)%list_elem_of_fmap.
    eapply Forall_forall in H2; [|exact Hin]. cbn in *. lia.
  - constructor; [done|]. destruct (itemRows id (S n) items) as [|x l]; constructor.
    apply Forall_cons in H2 as [H2 _]. cbn. lia.
Qed.

(** The items of a new order are read back in their order. *)
Lemma selectItems_new db1 db2 id n items :
  db_items db2 = db_items db1 ++ itemRows id n items →
  Forall (λ item, oi_orderID item ≠ id) (db_items db1) →
  selectItems id db2 = itemRows id n items.
Proof.
  intros Heq Hne. destruct (itemRows_spec id n items) as (H1 & _ & H3 & H4).
  assert (filter (λ item, oi_orderID item = id) (db_items db2) = itemRows id n items) as Hf.
  { rewrite Heq, filter_app. clear Heq H3 H4.
    assert (filter (λ item, oi_orderID item = id) (db_items db1) = []) as ->.
    { induction Hne as [|x l Hx _ IH]; [done|]. by rewrite filter_cons_False. }
    cbn. induction H1 as [|x l Hx _ IH]; [done|]. rewrite filter_cons_True by done. by f_equal. }
  unfold selectItems. rewrite Hf. symmetry.
  apply (sorted_by_key_unique Z.le oi_lineNumber); [done|done| |].
  - eapply (Sorted_fmap _ line_le); [done|]. apply Sorted_merge_sort. intros x y. unfold line_le. lia.
  - by rewrite merge_sort_Permutation.
Qed.
(** ** The contract *)

Definition with_state (o : Order) (status : Status) (updatedAt : Z) : Order :=
  mkOrder (ord_id o) (ord_customerID o) (ord_customerEmail o) status (ord_idempotencyKey o)
    (ord_orderItems o) (ord_total o) (ord_createdAt o) updatedAt.

(** The events recorded depend on the outbox table only. *)
Lemma same_outbox db db' id ev :
  db_outbox db' = db_outbox db → recorded db' id ev ↔ recorded db id ev.
Proof. intros Heq. unfold recorded. by rewrite Heq. Qed.

(** The order [o] is added under a fresh identifier and key. *)
Definition created (db : database) (id : uuid) (o : Order) (db' : database) : Prop :=
  view db id = None
  ∧ (∀ id' o', view db id' = Some o' → ord_idempotencyKey o' ≠ ord_idempotencyKey o)
  ∧ (∀ id', view db' id' = if decide (id' = id) then Some o else view db id')
  ∧ db_outbox db' = db_outbox db ∧ order_encodable o.

(** The order [id], found in the status [expected], takes the state of [o]. *)
Definition moved (db : database) (id : uuid) (o : Order) (expected : Status) (db' : database)
    : Prop :=
  ∃ cur, view db id = Some cur ∧ ord_status cur = expected
  ∧ ∀ id', view db' id' =
      if decide (id' = id) then Some (with_state cur (ord_status o) (ord_updatedAt o))
      else view db id'.

(** The event [ev], with the canonical texts of its identifiers, is added. *)
Definition event_added (db : database) (id : uuid) (ev : OrderAcceptedEvent) (db' : database)
    : Prop :=
  ∃ eid row, uuid_Parse (oae_EventID ev) = Some eid
  ∧ db_outbox db !! eid = None ∧ db_outbox db' = <[eid := row]> (db_outbox db)
  ∧ ob_order_id row = id ∧ ob_status row = "pending" ∧ ob_attempts row = 0%Z
  ∧ ob_claim_token row = None
  ∧ (∀ ev', ¬ recorded db id ev')
  ∧ ∀ id' ev', recorded db' id' ev' ↔ recorded db id' ev' ∨
      (id' = id ∧ ev' = mkOrderAcceptedEvent (uuid_String eid) (uuid_String id)
        (oae_OccurredAt ev) (oae_CustomerEmail ev) (oae_Total ev) (oae_Lines ev)).

Definition conflict (db : database) (o : Order) (expected : Status) : Prop :=
  ∀ id cur, uuid_Parse (ord_id o) = Some id → view db id = Some cur → ord_status cur ≠ expected.

(** What each call of the use case does to the contents and may answer. A failed
    write leaves them as they were, unless the answer of a statement or a COMMIT
    the server had applied was lost; such an error is none of the sentinels the
    use case branches on. *)
Definition order_contract {R} (db : database) (e : orderE R) : R → database → Prop :=
  match e in orderE R return R → database → Prop with
  | FindByIdempotencyKey key => λ r db', db' = db ∧
      match r with
      | Ok o => ∃ id, view db id = Some o ∧ ord_idempotencyKey o = key
      | Err err => is_app err ErrOrderNotFound = true →
          ∀ id o, view db id = Some o → ord_idempotencyKey o ≠ key
      end
  | FindByID s => λ r db', db' = db ∧
      match r with
      | Ok o => ∃ id, uuid_Parse s = Some id ∧ view db id = Some o
      | Err err => is_app err ErrOrderNotFound = true →
          ∃ id, uuid_Parse s = Some id ∧ view db id = None
      end
  | Create o => λ r db',
      match r with
      | Ok _ => ∃ id cid, uuid_Parse (ord_id o) = Some id ∧ created db id (canonical id cid o) db'
      | Err err =>
          (db' = db ∧ (is_app err ErrDuplicateIdempotencyKey = true →
             ∃ id o', view db id = Some o' ∧ ord_idempotencyKey o' = ord_idempotencyKey o))
          ∨ (is_app err ErrDuplicateIdempotencyKey = false ∧ ∃ id cid,
               uuid_Parse (ord_id o) = Some id ∧ created db id (canonical id cid o) db')
      end
  | Update o expected => λ r db',
      match r with
      | Ok _ => ∃ id, uuid_Parse (ord_id o) = Some id ∧ moved db id o expected db'
                      ∧ db_outbox db' = db_outbox db
      | Err err =>
          (db' = db ∧ (is_app err ErrOrderStateConflict = true → conflict db o expected))
          ∨ (is_app err ErrOrderStateConflict = false ∧ ∃ id,
               uuid_Parse (ord_id o) = Some id ∧ moved db id o expected db'
               ∧ db_outbox db' = db_outbox db)
      end
  | UpdateAndRecordEvent o expected ev => λ r db',
      match r with
      | Ok _ => ∃ id, uuid_Parse (ord_id o) = Some id ∧ moved db id o expected db'
                      ∧ event_added db id ev db'
      | Err err =>
          (db' = db ∧ (is_app err ErrOrderStateConflict = true → conflict db o expected))
          ∨ (is_app err ErrOrderStateConflict = false ∧ ∃ id,
               uuid_Parse (ord_id o) = Some id ∧ moved db id o expected db'
               ∧ event_added db id ev db')
      end
  | _ => λ _ db', db' = db
  end.

(** What a caller owes: a storable order, and in an update one that differs from
    the stored one in its state only; the event is that of the order. *)
Definition update_pre (db : database) (o : Order) : Prop :=
  order_storable o
  ∧ ∀ id cur, uuid_Parse (ord_id o) = Some id → view db id = Some cur →
      ord_createdAt cur = ord_createdAt o.
Definition order_pre {R} (db : database) (e : orderE R) : Prop :=
  match e with
  | Create o => order_storable o
  | Update o _ => update_pre db o
  | UpdateAndRecordEvent o _ ev =>
      update_pre db o ∧ order_encodable o ∧ ev = newOrderAcceptedEvent (oae_EventID ev) o
  | _ => True
  end.
(** ** Creating an order *)

Lemma insertOrder_ok row db db1 :
  insertOrder row db = Ok db1 ↔
  order_texts_ok row = true ∧ orders_check row = None ∧ db_orders db !! or_id row = None
  ∧ (∀ id row', db_orders db !! id = Some row' → or_idempotencyKey row' ≠ or_idempotencyKey row)
  ∧ db1 = set_orders db (<[or_id row := mkOrderRow (or_id row) (or_customerID row)
             (or_customerEmail row) (or_status row) (or_idempotencyKey row)
             (or_totalAmountInCents row) (or_currency row)
             (timestamptz (or_createdAt row)) (timestamptz (or_updatedAt row))]> (db_orders db)).
Proof.
  unfold insertOrder, key_taken. destruct (order_texts_ok row); cbn; [|by split; [|intros (? & _)]].
  destruct (orders_check row); [by split; [|intros (_ & ? & _)]|].
  case_bool_decide as H1.
  { split; [done|]. intros (_ & _ & H2 & _). rewrite H2 in H1. by destruct H1. }
  case_bool_decide as H2.
  { split; [done|]. intros (_ & _ & _ & H3 & _).
    apply map_Exists_lookup in H2 as (id & row' & Hl & Hk). by destruct (H3 id row'). }
  split.
  - intros [= <-]. split_and!; [done..|by apply eq_None_not_Some| |done].
    intros id row' Hl Hk. apply H2, map_Exists_lookup. eauto.
  - by intros (_ & _ & _ & _ & ->).
Qed.

Lemma insertOrderItems_ok f n items db db' :
  insertOrderItems f n items db = Ok db' →
  db_orders db' = db_orders db ∧ db_outbox db' = db_outbox db
  ∧ db_items db' = db_items db ++ items
  ∧ Forall (λ item, (text_ok (oi_productSKU item) = true ∧ in_int32 (oi_quantity item))
                    ∧ is_Some (db_orders db !! oi_orderID item)) items.
Proof.
  revert n db. induction items as [|item items IH]; intros n db; cbn.
  { intros [= <-]. by rewrite app_nil_r. }
  unfold exec_stmt. destruct (flt_stmt f n) as [[]|]; [done|].
  destruct (insertOrderItem item db) as [db1|] eqn:Hi; [|done]. intros Hrest.
  unfold insertOrderItem in Hi. destruct (int4_ok (oi_lineNumber item) && _) eqn:Hint; cbn in Hi; [|done].
  apply andb_true_iff in Hint as [_ Hint%int4_ok_spec].
  destruct (text_ok _) eqn:Ht; cbn in Hi; [|done]. destruct (order_items_check item); [done|].
  case_bool_decide; [done|]. case_bool_decide as Hfk; [done|]. injection Hi as <-.
  destruct (IH _ _ Hrest) as (E1 & E2 & E3 & E4). cbn in *.
  split_and!; [done..| |].
  - by rewrite E3, <-app_assoc.
  - constructor; [|done]. split; [done|]. by apply not_eq_None_Some.
Qed.

Lemma text_ok_utf8 s : text_ok s = true → utf8_ValidString s = true.
Proof. unfold text_ok. by intros [? _]%andb_true_iff. Qed.

Lemma canonical_encodable id cid o : order_encodable (canonical id cid o) ↔ order_encodable o.
Proof. done. Qed.

Lemma itemRows_Forall P id n items :
  Forall (λ item, P (oi_productSKU item) (oi_quantity item)) (itemRows id n items) →
  Forall (λ i, P (productSKU i) (quantity i)) items.
Proof.
  revert n. induction items as [|i items IH]; intros n; cbn; [done|].
  intros [Hi Hl]%Forall_cons. constructor; [done|by eapply IH].
Qed.

Lemma rowsFromDomain_fields o row items :
  rowsFromDomain o = Ok (row, items) →
  uuid_Parse (ord_id o) = Some (or_id row) ∧ items = itemRows (or_id row) 0 (ord_orderItems o)
  ∧ or_status row = ord_status o ∧ or_updatedAt row = ord_updatedAt o
  ∧ or_createdAt row = ord_createdAt o ∧ or_idempotencyKey row = ord_idempotencyKey o
  ∧ or_customerEmail row = ord_customerEmail o.
Proof.
  unfold rowsFromDomain, parse_uuid. destruct (uuid_Parse (ord_id o)); [|done]. cbn.
  destruct (uuid_Parse (ord_customerID o)); [|done]. by intros [= <- <-].
Qed.

(** [db2] is [db] with the row of one more order and its items. *)
Record one_more (db : database) (row : orderRow) (items : list OrderItem) (db2 : database)
    : Prop := {
  om_orders : db_orders db2 = <[or_id row := row]> (db_orders db);
  om_outbox : db_outbox db2 = db_outbox db;
  om_items : db_items db2 = db_items db ++ itemRows (or_id row) 0 items;
  om_fresh : db_orders db !! or_id row = None;
  om_key : ∀ id row', db_orders db !! id = Some row' →
    or_idempotencyKey row' ≠ or_idempotencyKey row;
}.

Lemma one_more_items db row items db2 :
  db_wf db → one_more db row items db2 →
  selectItems (or_id row) db2 = itemRows (or_id row) 0 items
  ∧ ∀ id, id ≠ or_id row → selectItems id db2 = selectItems id db.
Proof.
  intros Hwf [E1 E2 E3 Hnone Huniq].
  destruct (itemRows_spec (or_id row) 0 items) as (Hids & _). split.
  - eapply selectItems_new; [done|]. eapply Forall_impl; [apply Hwf|]. cbn.
    intros item Hs Heq. rewrite Heq, Hnone in Hs. by destruct Hs.
  - intros id Hne. eapply selectItems_same; [done|]. eapply Forall_impl; [done|]. cbn. congruence.
Qed.

Lemma one_more_wf db row items db2 o :
  db_wf db → one_more db row items db2 →
  domainFromRows row (itemRows (or_id row) 0 items) = Ok o →
  order_storable o → order_encodable o → db_wf db2.
Proof.
  intros Hwf Hom Hload Hsto Hutf. destruct (one_more_items _ _ _ _ Hwf Hom) as [Hnew Hsame].
  destruct (itemRows_spec (or_id row) 0 items) as (Hids & _).
  destruct Hom as [E1 E2 E3 Hnone Huniq]. split.
  - intros id' row'. rewrite E1, lookup_insert_Some. intros [[<- <-]|[_ ?]]; [done|]. by apply Hwf.
  - intros id1 id2 r1 r2. rewrite E1, !lookup_insert_Some.
    intros [[<- <-]|[_ H1]] [[<- <-]|[_ H2]] Heq; [done| | |by eapply (wf_unique _ Hwf)].
    + by destruct (Huniq id2 r2).
    + by destruct (Huniq id1 r1).
  - rewrite E3. apply Forall_app. split.
    + eapply Forall_impl; [apply Hwf|]. cbn. intros item Hs. rewrite E1, lookup_insert_is_Some.
      destruct (decide (or_id row = oi_orderID item)); auto.
    + eapply Forall_impl; [done|]. cbn. intros item ->. rewrite E1, lookup_insert_eq. done.
  - intros id' row'. rewrite E1, lookup_insert_Some. intros [[<- <-]|[Hne Hl]].
    + rewrite Hnew. eauto.
    + rewrite Hsame by done. by apply Hwf.
  - rewrite E2. apply Hwf.
  - rewrite E2. apply Hwf.
Qed.

Lemma one_more_created db row items db2 o :
  db_wf db → one_more db row items db2 →
  domainFromRows row (itemRows (or_id row) 0 items) = Ok o →
  order_storable o → order_encodable o → created db (or_id row) o db2.
Proof.
  intros Hwf Hom Hload Hsto Hutf.
  pose proof (one_more_wf _ _ _ _ _ Hwf Hom Hload Hsto Hutf) as Hwf2.
  destruct (one_more_items _ _ _ _ Hwf Hom) as [Hnew Hsame].
  destruct Hom as [E1 E2 E3 Hnone Huniq]. split_and!; [by apply view_None| | | |done].
  - intros id' o' (row' & Hl & <- & _)%view_key_row; [|done].
    apply domainFromRows_fields in Hload as (_ & _ & _ & -> & _). by eapply Huniq.
  - intros id'. destruct (decide (id' = or_id row)) as [->|Hne].
    + apply view_row; [done|]. exists row. by rewrite E1, lookup_insert_eq, Hnew.
    + unfold view. rewrite E1, lookup_insert_ne by done.
      destruct (db_orders db !! id') as [row'|] eqn:Hl; [|done].
      by rewrite (wf_key _ Hwf _ _ Hl), Hsame.
  - exact E2.
Qed.

(** What the transaction of [Create] commits. *)
Lemma create_tables f o row items db db1 db2 :
  db_wf db → order_storable o → rowsFromDomain o = Ok (row, items) →
  insertOrder row db = Ok db1 → insertOrderItems f 1 items db1 = Ok db2 →
  db_wf db2 ∧ created db (or_id row) (canonical (or_id row) (or_customerID row) o) db2.
Proof.
  intros Hwf Hst Hrows Hins Hitems.
  destruct (rows_load _ _ _ Hst Hrows) as (_ & _ & Hload).
  destruct (rowsFromDomain_fields _ _ _ Hrows) as (_ & -> & _ & Hu & Hc & Hk & He).
  pose proof (canonical_storable (or_id row) (or_customerID row) o Hst) as Hsto.
  destruct Hst as (_ & _ & Hmc & Hmu).
  apply insertOrder_ok in Hins as (Ht & _ & Hnone & Huniq & ->).
  rewrite !timestamptz_microseconds in Hitems by congruence.
  destruct (insertOrderItems_ok _ _ _ _ _ Hitems) as (E1 & E2 & E3 & E4). cbn in E1, E2, E3.
  replace (mkOrderRow _ _ _ _ _ _ _ _ _) with row in E1 by by destruct row.
  assert (one_more db row (ord_orderItems o) db2) as Hom by done.
  assert (order_encodable (canonical (or_id row) (or_customerID row) o)) as Hutf.
  { split; cbn.
    - rewrite <-He, <-Hk. unfold order_texts_ok in Ht. by reflect_bools.
    - apply (itemRows_Forall (λ s q, text_ok s = true ∧ in_int32 q) (or_id row) 0).
      eapply Forall_impl; [exact E4|]. by intros ? [? _]. }
  split; [by eapply one_more_wf|by eapply one_more_created].
Qed.
(** ** Changing a state *)

Lemma updateOrder_ok st t id expected db n db1 :
  updateOrder st t id expected db = Ok (n, db1) →
  (n = 0%Z ∧ db1 = db ∧ ∀ row, db_orders db !! id = Some row → or_status row ≠ expected)
  ∨ (n = 1%Z ∧ ∃ row, db_orders db !! id = Some row ∧ or_status row = expected
     ∧ db1 = set_orders db (<[id := mkOrderRow (or_id row) (or_customerID row)
         (or_customerEmail row) st (or_idempotencyKey row) (or_totalAmountInCents row)
         (or_currency row) (or_createdAt row) (timestamptz t)]> (db_orders db))).
Proof.
  unfold updateOrder. destruct (text_ok st && text_ok expected); cbn; [|done].
  destruct (db_orders db !! id) as [row|]; [|intros [= <- <-]; by left].
  case_bool_decide as Hs; cbn; [|intros [= <- <-]; left; naive_solver].
  destruct (orders_check _); [done|]. intros [= <- <-]. right. eauto.
Qed.

Lemma domainFromRows_state row items o st t :
  domainFromRows row items = Ok o → isValidStatus st = true → t ≠ 0%Z →
  (ord_createdAt o ≤ t)%Z →
  domainFromRows (mkOrderRow (or_id row) (or_customerID row) (or_customerEmail row) st
    (or_idempotencyKey row) (or_totalAmountInCents row) (or_currency row) (or_createdAt row) t)
    items = Ok (with_state o st t).
Proof.
  unfold domainFromRows. intros Hd Hst Ht Hle. cbn. ok_inv. rewrite Hd0. cbn.
  apply map_err_ok. apply Reconstitute_ok in Hd as [-> Hv]. apply Reconstitute_ok.
  split; [done|]. apply validateOrder_spec in Hv. apply validateOrder_spec.
  unfold with_state in *; cbn in *. tauto.
Qed.

(** What a successful statement leaves, in a well-formed store. *)
Lemma update_tables o id expected db n db1 :
  db_wf db → update_pre db o → uuid_Parse (ord_id o) = Some id →
  updateOrder (ord_status o) (ord_updatedAt o) id expected db = Ok (n, db1) →
  (n = 0%Z ∧ db1 = db ∧ conflict db o expected)
  ∨ (n = 1%Z ∧ db_wf db1 ∧ moved db id o expected db1
     ∧ db_outbox db1 = db_outbox db).
Proof.
  intros Hwf [Hst Hpre] Hid [(-> & -> & Hno)|(-> & row & Hrow & Hs & ->)]%updateOrder_ok.
  - left. split_and!; [done..|]. intros id' cur Hid' (row & Hrow & _ & <-)%view_key_row; [|done].
    simplify_eq. by apply Hno.
  - right. split; [done|]. destruct Hst as (Hv & _ & _ & Hmu).
    rewrite timestamptz_microseconds by done.
    destruct (wf_load _ Hwf _ _ Hrow) as (cur & Hload & (Hcv & Hct & Hcc & _) & Hutf).
    assert (view db id = Some cur) as Hcur by (apply view_row; eauto).
    pose proof (Hpre _ _ Hid Hcur) as Hc.
    pose proof (order_valid_status _ Hv) as Hvs.
    apply validateOrder_spec in Hv as (_ & _ & _ & _ & _ & _ & Hnz & Hle & _).
    rewrite <-Hc in Hle.
    pose proof (domainFromRows_state _ _ _ _ _ Hload Hvs Hnz Hle) as Hload'.
    set (row' := mkOrderRow _ _ _ _ _ _ _ _ _) in *.
    set (db1 := set_orders _ _).
    assert (db_wf db1) as Hwf1.
    { split; cbn.
      - intros id' r. rewrite lookup_insert_Some. intros [[<- <-]|[_ ?]]; [|by apply Hwf].
        by apply (wf_key _ Hwf id row).
      - intros id1 id2 r1 r2. rewrite !lookup_insert_Some.
        intros [[<- <-]|[_ H1]] [[<- <-]|[_ H2]] Heq; [done|..]; by eapply (wf_unique _ Hwf).
      - eapply Forall_impl; [apply Hwf|]. cbn. intros item Hi. rewrite lookup_insert_is_Some.
        destruct (decide (id = oi_orderID item)); auto.
      - intros id' r. rewrite lookup_insert_Some. intros [[<- <-]|[_ Hl]]; [|by apply Hwf].
        exists (with_state cur (ord_status o) (ord_updatedAt o)). split; [done|].
        split; [|done]. split; [|done]. by apply (domainFromRows_fields _ _ _ Hload').
      - apply Hwf.
      - apply Hwf. }
    split_and!; [done| |done]. exists cur. split_and!; [done| |].
    + by apply domainFromRows_fields in Hload as (_ & _ & -> & _).
    + intros id'. destruct (decide (id' = id)) as [->|Hne].
      * apply view_row; [done|]. exists row'. cbn. by rewrite lookup_insert_eq.
      * unfold view. cbn. by rewrite lookup_insert_ne.
Qed.
(** ** Recording the event *)

Definition event_complete (ev : OrderAcceptedEvent) : Prop :=
  oae_Lines ev ≠ [] ∧ oae_CustomerEmail ev ≠ "" ∧ oae_OccurredAt ev ≠ 0%Z.

Definition with_ids (eventID orderID : string) (ev : OrderAcceptedEvent) : OrderAcceptedEvent :=
  mkOrderAcceptedEvent eventID orderID (oae_OccurredAt ev) (oae_CustomerEmail ev) (oae_Total ev)
    (oae_Lines ev).

Lemma payload_decodes ev b b' eventID orderID :
  event_complete ev → payload_utf8 (payload_of_event ev) →
  payloadFromEvent ev = Ok b → jsonb b = Some b' →
  eventFromPayload eventID orderID b' = Ok (with_ids eventID orderID ev).
Proof.
  intros (Hl & He & Ht) Hutf Hm%map_err_ok Hj. apply jsonb_value in Hj.
  unfold eventFromPayload. rewrite Hj. erewrite Unmarshal_Marshal by done. cbn.
  destruct ev as [ei oi occ email [amount cur] lines]; cbn in *.
  rewrite bool_decide_eq_false_2 by (by destruct lines).
  rewrite bool_decide_eq_false_2 by done. unfold IsZero. rewrite bool_decide_eq_false_2 by done.
  cbn. unfold with_ids. cbn. do 2 f_equal. rewrite <-list_fmap_compose.
  rewrite <-(list_fmap_id lines) at 2. apply list_fmap_ext. intros _ [? ? []] _. done.
Qed.

(** C27: what is stored in the outbox for a complete event decodes to that event,
    under the identifiers of its row. *)
Theorem payload_roundtrip ev b b' eventID orderID :
  event_complete ev → payload_utf8 (payload_of_event ev) →
  payloadFromEvent ev = Ok b → jsonb b = Some b' →
  eventFromPayload eventID orderID b' = Ok (with_ids eventID orderID ev).
Proof. exact (payload_decodes ev b b' eventID orderID). Qed.

Lemma supported_text c : isCurrencySupported c = true → text_ok c = true.
Proof.
  unfold isCurrencySupported. intros H. reflect_bools.
  destruct H; reflect_bools; subst; reflexivity.
Qed.
Lemma supported_utf8 c : isCurrencySupported c = true → utf8_ValidString c = true.
Proof. by intros ?%supported_text%text_ok_utf8. Qed.

(** The event of a valid order is complete, and as valid UTF-8 as its order. *)
Lemma order_event_ok o eventID :
  order_valid o → order_encodable o →
  event_complete (newOrderAcceptedEvent eventID o)
  ∧ payload_utf8 (payload_of_event (newOrderAcceptedEvent eventID o)).
Proof.
  intros Hv [[He%text_ok_utf8 _] Hs]. pose proof (order_valid_items _ Hv) as Hitems.
  apply validateOrder_spec in Hv as (_ & _ & Hem & _ & _ & _ & Hnz & _ & Ht).
  destruct (ord_orderItems o) as [|i items] eqn:Hio; [done|].
  assert (Forall (λ i, utf8_ValidString (Currency (unitPrice i)) = true) (i :: items)) as Hcur.
  { eapply Forall_impl; [exact Hitems|]. cbn. intros j [(_ & _ & _ & Hc)%validateItem_spec _].
    by apply supported_utf8. }
  split.
  - split_and!; cbn; [by rewrite Hio| |done]. intros Heq. rewrite Heq in Hem.
    by unfold isEmailValid in Hem; cbn in Hem.
  - split_and!; cbn; [done| |].
    + apply Forall_cons in Hitems as [[(_ & _ & _ & Hc)%validateItem_spec Heq] _].
      rewrite <-Heq. by apply supported_utf8.
    + rewrite Hio. rewrite !Forall_fmap. cbn.
      apply Forall_and; split; [|done]. eapply Forall_impl; [exact Hs|]. by intros ? [?%text_ok_utf8 _].
Qed.

Lemma insertOutboxEvent_ok now eid oid payload cid db db1 :
  (∀ eid row, db_outbox db !! eid = Some row → ob_event_type row = eventTypeOrderAccepted) →
  insertOutboxEvent now eid eventTypeOrderAccepted oid payload cid db = Ok db1 →
  ∃ doc, jsonb payload = Some doc ∧ db_outbox db !! eid = None
  ∧ (∀ eid' row, db_outbox db !! eid' = Some row → ob_order_id row ≠ oid)
  ∧ db1 = set_outbox db (<[eid := mkOutboxRow eid eventTypeOrderAccepted oid doc cid "pending"
            0 now None None now None None]> (db_outbox db)).
Proof.
  intros Hty. unfold insertOutboxEvent. destruct (jsonb payload) as [doc|]; [|done].
  destruct (text_ok _ && text_ok cid); cbn; [|done].
  rewrite bool_decide_eq_true_2 by done. cbn. case_bool_decide as H1; [done|]. case_bool_decide as H2; [done|].
  case_bool_decide; [done|]. intros [= <-]. exists doc.
  split_and!; [done|by apply eq_None_not_Some| |done].
  intros eid' row Hl Heq. apply H2, map_Exists_lookup. eauto 10.
Qed.

(** What the transaction of [UpdateAndRecordEvent] commits. *)
Lemma record_tables now cid o id eid expected ev b db db1 db2 :
  db_wf db → db_wf db1 → moved db id o expected db1 → db_outbox db1 = db_outbox db →
  order_valid o → order_encodable o → ev = newOrderAcceptedEvent (oae_EventID ev) o →
  uuid_Parse (oae_EventID ev) = Some eid → payloadFromEvent ev = Ok b →
  insertOutboxEvent now eid eventTypeOrderAccepted id b cid db1 = Ok db2 →
  db_wf db2 ∧ moved db id o expected db2 ∧ event_added db id ev db2.
Proof.
  intros Hwf Hwf1 Hmv Hob Hv Hutf Hev Heid Hb Hins.
  destruct (insertOutboxEvent_ok _ _ _ _ _ _ _ (λ e r H, proj2 (wf_outbox _ Hwf1 e r H)) Hins)
    as (doc & Hdoc & Hfresh & Hone & ->).
  destruct (order_event_ok o (oae_EventID ev) Hv Hutf) as [Hcomp Hpu]. rewrite <-Hev in Hcomp, Hpu.
  pose proof (payload_decodes ev b doc (uuid_String eid) (uuid_String id) Hcomp Hpu Hb Hdoc) as Hrt.
  split_and!.
  - split; try apply Hwf1; cbn; intros e r; rewrite lookup_insert_Some;
      (intros [[<- <-]|[_ Hl]]; [|by apply Hwf1]); [done|by eexists].
  - exact Hmv.
  - rewrite Hob in Hfresh. eexists eid, _. cbn. rewrite Hob.
    split_and!; [done|done|reflexivity|done|done|done|done| |].
    + intros ev' (e & r & Hl & Heq & _). rewrite <-Hob in Hl. by apply Hone in Hl.
    + intros id' ev'. split.
      * intros (e & r & Hl & Hid & Hdec). cbn in Hl. apply lookup_insert_Some in Hl as [[<- <-]|[_ Hl]].
        -- right. cbn in *. subst id'. split; [done|]. rewrite Hrt in Hdec. by injection Hdec as <-.
        -- left. exists e, r. done.
      * intros [(e & r & Hl & Hid & Hdec)|[-> ->]].
        -- exists e, r. split; [|done]. cbn. rewrite lookup_insert_ne; [done|]. congruence.
        -- eexists eid, _. cbn. rewrite lookup_insert_eq. split; [done|]. by split.
Qed.

(** ** The repository implements the contract *)

(** The use case's calls, answered by the repository's operations. *)
Definition repository_step (f : faults) (now : Z) (correlationID : string)
    {R} (db : database) (e : orderE R) : R → database → Prop :=
  match e in orderE R return R → database → Prop with
  | FindByIdempotencyKey key => λ r db',
      db' = db ∧ r = repository_FindByIdempotencyKey f key db db
  | FindByID id => λ r db', db' = db ∧ r = repository_FindByID f id db db
  | Create o => λ r db', repository_Create f o db = (r, db')
  | Update o expected => λ r db', repository_Update f o expected db = (r, db')
  | UpdateAndRecordEvent o expected event => λ r db',
      repository_UpdateAndRecordEvent f now correlationID o expected event db = (r, db')
  | _ => λ _ db', db' = db
  end.

Lemma loadOrder_view f row id db r :
  db_wf db → db_orders db !! id = Some row → loadOrder f row db = r →
  match r with
  | Ok o => view db id = Some o ∧ ord_idempotencyKey o = or_idempotencyKey row
  | Err err => is_app err ErrOrderNotFound = false
  end.
Proof.
  intros Hwf Hrow <-. unfold loadOrder, exec_stmt.
  destruct (flt_stmt f 1) as [[]|]; [done|]. destruct (flt_rows f); [done|].
  rewrite (wf_key _ Hwf _ _ Hrow). destruct (wf_load _ Hwf _ _ Hrow) as (o & Hd & _).
  rewrite Hd. split; [by apply view_row; eauto|].
  by apply domainFromRows_fields in Hd as (_ & _ & _ & -> & _).
Qed.

Lemma selectByKey_spec key db :
  match selectByKey key db with
  | Some row => ∃ id, db_orders db !! id = Some row ∧ or_idempotencyKey row = key
  | None => ∀ id row, db_orders db !! id = Some row → or_idempotencyKey row ≠ key
  end.
Proof.
  unfold selectByKey. destruct (list_find _ _) as [[i row]|] eqn:Hf; cbn.
  - apply list_find_Some in Hf as (Hl & Hk & _). apply list_elem_of_lookup_2 in Hl.
    apply list_elem_of_fmap in Hl as ([id row'] & -> & Hin). cbn in *.
    exists id. by apply elem_of_map_to_list in Hin.
  - intros id row Hl Hk. apply list_find_None, Forall_forall with (x := row) in Hf; [done|].
    apply list_elem_of_fmap. exists (id, row). split; [done|]. by apply elem_of_map_to_list.
Qed.

Lemma find_by_key_contract f key db :
  db_wf db →
  order_contract db (FindByIdempotencyKey key) (repository_FindByIdempotencyKey f key db db) db.
Proof.
  intros Hwf. split; [done|]. unfold repository_FindByIdempotencyKey, exec_stmt.
  destruct (flt_stmt f 0) as [[]|]; cbn; [done|]. destruct (text_ok key); cbn; [|done].
  pose proof (selectByKey_spec key db) as Hsel. destruct (selectByKey key db) as [row|]; cbn.
  - destruct Hsel as (id & Hrow & Hk). destruct (loadOrder f row db) as [o|err] eqn:Hl.
    + destruct (loadOrder_view _ _ _ _ _ Hwf Hrow Hl) as [? Hk']. exists id.
      split; [done|congruence].
    + pose proof (loadOrder_view _ _ _ _ _ Hwf Hrow Hl) as Hne. cbn in Hne. congruence.
  - intros _ id o (row & Hl & <- & _)%view_key_row; [|done]. eauto.
Qed.

Lemma find_by_id_contract f s db :
  db_wf db → order_contract db (FindByID s) (repository_FindByID f s db db) db.
Proof.
  intros Hwf. split; [done|]. unfold repository_FindByID, parse_uuid, exec_stmt.
  destruct (uuid_Parse s) as [id|]; cbn; [|done].
  destruct (flt_stmt f 0) as [[]|]; cbn; [done|].
  destruct (db_orders db !! id) as [row|] eqn:Hrow; cbn.
  - destruct (loadOrder f row db) as [o|err] eqn:Hl.
    + destruct (loadOrder_view _ _ _ _ _ Hwf Hrow Hl) as [? _]. eauto.
    + pose proof (loadOrder_view _ _ _ _ _ Hwf Hrow Hl) as Hne. cbn in Hne. congruence.
  - intros _. exists id. split; [done|]. by apply view_None.
Qed.

Lemma create_contract f o db r db' :
  db_wf db → order_storable o → repository_Create f o db = (r, db') →
  order_contract db (Create o) r db' ∧ db_wf db'.
Proof.
  intros Hwf Hst. unfold repository_Create.
  destruct (rowsFromDomain o) as [[row items]|err] eqn:Hrows.
  2:{ intros [= <- <-]. split; [|done]. left. split; [done|].
      unfold rowsFromDomain, parse_uuid in Hrows. destruct (uuid_Parse (ord_id o)); cbn in Hrows;
        [destruct (uuid_Parse (ord_customerID o)); cbn in Hrows|]; by simplify_eq. }
  destruct (flt_begin f); [intros [= <- <-]; split; [by left|done]|].
  unfold exec_stmt. destruct (flt_stmt f 0) as [[]|].
  { intros [= <- <-]. split; [|done]. by left. }
  destruct (insertOrder row db) as [db1|err] eqn:Hins.
  2:{ intros [= <- <-]. split; [|done]. left. split; [done|].
      unfold insertOrder in Hins. destruct (order_texts_ok row); cbn in Hins; [|by simplify_eq].
      destruct (orders_check row); [by simplify_eq|].
      case_bool_decide; [by simplify_eq|]. unfold key_taken in Hins.
      case_bool_decide as Hk; [|done]. intros _.
      apply map_Exists_lookup in Hk as (id & row' & Hl & Hk).
      destruct (wf_load _ Hwf _ _ Hl) as (o' & Hd & _). exists id, o'.
      split; [apply view_row; eauto|]. apply domainFromRows_fields in Hd as (_ & _ & _ & -> & _).
      by apply rowsFromDomain_fields in Hrows as (_ & _ & _ & _ & _ & <- & _). }
  destruct (insertOrderItems f 1 items db1) as [db2|err] eqn:Hit.
  2:{ intros [= <- <-]. split; [|done]. left. split; [done|]. revert Hit. clear.
      generalize 1%nat. revert db1. induction items as [|item items IH]; intros db1 n; cbn; [done|].
      destruct (exec_stmt _ _ _); [apply IH|]. by intros [= <-]. }
  destruct (create_tables _ _ _ _ _ _ _ Hwf Hst Hrows Hins Hit) as [Hwf2 Hcr].
  destruct (rowsFromDomain_fields _ _ _ Hrows) as (Hid & _).
  destruct (exec_commit_cases f db db2) as [->|(text & [->| ->])]; intros [= <- <-];
    (split; [|done]); [eexists _, _; done|by left|right; split; [done|]]. by eexists _, _.
Qed.
Lemma rowsFromDomain_err o err s : rowsFromDomain o = Err err → is_app err s = false.
Proof.
  unfold rowsFromDomain, parse_uuid. destruct (uuid_Parse (ord_id o)); cbn;
    [destruct (uuid_Parse (ord_customerID o)); cbn|]; by intros [= <-].
Qed.

Lemma update_contract f o expected db r db' :
  db_wf db → update_pre db o → repository_Update f o expected db = (r, db') →
  order_contract db (Update o expected) r db' ∧ db_wf db'.
Proof.
  intros Hwf Hpre. unfold repository_Update.
  destruct (rowsFromDomain o) as [[row items]|err] eqn:Hrows.
  2:{ intros [= <- <-]. split; [|done]. left. split; [done|]. intros Hc.
      apply rowsFromDomain_err with (s := ErrOrderStateConflict) in Hrows.
      change (is_app err ErrOrderStateConflict = true) in Hc. congruence. }
  destruct (rowsFromDomain_fields _ _ _ Hrows) as (Hid & _ & -> & -> & _).
  unfold exec_write. destruct (updateOrder _ _ _ _ _) as [[n db1]|e] eqn:Hu.
  2:{ destruct (flt_stmt f 0) as [[]|]; cbn; intros [= <- <-]; split; try done; by left. }
  destruct (update_tables _ _ _ _ _ _ Hwf Hpre Hid Hu) as [(-> & -> & Hconf)|(-> & Hwf1 & Hmv & Hob)].
  - destruct (flt_stmt f 0) as [[? []]|]; cbn; [intros [= <- <-]; split; [by left|done]..|].
    destruct (flt_rows f); intros [= <- <-]; (split; [by left|done]).
  - assert (∃ id, uuid_Parse (ord_id o) = Some id ∧ moved db id o expected db1
              ∧ db_outbox db1 = db_outbox db) as Hdone by eauto.
    destruct (flt_stmt f 0) as [[? []]|]; cbn.
    + intros [= <- <-]. split; [by right|done].
    + intros [= <- <-]. split; [by left|done].
    + destruct (flt_rows f); intros [= <- <-]; (split; [|done]); [by right|done].
Qed.

Lemma record_contract f now cid o expected ev db r db' :
  db_wf db → order_pre db (UpdateAndRecordEvent o expected ev) →
  repository_UpdateAndRecordEvent f now cid o expected ev db = (r, db') →
  order_contract db (UpdateAndRecordEvent o expected ev) r db' ∧ db_wf db'.
Proof.
  intros Hwf (Hpre & Hutf & Hev). unfold repository_UpdateAndRecordEvent.
  assert (∀ err, is_app err ErrOrderStateConflict = false → (Err err, db) = (r, db') →
    order_contract db (UpdateAndRecordEvent o expected ev) r db' ∧ db_wf db') as Habort.
  { intros err Hne [= <- <-]. split; [|done]. left. split; [done|]. by rewrite Hne. }
  destruct (rowsFromDomain o) as [[row items]|err] eqn:Hrows.
  2:{ apply Habort. cbn. by eapply rowsFromDomain_err. }
  destruct (rowsFromDomain_fields _ _ _ Hrows) as (Hid & _ & -> & -> & _).
  unfold parse_uuid. destruct (uuid_Parse (oae_EventID ev)) as [eid|] eqn:Heid; [|by apply Habort].
  destruct (payloadFromEvent ev) as [b|err] eqn:Hb.
  2:{ apply map_err_err in Hb as (t & _ & ->). by apply Habort. }
  destruct (flt_begin f); [by apply Habort|]. unfold exec_stmt.
  destruct (flt_stmt f 0) as [[]|]; [by apply Habort|].
  destruct (updateOrder _ _ _ _ _) as [[n db1]|e] eqn:Hu; [|by apply Habort].
  unfold updateOrderState. destruct (flt_rows f); [by apply Habort|].
  destruct (update_tables _ _ _ _ _ _ Hwf Hpre Hid Hu) as [(-> & -> & Hconf)|(-> & Hwf1 & Hmv & Hob)].
  { cbn. intros [= <- <-]. split; [by left|done]. }
  cbn. destruct (flt_stmt f 1) as [[]|]; [by apply Habort|].
  destruct (insertOutboxEvent _ _ _ _ _ _ _) as [db2|e] eqn:Hins; [|by apply Habort].
  destruct (record_tables _ _ _ _ _ _ _ _ _ _ _ Hwf Hwf1 Hmv Hob
    (proj1 (proj1 Hpre)) Hutf Hev Heid Hb Hins) as (Hwf2 & Hmv2 & Hadd).
  destruct (exec_commit_cases f db db2) as [->|(text & [->| ->])]; intros [= <- <-];
    (split; [|done]); [by eauto|by left|right; split; [done|by eauto]].
Qed.

Lemma repository_contract {R} f now cid db (e : orderE R) r db' :
  db_wf db → order_pre db e → repository_step f now cid db e r db' →
  order_contract db e r db' ∧ db_wf db'.
Proof.
  intros Hwf Hpre Hstep. destruct e; cbn in Hstep; try (by subst db').
  - destruct Hstep as [-> ->]. split; [by apply find_by_key_contract|done].
  - destruct Hstep as [-> ->]. split; [by apply find_by_id_contract|done].
  - by eapply create_contract.
  - by eapply update_contract.
  - by eapply record_contract.
Qed.

(** C9: from well-formed tables, every call of the use case that respects its
    precondition is answered by the repository as the contract says, whatever
    faults the connection has, and leaves the tables well-formed. *)
Theorem repository_refines_contract {R} f now cid db (e : orderE R) r db' :
  db_wf db → order_pre db e → repository_step f now cid db e r db' →
  order_contract db e r db' ∧ db_wf db'.
Proof. exact (repository_contract f now cid db e r db'). Qed.
End store_spec.

(** ** Witnesses *)

Definition sample_stored : Order :=
  mkOrder "o-1" "c-1" "a@b.example" StatusPending "key-1" sample_items (mkMoney 3000 "EUR")
    10000 10000.
Definition sample_event : OrderAcceptedEvent := newOrderAcceptedEvent "e-1" sample_stored.
Definition empty_database : database := mkDatabase ∅ [] ∅.

Lemma sample_stored_storable : order_storable sample_stored.
Proof. split_and!; [reflexivity|by repeat constructor|done..]. Qed.

Lemma empty_database_wf : db_wf empty_database.
Proof. split; cbn; try done; intros *; by rewrite lookup_empty. Qed.

Lemma mapper_roundtrip_witness :
  match rowsFromDomain sample_stored with
  | Ok (row, items) => domainFromRows row items = Ok sample_stored ∧ length items = 2%nat
  | Err _ => False
  end.
Proof.
  destruct (rowsFromDomain sample_stored) as [[row items]|err] eqn:Hrows; [|discriminate Hrows].
  destruct (mapper_roundtrip _ _ _ sample_stored_storable Hrows) as (Hid & Hcid & H).
  destruct (rowsFromDomain_fields _ _ _ Hrows) as (_ & -> & _).
  split; [|reflexivity]. rewrite H. unfold canonical.
  by rewrite (sample_uuid_text _ _ Hid), (sample_uuid_text _ _ Hcid).
Defined.

(** [sample_postgres] keeps documents as they are. *)
Lemma sample_jsonb_value b b' :
  jsonb (Postgres := sample_postgres) b = Some b' →
  Unmarshal (Codec := sample_json) b' = Unmarshal b.
Proof. by intros [= ->]. Qed.

Lemma payload_roundtrip_witness :
  match payloadFromEvent sample_event with
  | Ok b => eventFromPayload "e-1" "o-1" b = Ok sample_event
  | Err _ => False
  end.
Proof.
  destruct (payloadFromEvent sample_event) as [b|] eqn:Hb; [|discriminate Hb].
  apply (payload_roundtrip sample_jsonb_value sample_event b b); [|by repeat constructor|done|done].
  split_and!; cbn; done.
Defined.

Lemma repository_refines_contract_witness :
  ∃ db, repository_step no_faults 5 "" empty_database (Create sample_stored) (Ok tt) db
    ∧ order_contract empty_database (Create sample_stored) (Ok tt) db.
Proof.
  destruct (repository_Create no_faults sample_stored empty_database) as [r db] eqn:Hr.
  assert (r = Ok tt) as ->.
  { change r with (fst (r, db)). rewrite <-Hr. vm_compute. reflexivity. }
  exists db. split; [exact Hr|].
  exact (proj1 (repository_refines_contract sample_jsonb_value no_faults 5 "" empty_database
    (Create sample_stored) (Ok tt) db empty_database_wf sample_stored_storable Hr)).
Defined.
