(* ===== verification/Outbox.v ===== *)
(** * The event outbox

    [postgres.EventOutbox] of order-service: the statements that claim a due event
    under a lease, record what became of it, and delete old published rows. *)
From S2P Require Import Prelude GoErrors GoStrings External Postgres OrderErrors OrderDomain Prog OrderPorts OrderStore.

(* @go order-service/internal/order/adapter/outbound/postgres/outbox.go intervalFor *)
Definition intervalFor (duration : Z) : string := Itoa (Milliseconds duration) +:+ " milliseconds".

Section outbox.
Context `{!MailLib, !UuidLib, !Postgres, !Codec orderAcceptedPayload}.

(** ** Statements *)

Definition is_due (now : Z) (row : outboxRow) : bool :=
  bool_decide (ob_status row = "pending") && (ob_next_attempt_at row <=? now)%Z.

(** What the subquery of the claim may answer: a due row no other transaction has
    locked, none of the unlocked ones earlier; nothing when there is none. *)
(* @src order-service/internal/order/adapter/outbound/postgres/outbox.go:24-31 claimOutboxEventQuery *)
Definition claim_choice (locked : gset uuid) (now : Z) (db : database) (choice : option uuid)
    : Prop :=
  match choice with
  | Some eid => ∃ row, db_outbox db !! eid = Some row ∧ is_due now row = true ∧ (eid ∉ locked)
      ∧ ∀ eid' row', db_outbox db !! eid' = Some row' → is_due now row' = true →
          eid' ∈ locked ∨ (ob_next_attempt_at row ≤ ob_next_attempt_at row')%Z
  | None => ∀ eid row, db_outbox db !! eid = Some row → is_due now row = true → eid ∈ locked
  end.

(** The row as the statement rewrites it; [token] is [gen_random_uuid()]. *)
(* @go order-service/internal/order/adapter/outbound/postgres/outbox.go claimOutboxEventQuery *)
Definition claimOutboxEvent (now lease : Z) (token : uuid) (choice : option uuid) (db : database)
    : result pg_error (option outboxRow * database) :=
  match choice with
  | None => Ok (None, db)
  | Some eid =>
      match db_outbox db !! eid with
      | None => Ok (None, db)
      | Some row =>
          let row' := mkOutboxRow (ob_event_id row) (ob_event_type row) (ob_order_id row)
            (ob_payload row) (ob_correlation_id row) (ob_status row) (ob_attempts row)
            (now + interval_value lease) (Some token) (ob_last_error row) (ob_created_at row)
            (ob_published_at row) (ob_needs_attention_at row) in
          Ok (Some row', set_outbox db (<[eid := row']> (db_outbox db)))
      end
  end.

(** An UPDATE of one row, when it satisfies the rest of the WHERE clause. *)
Definition update_row (eid : uuid) (applies : outboxRow → bool) (change : outboxRow → outboxRow)
    (db : database) : Z * database :=
  match db_outbox db !! eid with
  | None => (0%Z, db)
  | Some row =>
      if applies row then (1%Z, set_outbox db (<[eid := change row]> (db_outbox db)))
      else (0%Z, db)
  end.

(* @go order-service/internal/order/adapter/outbound/postgres/outbox.go markOutboxEventPublishedQuery *)
Definition markOutboxEventPublished (now : Z) (eid : uuid) : database → Z * database :=
  update_row eid (λ row, negb (bool_decide (ob_status row = "published")))
    (λ row, mkOutboxRow (ob_event_id row) (ob_event_type row) (ob_order_id row) (ob_payload row)
       (ob_correlation_id row) "published" (ob_attempts row) (ob_next_attempt_at row)
       (ob_claim_token row) None (ob_created_at row) (Some now) (ob_needs_attention_at row)).

(** The WHERE clause the fenced writes share. *)
Definition holds_claim (token : uuid) (row : outboxRow) : bool :=
  bool_decide (ob_claim_token row = Some token) && bool_decide (ob_status row = "pending").

(* @go order-service/internal/order/adapter/outbound/postgres/outbox.go releaseOutboxEventQuery *)
Definition releaseOutboxEvent (now : Z) (eid token : uuid) (delay : Z) : database → Z * database :=
  update_row eid (holds_claim token)
    (λ row, mkOutboxRow (ob_event_id row) (ob_event_type row) (ob_order_id row) (ob_payload row)
       (ob_correlation_id row) (ob_status row) (ob_attempts row) (now + interval_value delay)
       (ob_claim_token row) (ob_last_error row) (ob_created_at row) (ob_published_at row)
       (ob_needs_attention_at row)).

(* @go order-service/internal/order/adapter/outbound/postgres/outbox.go scheduleOutboxEventRetryQuery *)
Definition scheduleOutboxEventRetry (now : Z) (eid token : uuid) (delay : Z) (reason : string)
    : database → Z * database :=
  update_row eid (holds_claim token)
    (λ row, mkOutboxRow (ob_event_id row) (ob_event_type row) (ob_order_id row) (ob_payload row)
       (ob_correlation_id row) (ob_status row) (ob_attempts row + 1) (now + interval_value delay)
       (ob_claim_token row) (Some reason) (ob_created_at row) (ob_published_at row)
       (ob_needs_attention_at row)).

(* @go order-service/internal/order/adapter/outbound/postgres/outbox.go markOutboxEventNeedsAttentionQuery *)
Definition markOutboxEventNeedsAttention (now : Z) (eid token : uuid) (increment : Z)
    (reason : string) : database → Z * database :=
  update_row eid (holds_claim token)
    (λ row, mkOutboxRow (ob_event_id row) (ob_event_type row) (ob_order_id row) (ob_payload row)
       (ob_correlation_id row) "needs_attention" (ob_attempts row + increment)
       (ob_next_attempt_at row) (ob_claim_token row) (Some reason) (ob_created_at row)
       (ob_published_at row) (Some now)).

Definition old_published (now olderThan : Z) (row : outboxRow) : bool :=
  bool_decide (ob_status row = "published")
  && match ob_published_at row with
     | Some t => (t <? now - interval_value olderThan)%Z
     | None => false
     end.

(** What the subquery of the cleanup may answer: as many old published rows as
    the limit allows. *)
(* @src order-service/internal/order/adapter/outbound/postgres/outbox.go:60-67 deletePublishedOutboxEventsQuery *)
Definition delete_choice (now olderThan limit : Z) (db : database) (victims : gset uuid) : Prop :=
  (∀ eid, eid ∈ victims → ∃ row, db_outbox db !! eid = Some row
     ∧ old_published now olderThan row = true)
  ∧ (Z.of_nat (size victims) ≤ Z.max 0 limit)%Z
  ∧ (Z.of_nat (size victims) < limit → ∀ eid row, db_outbox db !! eid = Some row →
       old_published now olderThan row = true → eid ∈ victims)%Z.

(* @go order-service/internal/order/adapter/outbound/postgres/outbox.go deletePublishedOutboxEventsQuery *)
Definition deletePublishedOutboxEvents (victims : gset uuid) (db : database) : Z * database :=
  let m := filter (λ kv, ¬ (kv.1 ∈ victims ∧ ob_status kv.2 = "published")) (db_outbox db) in
  (Z.of_nat (size (db_outbox db)) - Z.of_nat (size m), set_outbox db m)%Z.

(** The operator's [make order-outbox-redrive], for one event. *)
(* @src Makefile:98-100 order-outbox-redrive *)
Definition redriveOutboxEvent (now : Z) (eid : uuid) : database → Z * database :=
  update_row eid (λ row, bool_decide (ob_status row = "needs_attention"))
    (λ row, mkOutboxRow (ob_event_id row) (ob_event_type row) (ob_order_id row) (ob_payload row)
       (ob_correlation_id row) "pending" 0 now (ob_claim_token row) (ob_last_error row)
       (ob_created_at row) (ob_published_at row) None).

(** ** Operations *)

(** The identifiers of an entry come from the server as text, and go back to it
    as text. *)
Definition with_uuid {A} (s : string) (f : uuid → result pg_error A) : result pg_error A :=
  match uuid_Parse s with Some u => f u | None => Err (PgError "22P02" "") end.

(* @go order-service/internal/order/adapter/outbound/postgres/outbox.go EventOutbox.ClaimNext *)
Definition outbox_ClaimNext (f : faults) (now : Z) (token : uuid) (choice : option uuid)
    (lease : Z) (db : database) : (OutboxEntry * option order_error) * database :=
  match exec_write f 0 (claimOutboxEvent now lease token choice db) db with
  | (Err err, db') => ((zero_entry, Some (Wrap "claim outbox event" (pg_err err))), db')
  | (Ok None, db') => ((zero_entry, Some (app ErrOutboxEmpty)), db')
  | (Ok (Some row), db') =>
      let eventID := uuid_String (ob_event_id row) in
      let entry event := mkOutboxEntry eventID event (ob_correlation_id row) (ob_attempts row)
        (uuid_String token) in
      match eventFromPayload eventID (uuid_String (ob_order_id row)) (ob_payload row) with
      | Err err => ((entry zero_event, Some (Join (app ErrEventUnpublishable)
                      (Wrap ("outbox event " +:+ eventID) err))), db')
      | Ok event => ((entry event, None), db')
      end
  end.

(* @go order-service/internal/order/adapter/outbound/postgres/outbox.go EventOutbox.MarkPublished *)
Definition outbox_MarkPublished (f : faults) (now : Z) (eventID : string) (db : database)
    : order_result unit * database :=
  match exec_write f 0 (with_uuid eventID (λ eid, Ok (markOutboxEventPublished now eid db))) db with
  | (Err err, db') => (Err (Wrap "mark outbox event published" (pg_err err)), db')
  | (Ok _, db') => (Ok tt, db')
  end.

(* @go order-service/internal/order/adapter/outbound/postgres/outbox.go EventOutbox.execFenced *)
Definition execFenced (f : faults) (action : string) (query : result pg_error (Z * database))
    (db : database) : order_result unit * database :=
  match exec_write f 0 query db with
  | (Err err, db') => (Err (Wrap action (pg_err err)), db')
  | (Ok affected, db') =>
      match flt_rows f with
      | Some text => (Err (Wrap action (Opaque text)), db')
      | None =>
          if bool_decide (affected = 0%Z) then (Err (app ErrOutboxClaimLost), db') else (Ok tt, db')
      end
  end.

(** The claimed row's identifier and token, as the fenced statements read them. *)
Definition with_entry (entry : OutboxEntry) (f : uuid → uuid → Z * database)
    : result pg_error (Z * database) :=
  with_uuid (oe_EventID entry) (λ eid, with_uuid (oe_ClaimToken entry) (λ token, Ok (f eid token))).

(* @go order-service/internal/order/adapter/outbound/postgres/outbox.go EventOutbox.Release *)
Definition outbox_Release (f : faults) (now : Z) (entry : OutboxEntry) (delay : Z) (db : database)
    : order_result unit * database :=
  execFenced f "release outbox event"
    (with_entry entry (λ eid token, releaseOutboxEvent now eid token delay db)) db.

(* @go order-service/internal/order/adapter/outbound/postgres/outbox.go EventOutbox.ScheduleRetry *)
Definition outbox_ScheduleRetry (f : faults) (now : Z) (entry : OutboxEntry) (delay : Z)
    (reason : string) (db : database) : order_result unit * database :=
  execFenced f "schedule outbox event retry"
    (if text_ok reason
     then with_entry entry (λ eid token, scheduleOutboxEventRetry now eid token delay reason db)
     else Err pg_encoding_error) db.

(* @go order-service/internal/order/adapter/outbound/postgres/outbox.go EventOutbox.MarkNeedsAttention *)
Definition outbox_MarkNeedsAttention (f : faults) (now : Z) (entry : OutboxEntry)
    (countAttempt : bool) (reason : string) (db : database) : order_result unit * database :=
  let increment := if countAttempt then 1%Z else 0%Z in
  execFenced f "mark outbox event as needing attention"
    (if text_ok reason
     then with_entry entry
            (λ eid token, markOutboxEventNeedsAttention now eid token increment reason db)
     else Err pg_encoding_error) db.

(* @go order-service/internal/order/adapter/outbound/postgres/outbox.go EventOutbox.DeletePublished *)
Definition outbox_DeletePublished (f : faults) (victims : gset uuid) (db : database)
    : order_result Z * database :=
  match exec_write f 0 (Ok (deletePublishedOutboxEvents victims db)) db with
  | (Err err, db') => (Err (Wrap "delete published outbox events" (pg_err err)), db')
  | (Ok deleted, db') =>
      match flt_rows f with
      | Some text => (Err (Wrap "delete published outbox events" (Opaque text)), db')
      | None => (Ok deleted, db')
      end
  end.

(** The worker's calls, answered by these operations; the other calls do not
    touch the store. *)
Definition outbox_step {R} (db : database) (e : workerE R) : R → database → Prop :=
  match e in workerE R return R → database → Prop with
  | ClaimNext lease => λ r db', ∃ f now token locked choice,
      claim_choice locked now db choice ∧ outbox_ClaimNext f now token choice lease db = (r, db')
  | MarkPublished eventID => λ r db', ∃ f now, outbox_MarkPublished f now eventID db = (r, db')
  | Release entry delay => λ r db', ∃ f now, outbox_Release f now entry delay db = (r, db')
  | ScheduleRetry entry delay reason => λ r db', ∃ f now,
      outbox_ScheduleRetry f now entry delay reason db = (r, db')
  | MarkNeedsAttention entry countAttempt reason => λ r db', ∃ f now,
      outbox_MarkNeedsAttention f now entry countAttempt reason db = (r, db')
  | DeletePublished olderThan limit => λ r db', ∃ f now victims,
      delete_choice now olderThan limit db victims ∧ outbox_DeletePublished f victims db = (r, db')
  | _ => λ _ db', db' = db
  end.

(** ** What the statements do to the table *)

Lemma update_row_cases eid applies change db n db' :
  update_row eid applies change db = (n, db') →
  (n = 0%Z ∧ db' = db ∧ ∀ row, db_outbox db !! eid = Some row → applies row = false)
  ∨ (n = 1%Z ∧ ∃ row, db_outbox db !! eid = Some row ∧ applies row = true
       ∧ db' = set_outbox db (<[eid := change row]> (db_outbox db))).
Proof.
  unfold update_row. destruct (db_outbox db !! eid) as [row|] eqn:Hl.
  - destruct (applies row) eqn:Ha; intros [= <- <-]; [right; eauto|left].
    split_and!; [done..|]. intros row' [= <-]. done.
  - intros [= <- <-]. left. done.
Qed.

Lemma execFenced_cases f action q db r db' :
  execFenced f action q db = (r, db') → db' = db ∨ ∃ n, q = Ok (n, db').
Proof.
  unfold execFenced. destruct (exec_write f 0 q db) as [w db1] eqn:Hw.
  apply exec_write_cases in Hw as [(n & -> & Hq)|(err & -> & Hd)].
  - intros Heq. assert (db' = db1) as -> by (repeat case_match; by simplify_eq). eauto.
  - intros [= <- <-]. destruct Hd as [?|[n ?]]; eauto.
Qed.

Lemma with_entry_ok entry g n (db' : database) :
  with_entry entry g = Ok (n, db') →
  ∃ eid token, uuid_Parse (oe_EventID entry) = Some eid
    ∧ uuid_Parse (oe_ClaimToken entry) = Some token ∧ g eid token = (n, db').
Proof.
  unfold with_entry, with_uuid. destruct (uuid_Parse (oe_EventID entry)); [|done].
  destruct (uuid_Parse (oe_ClaimToken entry)); [|done]. intros [= ?]. eauto.
Qed.

(** The three fenced writes of an entry. *)
Inductive fenced_write :=
| WRelease (delay : Z)
| WRetry (delay : Z) (reason : string)
| WAttention (countAttempt : bool) (reason : string).

Definition fenced (f : faults) (now : Z) (entry : OutboxEntry) (w : fenced_write) (db : database)
    : order_result unit * database :=
  match w with
  | WRelease delay => outbox_Release f now entry delay db
  | WRetry delay reason => outbox_ScheduleRetry f now entry delay reason db
  | WAttention countAttempt reason => outbox_MarkNeedsAttention f now entry countAttempt reason db
  end.

(** What a fenced write makes of the attempts and the status of its row. *)
Definition fenced_effect (w : fenced_write) (row row' : outboxRow) : Prop :=
  match w with
  | WRelease _ => ob_attempts row' = ob_attempts row ∧ ob_status row' = "pending"
  | WRetry _ _ => ob_attempts row' = (ob_attempts row + 1)%Z ∧ ob_status row' = "pending"
  | WAttention countAttempt _ =>
      ob_attempts row' = (ob_attempts row + if countAttempt then 1 else 0)%Z
      ∧ ob_status row' = "needs_attention"
  end.

(** Two versions of one event's row. *)
Definition same_event (row row' : outboxRow) : Prop :=
  ob_event_id row' = ob_event_id row ∧ ob_event_type row' = ob_event_type row
  ∧ ob_order_id row' = ob_order_id row ∧ ob_payload row' = ob_payload row.

Lemma fenced_cases f now entry w db r db' :
  fenced f now entry w db = (r, db') →
  db' = db ∨ ∃ eid token row row', uuid_Parse (oe_EventID entry) = Some eid
    ∧ uuid_Parse (oe_ClaimToken entry) = Some token
    ∧ db_outbox db !! eid = Some row ∧ holds_claim token row = true
    ∧ db' = set_outbox db (<[eid := row']> (db_outbox db))
    ∧ same_event row row' ∧ ob_claim_token row' = Some token ∧ fenced_effect w row row'.
Proof.
  assert (∀ row token, holds_claim token row = true →
    ob_claim_token row = Some token ∧ ob_status row = "pending") as Hclaim.
  { intros row token Hh. unfold holds_claim in Hh. by reflect_bools. }
  destruct w; cbn [fenced]; intros [->|[n Hq]]%execFenced_cases; try by left.
  2-3: destruct (text_ok reason); [|done].
  all: apply with_entry_ok in Hq as (eid & token & He & Ht & Hq);
    apply update_row_cases in Hq as [(_ & -> & _)|(_ & row & Hl & Hh & ->)]; [by left|];
    right; destruct (Hclaim _ _ Hh); eexists eid, token, row, _; by split_and!.
Qed.

(** A claim, whatever its faults: nothing changes and there is no entry to settle,
    or one row is leased under the new token, and the entry, when there is one to
    settle, is that row's. *)
Definition entry_of (entry : OutboxEntry) (err : option order_error) (token : uuid)
    (row : outboxRow) : Prop :=
  oe_EventID entry = uuid_String (ob_event_id row) ∧ oe_ClaimToken entry = uuid_String token
  ∧ oe_Attempts entry = ob_attempts row
  ∧ (err = None → oae_OrderID (oe_Event entry) = uuid_String (ob_order_id row)).

Definition no_entry (err : option order_error) : Prop :=
  ∃ e, err = Some e ∧ is_app e ErrEventUnpublishable = false.

Lemma claim_cases f now token choice lease db entry err db' :
  outbox_ClaimNext f now token choice lease db = ((entry, err), db') →
  (db' = db ∧ no_entry err)
  ∨ ∃ eid row row', choice = Some eid ∧ db_outbox db !! eid = Some row
      ∧ db' = set_outbox db (<[eid := row']> (db_outbox db)) ∧ same_event row row'
      ∧ ob_status row' = ob_status row ∧ ob_attempts row' = ob_attempts row
      ∧ ob_claim_token row' = Some token ∧ (no_entry err ∨ entry_of entry err token row).
Proof.
  unfold outbox_ClaimNext. destruct (exec_write _ _ _ _) as [w db1] eqn:Hw.
  apply exec_write_cases in Hw.
  assert (∀ a, claimOutboxEvent now lease token choice db = Ok (a, db1) →
    (a = None ∧ db1 = db) ∨ ∃ eid row row', choice = Some eid ∧ db_outbox db !! eid = Some row
      ∧ a = Some row' ∧ db1 = set_outbox db (<[eid := row']> (db_outbox db)) ∧ same_event row row'
      ∧ ob_status row' = ob_status row ∧ ob_attempts row' = ob_attempts row
      ∧ ob_claim_token row' = Some token) as Hclaim.
  { intros a. unfold claimOutboxEvent. destruct choice as [eid|]; [|intros [= <- <-]; by left].
    destruct (db_outbox db !! eid) as [row|] eqn:Hl; intros [= <- <-]; [|by left].
    right. by eexists eid, row, _. }
  destruct Hw as [(a & -> & Hc)|(e & -> & Hd)].
  - apply Hclaim in Hc as [[-> ->]|(eid & row & row' & -> & Hl & -> & -> & Hsame & Es & Ea & Et)].
    { intros [= <- <- <-]. left. by split; [|eexists]. }
    pose proof Hsame as (Eid & _ & Eoid & Epay).
    destruct (eventFromPayload _ _ _) as [event|e] eqn:Hd; intros [= <- <- <-];
      right; eexists eid, row, row'; (split_and!; [done..|]); right; unfold entry_of; cbn;
      rewrite Eid, Ea; (split_and!; [done..|]); [|done].
    intros _. unfold eventFromPayload in Hd. destruct (Unmarshal _); [|done].
    destruct (_ || _); [done|]. injection Hd as <-. cbn. by rewrite Eoid.
  - intros [= <- <- <-]. assert (no_entry (Some (Wrap "claim outbox event" (pg_err e)))) as Hno by by eexists.
    destruct Hd as [->|[a Hc]]; [by left|]. apply Hclaim in Hc as [[_ ->]|Hx]; [by left|].
    destruct Hx as (eid & row & row' & -> & Hl & _ & -> & ?). right. exists eid, row, row'.
    destruct_and?. by split_and!; try left.
Qed.

(** The event of an entry answered without an error is that of a row of the table. *)
Lemma claim_event f now token choice lease db entry db' :
  outbox_ClaimNext f now token choice lease db = ((entry, None), db') →
  ∃ eid row, db_outbox db' !! eid = Some row
    ∧ eventFromPayload (uuid_String (ob_event_id row)) (uuid_String (ob_order_id row)) (ob_payload row)
      = Ok (oe_Event entry).
Proof.
  unfold outbox_ClaimNext. destruct (exec_write _ _ _ _) as [w db1] eqn:Hw.
  apply exec_write_cases in Hw as [(a & -> & Hc)|(e & -> & _)]; [|done].
  unfold claimOutboxEvent in Hc. destruct choice as [eid|]; [|by injection Hc as <- _].
  destruct (db_outbox db !! eid) as [row|] eqn:Hl; injection Hc as <- <-; [|done].
  cbn. destruct (eventFromPayload _ _ _) as [event|err] eqn:Hd; [|done]. intros [= <- <-].
  eexists eid, _. cbn. rewrite lookup_insert_eq. by split.
Qed.

Definition write_text_ok (w : fenced_write) : bool :=
  match w with WRelease _ => true | WRetry _ reason | WAttention _ reason => text_ok reason end.

(** C25: Without a fault of the connection, a fenced write with a token that is not the
    row's current one, or of a row that is no longer pending, changes nothing and says the
    claim was lost, provided the text of its error can be encoded; the text is looked at
    before the row. *)
Theorem stale_claim_changes_nothing now entry eid token w db :
  uuid_Parse (oe_EventID entry) = Some eid → uuid_Parse (oe_ClaimToken entry) = Some token →
  write_text_ok w = true →
  (∀ row, db_outbox db !! eid = Some row →
     ob_claim_token row ≠ Some token ∨ ob_status row ≠ "pending") →
  fenced no_faults now entry w db = (Err (app ErrOutboxClaimLost), db).
Proof.
  intros He Ht Hw Hstale.
  assert (∀ change, update_row eid (holds_claim token) change db = (0%Z, db)) as Hnone.
  { intros change. unfold update_row. destruct (db_outbox db !! eid) as [row|]; [|done].
    destruct (holds_claim token row) eqn:Hh; [|done]. unfold holds_claim in Hh. reflect_bools.
    destruct (Hstale row); done. }
  destruct w; cbn [fenced write_text_ok] in *;
    unfold outbox_Release, outbox_ScheduleRetry, outbox_MarkNeedsAttention, execFenced, with_entry,
      with_uuid; rewrite ?Hw, He, Ht; cbn;
    unfold releaseOutboxEvent, scheduleOutboxEventRetry, markOutboxEventNeedsAttention;
    by rewrite Hnone.
Qed.

(** a claim without faults leases exactly one due row, the earliest that no
    other transaction holds: it answers that row's event, attempts and a token
    that its fenced writes match, the row is not due again before the lease has
    passed, and nothing else changes; with no such row it answers that the
    outbox is empty. *)
Theorem claim_takes_lease now token locked choice lease db entry err db' :
  claim_choice locked now db choice →
  (∀ eid row, db_outbox db !! eid = Some row → ob_event_id row = eid) →
  outbox_ClaimNext no_faults now token choice lease db = ((entry, err), db') →
  match choice with
  | None => err = Some (app ErrOutboxEmpty) ∧ db' = db
  | Some eid => ∃ row row', db_outbox db !! eid = Some row ∧ is_due now row = true
      ∧ db' = set_outbox db (<[eid := row']> (db_outbox db)) ∧ same_event row row'
      ∧ ob_status row' = ob_status row ∧ ob_attempts row' = ob_attempts row
      ∧ holds_claim token row' = true
      ∧ (∀ now', (now' < now + interval_value lease)%Z → is_due now' row' = false)
      ∧ oe_EventID entry = uuid_String eid ∧ oe_ClaimToken entry = uuid_String token
      ∧ oe_Attempts entry = ob_attempts row
      ∧ match eventFromPayload (uuid_String eid) (uuid_String (ob_order_id row)) (ob_payload row) with
        | Ok event => err = None ∧ oe_Event entry = event
        | Err _ => ∃ e, err = Some e ∧ is_app e ErrEventUnpublishable = true
        end
  end.
Proof.
  intros Hch Hkey. destruct choice as [eid|]; cbn in Hch.
  2:{ cbn. by intros [= <- <- <-]. }
  destruct Hch as (row & Hl & Hdue & _ & _). unfold outbox_ClaimNext, exec_write. cbn.
  rewrite Hl. cbn. rewrite (Hkey _ _ Hl).
  assert (ob_status row = "pending") as Hp by (unfold is_due in Hdue; by reflect_bools).
  destruct (eventFromPayload _ _ _) as [event|e] eqn:Hd; intros [= <- <- <-];
    eexists row, _; cbn; rewrite Hd; split_and!; try done.
  all: try (unfold holds_claim; cbn; rewrite Hp; by rewrite !bool_decide_eq_true_2).
  all: try (intros now' Hlt; unfold is_due; cbn; apply andb_false_intro2; apply Z.leb_gt; lia).
  all: try (by split; cbn; [rewrite (Hkey _ _ Hl)|]).
  by eexists.
Qed.
End outbox.

(** ** Witnesses *)

Definition uuid_of (s : string) (H : sample_uuid_ok s = true) : uuid := exist _ s H.
Definition sample_eid : uuid := uuid_of "e-1" eq_refl.
Definition sample_token : uuid := uuid_of "t-1" eq_refl.
Definition sample_row : outboxRow :=
  mkOutboxRow sample_eid eventTypeOrderAccepted (uuid_of "o-1" eq_refl)
    (match payloadFromEvent (mkOrderAcceptedEvent "e-1" "o-1" 10000 "a@b.example"
       (mkMoney 3000 "EUR") [mkOrderAcceptedLine "SKU-A" 2 (mkMoney 1500 "EUR")])
     with Ok b => b | Err _ => "" end)
    "" "pending" 3 100 None None 50 None None.
Definition sample_outbox : database := mkDatabase ∅ [] {[ sample_eid := sample_row ]}.

Lemma sample_outbox_lookup eid row :
  db_outbox sample_outbox !! eid = Some row ↔ sample_eid = eid ∧ sample_row = row.
Proof. apply lookup_singleton_Some. Qed.

Lemma stale_claim_changes_nothing_witness :
  let entry := mkOutboxEntry "e-1" zero_event "" 3 "t-1" in
  fenced no_faults 200 entry (WRetry (5 * Second) "not routed") sample_outbox
  = (Err (app ErrOutboxClaimLost), sample_outbox).
Proof.
  apply (stale_claim_changes_nothing 200 _ sample_eid sample_token); [reflexivity..|].
  intros row [_ <-]%sample_outbox_lookup. by left.
Defined.

Lemma sample_claim_choice : claim_choice ∅ 200 sample_outbox (Some sample_eid).
Proof.
  exists sample_row. split_and!; [by apply sample_outbox_lookup|reflexivity|set_solver|].
  intros eid' row' [_ <-]%sample_outbox_lookup _. right. done.
Qed.

Lemma claim_takes_lease_witness :
  ∃ entry db', outbox_ClaimNext no_faults 200 sample_token (Some sample_eid) (30 * Second)
      sample_outbox = ((entry, None), db')
    ∧ oe_Attempts entry = 3%Z ∧ oe_ClaimToken entry = "t-1".
Proof.
  destruct (outbox_ClaimNext no_faults 200 sample_token (Some sample_eid) (30 * Second)
    sample_outbox) as [[entry err] db'] eqn:Hc.
  assert (err = None) as ->.
  { change err with (snd (fst ((entry, err), db'))). rewrite <-Hc. reflexivity. }
  exists entry, db'. split; [reflexivity|].
  pose proof (claim_takes_lease 200 sample_token ∅ (Some sample_eid) (30 * Second) sample_outbox
    entry None db' sample_claim_choice) as H.
  destruct H as (row & row' & Hl & _ & _ & _ & _ & _ & _ & _ & _ & -> & -> & _);
    [|exact Hc|].
  - by intros eid row [<- <-]%sample_outbox_lookup.
  - apply sample_outbox_lookup in Hl as [_ <-]. by split.
Defined.
