(* ===== verification/EventWorker.v ===== *)
(** * The outbox worker

    [application.PublishOrderEvents]: the background loop that claims a due event,
    publishes it, and records the outcome by what it says about the event. Its log
    lines are not modelled; the context checks that only guard a log line are. *)
From S2P Require Import Prelude GoErrors GoStrings External OrderErrors OrderDomain Prog OrderPorts.

(* @go order-service/internal/order/application/publish_order_events.go MaxPublishAttempts *)
Definition MaxPublishAttempts : Z := 10.
(* @go order-service/internal/order/application/publish_order_events.go publishRetryInitialDelay *)
Definition publishRetryInitialDelay : Z := 5 * Second.
(* @go order-service/internal/order/application/publish_order_events.go publishRetryMaxDelay *)
Definition publishRetryMaxDelay : Z := 5 * Minute.
(* @go order-service/internal/order/application/publish_order_events.go publishedEventRetention *)
Definition publishedEventRetention : Z := 30 * 24 * Hour.
(* @go order-service/internal/order/application/publish_order_events.go outboxCleanupInterval *)
Definition outboxCleanupInterval : Z := Hour.
(* @go order-service/internal/order/application/publish_order_events.go outboxCleanupBatchSize *)
Definition outboxCleanupBatchSize : Z := 1000.

(** The fields only the goroutine of [Run] touches. *)
(* @src order-service/internal/order/application/publish_order_events.go:52-61 PublishOrderEvents *)
Record PublishOrderEvents := mkPublishOrderEvents {
  poe_lease : Z;
  poe_pollInterval : Z;
  poe_outages : Z;
  poe_lastCleanup : Z;
  poe_cleanupUnfinished : bool;
}.
(* @go order-service/internal/order/application/publish_order_events.go NewPublishOrderEvents *)
Definition NewPublishOrderEvents (lease pollInterval : Z) : PublishOrderEvents :=
  mkPublishOrderEvents lease pollInterval 0 0 false.
Definition with_outages (u : PublishOrderEvents) n :=
  mkPublishOrderEvents (poe_lease u) (poe_pollInterval u) n (poe_lastCleanup u)
    (poe_cleanupUnfinished u).
Definition with_cleanup (u : PublishOrderEvents) last unfinished :=
  mkPublishOrderEvents (poe_lease u) (poe_pollInterval u) (poe_outages u) last unfinished.

(** The loop of [retryDelay], with fuel for the steps that remain. *)
(* @src order-service/internal/order/application/publish_order_events.go:276-281 retryDelay *)
Fixpoint retryDelay_loop (fuel : nat) (step attempt delay : Z) : Z :=
  match fuel with
  | O => delay
  | S fuel' =>
      if (step <? attempt)%Z && (delay <? publishRetryMaxDelay)%Z
      then retryDelay_loop fuel' (step + 1) attempt (wrap64 (delay * 2))
      else delay
  end.

(** The loop ends within 7 steps, as 5 s doubled six times passes 5 min. *)
Definition retryDelay_fuel : nat := 7.

(* @go order-service/internal/order/application/publish_order_events.go retryDelay *)
Definition retryDelay (attempt : Z) : prog workerE Z :=
  let delay := Z.min (retryDelay_loop retryDelay_fuel 1 attempt publishRetryInitialDelay)
                 publishRetryMaxDelay in
  let half := Z.quot delay 2 in
  jitter ← trigger (random (wrap64 (half + 1)));
  mret (wrap64 (half + jitter)).

(** [write] calls the operation under its own timeout and only logs its error. *)
(* @go order-service/internal/order/application/publish_order_events.go PublishOrderEvents.write *)
Definition write {R} (operation : workerE (order_result R)) : prog workerE unit :=
  _ ← trigger operation; mret tt.

(* @go order-service/internal/order/application/publish_order_events.go PublishOrderEvents.setAside *)
Definition setAside (entry : OutboxEntry) (countAttempt : bool) (cause : order_error)
    : prog workerE unit :=
  write (MarkNeedsAttention entry countAttempt (Error cause)).

(* @go order-service/internal/order/application/publish_order_events.go PublishOrderEvents.settle *)
Definition settle (u : PublishOrderEvents) (entry : OutboxEntry) (published : order_result unit)
    : prog workerE (PublishOrderEvents * Z) :=
  let unavailable := match published with
    | Err err => is_app err ErrPublisherUnavailable | Ok _ => false end in
  if unavailable then
    let u := with_outages u (wrap64 (poe_outages u + 1)) in
    pause ← retryDelay (poe_outages u);
    _ ← write (Release entry pause);
    mret (u, pause)
  else
  let u := with_outages u 0 in
  match published with
  | Ok _ => _ ← write (MarkPublished (oe_EventID entry)); mret (u, 0%Z)
  | Err err =>
      if is_app err ErrEventUnpublishable
      then _ ← setAside entry false err; mret (u, 0%Z)
      else
      let attempt := (oe_Attempts entry + 1)%Z in
      if (MaxPublishAttempts <=? attempt)%Z
      then _ ← setAside entry true err; mret (u, poe_pollInterval u)
      else
        delay ← retryDelay attempt;
        _ ← write (ScheduleRetry entry delay (Error err));
        mret (u, poe_pollInterval u)
  end.

(* @go order-service/internal/order/application/publish_order_events.go PublishOrderEvents.deleteOldPublishedEvents *)
Definition deleteOldPublishedEvents (u : PublishOrderEvents) : prog workerE PublishOrderEvents :=
  now ← trigger WorkerClock;
  if negb (poe_cleanupUnfinished u)
     && (Sub now (poe_lastCleanup u) <? outboxCleanupInterval)%Z
  then mret u
  else
  let last := if poe_cleanupUnfinished u then poe_lastCleanup u else now in
  deleted ← trigger (DeletePublished publishedEventRetention outboxCleanupBatchSize);
  match deleted with
  | Err _ => _ ← trigger WorkerCtxErr; mret (with_cleanup u last false)
  | Ok deleted =>
      mret (with_cleanup u last (bool_decide (deleted = outboxCleanupBatchSize)))
  end.

(* @go order-service/internal/order/application/publish_order_events.go PublishOrderEvents.publishNext *)
Definition publishNext (u : PublishOrderEvents) : prog workerE (PublishOrderEvents * Z) :=
  claimed ← trigger (ClaimNext (poe_lease u));
  match claimed with
  | (entry, None) =>
      publishErr ← trigger (PublishOrderAccepted (oe_Event entry) (oe_CorrelationID entry));
      settle u entry publishErr
  | (entry, Some err) =>
      if is_app err ErrOutboxEmpty
      then u ← deleteOldPublishedEvents u; mret (u, poe_pollInterval u)
      else if is_app err ErrEventUnpublishable
      then _ ← setAside entry false err; mret (u, 0%Z)
      else _ ← trigger WorkerCtxErr; mret (u, poe_pollInterval u)
  end.

(** [Run] for at most [rounds] rounds of its loop: the answer says whether it
    returned because the context ended. *)
(* @go order-service/internal/order/application/publish_order_events.go PublishOrderEvents.Run *)
Fixpoint Run (rounds : nat) (u : PublishOrderEvents) : prog workerE (PublishOrderEvents * bool) :=
  match rounds with
  | O => mret (u, false)
  | S rounds' =>
      cancelled ← trigger WorkerCtxErr;
      match cancelled with
      | Some _ => mret (u, true)
      | None =>
          '(u, pause) ← publishNext u;
          if bool_decide (pause = 0%Z) then Run rounds' u
          else
          stopped ← trigger (WorkerTimerOrDone pause);
          match stopped with
          | Some _ => mret (u, true)
          | None => Run rounds' u
          end
      end
  end.

(** ** The retry delay *)

Definition full_delay (attempt : Z) : Z :=
  Z.min (publishRetryInitialDelay * 2 ^ (attempt - 1)) publishRetryMaxDelay.

Lemma full_delay_bounds attempt :
  (1 ≤ attempt)%Z → (publishRetryInitialDelay ≤ full_delay attempt ≤ publishRetryMaxDelay)%Z.
Proof.
  intros Ha. unfold full_delay. pose proof (Z.pow_pos_nonneg 2 (attempt - 1)).
  unfold publishRetryInitialDelay, publishRetryMaxDelay, Minute, Second in *. lia.
Qed.

(** The doubling loop computes the capped power, for any attempt number. *)
Lemma retryDelay_loop_spec fuel step attempt :
  (1 ≤ step ≤ attempt)%Z → (8 ≤ Z.of_nat fuel + step)%Z → (step ≤ 8)%Z →
  Z.min (retryDelay_loop fuel step attempt (publishRetryInitialDelay * 2 ^ (step - 1)))
    publishRetryMaxDelay = full_delay attempt.
Proof.
  revert step. induction fuel as [|fuel IH]; intros step Hs Hf H8; cbn [retryDelay_loop].
  - assert (step = 8)%Z as -> by lia. unfold full_delay.
    assert (2 ^ (8 - 1) ≤ 2 ^ (attempt - 1))%Z by (apply Z.pow_le_mono_r; lia).
    unfold publishRetryInitialDelay, publishRetryMaxDelay, Minute, Second in *. lia.
  - destruct (step <? attempt)%Z eqn:Hlt; cbn; reflect_bools.
    2:{ assert (step = attempt) as -> by lia. done. }
    destruct (_ <? publishRetryMaxDelay)%Z eqn:Hmax; reflect_bools.
    + assert (publishRetryInitialDelay * 2 ^ (step - 1) * 2
              = publishRetryInitialDelay * 2 ^ (step + 1 - 1))%Z as Heq.
      { replace (step + 1 - 1)%Z with (Z.succ (step - 1)) by lia. rewrite Z.pow_succ_r by lia. lia. }
      rewrite wrap64_id, Heq.
      2:{ unfold publishRetryInitialDelay, publishRetryMaxDelay, Minute, Second in *. int_unfold.
          pose proof (Z.pow_pos_nonneg 2 (step - 1)). lia. }
      destruct (decide (step = 8%Z)) as [->|]; [|apply IH; lia].
      by unfold publishRetryInitialDelay, publishRetryMaxDelay, Minute, Second in Hmax.
    + unfold full_delay.
      assert (2 ^ (step - 1) ≤ 2 ^ (attempt - 1))%Z by (apply Z.pow_le_mono_r; lia).
      unfold publishRetryInitialDelay, publishRetryMaxDelay, Minute, Second in *. lia.
Qed.

Definition random_in_range (c : call workerE) : Prop :=
  match c with
  | @Call _ R e r =>
      match e in workerE R return R → Prop with
      | random n => λ r, (0 < n → 0 ≤ r < n)%Z
      | _ => λ _, True
      end r
  end.

(** the delay before retry [attempt] is at least half of 5 s doubled
    [attempt - 1] times, at most all of it, and never above 5 minutes; nothing
    overflows, whatever the attempt number, for a random source in its range. *)
Theorem retryDelay_bounds attempt h delay :
  (1 ≤ attempt)%Z → runs (retryDelay attempt) h delay → Forall random_in_range h →
  (Z.quot (full_delay attempt) 2 ≤ delay ≤ full_delay attempt)%Z
  ∧ (delay ≤ publishRetryMaxDelay)%Z ∧ (2 * Second < delay)%Z.
Proof.
  intros Ha Hr Hh. unfold retryDelay in Hr.
  pose proof (retryDelay_loop_spec retryDelay_fuel 1 attempt) as Hspec. cbn [Z.sub] in Hspec.
  rewrite Z.mul_1_r in Hspec. rewrite Hspec in Hr by (unfold retryDelay_fuel; lia).
  pose proof (full_delay_bounds attempt Ha) as Hb.
  set (full := full_delay attempt) in *.
  assert (publishRetryInitialDelay = 5000000000 ∧ publishRetryMaxDelay = 300000000000)%Z as [E1 E2] by done.
  rewrite E1, E2 in Hb. rewrite Z.quot_div_nonneg in * by lia.
  pose proof (Z.div_mod full 2 ltac:(lia)) as Hdm. pose proof (Z.mod_pos_bound full 2 ltac:(lia)).
  apply runs_trigger in Hr as (jitter & h' & -> & Hr). apply runs_inv in Hr as [_ ->].
  apply Forall_cons in Hh as [Hj _]. unfold random_in_range in Hj.
  rewrite wrap64_id in Hj by (int_unfold; lia). specialize (Hj ltac:(lia)).
  rewrite wrap64_id by (int_unfold; lia). rewrite E2. unfold Second. lia.
Qed.

(** ** One round *)

(** What a history claimed, what it published, and how many writes recorded an
    outcome. *)
Definition claim_call (c : call workerE) : option (OutboxEntry * option order_error) :=
  match c with
  | @Call _ R e r =>
      match e in workerE R return R → option (OutboxEntry * option order_error) with
      | ClaimNext _ => λ r, Some r
      | _ => λ _, None
      end r
  end.
Definition publish_call (c : call workerE)
    : option (OrderAcceptedEvent * string * order_result unit) :=
  match c with
  | @Call _ R e r =>
      match e in workerE R return R → option (OrderAcceptedEvent * string * order_result unit) with
      | PublishOrderAccepted event correlationID => λ r, Some (event, correlationID, r)
      | _ => λ _, None
      end r
  end.
Definition write_made (c : call workerE) : option unit :=
  match c with
  | @Call _ R e r =>
      match e with
      | MarkPublished _ | Release _ _ | ScheduleRetry _ _ _ | MarkNeedsAttention _ _ _ => Some tt
      | _ => None
      end
  end.
Definition claims (h : list (call workerE)) := omap claim_call h.
Definition publications (h : list (call workerE)) := omap publish_call h.
Definition writes (h : list (call workerE)) : nat := length (omap write_made h).

(** The history claimed [entry], and the publisher answered [r] for it. *)
Definition published_as (h : list (call workerE)) (entry : OutboxEntry) (r : order_result unit)
    : Prop :=
  claims h = [(entry, None)] ∧ publications h = [(oe_Event entry, oe_CorrelationID entry, r)].

Section round.
Variable u : PublishOrderEvents.

Definition round_rule (h : list (call workerE)) R (e : workerE R) : Prop :=
  match e with
  | ClaimNext lease => lease = poe_lease u ∧ h = []
  | PublishOrderAccepted event correlationID =>
      ∃ entry, claims h = [(entry, None)] ∧ publications h = [] ∧ writes h = 0%nat
        ∧ event = oe_Event entry ∧ correlationID = oe_CorrelationID entry
  | MarkPublished eventID => writes h = 0%nat
      ∧ ∃ entry, published_as h entry (Ok tt) ∧ eventID = oe_EventID entry
  | Release entry delay => writes h = 0%nat
      ∧ ∃ err, published_as h entry (Err err) ∧ is_app err ErrPublisherUnavailable = true
  | ScheduleRetry entry delay reason => writes h = 0%nat
      ∧ (oe_Attempts entry + 1 < MaxPublishAttempts)%Z
      ∧ ∃ err, published_as h entry (Err err) ∧ reason = Error err
          ∧ is_app err ErrPublisherUnavailable = false ∧ is_app err ErrEventUnpublishable = false
  | MarkNeedsAttention entry countAttempt reason => writes h = 0%nat ∧ ∃ err, reason = Error err
      ∧ ((countAttempt = false ∧ is_app err ErrEventUnpublishable = true
          ∧ (claims h = [(entry, Some err)] ∨ published_as h entry (Err err)))
         ∨ (countAttempt = true ∧ published_as h entry (Err err)
            ∧ is_app err ErrPublisherUnavailable = false
            ∧ (MaxPublishAttempts ≤ oe_Attempts entry + 1)%Z))
  | DeletePublished olderThan limit =>
      olderThan = publishedEventRetention ∧ limit = outboxCleanupBatchSize
      ∧ ∃ entry err, claims h = [(entry, Some err)] ∧ is_app err ErrOutboxEmpty = true
  | _ => True
  end.

(** How the round ends: a claimed event has had its one write; the worker goes on
    at once after an event it is done with, and otherwise waits for the poll
    interval, or for the pause of an outage, which alone counts outages. *)
Definition round_post (h : list (call workerE)) (r : PublishOrderEvents * Z) : Prop :=
  let '(u', pause) := r in
  poe_lease u' = poe_lease u ∧ poe_pollInterval u' = poe_pollInterval u
  ∧ match claims h with
    | [(entry, None)] =>
        writes h = 1%nat ∧ ∃ published, published_as h entry published
        ∧ match published with
          | Ok _ => pause = 0%Z ∧ poe_outages u' = 0%Z
          | Err err =>
              if is_app err ErrPublisherUnavailable
              then poe_outages u' = wrap64 (poe_outages u + 1)
              else poe_outages u' = 0%Z
                   ∧ pause = (if is_app err ErrEventUnpublishable then 0 else poe_pollInterval u)%Z
          end
    | [(_, Some err)] =>
        if is_app err ErrOutboxEmpty then writes h = 0%nat ∧ pause = poe_pollInterval u
        else if is_app err ErrEventUnpublishable then writes h = 1%nat ∧ pause = 0%Z
        else writes h = 0%nat ∧ pause = poe_pollInterval u
    | _ => False
    end.

Lemma settle_respects entry published h :
  h = [Call (ClaimNext (poe_lease u)) (entry, None);
       Call (PublishOrderAccepted (oe_Event entry) (oe_CorrelationID entry)) published] →
  respects round_rule (settle u entry published) h round_post.
Proof.
  intros ->. unfold settle. destruct published as [[]|err].
  - cbn. split; [by repeat esplit|]. intros r. cbn. by repeat esplit.
  - destruct (is_app err ErrPublisherUnavailable) eqn:Hun.
    { cbn. split; [done|]. intros jitter. split; [by repeat esplit|]. intros r. cbn.
      split_and!; [done..|]. exists (Err err). by rewrite Hun. }
    destruct (is_app err ErrEventUnpublishable) eqn:Hup.
    { cbn. split; [split; [done|]; exists err; split; [done|]; left; split_and!; [done..|]; by right|].
      intros r. cbn. split_and!; [done..|]. exists (Err err). by rewrite Hun, Hup. }
    destruct (_ <=? _)%Z eqn:Hmax; reflect_bools.
    { cbn. split; [split; [done|]; exists err; split; [done|]; right; by repeat split|].
      intros r. cbn. split_and!; [done..|]. exists (Err err). by rewrite Hun, Hup. }
    cbn. split; [done|]. intros jitter. split; [split; [done|]; split; [done|]; by exists err|].
    intros r. cbn. split_and!; [done..|]. exists (Err err). by rewrite Hun, Hup.
Qed.

Lemma publishNext_respects : respects round_rule (publishNext u) [] round_post.
Proof.
  apply respects_trigger; [done|]. intros [entry [err|]].
  2:{ apply respects_trigger; [by exists entry|]. intros r. by apply settle_respects. }
  destruct (is_app err ErrOutboxEmpty) eqn:He.
  { cbn. split; [done|]. intros now. destruct (_ && _); cbn.
    { by rewrite He. }
    split; [split_and!; [done..|]; by exists entry, err|].
    intros [n|e]; cbn; [by rewrite He|]. split; [done|]. intros c. cbn. by rewrite He. }
  destruct (is_app err ErrEventUnpublishable) eqn:Hup; cbn.
  - split; [split; [done|]; exists err; split; [done|]; left; by auto|].
    intros r. cbn. by rewrite He, Hup.
  - split; [done|]. intros c. cbn. by rewrite He, Hup.
Qed.

(** C11: whatever its ports answer, one round of the worker publishes at most the
    event it claimed, and follows a claim by exactly one write: published only
    after the publisher said so, released only when the broker was unreachable,
    retried with one attempt used only below the tenth, set aside only for an
    event that cannot be published or at the tenth failure; it cleans up only
    when nothing is due. *)
Theorem publishNext_discipline h r :
  runs (publishNext u) h r → disciplined round_rule h ∧ round_post h r.
Proof. by apply (respects_sound _ _ []); [apply disciplined_nil|apply publishNext_respects]. Qed.
End round.

(** ** Witnesses *)

Lemma retryDelay_bounds_witness :
  ∃ delay, runs (retryDelay 3) [Call (random (10 * Second + 1)%Z) (7 * Second)%Z] delay
    ∧ (10 * Second ≤ delay ≤ 20 * Second)%Z.
Proof.
  exists (17 * Second)%Z.
  assert (Hr : runs (retryDelay 3) [Call (random (10 * Second + 1)%Z) (7 * Second)%Z] (17 * Second)%Z).
  { refine (runs_vis _ _ _ _ _ _). exact (runs_ret _). }
  split; [exact Hr|].
  exact (proj1 (retryDelay_bounds 3 _ _ ltac:(lia) Hr ltac:(repeat constructor; vm_compute; discriminate))).
Defined.

Lemma publishNext_discipline_witness :
  let u := NewPublishOrderEvents Minute Second in
  let entry := mkOutboxEntry "e-1" zero_event "" 9 "t-1" in
  let h := [Call (ClaimNext Minute) (entry, None);
            Call (PublishOrderAccepted zero_event "") (Err (Leaf (Sentinel (SRabbitmq ErrUnroutable))));
            Call (MarkNeedsAttention entry true "no queue was bound to receive the message") (Ok tt)] in
  runs (publishNext u) h (with_outages u 0, Second) ∧ round_post u h (with_outages u 0, Second).
Proof.
  cbv zeta.
  assert (Hr : runs (publishNext (NewPublishOrderEvents Minute Second))
    [Call (ClaimNext Minute) (mkOutboxEntry "e-1" zero_event "" 9 "t-1", None);
     Call (PublishOrderAccepted zero_event "") (Err (Leaf (Sentinel (SRabbitmq ErrUnroutable))));
     Call (MarkNeedsAttention (mkOutboxEntry "e-1" zero_event "" 9 "t-1") true
             "no queue was bound to receive the message") (Ok tt)]
    (with_outages (NewPublishOrderEvents Minute Second) 0, Second)).
  { repeat refine (runs_vis _ _ _ _ _ _). exact (runs_ret _). }
  split; [exact Hr|]. exact (proj2 (publishNext_discipline _ _ _ Hr)).
Defined.
