(* ===== verification/OutboxDrain.v ===== *)
(** * The outbox worker makes progress

    With a database that answers and a broker that routes, the worker publishes
    every due event in one round each and marks it published. *)
From S2P Require Import Prelude GoErrors GoStrings External Postgres OrderErrors OrderDomain Prog OrderPorts OrderStore Outbox EventWorker.

Section drain.
Context {Mail : MailLib} {Uuid : UuidLib} {Pg : Postgres} {Json : Codec orderAcceptedPayload}.
Context {UuidL : UuidLaws Uuid}.

(** ** A choice the claim's subquery may make *)

Definition attempt_le (a b : uuid * outboxRow) : Prop :=
  (ob_next_attempt_at a.2 ≤ ob_next_attempt_at b.2)%Z.
#[local] Instance attempt_le_dec a b : Decision (attempt_le a b).
Proof. unfold attempt_le; apply _. Defined.
#[local] Instance attempt_le_total : Total attempt_le.
Proof. intros a b. unfold attempt_le. lia. Qed.
#[local] Instance attempt_le_trans : Transitive attempt_le.
Proof. intros a b c. unfold attempt_le. lia. Qed.

Definition due_rows (now : Z) (db : database) : gmap uuid outboxRow :=
  filter (λ kv, is_due now kv.2 = true) (db_outbox db).
Definition first_due (now : Z) (db : database) : option uuid :=
  fst <$> head (merge_sort attempt_le (map_to_list (due_rows now db))).

Lemma due_rows_lookup now db eid row :
  due_rows now db !! eid = Some row ↔ db_outbox db !! eid = Some row ∧ is_due now row = true.
Proof. apply map_lookup_filter_Some. Qed.

Lemma first_due_choice now db : claim_choice ∅ now db (first_due now db).
Proof.
  unfold first_due.
  pose proof (StronglySorted_merge_sort attempt_le (map_to_list (due_rows now db))) as Hs.
  pose proof (merge_sort_Permutation attempt_le (map_to_list (due_rows now db))) as Hp.
  destruct (merge_sort _ _) as [|[eid row] l]; cbn.
  - intros eid row Hl Hd. assert ((eid, row) ∈ map_to_list (due_rows now db)) as Hin.
    { by apply elem_of_map_to_list, due_rows_lookup. }
    rewrite <-Hp in Hin. by apply elem_of_nil in Hin.
  - assert ((eid, row) ∈ map_to_list (due_rows now db)) as Hin by (rewrite <-Hp; by left).
    apply elem_of_map_to_list, due_rows_lookup in Hin as [Hl Hd].
    exists row. split_and!; [done|done|set_solver|]. intros eid' row' Hl' Hd'. right.
    assert ((eid', row') ∈ map_to_list (due_rows now db)) as Hin'.
    { by apply elem_of_map_to_list, due_rows_lookup. }
    rewrite <-Hp in Hin'. apply elem_of_cons in Hin' as [[= -> ->]|Hin']; [done|].
    inversion Hs as [|? ? _ Hall]; subst. eapply Forall_forall in Hall; [|exact Hin']. exact Hall.
Qed.

(** ** An environment without failures *)

(** The instant [now], a broker that routes, a context that does not end. *)
Definition routing (now : Z) (token : uuid) (R : Type) (e : workerE R) (db : database)
    : R * database :=
  match e in workerE R return R * database with
  | ClaimNext lease => outbox_ClaimNext no_faults now token (first_due now db) lease db
  | MarkPublished eventID => outbox_MarkPublished no_faults now eventID db
  | Release entry delay => outbox_Release no_faults now entry delay db
  | ScheduleRetry entry delay reason => outbox_ScheduleRetry no_faults now entry delay reason db
  | MarkNeedsAttention entry count reason => outbox_MarkNeedsAttention no_faults now entry count reason db
  | DeletePublished _ _ => (Ok 0%Z, db)
  | PublishOrderAccepted _ _ => (Ok tt, db)
  | random _ => (0%Z, db)
  | WorkerClock => (now, db)
  | WorkerCtxErr => (None, db)
  | WorkerTimerOrDone _ => (None, db)
  end.

(** Rows as [UpdateAndRecordEvent] stores them. *)
Definition readable (db : database) : Prop :=
  ∀ eid row, db_outbox db !! eid = Some row → ob_event_id row = eid ∧ is_ok
    (eventFromPayload (uuid_String eid) (uuid_String (ob_order_id row)) (ob_payload row)) = true.

(** The row once the worker is done with it. *)
Definition publish_row (now lease : Z) (token : uuid) (row : outboxRow) : outboxRow :=
  mkOutboxRow (ob_event_id row) (ob_event_type row) (ob_order_id row) (ob_payload row)
    (ob_correlation_id row) "published" (ob_attempts row) (now + interval_value lease)
    (Some token) None (ob_created_at row) (Some now) (ob_needs_attention_at row).

Lemma publishNext_routing now token u db eid row :
  readable db → first_due now db = Some eid → db_outbox db !! eid = Some row →
  run (routing now token) (publishNext u) db
  = ((with_outages u 0, 0%Z),
     set_outbox db (<[eid := publish_row now (poe_lease u) token row]> (db_outbox db))).
Proof.
  intros Hr Hf Hl. destruct (Hr _ _ Hl) as [Hid Hok].
  pose proof (first_due_choice now db) as Hch. rewrite Hf in Hch.
  destruct Hch as (row0 & Hl0 & Hdue & _). assert (row0 = row) as -> by congruence.
  assert (ob_status row = "pending") as Hp by (unfold is_due in Hdue; by reflect_bools).
  unfold publishNext. cbn [run trigger mbind prog_bind prog_bind_go routing].
  rewrite Hf. unfold outbox_ClaimNext, exec_write. cbn. rewrite Hl. cbn. rewrite Hid.
  destruct (eventFromPayload _ _ _) as [event|]; [|done]. cbn.
  unfold outbox_MarkPublished, exec_write, with_uuid. cbn. rewrite uuid_Parse_String.
  unfold markOutboxEventPublished, update_row. cbn. rewrite lookup_insert_eq. cbn.
  rewrite Hp. cbn. rewrite insert_insert_eq. unfold publish_row. by rewrite Hid.
Qed.

(** With nothing due, a round leaves the table and the settings alone. *)
Lemma publishNext_idle now token u db :
  due_rows now db = ∅ →
  ∃ u' pause, run (routing now token) (publishNext u) db = ((u', pause), db)
    ∧ poe_lease u' = poe_lease u.
Proof.
  intros He. assert (first_due now db = None) as Hf.
  { unfold first_due. rewrite He, map_to_list_empty. reflexivity. }
  unfold publishNext. cbn [run trigger mbind prog_bind prog_bind_go routing].
  rewrite Hf. change (outbox_ClaimNext _ _ _ _ _ _) with ((zero_entry, Some (app ErrOutboxEmpty)), db).
  cbv beta iota. change (is_app (app ErrOutboxEmpty) ErrOutboxEmpty) with true. cbv iota.
  rewrite run_bind. unfold deleteOldPublishedEvents.
  cbn [run trigger mbind prog_bind prog_bind_go routing].
  destruct (_ && _); [by eexists u, _|].
  cbn [run trigger mbind prog_bind prog_bind_go routing]. by eexists _, _.
Qed.

(** A row that is rewritten and no longer due leaves the others as they are. *)
Lemma rewritten_due now db eid row :
  is_due now row = false →
  due_rows now (set_outbox db (<[eid := row]> (db_outbox db))) = delete eid (due_rows now db).
Proof.
  intros Hno. apply map_eq. intros e. apply option_eq. intros r.
  rewrite due_rows_lookup, lookup_delete_Some, due_rows_lookup. cbn.
  rewrite lookup_insert_Some. split.
  - intros [[[<- <-]|[Hne He]] Hd]; [congruence|done].
  - intros (Hne & He & Hd). split; [by right|done].
Qed.

Lemma publish_readable now lease token db eid row :
  readable db → db_outbox db !! eid = Some row →
  readable (set_outbox db (<[eid := publish_row now lease token row]> (db_outbox db))).
Proof.
  intros Hr Hl e r. cbn. intros [[<- <-]|[_ He]]%lookup_insert_Some; [apply (Hr _ _ Hl)|by apply Hr].
Qed.

(** C15: with a database that answers and a broker that routes, [n] rounds of the
    loop publish every due event when at most [n] are due: each is marked
    published, every other row is left as it is, and nothing is due any more. *)
Theorem worker_drains_outbox now token u n db :
  readable db → (size (due_rows now db) ≤ n)%nat →
  let '(_, db') := run (routing now token) (Run n u) db in
  due_rows now db' = ∅
  ∧ ∀ eid row, db_outbox db !! eid = Some row →
      db_outbox db' !! eid = Some (if is_due now row then publish_row now (poe_lease u) token row else row).
Proof.
  assert (∀ db, due_rows now db = ∅ → ∀ eid row, db_outbox db !! eid = Some row →
    is_due now row = false) as Hnone.
  { intros db0 He eid row Hl. destruct (is_due now row) eqn:Hd; [|done].
    assert (due_rows now db0 !! eid = Some row) as Hx by by apply due_rows_lookup.
    by rewrite He, lookup_empty in Hx. }
  revert u db. induction n as [|n IH]; intros u db Hr Hn.
  { assert (due_rows now db = ∅) as He by (apply map_size_empty_iff; lia).
    split; [done|]. intros eid row Hl. by rewrite (Hnone _ He _ _ Hl). }
  cbn [Run]. rewrite run_bind. cbn [run trigger routing]. rewrite run_bind.
  destruct (first_due now db) as [eid|] eqn:Hf.
  - pose proof (first_due_choice now db) as Hch. rewrite Hf in Hch.
    destruct Hch as (row & Hl & Hdue & _).
    rewrite (publishNext_routing _ _ _ _ _ _ Hr Hf Hl).
    rewrite bool_decide_eq_true_2 by done.
    set (db1 := set_outbox _ _).
    assert (due_rows now db1 = delete eid (due_rows now db)) as Hd1 by by apply rewritten_due.
    assert (size (due_rows now db1) ≤ n)%nat as Hn1.
    { rewrite Hd1, map_size_delete_Some by (exists row; by apply due_rows_lookup). lia. }
    specialize (IH (with_outages u 0) db1 (publish_readable _ _ _ _ _ _ Hr Hl) Hn1).
    destruct (run _ (Run n _) db1) as [? db']. destruct IH as [He IH].
    split; [done|]. intros e r He'. destruct (decide (e = eid)) as [->|Hne].
    + assert (r = row) as -> by congruence. rewrite Hdue.
      apply (IH eid (publish_row now (poe_lease u) token row)). cbn. apply lookup_insert_eq.
    + apply (IH e r). cbn. by rewrite lookup_insert_ne.
  - assert (due_rows now db = ∅) as He.
    { apply map_empty. intros e. destruct (due_rows now db !! e) as [r|] eqn:Hx; [|done].
      apply due_rows_lookup in Hx as [Hl Hd]. pose proof (first_due_choice now db) as Hch.
      rewrite Hf in Hch. by specialize (Hch _ _ Hl Hd). }
    destruct (publishNext_idle now token u db He) as (u' & pause & -> & Hlease).
    assert (size (due_rows now db) ≤ n)%nat as Hn' by (rewrite He, map_size_empty; lia).
    specialize (IH u' db Hr Hn'). rewrite Hlease in IH.
    destruct (bool_decide _); [done|]. rewrite run_bind. cbn [run trigger routing]. done.
Qed.
End drain.

Lemma worker_drains_outbox_witness :
  let '(_, db') := run (routing 200 sample_token) (Run 1 (NewPublishOrderEvents Minute Second))
    sample_outbox in
  db_outbox db' !! sample_eid = Some (publish_row 200 Minute sample_token sample_row).
Proof.
  assert (readable sample_outbox) as Hr.
  { intros eid row [<- <-]%sample_outbox_lookup. by split. }
  assert (size (due_rows 200 sample_outbox) ≤ 1)%nat as Hn by (vm_compute; lia).
  pose proof (worker_drains_outbox 200 sample_token (NewPublishOrderEvents Minute Second) 1
    sample_outbox Hr Hn) as H.
  destruct (run _ _ _) as [? db']. destruct H as [_ H].
  apply (H sample_eid sample_row). by apply sample_outbox_lookup.
Defined.
