(* ===== verification/OrderEvents.v ===== *)
(** * The published order events

    The contract between order-service and its consumers: the topic constants of
    [api/orderevents], the protobuf message of an accepted order, and the adapter
    [ordereventamqp] that builds the message of an event and translates what the
    broker said of it. *)
From S2P Require Import Prelude GoErrors GoStrings External OrderErrors OrderDomain OrderPorts.

(* @go order-service/api/orderevents/topic.go ExchangeOrders *)
Definition ExchangeOrders : string := "orders".
(* @go order-service/api/orderevents/topic.go ExchangeOrdersKind *)
Definition ExchangeOrdersKind : string := "topic".
(* @go order-service/api/orderevents/topic.go ExchangeOrdersDurable *)
Definition ExchangeOrdersDurable : bool := true.
(* @go order-service/api/orderevents/topic.go ExchangeOrdersAutoDelete *)
Definition ExchangeOrdersAutoDelete : bool := false.
(* @go order-service/api/orderevents/topic.go ExchangeOrdersInternal *)
Definition ExchangeOrdersInternal : bool := false.
(* @go order-service/api/orderevents/topic.go RoutingKeyOrderAccepted *)
Definition RoutingKeyOrderAccepted : string := "order.accepted.v1".
(* @go order-service/api/orderevents/topic.go MessageTypeOrderAccepted *)
Definition MessageTypeOrderAccepted : string := "order.accepted.v1".
(* @go order-service/api/orderevents/topic.go ContentTypeProtobuf *)
Definition ContentTypeProtobuf : string := "application/protobuf".

(** [timestamppb.New] and [AsTime]. *)
Class TimestampLib : Type := {
  timestamp : Type;
  timestamppb_New : Z → timestamp;
  AsTime : timestamp → Z;
}.
Class TimestampLaws (T : TimestampLib) : Prop := { AsTime_New : ∀ t, AsTime (timestamppb_New t) = t }.
#[export] Instance sample_timestamps : TimestampLib :=
  {| timestamp := Z; timestamppb_New t := t; AsTime t := t |}.
#[export] Instance sample_timestamps_laws : TimestampLaws sample_timestamps.
Proof. by split. Qed.

Section messages.
Context {Times : TimestampLib}.

(** The generated message types: a sub-message may be absent. *)
Record protoMoney := mkProtoMoney { pm_AmountInMinorUnits : Z; pm_Currency : string }.
Record protoLine := mkProtoLine {
  pln_ProductSku : string;
  pln_Quantity : Z;
  pln_UnitPrice : option protoMoney;
}.
Record protoOrderAccepted := mkProtoOrderAccepted {
  poa_EventId : string;
  poa_OrderId : string;
  poa_OccurredAt : option timestamp;
  poa_CustomerEmail : string;
  poa_TotalAmount : option protoMoney;
  poa_Lines : list (option protoLine);
}.

(* @go order-service/internal/order/adapter/outbound/ordereventamqp/publisher.go protoMoney *)
Definition protoMoney_of (amountInMinorUnits : Z) (currency : string) : protoMoney :=
  mkProtoMoney amountInMinorUnits currency.

(** [int32(line.Quantity)] keeps the low 32 bits. *)
(* @go order-service/internal/order/adapter/outbound/ordereventamqp/publisher.go protoOrderAccepted *)
Definition protoOrderAccepted_of (event : OrderAcceptedEvent) : protoOrderAccepted := {|
  poa_EventId := oae_EventID event;
  poa_OrderId := oae_OrderID event;
  poa_OccurredAt := Some (timestamppb_New (oae_OccurredAt event));
  poa_CustomerEmail := oae_CustomerEmail event;
  poa_TotalAmount :=
    Some (protoMoney_of (AmountInCents (oae_Total event)) (Currency (oae_Total event)));
  poa_Lines := (λ line, Some (mkProtoLine (oal_ProductSKU line) (wrap32 (oal_Quantity line))
    (Some (protoMoney_of (AmountInCents (oal_UnitPrice line)) (Currency (oal_UnitPrice line))))))
    <$> oae_Lines event;
|}.
End messages.

(* @go order-service/internal/platform/rabbitmq/publisher.go Message *)
Record Message := mkMessage {
  msg_Exchange : string;
  msg_RoutingKey : string;
  msg_Type : string;
  msg_ContentType : string;
  msg_MessageID : string;
  msg_CorrelationID : string;
  msg_Body : string;
}.

(** ** The adapter *)
Section adapter.
Context {Times : TimestampLib} {Wire : Codec protoOrderAccepted}.

(** The message of an event, or why there is none. *)
(* @src order-service/internal/order/adapter/outbound/ordereventamqp/publisher.go:36-54 Publisher.PublishOrderAccepted *)
Definition message_of (event : OrderAcceptedEvent) (correlationID : string) : order_result Message :=
  match Marshal (protoOrderAccepted_of event) with
  | Err text => Err (Join (app ErrEventUnpublishable)
                       (Wrap "marshal order accepted event" (Opaque text)))
  | Ok body => Ok {|
      msg_Exchange := ExchangeOrders;
      msg_RoutingKey := RoutingKeyOrderAccepted;
      msg_Type := MessageTypeOrderAccepted;
      msg_ContentType := ContentTypeProtobuf;
      msg_MessageID := oae_EventID event;
      msg_CorrelationID := correlationID;
      msg_Body := body;
    |}
  end.

(* @src order-service/internal/order/adapter/outbound/ordereventamqp/publisher.go:56-65 Publisher.PublishOrderAccepted *)
Definition translate (published : order_result unit) : order_result unit :=
  match published with
  | Ok _ => Ok tt
  | Err err =>
      if is_mq err ErrUnavailable then Err (Join (app ErrPublisherUnavailable) err)
      else if is_mq err ErrOutcomeUnknown then Err (Join (app ErrPublicationOutcomeUnknown) err)
      else Err err
  end.

End adapter.
