(* ===== verification/RabbitPublisher.v ===== *)
(** * The RabbitMQ publisher

    [platform/rabbitmq.Publisher] of order-service: one connection kept and rebuilt
    as a whole, mandatory publications with confirms, and the verdict on each. *)
From S2P Require Import Prelude GoErrors GoStrings External OrderErrors Prog OrderEvents.

(* @go order-service/internal/platform/rabbitmq/publisher.go ExchangeDeclaration *)
Record ExchangeDeclaration := mkExchangeDeclaration {
  ed_Name : string;
  ed_Kind : string;
  ed_Durable : bool;
  ed_AutoDelete : bool;
  ed_Internal : bool;
}.
(* @go order-service/internal/platform/rabbitmq/publisher.go Config *)
Record Config := mkConfig {
  cfg_PublishTimeout : Z;
  cfg_DialTimeout : Z;
  cfg_ReconnectDelay : Z;
  cfg_Exchanges : list ExchangeDeclaration;
}.

(** What a non-blocking receive from the channel of returns finds. *)
Inductive received :=
| Empty
| Closed
| Returned (ReplyText : string) (ReplyCode : Z).

(** The calls of the AMQP library and of the clock. Connections, channels, lists of
    returns and confirmations are the library's objects, named by numbers. *)
Inductive amqpE : Type → Type :=
| IsClosed (channel : nat) : amqpE bool
| SinceDial (lastDialAt : Z) : amqpE Z
| Now : amqpE Z
| DialConfig (timeout : Z) : amqpE (result string nat)
| OpenChannel (connection : nat) : amqpE (result string nat)
| ExchangeDeclare (channel : nat) (exchange : ExchangeDeclaration) : amqpE (result string unit)
| Confirm (channel : nat) : amqpE (result string unit)
| NotifyReturn (channel : nat) : amqpE nat
| CloseChannel (channel : nat) : amqpE (option string)
| CloseConnection (connection : nat) : amqpE (option string)
| Receive (returns : nat) : amqpE received
| PublishWithDeferredConfirm (channel : nat) (mandatory : bool) (message : Message)
    : amqpE (result string nat)
| WaitConfirmation (confirmation : nat) : amqpE (result string bool).

(* @go order-service/internal/platform/rabbitmq/publisher.go Publisher *)
Record Publisher := mkPublisher {
  pub_connection : option nat;
  pub_channel : option nat;
  pub_returns : option nat;
  pub_lastDialAt : Z;
}.
(* @go order-service/internal/platform/rabbitmq/publisher.go NewPublisher *)
Definition NewPublisher : Publisher := mkPublisher None None None 0.

Definition ignore {A} (e : amqpE A) : prog amqpE unit := _ ← trigger e; mret tt.
Definition when_some {A} (x : option A) (f : A → prog amqpE unit) : prog amqpE unit :=
  match x with Some a => f a | None => mret tt end.

(* @go order-service/internal/platform/rabbitmq/publisher.go Publisher.discard *)
Definition discard (p : Publisher) : prog amqpE Publisher :=
  _ ← when_some (pub_channel p) (λ c, ignore (CloseChannel c));
  _ ← when_some (pub_connection p) (λ c, ignore (CloseConnection c));
  mret (mkPublisher None None None (pub_lastDialAt p)).

(** A receive from a nil channel is never ready. *)
Definition receive (returns : option nat) : prog amqpE received :=
  match returns with Some returns => trigger (Receive returns) | None => mret Empty end.

(** Receive until there is nothing to receive; [None] when the fuel runs out. *)
(* @go order-service/internal/platform/rabbitmq/publisher.go drain *)
Fixpoint drain (fuel : nat) (returns : option nat) : prog amqpE (option unit) :=
  match fuel with
  | O => mret None
  | S fuel' =>
      r ← receive returns;
      match r with
      | Returned _ _ => drain fuel' returns
      | Closed => mret (Some tt)
      | Empty => mret (Some tt)
      end
  end.

(* @src order-service/internal/platform/rabbitmq/publisher.go:220-243 Publisher.ready *)
Fixpoint declareExchanges (connection channel : nat) (exchanges : list ExchangeDeclaration)
    : prog amqpE (order_result unit) :=
  match exchanges with
  | [] => mret (Ok tt)
  | exchange :: exchanges' =>
      declared ← trigger (ExchangeDeclare channel exchange);
      match declared with
      | Err err =>
          _ ← ignore (CloseChannel channel);
          _ ← ignore (CloseConnection connection);
          mret (Err (Join (mq ErrUnavailable)
            (Wrap ("declare exchange " +:+ Quote (ed_Name exchange)) (Opaque err))))
      | Ok _ => declareExchanges connection channel exchanges'
      end
  end.

Section publisher.
(** [Duration.String], which only appears in the text of an error. *)
Variable duration_String : Z → string.
Variable config : Config.

(** Set up a channel on a new connection: exchanges, confirms and returns. *)
(* @src order-service/internal/platform/rabbitmq/publisher.go:213-260 Publisher.ready *)
Definition open_session (p : Publisher) (now : Z) (connection : nat)
    : prog amqpE (Publisher * order_result (nat * option nat)) :=
  opened ← trigger (OpenChannel connection);
  match opened with
  | Err err =>
      _ ← ignore (CloseConnection connection);
      mret (p, Err (Join (mq ErrUnavailable) (Wrap "open channel" (Opaque err))))
  | Ok channel =>
  declared ← declareExchanges connection channel (cfg_Exchanges config);
  match declared with
  | Err err => mret (p, Err err)
  | Ok _ =>
  confirming ← trigger (Confirm channel);
  match confirming with
  | Err err =>
      _ ← ignore (CloseChannel channel);
      _ ← ignore (CloseConnection connection);
      mret (p, Err (Join (mq ErrUnavailable) (Wrap "enter confirm mode" (Opaque err))))
  | Ok _ =>
  returns ← trigger (NotifyReturn channel);
  mret (mkPublisher (Some connection) (Some channel) (Some returns) now,
        Ok (channel, Some returns))
  end end end.

(** Drop what is left of the last session and dial again, unless it is too soon. *)
(* @src order-service/internal/platform/rabbitmq/publisher.go:187-212 Publisher.ready *)
Definition connect (p : Publisher) : prog amqpE (Publisher * order_result (nat * option nat)) :=
  p ← discard p;
  waited ← trigger (SinceDial (pub_lastDialAt p));
  if (waited <? cfg_ReconnectDelay config)%Z
  then mret (p, Err (Note (mq ErrUnavailable)
         ("last dial " +:+ duration_String waited +:+ " ago, waiting "
          +:+ duration_String (cfg_ReconnectDelay config) +:+ " between attempts")))
  else
  now ← trigger Now;
  let p := mkPublisher (pub_connection p) (pub_channel p) (pub_returns p) now in
  dialled ← trigger (DialConfig (cfg_DialTimeout config));
  match dialled with
  | Err err => mret (p, Err (Join (mq ErrUnavailable) (Wrap "dial" (Opaque err))))
  | Ok connection => open_session p now connection
  end.

(* @src order-service/internal/platform/rabbitmq/publisher.go:182-186 Publisher.ready *)
Definition ready (p : Publisher) : prog amqpE (Publisher * order_result (nat * option nat)) :=
  match pub_channel p with
  | Some channel =>
      closed ← trigger (IsClosed channel);
      if closed : bool then connect p else mret (p, Ok (channel, pub_returns p))
  | None => connect p
  end.

(** Called with the mutex held, so one at a time. [None]: the drain did not end
    within [fuel] receives. *)
(* @go order-service/internal/platform/rabbitmq/publisher.go Publisher.Publish *)
Definition Publish (fuel : nat) (p : Publisher) (message : Message)
    : prog amqpE (option (Publisher * order_result unit)) :=
  '(p, handles) ← ready p;
  match handles with
  | Err err => mret (Some (p, Err err))
  | Ok (channel, returns) =>
  drained ← drain fuel returns;
  match drained with
  | None => mret None
  | Some _ =>
  published ← trigger (PublishWithDeferredConfirm channel true message);
  match published with
  | Err err =>
      p ← discard p;
      mret (Some (p, Err (Join (mq ErrOutcomeUnknown) (Opaque err))))
  | Ok confirmation =>
  waited ← trigger (WaitConfirmation confirmation);
  match waited with
  | Err err =>
      p ← discard p;
      mret (Some (p, Err (Join (mq ErrOutcomeUnknown) (Opaque err))))
  | Ok acknowledged =>
  returned ← receive returns;
  match returned with
  | Returned text code =>
      mret (Some (p, Err (Note (mq ErrUnroutable) (text +:+ " (" +:+ Itoa code +:+ ")"))))
  | Empty | Closed =>
      if negb acknowledged then mret (Some (p, Err (mq ErrRejected)))
      else mret (Some (p, Ok tt))
  end end end end end.

(** [errors.Join] of the two close errors. *)
(* @go order-service/internal/platform/rabbitmq/publisher.go Publisher.Close *)
Definition Close (p : Publisher) : prog amqpE (Publisher * list string) :=
  channelErr ← match pub_channel p with Some c => trigger (CloseChannel c) | None => mret None end;
  connectionErr ← match pub_connection p with
                  | Some c => trigger (CloseConnection c) | None => mret None end;
  mret (mkPublisher None None None (pub_lastDialAt p),
        option_list channelErr ++ option_list connectionErr).
End publisher.

(** ** Verdicts and sessions *)

(** The publications, confirmations and receives of a history, with the answers. *)
Definition publication (c : call amqpE) : option (bool * Message * result string nat) :=
  match c with
  | @Call _ R e r =>
      match e in amqpE R return R → option (bool * Message * result string nat) with
      | PublishWithDeferredConfirm _ mandatory message => λ r, Some (mandatory, message, r)
      | _ => λ _, None
      end r
  end.
Definition confirmation (c : call amqpE) : option (result string bool) :=
  match c with
  | @Call _ R e r =>
      match e in amqpE R return R → option (result string bool) with
      | WaitConfirmation _ => λ r, Some r
      | _ => λ _, None
      end r
  end.
Definition publications (h : list (call amqpE)) := omap publication h.
Definition confirmations (h : list (call amqpE)) := omap confirmation h.

Lemma publications_app h h' : publications (h ++ h') = publications h ++ publications h'.
Proof. apply omap_app. Qed.
Lemma confirmations_app h h' : confirmations (h ++ h') = confirmations h ++ confirmations h'.
Proof. apply omap_app. Qed.

(** The publisher's errors carry no sentinel of the application. *)
Definition broker_error (err : order_error) : Prop := ∀ s, is_app err s = false.
(** An error for a message that was not given to the broker. *)
Definition unsent (err : order_error) : Prop :=
  is_mq err ErrUnavailable = true ∧ broker_error err.

Section verdicts.
Variable duration_String : Z → string.
Variable config : Config.

(** The channel [ch] was set up as a whole: its exchanges declared, confirms on,
    and [ret] told of its returns. *)
Definition session (h : list (call amqpE)) (ch : nat) (ret : option nat) : Prop :=
  (∀ ex, ex ∈ cfg_Exchanges config → Call (ExchangeDeclare ch ex) (Ok tt) ∈ h)
  ∧ Call (Confirm ch) (Ok tt) ∈ h
  ∧ ∃ r, ret = Some r ∧ Call (NotifyReturn ch) r ∈ h.

Definition publisher_inv (h : list (call amqpE)) (p : Publisher) : Prop :=
  ∀ ch, pub_channel p = Some ch → session h ch (pub_returns p) ∧ is_Some (pub_connection p).

Definition publish_rule (h : list (call amqpE)) R (e : amqpE R) : Prop :=
  match e with
  | PublishWithDeferredConfirm ch mandatory _ =>
      mandatory = true
      ∧ ∃ ret h1, session h ch (Some ret)
          ∧ (h = h1 ++ [Call (Receive ret) Empty] ∨ h = h1 ++ [Call (Receive ret) Closed])
  | _ => True
  end.

Lemma session_app h h' ch ret : session h ch ret → session (h ++ h') ch ret.
Proof.
  intros (H1 & H2 & r & -> & H3). unfold session. setoid_rewrite elem_of_app. naive_solver.
Qed.
Lemma publisher_inv_app h h' p : publisher_inv h p → publisher_inv (h ++ h') p.
Proof. intros Hp ch Hc. destruct (Hp _ Hc). split; [by apply session_app|done]. Qed.

Lemma publisher_inv_none h c r t : publisher_inv h (mkPublisher c None r t).
Proof. by intros ch. Qed.

(** [h'] extends [h] without a publication or a confirmation. *)
Definition quiet (h h' : list (call amqpE)) : Prop :=
  (∃ k, h' = h ++ k) ∧ publications h' = publications h ∧ confirmations h' = confirmations h.

Lemma quiet_refl h : quiet h h.
Proof. split; [exists []; by rewrite app_nil_r|done]. Qed.
Lemma quiet_trans h1 h2 h3 : quiet h1 h2 → quiet h2 h3 → quiet h1 h3.
Proof.
  intros ((k & ->) & P1 & C1) ((k' & ->) & P2 & C2). split; [eexists; by rewrite <-app_assoc|].
  split; congruence.
Qed.
Lemma quiet_call h R (e : amqpE R) r :
  publication (Call e r) = None → confirmation (Call e r) = None → quiet h (h ++ [Call e r]).
Proof.
  intros Hp Hc. split; [eauto|]. rewrite publications_app, confirmations_app.
  change (publications [Call e r]) with (match publication (Call e r) with Some y => [y] | None => [] end).
  change (confirmations [Call e r]) with (match confirmation (Call e r) with Some y => [y] | None => [] end).
  rewrite Hp, Hc. by rewrite !app_nil_r.
Qed.
Lemma quiet_session h h' ch ret : quiet h h' → session h ch ret → session h' ch ret.
Proof. intros ((k & ->) & _). apply session_app. Qed.

(** Histories that differ by calls other than publications and confirmations. *)
Ltac quiet_tac :=
  repeat (eapply quiet_trans; [|by apply quiet_call]); first [eassumption | apply quiet_refl].

Lemma discard_respects {A} p (k : Publisher → prog amqpE A) h Q :
  (∀ h', quiet h h' → respects publish_rule (k (mkPublisher None None None (pub_lastDialAt p))) h' Q) →
  respects publish_rule (discard p ≫= k) h Q.
Proof.
  intros Hk. unfold discard. destruct p as [[c|] [ch|] r t]; cbn.
  - split; [done|]. intros ?. split; [done|]. intros ?. apply Hk.
    quiet_tac.
  - split; [done|]. intros ?. apply Hk. quiet_tac.
  - split; [done|]. intros ?. apply Hk. quiet_tac.
  - apply Hk, quiet_refl.
Qed.

Lemma declare_respects c ch exs h :
  respects publish_rule (declareExchanges c ch exs) h (λ h' r, quiet h h'
    ∧ match r with
      | Ok _ => ∀ ex, ex ∈ exs → Call (ExchangeDeclare ch ex) (Ok tt) ∈ h'
      | Err err => unsent err
      end).
Proof.
  revert h. induction exs as [|ex exs IH]; intros h; cbn.
  - split; [apply quiet_refl|]. intros ex Hex. by apply elem_of_nil in Hex.
  - split; [done|]. intros [[]|err]; cbn.
    + eapply respects_mono; [|apply IH]. cbn. intros h' r [Hq Hr]. split.
      { eapply quiet_trans; [|done]. quiet_tac. }
      destruct r; [|done]. intros ex' [->|Hex]%elem_of_cons; [|by apply Hr].
      destruct Hq as ((k & ->) & _). apply elem_of_app. left. apply elem_of_app. right. by left.
    + split; [done|]. intros ?. split; [done|]. intros ?. split; [|done].
      quiet_tac.
Qed.

(** What [ready] leaves: either a session, or an error that says nothing was sent. *)
Definition ready_post (h h' : list (call amqpE)) (r : Publisher * order_result (nat * option nat))
    : Prop :=
  quiet h h' ∧ publisher_inv h' r.1
  ∧ match r.2 with
    | Ok (ch, ret) => session h' ch ret
    | Err err => unsent err
    end.

Lemma ready_post_quiet h h1 h' r : quiet h h1 → ready_post h1 h' r → ready_post h h' r.
Proof. intros Hq (H1 & H2 & H3). split; [by eapply quiet_trans|done]. Qed.

Lemma open_session_respects p now connection h :
  pub_channel p = None →
  respects publish_rule (open_session config p now connection) h (ready_post h).
Proof.
  intros Hnone. assert (∀ h', publisher_inv h' p) as Hinv by (intros h' ch Hch; congruence).
  apply respects_trigger; [done|]. intros [ch|err].
  2:{ cbn. split; [done|]. intros ?. split; [|by split; [apply Hinv|]].
      quiet_tac. }
  apply respects_bind. eapply respects_mono; [|apply declare_respects].
  intros h1 declared [Hq1 Hdecl]. assert (quiet h h1) as Hq.
  { eapply quiet_trans; [|done]. quiet_tac. }
  destruct declared as [[]|err].
  2:{ cbn. split; [done|]. by split; [apply Hinv|]. }
  apply respects_trigger; [done|]. intros [[]|err].
  2:{ cbn. split; [done|]. intros ?. split; [done|]. intros ?. split; [|by split; [apply Hinv|]].
      quiet_tac. }
  apply respects_trigger; [done|]. intros ret.
  assert (session ((h1 ++ [Call (Confirm ch) (Ok tt)]) ++ [Call (NotifyReturn ch) ret]) ch (Some ret)) as Hs.
  { split_and!; [intros ex Hex; do 2 (apply elem_of_app; left); by apply Hdecl|..].
    - apply elem_of_app. left. apply elem_of_app. right. by left.
    - exists ret. split; [done|]. apply elem_of_app. right. by left. }
  cbn. split.
  { quiet_tac. }
  split; [|done]. intros ch' [= <-]. by split.
Qed.

Lemma connect_respects p h :
  respects publish_rule (connect duration_String config p) h (ready_post h).
Proof.
  apply discard_respects. intros h1 Hq1.
  eapply respects_mono; [intros h' r; apply ready_post_quiet, Hq1|]. cbn [pub_lastDialAt].
  apply respects_trigger; [done|]. intros waited. destruct (_ <? _)%Z eqn:Hw; reflect_bools.
  { cbn. split; [by apply quiet_call|]. split; [apply publisher_inv_none|done]. }
  apply respects_trigger; [done|]. intros now. cbn [pub_connection pub_channel pub_returns].
  apply respects_trigger; [done|]. intros r. assert (quiet h1 (((h1 ++ [Call (SinceDial (pub_lastDialAt p)) waited])
    ++ [Call Now now]) ++ [Call (DialConfig (cfg_DialTimeout config)) r])) as Hq2 by quiet_tac.
  destruct r as [connection|err].
  - eapply respects_mono; [intros h' r; apply ready_post_quiet, Hq2|]. by apply open_session_respects.
  - cbn. split; [apply Hq2|]. split; [apply publisher_inv_none|done].
Qed.

Lemma ready_respects p h :
  publisher_inv h p →
  respects publish_rule (ready duration_String config p) h (ready_post h).
Proof.
  intros Hinv. unfold ready. destruct (pub_channel p) as [ch|] eqn:Hch; [|apply connect_respects].
  apply respects_trigger; [done|]. intros [].
  - eapply respects_mono; [|apply connect_respects]. intros h' r. apply ready_post_quiet.
    by apply quiet_call.
  - cbn. split; [by apply quiet_call|]. split; [by apply publisher_inv_app|].
    apply session_app. by apply Hinv.
Qed.

(** What [Publish] answers, and what was done. *)
Definition publish_post (message : Message) (h h' : list (call amqpE))
    (r : option (Publisher * order_result unit)) : Prop :=
  match r with
  | None => True
  | Some (p, verdict) =>
      publisher_inv h' p ∧ ∃ k, h' = h ++ k ∧
      match verdict with
      | Ok _ => (∃ conf, publications k = [(true, message, Ok conf)]) ∧ confirmations k = [Ok true]
          ∧ ∃ k1 ret c, k = k1 ++ [Call (Receive ret) c] ∧ (c = Empty ∨ c = Closed)
      | Err err =>
          broker_error err ∧
          if is_mq err ErrUnavailable then publications k = []
          else if is_mq err ErrOutcomeUnknown
          then pub_channel p = None ∧ pub_connection p = None
               ∧ ∃ a, publications k = [(true, message, a)]
                      ∧ (is_ok a = false ∨ ∃ e, confirmations k = [Err e])
          else (∃ conf, publications k = [(true, message, Ok conf)])
               ∧ (is_mq err ErrUnroutable = true
                    ∧ (∃ k1 ret text code, k = k1 ++ [Call (Receive ret) (Returned text code)])
                  ∨ confirmations k = [Ok false])
      end
  end.

(** A drain runs out of fuel only on a channel that gave a return every time; it
    ends with a receive that found none. *)
Lemma drain_respects fuel r h :
  respects publish_rule (drain fuel (Some r)) h (λ h' a, quiet h h'
    ∧ match a with
      | Some _ => ∃ h1, h' = h1 ++ [Call (Receive r) Empty] ∨ h' = h1 ++ [Call (Receive r) Closed]
      | None => ∃ returned, length returned = fuel
          ∧ h' = h ++ ((λ tc, Call (Receive r) (Returned tc.1 tc.2)) <$> returned)
      end).
Proof.
  revert h. induction fuel as [|fuel IH]; intros h.
  - cbn. split; [apply quiet_refl|]. exists []. by rewrite app_nil_r.
  - cbn [drain receive]. apply respects_trigger; [done|]. intros [| |text code].
    + cbn. split; [quiet_tac|]. exists h. by left.
    + cbn. split; [quiet_tac|]. exists h. by right.
    + eapply respects_mono; [|apply IH]. cbn. intros h' a [Hq Ha]. split.
      { eapply quiet_trans; [|done]. quiet_tac. }
      destruct a; [done|]. destruct Ha as (l & Hl & ->). exists ((text, code) :: l).
      cbn. rewrite Hl. split; [done|]. by rewrite <-app_assoc.
Qed.

Lemma quiet_ext h h' : quiet h h' → ∃ k, h' = h ++ k ∧ publications k = [] ∧ confirmations k = [].
Proof.
  intros ((k & ->) & P & C). exists k. rewrite publications_app in P. rewrite confirmations_app in C.
  rewrite <-(app_nil_r (publications h)) in P at 2. rewrite <-(app_nil_r (confirmations h)) in C at 2.
  apply app_inv_head in P, C. done.
Qed.

(** A publication whose confirmation was lost: the session goes with it. *)
Lemma lost_respects p message h sent a err :
  publications sent = [(true, message, a)] → (is_ok a = false ∨ ∃ e, confirmations sent = [Err e]) →
  respects publish_rule
    (p ← discard p; mret (Some (p, Err (Join (mq ErrOutcomeUnknown) (Opaque err))))) (h ++ sent)
    (publish_post message h).
Proof.
  intros HP HC. apply discard_respects. intros h' (k & -> & Pk & Ck)%quiet_ext. cbn.
  split; [apply publisher_inv_none|]. exists (sent ++ k). split; [by rewrite app_assoc|].
  do 3 (split; [done|]). exists a. rewrite publications_app, confirmations_app, Pk, Ck, !app_nil_r.
  by split.
Qed.

(** A publication the broker answered: the return decides, and then the confirmation. *)
Lemma answered_respects p message h sent conf acknowledged r :
  publisher_inv (h ++ sent) p → publications sent = [(true, message, Ok conf)] →
  confirmations sent = [Ok acknowledged] →
  respects publish_rule
    (returned ← receive (Some r);
     match returned with
     | Returned text code =>
         mret (Some (p, Err (Note (mq ErrUnroutable) (text +:+ " (" +:+ Itoa code +:+ ")"))))
     | Empty | Closed =>
         if negb acknowledged then mret (Some (p, Err (mq ErrRejected)))
         else mret (Some (p, Ok tt))
     end) (h ++ sent) (publish_post message h).
Proof.
  intros Hinv HP HC. cbn [receive]. apply respects_trigger; [done|]. intros answer.
  apply (publisher_inv_app _ [Call (Receive r) answer]) in Hinv. rewrite <-app_assoc in Hinv |- *.
  assert (publications (sent ++ [Call (Receive r) answer]) = [(true, message, Ok conf)]
    ∧ confirmations (sent ++ [Call (Receive r) answer]) = [Ok acknowledged]) as [HP' HC']
    by (rewrite publications_app, confirmations_app, HP, HC; done).
  destruct answer as [| |text code], acknowledged; (split; [done|]); eexists; (split; [done|]); cbn;
    rewrite ?HP', ?HC'.
  all: first [by eauto 10 | split; [done|]; split; [by exists conf|]; first [by right | left]].
  all: naive_solver.
Qed.

(** [Publish] respects the rule and ends with its verdict. *)
Lemma Publish_respects fuel p message h :
  publisher_inv h p →
  respects publish_rule (Publish duration_String config fuel p message) h (publish_post message h).
Proof.
  intros Hinv. apply respects_bind. eapply respects_mono; [|by apply ready_respects].
  intros h1 [p1 [[ch ret]|err]] (Hq1 & Hp1 & Hs); cbn [fst snd] in *.
  2:{ cbn. destruct Hs as [-> Hb]. apply quiet_ext in Hq1 as (k & -> & Hk & _).
      split; [done|]. by exists k. }
  pose proof Hs as (_ & _ & r & -> & _).
  apply respects_bind. eapply respects_mono; [|apply drain_respects].
  intros h2 [[]|] [Hq2 (h0 & Hd)]; [|done].
  assert (publisher_inv h2 p1) as Hp2.
  { destruct Hq2 as ((k & ->) & _). by apply publisher_inv_app. }
  apply respects_trigger.
  { split; [done|]. exists r, h0. split; [|done]. by eapply quiet_session. }
  pose proof (quiet_trans _ _ _ Hq1 Hq2) as (k & -> & Hk & Hc)%quiet_ext.
  intros [conf|err]; rewrite <-app_assoc.
  2:{ eapply lost_respects; [by rewrite publications_app, Hk|by left]. }
  apply respects_trigger; [done|]. intros [acked|err]; rewrite <-!app_assoc.
  2:{ eapply lost_respects; [by rewrite publications_app, Hk|].
      right. exists err. by rewrite confirmations_app, Hc. }
  apply (answered_respects p1 message h _ conf acked).
  - rewrite app_assoc. by apply publisher_inv_app.
  - by rewrite publications_app, Hk.
  - by rewrite confirmations_app, Hc.
Qed.

(** ** The time between dials *)

(** The times read from the clock; the rule below lets it be read only for a dial. *)
Definition dial_time (c : call amqpE) : option Z :=
  match c with
  | @Call _ R e r =>
      match e in amqpE R return R → option Z with Now => λ r, Some r | _ => λ _, None end r
  end.
Definition dial_times (h : list (call amqpE)) := omap dial_time h.
(** When the broker was last dialled, the zero time before any dial. *)
Definition last_dial (h : list (call amqpE)) : Z := default 0%Z (last (dial_times h)).

(** The configured delay has passed since the last dial, as the last call told. *)
Definition delay_passed (h : list (call amqpE)) : Prop :=
  ∃ h1 waited, h = h1 ++ [Call (SinceDial (last_dial h1)) waited]
    ∧ (cfg_ReconnectDelay config ≤ waited)%Z.
(** The clock is read straight after that, and the broker dialled straight after both. *)
Definition dial_rule (h : list (call amqpE)) R (e : amqpE R) : Prop :=
  match e with
  | Now => delay_passed h
  | DialConfig timeout => timeout = cfg_DialTimeout config
      ∧ ∃ h1 now, h = h1 ++ [Call Now now] ∧ delay_passed h1
  | _ => True
  end.
(** The publisher knows when it last dialled. *)
Definition dial_noted (h : list (call amqpE)) (p : Publisher) : Prop := pub_lastDialAt p = last_dial h.

Lemma dial_times_app h h' : dial_times (h ++ h') = dial_times h ++ dial_times h'.
Proof. apply omap_app. Qed.
Lemma last_dial_app h h' : dial_times h' = [] → last_dial (h ++ h') = last_dial h.
Proof. intros Hd. unfold last_dial. by rewrite dial_times_app, Hd, app_nil_r. Qed.

(** A program that neither dials nor reads the clock, and what it ends with. *)
Fixpoint dials_not {A} (q : prog amqpE A) (P : A → Prop) : Prop :=
  match q with
  | Ret a => P a
  | @Vis _ _ R e k =>
      match e with Now | DialConfig _ => False | _ => True end ∧ ∀ r : R, dials_not (k r) P
  end.
Lemma dials_not_bind {A B} (q : prog amqpE A) (f : A → prog amqpE B) P :
  dials_not q (λ a, dials_not (f a) P) → dials_not (q ≫= f) P.
Proof.
  unfold mbind, prog_bind. induction q as [a|R e k IH]; cbn; [done|]. intros [He Hk]. split; [done|]. eauto.
Qed.
Lemma dials_not_mono {A} (q : prog amqpE A) (P P' : A → Prop) :
  (∀ a, P a → P' a) → dials_not q P → dials_not q P'.
Proof. intros HP. induction q as [a|R e k IH]; cbn; [auto|]. intros [He Hk]. eauto. Qed.

(** Its calls are allowed, and leave the last dial where it was. *)
Lemma dials_not_respects {A} (q : prog amqpE A) P h Q :
  dials_not q P → (∀ k a, dial_times k = [] → P a → Q (h ++ k) a) → respects dial_rule q h Q.
Proof.
  revert h. induction q as [a|R e k IH]; cbn; intros h Hq HQ.
  { specialize (HQ [] a). rewrite app_nil_r in HQ. by apply HQ. }
  destruct Hq as [He Hk]. split; [by destruct e|]. intros r. eapply IH; [apply Hk|].
  intros k' a Hd HP. rewrite <-app_assoc. apply HQ; [|done].
  rewrite dial_times_app, Hd, app_nil_r. by destruct e.
Qed.

Lemma discard_dials_not p : dials_not (discard p) (λ p', p' = mkPublisher None None None (pub_lastDialAt p)).
Proof. destruct p as [[c|] [ch|] r t]; cbn; by repeat split. Qed.
Lemma declare_dials_not c ch exs : dials_not (declareExchanges c ch exs) (λ _, True).
Proof. induction exs as [|ex exs IH]; cbn; [done|]. split; [done|]. intros [[]|err]; [exact IH|by repeat split]. Qed.
Lemma open_session_dials_not p now connection :
  pub_lastDialAt p = now →
  dials_not (open_session config p now connection) (λ r, pub_lastDialAt r.1 = now).
Proof.
  intros Hp. cbn. split; [done|]. intros [ch|err]; [|by repeat split].
  apply dials_not_bind. eapply dials_not_mono; [|apply declare_dials_not].
  intros [[]|err] _; [|done]. cbn. split; [done|]. intros [[]|err]; by repeat split.
Qed.
Lemma receive_dials_not r : dials_not (receive r) (λ _, True).
Proof. by destruct r; repeat split. Qed.
Lemma drain_dials_not fuel r : dials_not (drain fuel r) (λ _, True).
Proof.
  induction fuel as [|fuel IH]; [done|]. cbn [drain]. apply dials_not_bind.
  eapply dials_not_mono; [|apply receive_dials_not]. by intros [| |text code] _.
Qed.

(** A run that keeps the rule notes the dial it may have made. *)
Lemma ready_dials p h :
  dial_noted h p → respects dial_rule (ready duration_String config p) h (λ h' r, dial_noted h' r.1).
Proof.
  assert (∀ h, dial_noted h p →
    respects dial_rule (connect duration_String config p) h (λ h' r, dial_noted h' r.1)) as Hconnect.
  { clear h. intros h Hn. unfold connect. apply respects_bind.
    eapply dials_not_respects; [apply discard_dials_not|]. intros k p' Hk ->.
    assert (pub_lastDialAt p = last_dial (h ++ k)) as Hlast by by rewrite (last_dial_app _ _ Hk).
    cbn [pub_lastDialAt]. rewrite Hlast. clear Hk Hlast. generalize (h ++ k). clear h k Hn. intros h.
    apply respects_trigger; [done|]. intros waited. destruct (_ <? _)%Z eqn:Hw; reflect_bools.
    { cbn. unfold dial_noted. cbn. by rewrite last_dial_app. }
    assert (delay_passed (h ++ [Call (SinceDial (last_dial h)) waited])) as Hdelay by by exists h, waited.
    apply respects_trigger; [exact Hdelay|]. intros now. cbn [pub_connection pub_channel pub_returns].
    generalize dependent (h ++ [Call (SinceDial (last_dial h)) waited]). clear h Hw. intros h Hdelay.
    apply respects_trigger; [split; [done|by exists h, now]|].
    assert (∀ r k, dial_times k = [] →
      last_dial (((h ++ [Call Now now]) ++ [Call (DialConfig (cfg_DialTimeout config)) r]) ++ k) = now) as Hl.
    { intros r k Hk. rewrite !last_dial_app by done. unfold last_dial. rewrite dial_times_app.
      change (dial_times [Call Now now]) with [now]. by rewrite last_snoc. }
    intros [connection|err].
    - eapply dials_not_respects; [by apply open_session_dials_not|]. intros k r Hk Hr.
      unfold dial_noted. by rewrite Hl.
    - cbn. unfold dial_noted. specialize (Hl (Err err) [] eq_refl). rewrite app_nil_r in Hl. by rewrite Hl. }
  intros Hn. unfold ready. destruct (pub_channel p) as [ch|]; [|by apply Hconnect].
  apply respects_trigger; [done|]. intros []; [apply Hconnect|cbn]; unfold dial_noted; by rewrite last_dial_app.
Qed.

Lemma Publish_dials fuel p message h :
  dial_noted h p →
  respects dial_rule (Publish duration_String config fuel p message) h
    (λ h' r, ∀ p' verdict, r = Some (p', verdict) → dial_noted h' p').
Proof.
  intros Hn. unfold Publish. apply respects_bind. eapply respects_mono; [|by apply ready_dials].
  intros h1 [p1 [[ch ret]|err]] Hn1; cbn [fst] in Hn1; [|by intros p' verdict [= <- _]].
  eapply (dials_not_respects _ (λ r, ∀ p' verdict, r = Some (p', verdict) → pub_lastDialAt p' = pub_lastDialAt p1)).
  - apply dials_not_bind. eapply dials_not_mono; [|apply drain_dials_not]. intros [[]|] _; [|done].
    assert (∀ e, dials_not (p ← discard p1; mret (Some (p, e)))
      (λ r : option (Publisher * order_result unit),
         ∀ p' verdict, r = Some (p', verdict) → pub_lastDialAt p' = pub_lastDialAt p1)) as Hdisc.
    { intros e. apply dials_not_bind. eapply dials_not_mono; [|apply discard_dials_not].
      intros p' -> p2 verdict [= <- _]. done. }
    split; [done|]. intros [conf|err]; [|apply Hdisc]. split; [done|]. intros [acked|err]; [|apply Hdisc].
    apply dials_not_bind. eapply dials_not_mono; [|apply receive_dials_not].
    intros [| |text code] _; destruct acked; by intros p' verdict [= <- _].
  - intros k r Hk HP p' verdict Hr. unfold dial_noted. rewrite last_dial_app by done. rewrite <-Hn1. by eapply HP.
Qed.

(** C21: What [Publish] answers is what happened at the broker. From a publisher whose
    channel, if it has one, was set up whole and which knows when it last dialled, and
    after any history that kept the rules, each call of [Publish] is one the rules allow: a
    message is published mandatory, on a channel with exchanges declared, confirms on and
    returns noticed, straight after the stale returns were drained; the broker is dialled
    only straight after the clock told that the configured delay has passed since the
    last dial, whether that one succeeded or not. Success means the one publication was
    confirmed and not returned; [ErrUnavailable] that nothing was sent;
    [ErrOutcomeUnknown] that the session is gone, so that no late confirmation can
    be taken for another message's; any other error that the broker returned or
    refused the message. Whenever it answers, the publisher it leaves is again one
    of those. *)
Theorem Publish_verdict fuel p message h k r :
  publisher_inv h p → dial_noted h p → disciplined publish_rule h → disciplined dial_rule h →
  runs (Publish duration_String config fuel p message) k r →
  disciplined publish_rule (h ++ k) ∧ disciplined dial_rule (h ++ k)
  ∧ publish_post message h (h ++ k) r
  ∧ ∀ p' verdict, r = Some (p', verdict) → dial_noted (h ++ k) p'.
Proof.
  intros Hinv Hn Hd Hdd Hruns.
  destruct (respects_sound publish_rule _ _ _ _ _ Hd (Publish_respects _ _ _ _ Hinv) Hruns).
  by destruct (respects_sound dial_rule _ _ _ _ _ Hdd (Publish_dials _ _ _ _ Hn) Hruns).
Qed.
End verdicts.

(** The drain that precedes a publication ends: it fails to end within [fuel]
    receives only when each of them found a return, and a closed channel ends it at
    once, as does an empty one or none at all. *)
Theorem drain_ends fuel r k :
  runs (drain fuel r) k None →
  match r with
  | None => fuel = 0
  | Some q => ∃ returned, length returned = fuel
      ∧ k = (λ tc, Call (Receive q) (Returned tc.1 tc.2)) <$> returned
  end.
Proof.
  revert k. induction fuel as [|fuel IH]; intros k.
  - cbn. intros (-> & _)%runs_inv. destruct r; [by exists []|done].
  - cbn [drain]. destruct r as [q|]; cbn [receive].
    + intros ([| |text code] & k' & -> & Hr)%runs_trigger;
        [apply runs_inv in Hr as [_ [=]]..|].
      apply IH in Hr as (l & <- & ->). by exists ((text, code) :: l).
    + intros (_ & [=])%runs_inv.
Qed.

(** ** A publication at work *)
Definition sample_message : Message := mkMessage "orders" "k" "t" "c" "id" "corr" "body".
Definition sample_rabbit_config : Config :=
  mkConfig 5 5 100 [mkExchangeDeclaration "orders" "topic" true false false].
(** A dial the broker refused at 1000, and the next one 250 later. *)
Definition sample_refused_dial : list (call amqpE) :=
  [Call (SinceDial 0%Z) 1000%Z; Call Now 1000%Z; Call (DialConfig 5%Z) (Err "refused")].
Definition sample_publish_run : list (call amqpE) :=
  [Call (SinceDial 1000%Z) 250%Z; Call Now 1250%Z; Call (DialConfig 5%Z) (Ok 1);
   Call (OpenChannel 1) (Ok 2);
   Call (ExchangeDeclare 2 (mkExchangeDeclaration "orders" "topic" true false false)) (Ok tt);
   Call (Confirm 2) (Ok tt); Call (NotifyReturn 2) 3;
   Call (Receive 3) (Returned "stale" 312%Z); Call (Receive 3) Empty;
   Call (PublishWithDeferredConfirm 2 true sample_message) (Ok 4);
   Call (WaitConfirmation 4) (Ok true); Call (Receive 3) Empty].

Lemma Publish_verdict_witness :
  let r := Some (mkPublisher (Some 1) (Some 2) (Some 3) 1250, Ok tt) in
  runs (Publish pretty sample_rabbit_config 3 (mkPublisher None None None 1000) sample_message)
    sample_publish_run r
  ∧ disciplined (dial_rule sample_rabbit_config) (sample_refused_dial ++ sample_publish_run)
  ∧ publish_post sample_rabbit_config sample_message sample_refused_dial
      (sample_refused_dial ++ sample_publish_run) r.
Proof.
  intros r.
  assert (runs (Publish pretty sample_rabbit_config 3 (mkPublisher None None None 1000) sample_message)
    sample_publish_run r) as Hr.
  { unfold sample_publish_run. repeat (cbn; constructor). }
  split; [exact Hr|].
  destruct (Publish_verdict pretty sample_rabbit_config 3 (mkPublisher None None None 1000)
    sample_message sample_refused_dial sample_publish_run r) as (_ & H2 & H3 & _); [..|by split].
  - by intros ch.
  - reflexivity.
  - apply (disciplined_snoc _ [_; _]); [|done]. apply (disciplined_snoc _ [_]); [|done].
    apply (disciplined_snoc _ []); [apply disciplined_nil|done].
  - apply (disciplined_snoc _ [_; _]); [apply (disciplined_snoc _ [_]);
      [apply (disciplined_snoc _ []); [apply disciplined_nil|done]|]|].
    + by exists [], 1000%Z.
    + split; [done|]. eexists [_], 1000%Z. split; [done|]. by exists [], 1000%Z.
  - exact Hr.
Defined.

Lemma drain_ends_witness :
  let q := 3 in
  ∃ returned, length returned = 1
    ∧ [Call (Receive q) (Returned "late" 312)]
      = (λ tc, Call (Receive q) (Returned tc.1 tc.2)) <$> returned.
Proof.
  apply (drain_ends 1 (Some 3) [Call (Receive 3) (Returned "late" 312)]).
  repeat (cbn; constructor).
Defined.
