(* ===== verification/OrderEventAmqp.v ===== *)
(** * The publisher of order events

    [ordereventamqp.Publisher.PublishOrderAccepted] over the RabbitMQ publisher it
    is wired to: what the worker's port promises, from what the broker said. *)
From S2P Require Import Prelude GoErrors GoStrings External OrderErrors OrderDomain OrderPorts Prog.
From S2P Require Import OrderEvents RabbitPublisher.

Section adapter.
Context {Times : TimestampLib} {Wire : Codec protoOrderAccepted}.
Variable duration_String : Z → string.
Variable config : Config.

(** [None]: the publisher's drain did not end within [fuel] receives. *)
(* @go order-service/internal/order/adapter/outbound/ordereventamqp/publisher.go Publisher.PublishOrderAccepted *)
Definition amqp_PublishOrderAccepted (fuel : nat) (p : Publisher) (event : OrderAcceptedEvent)
    (correlationID : string) : prog amqpE (option (Publisher * order_result unit)) :=
  match message_of event correlationID with
  | Err err => mret (Some (p, Err err))
  | Ok message =>
      published ← Publish duration_String config fuel p message;
      mret (match published with
            | Some (p, verdict) => Some (p, translate verdict)
            | None => None
            end)
  end.

(** What the worker's port promises of its answer, in terms of the calls made. *)
Definition port_post (event : OrderAcceptedEvent) (correlationID : string)
    (k : list (call amqpE)) (r : option (Publisher * order_result unit)) : Prop :=
  match r with
  | None => True
  | Some (p, Ok _) =>
      ∃ body conf, Marshal (protoOrderAccepted_of event) = Ok body
        ∧ publications k = [(true, mkMessage "orders" "order.accepted.v1" "order.accepted.v1"
            "application/protobuf" (oae_EventID event) correlationID body, Ok conf)]
        ∧ confirmations k = [Ok true]
        ∧ ∃ k1 ret c, k = k1 ++ [Call (Receive ret) c] ∧ (c = Empty ∨ c = Closed)
  | Some (p, Err err) =>
      if is_app err ErrEventUnpublishable
      then k = [] ∧ is_ok (Marshal (protoOrderAccepted_of event)) = false
      else if is_app err ErrPublisherUnavailable then publications k = []
      else if is_app err ErrPublicationOutcomeUnknown
      then pub_channel p = None ∧ pub_connection p = None
           ∧ ∃ m a, publications k = [(true, m, a)]
               ∧ (is_ok a = false ∨ ∃ e, confirmations k = [Err e])
      else (∃ m conf, publications k = [(true, m, Ok conf)])
           ∧ ((∃ k1 ret text code, k = k1 ++ [Call (Receive ret) (Returned text code)])
              ∨ confirmations k = [Ok false])
  end.

Lemma translate_err err :
  broker_error err →
  ∃ err', translate (Err err) = Err err'
    ∧ is_app err' ErrEventUnpublishable = false
    ∧ is_app err' ErrPublisherUnavailable = is_mq err ErrUnavailable
    ∧ (is_mq err ErrUnavailable = false →
       is_app err' ErrPublicationOutcomeUnknown = is_mq err ErrOutcomeUnknown).
Proof.
  intros Hb. unfold translate. destruct (is_mq err ErrUnavailable) eqn:H1.
  { eexists. split; [done|]. unfold broker_error, is_app, is_mq in *. cbn. by rewrite Hb. }
  destruct (is_mq err ErrOutcomeUnknown) eqn:H2.
  - eexists. split; [done|]. unfold broker_error, is_app, is_mq in *. cbn. by rewrite !Hb.
  - exists err. split; [done|]. by rewrite !Hb.
Qed.

(** C33: The three errors the worker tells apart say what happened to the event. With a
    nil error its message, with the contract's exchange, routing key, type, content
    type and the event's id, was confirmed by the broker and not returned. An
    unpublishable event made no call at all; an unavailable publisher sent nothing;
    an unknown outcome left no session behind; any other error means that the broker
    had the message and returned it or refused it. *)
Theorem amqp_publish_contract fuel p event correlationID h k r :
  publisher_inv config h p → disciplined (publish_rule config) h →
  runs (amqp_PublishOrderAccepted fuel p event correlationID) k r →
  port_post event correlationID k r.
Proof.
  intros Hinv Hd Hruns. unfold amqp_PublishOrderAccepted, message_of in Hruns.
  destruct (Marshal _) as [body|text] eqn:Hbody.
  2:{ apply runs_inv in Hruns as (-> & ->). cbn. by rewrite Hbody. }
  apply runs_bind_inv in Hruns as (k1 & k2 & a & -> & Hpub & (-> & ->)%runs_inv).
  rewrite app_nil_r. destruct a as [[p' verdict]|]; [|done].
  apply (respects_sound (publish_rule config) _ h _ _ _ Hd (Publish_respects _ _ _ _ _ _ Hinv))
    in Hpub as [_ (_ & k & ->%app_inv_head & Hpost)].
  destruct verdict as [[]|err].
  - cbn. destruct Hpost as ((conf & ->) & -> & Hlast). by exists body, conf.
  - destruct Hpost as (Hb & Hpost). destruct (translate_err _ Hb) as (err' & -> & H1 & H2 & H3).
    cbn [port_post]. rewrite H1, H2.
    destruct (is_mq err ErrUnavailable); [done|]. rewrite H3 by done.
    destruct (is_mq err ErrOutcomeUnknown); [naive_solver|].
    destruct Hpost as ((conf & ->) & [[_ Hret]|Hrej]); eauto.
Qed.
End adapter.

Definition sample_event : OrderAcceptedEvent :=
  mkOrderAcceptedEvent "e1" "o1" 1000 "a@b" (mkMoney 300 "USD") [mkOrderAcceptedLine "SKU" 3 (mkMoney 100 "USD")].

Definition sample_wire : Codec protoOrderAccepted :=
  {| Marshal m := Ok (poa_EventId m); Unmarshal _ := Err "" |}.

(** A broker that cannot be reached again. *)
Lemma amqp_publish_contract_witness :
  port_post (Wire := sample_wire) sample_event "corr"
    [Call (IsClosed 2) true; Call (CloseChannel 2) None; Call (CloseConnection 1) None;
     Call (SinceDial 0%Z) 1000%Z; Call Now 1000%Z; Call (DialConfig 5%Z) (Err "refused")]
    (Some (mkPublisher None None None 1000,
       translate (Err (Join (mq ErrUnavailable) (Wrap "dial" (Opaque "refused")))))).
Proof.
  set (config := mkConfig 5 5 100 []).
  set (p := mkPublisher (Some 1) (Some 2) (Some 3) 0).
  apply (amqp_publish_contract (Wire := sample_wire) pretty config 3 p sample_event "corr"
           [Call (Confirm 2) (Ok tt); Call (NotifyReturn 2) 3]).
  - intros ch [= <-]. split; [|done]. split_and!.
    + intros ex Hex. by apply elem_of_nil in Hex.
    + by left.
    + exists 3. split; [done|]. right. by left.
  - apply (disciplined_snoc _ [Call (Confirm 2) (Ok tt)]); [|done].
    apply (disciplined_snoc _ []); [apply disciplined_nil|done].
  - unfold amqp_PublishOrderAccepted. cbn. repeat (cbn; constructor).
Defined.
