(* ===== verification/OrderSystem.v ===== *)
(** * Concurrent requests over one store

    Any number of create-order requests over one database and one inventory, with
    the outbox worker and lost answers in between: the invariant that ties an
    acceptance to its reservation and its event, and what a client's answer is worth. *)
From S2P Require Import Prelude GoErrors GoStrings External Postgres OrderErrors OrderDomain Prog OrderPorts CreateOrder OrderStore OrderStoreSpec Outbox EventWorker OutboxDrain.

Section order_system.
Context {Mail : MailLib} {Uuid : UuidLib} {Pg : Postgres} {Json : Codec orderAcceptedPayload}.
Context {UuidL : UuidLaws Uuid} {PgL : PostgresLaws Pg} {JsonL : CodecLaws Json payload_utf8}.
Hypothesis jsonb_value : ∀ b b', jsonb b = Some b' → Unmarshal b' = Unmarshal b.

(** The database, the reservations inventory-service has made, and the orders
    whose event the broker has routed. The last three fields only record what
    happened: the order of every event ever stored, which thread generated an
    identifier, and which one claimed with a token. *)
Record world := mkWorld {
  w_db : database;
  w_reserved : list ReservationRequest;
  w_published : gset uuid;
  w_events : gmap uuid uuid;
  w_owner : gmap uuid nat;
  w_tokens : gmap uuid nat;
}.

(** The second draw is made when the first fails. *)
(* @go order-service/internal/bootstrap/app.go newIDGenerator *)
Definition newIDGenerator (v7 : result string uuid) (v4 : uuid) : string :=
  match v7 with
  | Err _ => uuid_String v4
  | Ok id => uuid_String id
  end.
Definition drawn (v7 : result string uuid) (v4 : uuid) : uuid :=
  if v7 is Ok id then id else v4.
Lemma newIDGenerator_drawn v7 v4 : newIDGenerator v7 v4 = uuid_String (drawn v7 v4).
Proof. by destruct v7. Qed.

(** One call of a request, by thread [i]. A reservation is answered [Ok] only when
    it is made; it may also be made and its answer lost. The clock is truncated to
    microseconds, and a generated identifier is canonical and new. *)
(* @src order-service/internal/order/wiring/wiring.go:43-64 New *)
Definition request_step (i : nat) R (e : orderE R) (w : world) (r : R) (w' : world) : Prop :=
  w_published w' = w_published w ∧ w_tokens w' = w_tokens w ∧
  match e in orderE R return R → Prop with
  | Reserve request => λ r,
      w_db w' = w_db w ∧ w_reserved w ⊆ w_reserved w' ∧ (r = Ok tt → request ∈ w_reserved w')
      ∧ w_events w' = w_events w ∧ w_owner w' = w_owner w
  | Clock => λ r, w' = w ∧ (r `mod` Microsecond = 0)%Z
  | NewID => λ r, ∃ v7 v4, let u := drawn v7 v4 in r = newIDGenerator v7 v4 ∧ w_owner w !! u = None
      ∧ w' = mkWorld (w_db w) (w_reserved w) (w_published w) (w_events w)
               (<[u := i]> (w_owner w)) (w_tokens w)
  | UpdateAndRecordEvent _ _ _ as e => λ r, w_reserved w' = w_reserved w
      ∧ (∃ f now cid, repository_step f now cid (w_db w) e r (w_db w'))
      ∧ w_events w' = w_events w ∪ (ob_order_id <$> db_outbox (w_db w'))
      ∧ w_owner w' = w_owner w
  | e => λ r, w_reserved w' = w_reserved w
      ∧ (∃ f now cid, repository_step f now cid (w_db w) e r (w_db w'))
      ∧ w_events w' = w_events w ∧ w_owner w' = w_owner w
  end r.

(** What the worker, the broker and an operator do to the store: bookkeeping
    columns of the outbox change freely, and a row disappears only once its event
    was routed. *)
Definition outbox_change (w w' : world) : Prop :=
  db_orders (w_db w') = db_orders (w_db w) ∧ db_items (w_db w') = db_items (w_db w)
  ∧ w_reserved w ⊆ w_reserved w' ∧ w_published w ⊆ w_published w'
  ∧ (∀ eid row', db_outbox (w_db w') !! eid = Some row' →
      ∃ row, db_outbox (w_db w) !! eid = Some row ∧ same_event row row')
  ∧ (∀ eid row, db_outbox (w_db w) !! eid = Some row →
      is_Some (db_outbox (w_db w') !! eid) ∨ ob_order_id row ∈ w_published w').

(** ** The invariant *)

(** An accepted order was reserved, and its event waits in the outbox or was
    published; an event in the outbox is that of an accepted order. *)
Record orders_sound (w : world) : Prop := {
  snd_wf : db_wf (w_db w);
  snd_accepted : ∀ id o, view (w_db w) id = Some o → ord_status o = StatusAccepted →
    reservationRequestFor o ∈ w_reserved w
    ∧ (id ∈ w_published w
       ∨ ∃ eventID, recorded (w_db w) id (newOrderAcceptedEvent eventID o));
  snd_event : ∀ id ev, recorded (w_db w) id ev →
    ∃ o, view (w_db w) id = Some o ∧ ord_status o = StatusAccepted
         ∧ ev = newOrderAcceptedEvent (oae_EventID ev) o;
}.

(** Two states of one order. *)
Definition same_order (o o' : Order) : Prop :=
  ord_id o = ord_id o' ∧ ord_customerEmail o = ord_customerEmail o'
  ∧ ord_idempotencyKey o = ord_idempotencyKey o' ∧ ord_orderItems o = ord_orderItems o'
  ∧ ord_total o = ord_total o' ∧ ord_createdAt o = ord_createdAt o'.

#[export] Instance same_order_preorder : PreOrder same_order.
Proof. split; [done|]. unfold same_order. intros ???. intuition congruence. Qed.

(** What every step keeps: stored orders stay, and only a pending one changes. *)
Definition keeps_orders (w w' : world) : Prop :=
  (∀ id o, view (w_db w) id = Some o → ∃ o', view (w_db w') id = Some o' ∧ same_order o o'
     ∧ (o' = o ∨ ord_status o = StatusPending))
  ∧ w_reserved w ⊆ w_reserved w'.

#[export] Instance keeps_orders_preorder : PreOrder keeps_orders.
Proof.
  split.
  { intros w. split; [|done]. intros id o Hv. exists o. split_and!; [done..|by left]. }
  intros w1 w2 w3 [H1 R1] [H2 R2]. split; [|by etransitivity].
  intros id o1 (o2 & Ho2 & Hs2 & Hc2)%H1. destruct (H2 _ _ Ho2) as (o3 & Ho3 & Hs3 & Hc3).
  exists o3. split_and!; [done|by etransitivity|]. destruct Hc2 as [-> |]; auto.
Qed.

(** A request holds a copy of a stored order. *)
Definition holds_copy (w : world) (o : Order) : Prop :=
  order_storable o ∧ order_encodable o
  ∧ ∃ id cur, uuid_Parse (ord_id o) = Some id ∧ uuid_String id = ord_id o
      ∧ view (w_db w) id = Some cur ∧ same_order o cur.

Lemma holds_copy_keeps w w' o : holds_copy w o → keeps_orders w w' → holds_copy w' o.
Proof.
  intros (? & ? & id & cur & ? & ? & Hv & ?) [He _].
  destruct (He _ _ Hv) as (cur' & Hv' & ? & _). split_and!; [done..|].
  exists id, cur'. split_and!; [done..|]. by etransitivity.
Qed.

Lemma same_order_event eventID o o' :
  same_order o o' → ord_updatedAt o = ord_updatedAt o' →
  newOrderAcceptedEvent eventID o = newOrderAcceptedEvent eventID o'.
Proof. intros (E1 & E2 & _ & E4 & E5 & _) E6. unfold newOrderAcceptedEvent. congruence. Qed.

Lemma same_order_request o o' :
  same_order o o' → reservationRequestFor o = reservationRequestFor o'.
Proof. intros (E1 & _ & _ & E4 & _). unfold reservationRequestFor. congruence. Qed.

(** ** Each kind of step keeps the invariant *)

Lemma sound_reserve w w' :
  orders_sound w → w_db w' = w_db w → w_published w' = w_published w →
  w_reserved w ⊆ w_reserved w' → orders_sound w' ∧ keeps_orders w w'.
Proof.
  intros [H1 H2 H3] Hdb Hp Hr. split; [split; rewrite ?Hdb, ?Hp|split]; rewrite ?Hdb; eauto.
  - intros id o Hv Ha. destruct (H2 _ _ Hv Ha) as [? ?]. auto.
  - intros id o Hv. exists o. split_and!; [done..|by left].
Qed.

Lemma outbox_change_sound w w' : orders_sound w → outbox_change w w' → orders_sound w' ∧ keeps_orders w w'.
Proof.
  intros [Hwf Hacc Hev] (Eo & Ei & Hr & Hp & Hfrom & Hto).
  assert (∀ id, view (w_db w') id = view (w_db w) id) as Hview.
  { intros id. unfold view, selectItems. by rewrite Eo, Ei. }
  assert (∀ id ev, recorded (w_db w') id ev → recorded (w_db w) id ev) as Hrec.
  { intros id ev (eid & row' & Hl & Hid & Hd). destruct (Hfrom _ _ Hl) as (row & ? & _ & _ & Eoid & Epay).
    exists eid, row. by rewrite <-Eoid, <-Epay. }
  split; [split|split; [|done]].
  - split; rewrite ?Eo, ?Ei; try apply Hwf.
    + intros id row Hl. unfold selectItems. rewrite Ei. by apply (wf_load _ Hwf).
    + intros eid row' Hl. destruct (Hfrom _ _ Hl) as (row & Hl' & -> & -> & _).
      by apply (wf_outbox _ Hwf).
    + intros eid row' Hl. destruct (Hfrom _ _ Hl) as (row & Hl' & _ & _ & -> & ->).
      by apply (wf_events _ Hwf).
  - intros id o. rewrite Hview. intros Hv Ha. destruct (Hacc _ _ Hv Ha) as [Hres [Hpub|Hex]]; [by auto|].
    split; [by auto|]. destruct Hex as (eventID & eid & row & Hl & Hid & Hd).
    destruct (Hto _ _ Hl) as [[row' Hl']|Hpub]; [|left; congruence].
    right. destruct (Hfrom _ _ Hl') as (row0 & Hl0 & _ & _ & Eoid & Epay).
    exists eventID, eid, row'. rewrite Eoid, Epay. by simplify_eq.
  - intros id ev Hrec'. rewrite Hview. auto.
  - intros id o Hv. exists o. rewrite Hview. split_and!; [done..|by left].
Qed.
Lemma sound_created w w' id o :
  orders_sound w → db_wf (w_db w') → created (w_db w) id o (w_db w') → ord_status o = StatusPending →
  w_reserved w' = w_reserved w → w_published w' = w_published w →
  orders_sound w' ∧ keeps_orders w w'.
Proof.
  intros [_ Hacc Hev] Hwf (Hnone & _ & Hview & Hob & _) Hp Er Ep.
  pose proof (λ id' ev, same_outbox _ _ id' ev Hob) as Hsame.
  assert (∀ id' o', view (w_db w) id' = Some o' → view (w_db w') id' = Some o') as Hkeep.
  { intros id' o' Hv. rewrite Hview. by destruct (decide (id' = id)) as [->|]; [congruence|]. }
  split; [split; [done|..]|split; [|by rewrite Er]].
  - intros id' o'. rewrite Hview, Er, Ep. destruct (decide (id' = id)) as [->|].
    + intros [= <-] Ha. by rewrite Hp in Ha.
    + intros Hv Ha. destruct (Hacc _ _ Hv Ha) as [? [?|[eventID ?]]]; split; auto.
      right. exists eventID. by apply Hsame.
  - intros id' ev (o' & Hv & ? & ?)%Hsame%Hev. exists o'. auto.
  - intros id' o' Hv. exists o'. split_and!; [auto|done|by left].
Qed.

(** Moving one pending order keeps the others, and everything it does not move. *)
Lemma moved_extends w w' id o :
  moved (w_db w) id o StatusPending (w_db w') → w_reserved w ⊆ w_reserved w' → keeps_orders w w'.
Proof.
  intros (cur & Hcur & Hp & Hview) Hr. split; [|done]. intros id' o' Hv. rewrite Hview.
  destruct (decide (id' = id)) as [->|]; [|exists o'; split_and!; [done..|by left]].
  simplify_eq. eexists. split; [done|]. split; [done|by right].
Qed.

Lemma sound_rejected w w' id o :
  orders_sound w → db_wf (w_db w') → moved (w_db w) id o StatusPending (w_db w') →
  db_outbox (w_db w') = db_outbox (w_db w) → ord_status o = StatusRejected →
  w_reserved w' = w_reserved w → w_published w' = w_published w →
  orders_sound w' ∧ keeps_orders w w'.
Proof.
  intros [_ Hacc Hev] Hwf Hmv Hob Hrej Er Ep.
  pose proof (λ id' ev, same_outbox _ _ id' ev Hob) as Hsame.
  split; [|eapply moved_extends; [done|by rewrite Er]].
  destruct Hmv as (cur & Hcur & Hp & Hview). split; [done|..].
  - intros id' o'. rewrite Hview, Er, Ep. destruct (decide (id' = id)) as [->|].
    + intros [= <-] Ha. cbn in Ha. by rewrite Hrej in Ha.
    + intros Hv Ha. destruct (Hacc _ _ Hv Ha) as [? [?|[eventID ?]]]; split; auto.
      right. exists eventID. by apply Hsame.
  - intros id' ev (o' & Hv & Ha & ?)%Hsame%Hev. exists o'. rewrite Hview.
    destruct (decide (id' = id)) as [->|]; [|done]. simplify_eq. by rewrite Hp in Ha.
Qed.

Lemma sound_accepted w w' id o ev :
  orders_sound w → db_wf (w_db w') → moved (w_db w) id o StatusPending (w_db w') →
  event_added (w_db w) id ev (w_db w') → ord_status o = StatusAccepted →
  ev = newOrderAcceptedEvent (oae_EventID ev) o →
  uuid_String id = ord_id o → (∀ cur, view (w_db w) id = Some cur → same_order o cur) →
  reservationRequestFor o ∈ w_reserved w →
  w_reserved w' = w_reserved w → w_published w' = w_published w →
  orders_sound w' ∧ keeps_orders w w'.
Proof.
  intros [_ Hacc Hev] Hwf Hmv (eid & _ & _ & _ & _ & _ & _ & _ & _ & _ & Hrec) Ha Hevent Hid Hcopy Hres Er Ep.
  split; [|eapply moved_extends; [done|by rewrite Er]].
  destruct Hmv as (cur & Hcur & Hp & Hview). pose proof (Hcopy _ Hcur) as Hsame.
  set (o1 := with_state cur (ord_status o) (ord_updatedAt o)) in *.
  assert (same_order o o1) as Hsame1 by done.
  assert (recorded (w_db w') id (newOrderAcceptedEvent (uuid_String eid) o1)) as Hnew.
  { apply Hrec. right. split; [done|]. rewrite <-(same_order_event _ o o1) by done.
    rewrite Hevent. cbn. by rewrite Hid. }
  split; [done|..].
  - intros id' o'. rewrite Hview, Er, Ep. destruct (decide (id' = id)) as [->|].
    + intros [= <-] _. split; [by rewrite <-(same_order_request o o1)|eauto].
    + intros Hv Ha'. destruct (Hacc _ _ Hv Ha') as [? [?|[eventID ?]]]; split; auto.
      right. exists eventID. apply Hrec. by left.
  - intros id' ev'. rewrite Hrec, Hview. intros [(o' & Hv & Ha' & ?)%Hev|[-> ->]].
    + exists o'. destruct (decide (id' = id)) as [->|]; [|done]. simplify_eq. by rewrite Hp in Ha'.
    + exists o1. rewrite decide_True by done. split_and!; [done..|].
      rewrite <-(same_order_event _ o o1) by done. rewrite Hevent. cbn. by rewrite Hid.
Qed.
(** ** The outbox *)

(** A published row's event was routed; a pending row has attempts left; a token
    was drawn by a claim. *)
Definition row_ok (w : world) (row : outboxRow) : Prop :=
  (ob_status row = "published" → ob_order_id row ∈ w_published w)
  ∧ (0 ≤ ob_attempts row ≤ MaxPublishAttempts)%Z
  ∧ (ob_status row = "pending" → ob_attempts row < MaxPublishAttempts)%Z
  ∧ (∀ t, ob_claim_token row = Some t → is_Some (w_tokens w !! t)).

Record outbox_sound (w : world) : Prop := {
  os_events : ∀ eid row, db_outbox (w_db w) !! eid = Some row →
    w_events w !! eid = Some (ob_order_id row);
  os_owned : ∀ eid, is_Some (w_events w !! eid) → is_Some (w_owner w !! eid);
  os_rows : ∀ eid row, db_outbox (w_db w) !! eid = Some row → row_ok w row;
}.

(** The invariant of the system. *)
Definition sound (w : world) : Prop := orders_sound w ∧ outbox_sound w.

(** ** Interference *)

(** What every thread keeps. *)
Definition grows (w w' : world) : Prop :=
  keeps_orders w w' ∧ w_published w ⊆ w_published w' ∧ w_events w ⊆ w_events w'
  ∧ w_owner w ⊆ w_owner w' ∧ w_tokens w ⊆ w_tokens w'.

#[export] Instance grows_preorder : PreOrder grows.
Proof.
  split; [intros w; split_and!; reflexivity|]. intros w1 w2 w3 (?&?&?&?&?) (?&?&?&?&?).
  split_and!; by etransitivity.
Qed.

(** A row with the token [t] comes from one with it that had no fewer attempts. *)
Definition claim_kept (w w' : world) (eid : uuid) (row' : outboxRow) (t : uuid) : Prop :=
  ∃ row, db_outbox (w_db w) !! eid = Some row ∧ ob_claim_token row = Some t
    ∧ (ob_attempts row' ≤ ob_attempts row)%Z.

(** What thread [i] can rely on: nobody stores an event under an identifier it
    generated, or writes under a token it claimed with. *)
Definition Rely (i : nat) (w w' : world) : Prop :=
  grows w w'
  ∧ (∀ u, w_owner w !! u = Some i → w_events w' !! u = w_events w !! u)
  ∧ (∀ eid row' t, db_outbox (w_db w') !! eid = Some row' → ob_claim_token row' = Some t →
       w_tokens w !! t = Some i → claim_kept w w' eid row' t).

(** What thread [i] guarantees in turn. *)
Definition Guar (i : nat) (w w' : world) : Prop :=
  grows w w'
  ∧ (∀ u, w_events w' !! u ≠ w_events w !! u → w_owner w !! u = Some i)
  ∧ (∀ eid row' t, db_outbox (w_db w') !! eid = Some row' → ob_claim_token row' = Some t →
       w_tokens w !! t = None ∨ w_tokens w !! t = Some i ∨ claim_kept w w' eid row' t).

#[export] Instance Rely_preorder i : PreOrder (Rely i).
Proof.
  split.
  - intros w. split_and!; [reflexivity|done|]. intros eid row' t Hl Ht _. by exists row'.
  - intros w1 w2 w3 (G1 & E1 & T1) (G2 & E2 & T2).
    pose proof G1 as (_ & _ & _ & Ho & Ht). split_and!; [by etransitivity|..].
    + intros u Hu. rewrite <-(E1 u Hu). apply E2. by eapply lookup_weaken.
    + intros eid row3 t H3 Htok Hown.
      destruct (T2 _ _ _ H3 Htok ltac:(by eapply lookup_weaken)) as (row2 & H2 & Htok2 & ?).
      destruct (T1 _ _ _ H2 Htok2 Hown) as (row1 & H1 & Htok1 & ?).
      exists row1. split_and!; [done..|lia].
Qed.

Lemma Guar_Rely i j w w' : i ≠ j → Guar j w w' → Rely i w w'.
Proof.
  intros Hne (G & E & T). split_and!; [done|..].
  - intros u Hu. destruct (decide (w_events w' !! u = w_events w !! u)) as [|Hd]; [done|].
    apply E in Hd. congruence.
  - intros eid row' t Hl Ht Hown. destruct (T _ _ _ Hl Ht) as [?|[?|?]]; congruence || done.
Qed.

Lemma Rely_grows i w w' : Rely i w w' → grows w w'.
Proof. by intros []. Qed.
Lemma grows_keeps w w' : grows w w' → keeps_orders w w'.
Proof. by intros []. Qed.

(** A step that leaves the outbox and the record of events alone. *)
Lemma quiet_step i w w' :
  orders_sound w' ∧ keeps_orders w w' → outbox_sound w →
  db_outbox (w_db w') = db_outbox (w_db w) → w_events w' = w_events w →
  w_published w ⊆ w_published w' → w_owner w ⊆ w_owner w' → w_tokens w ⊆ w_tokens w' →
  sound w' ∧ Guar i w w'.
Proof.
  intros [Hs Hk] [H1 H2 H3] Eo Ee Hp Ho Ht. split; [split; [done|split]|split_and!].
  - rewrite Eo, Ee. done.
  - rewrite Ee. intros eid [j Hj]%H2. exists j. by eapply lookup_weaken.
  - rewrite Eo. intros eid row Hl. destruct (H3 _ _ Hl) as (A & B & C & D).
    split_and!; [set_solver|lia|lia|done|]. intros t [j Hj]%D. exists j. by eapply lookup_weaken.
  - split_and!; [done|done|by rewrite Ee|done|done].
  - intros u Hu. by rewrite Ee in Hu.
  - intros eid row' t. rewrite Eo. intros Hl Htk. right; right. by exists row'.
Qed.

(** Recording an event under an identifier the thread owns. *)
Lemma recording_step i w w' eid row id :
  orders_sound w' ∧ keeps_orders w w' → outbox_sound w →
  db_outbox (w_db w') = <[eid := row]> (db_outbox (w_db w)) →
  ob_order_id row = id → ob_status row = "pending" → ob_attempts row = 0%Z →
  ob_claim_token row = None →
  w_owner w !! eid = Some i → w_events w !! eid = None →
  w_events w' = w_events w ∪ (ob_order_id <$> db_outbox (w_db w')) →
  w_published w' = w_published w → w_owner w' = w_owner w → w_tokens w' = w_tokens w →
  sound w' ∧ Guar i w w'.
Proof.
  intros [Hs Hk] [H1 H2 H3] Eo Hid Hst Hat Htk Hown Hfresh Ee Ep Ew Et.
  assert (w_events w' = <[eid := id]> (w_events w)) as Eins.
  { apply map_eq. intros u. rewrite Ee, lookup_union, lookup_fmap, Eo.
    destruct (decide (u = eid)) as [->|Hne].
    - rewrite !lookup_insert_eq, Hfresh. cbn. by rewrite Hid.
    - rewrite !lookup_insert_ne by done. destruct (w_events w !! u) as [x|] eqn:Hu.
      + by destruct (db_outbox (w_db w) !! u).
      + destruct (db_outbox (w_db w) !! u) as [r|] eqn:Hr; [|done]. apply H1 in Hr. congruence. }
  assert (w_events w ⊆ w_events w') as Hsub by (rewrite Eins; by apply insert_subseteq).
  split; [split; [done|split]|split_and!].
  - intros e r. rewrite Eo, Eins, !lookup_insert_Some. intros [[<- <-]|[Hne Hl]]; [by left|right].
    split; [done|]. by eapply H1.
  - intros e. rewrite Eins, Ew. intros [x Hx]. apply lookup_insert_Some in Hx as [[<- _]|[_ Hx]];
      [by exists i|apply H2; by exists x].
  - intros e r. rewrite Eo. intros [[<- <-]|[_ Hl]]%lookup_insert_Some.
    + split; [congruence|]. rewrite Hat. split; [done|]. split; [done|congruence].
    + unfold row_ok. rewrite Ep, Et. by eapply H3.
  - split_and!; [done|by rewrite Ep|done|by rewrite Ew|by rewrite Et].
  - intros u Hu. rewrite Eins in Hu. destruct (decide (u = eid)) as [->|Hne]; [done|].
    by rewrite lookup_insert_ne in Hu.
  - intros e r t. rewrite Eo. intros [[<- <-]|[_ Hl]]%lookup_insert_Some Ht; [congruence|].
    right; right. by exists r.
Qed.

Lemma Guar_refl i w : Guar i w w.
Proof. split_and!; [reflexivity|done|]. intros eid row' t Hl Ht. right; right. by exists row'. Qed.

(** ** The requests *)

Abbreviation request_wp := (wp request_step sound Rely Guar).

Lemma wp_call {A R} i (e : orderE R) (k : R → prog orderE A) Q w :
  (∀ w1, Rely i w w1 → sound w1 → ∀ r w2, request_step i R e w1 r w2 →
    sound w2 ∧ Guar i w1 w2 ∧ request_wp i (k r) Q w2) →
  request_wp i (trigger e ≫= k) Q w.
Proof. intros Hk. exact Hk. Qed.

(** A call that changes nothing. *)
Definition silent {R} (e : orderE R) : bool :=
  match e with
  | FindByIdempotencyKey _ | FindByID _ | Prices _ | Clock | CtxErr | TimerOrDone _ => true
  | _ => false
  end.

Lemma silent_step i {R} (e : orderE R) w r w' :
  silent e = true → request_step i R e w r w' → w' = w.
Proof.
  intros Hs (Hp & Ht & Hstep).
  destruct w as [db res pub ev ow tk], w' as [db' res' pub' ev' ow' tk']; cbn in *.
  destruct e; try discriminate Hs; try (by destruct Hstep);
    destruct Hstep as (-> & (f & now & cid & Hstep) & -> & ->); cbn in Hstep; destruct_and?; by subst.
Qed.

Lemma wp_silent {A R} i (e : orderE R) (k : R → prog orderE A) Q w :
  silent e = true →
  (∀ w1 r, Rely i w w1 → sound w1 → request_step i R e w1 r w1 → request_wp i (k r) Q w1) →
  request_wp i (trigger e ≫= k) Q w.
Proof.
  intros Hs Hk. apply wp_call. intros w1 He Hi r w2 Hstep.
  pose proof (silent_step _ _ _ _ _ Hs Hstep) as ->.
  split_and!; [done|apply Guar_refl|by apply Hk].
Qed.

(** A generated identifier belongs to the thread, and has no event yet. *)
Definition owns (i : nat) (w : world) (u : uuid) : Prop :=
  w_owner w !! u = Some i ∧ w_events w !! u = None.

Lemma owns_rely i w w' u : owns i w u → Rely i w w' → owns i w' u.
Proof.
  intros [Ho He] ((_ & _ & _ & Hg & _) & Hev & _). split; [by eapply lookup_weaken|].
  by rewrite (Hev u Ho).
Qed.

Lemma new_id_step i w w' r :
  sound w → request_step i _ NewID w r w' →
  sound w' ∧ Guar i w w' ∧ ∃ u, r = uuid_String u ∧ w_owner w !! u = None ∧ owns i w' u
    ∧ w_db w' = w_db w ∧ w_owner w' = <[u := i]> (w_owner w).
Proof.
  intros [Hs Ho] (_ & _ & v7 & v4 & -> & Hu & ->).
  rewrite newIDGenerator_drawn. set (u := drawn v7 v4) in *.
  assert (w_owner w ⊆ <[u := i]> (w_owner w)) as Hsub by by apply insert_subseteq.
  match goal with |- sound ?w' ∧ _ => set (w2 := w') end.
  assert (orders_sound w2 ∧ keeps_orders w w2) as Hk2 by by apply sound_reserve.
  destruct (quiet_step i w w2 Hk2 Ho) as [Hs2 HG]; [done..|].
  split_and!; [done|done|]. exists u. split_and!; try done. split; cbn; [by rewrite lookup_insert_eq|].
  destruct (w_events w !! u) eqn:Hev; [|done]. destruct (os_owned _ Ho u) as [? ?]; [by eexists|]. congruence.
Qed.
Lemma wp_new_id {A} i (k : string → prog orderE A) Q w :
  (∀ w1 u, grows w w1 → owns i w1 u → request_wp i (k (uuid_String u)) Q w1) →
  request_wp i (trigger NewID ≫= k) Q w.
Proof.
  intros Hk. apply wp_call. intros w1 He Hs r w2 Hstep.
  destruct (new_id_step _ _ _ _ Hs Hstep) as (Hs2 & HG & u & -> & _ & Hown & _).
  split_and!; [done|done|]. apply Hk; [|done]. etransitivity; [apply (Rely_grows _ _ _ He)|apply HG].
Qed.

Lemma wp_done {A} i (a : A) (Q : A → world → Prop) w :
  (∀ w1, Rely i w w1 → sound w1 → Q a w1) → request_wp i (Ret a) Q w.
Proof. exact (wp_ret _ _ _ _ i a Q w). Qed.

Definition touches_store {R} (e : orderE R) : bool :=
  match e with
  | Create _ | Update _ _ | UpdateAndRecordEvent _ _ _ | FindByIdempotencyKey _ | FindByID _ => true
  | _ => false
  end.

Lemma store_step i {R} (e : orderE R) w r w' :
  request_step i R e w r w' → touches_store e = true → sound w → order_pre (w_db w) e →
  order_contract (w_db w) e r (w_db w') ∧ db_wf (w_db w')
  ∧ w_reserved w' = w_reserved w ∧ w_published w' = w_published w ∧ w_owner w' = w_owner w
  ∧ w_tokens w' = w_tokens w
  ∧ w_events w' = match e with
      | UpdateAndRecordEvent _ _ _ => w_events w ∪ (ob_order_id <$> db_outbox (w_db w'))
      | _ => w_events w
      end.
Proof.
  intros (Hp & Ht & Hstep) He [Hs _] Hpre.
  assert (w_reserved w' = w_reserved w
    ∧ (∃ f now cid, repository_step f now cid (w_db w) e r (w_db w'))
    ∧ w_owner w' = w_owner w
    ∧ w_events w' = match e with
      | UpdateAndRecordEvent _ _ _ => w_events w ∪ (ob_order_id <$> db_outbox (w_db w'))
      | _ => w_events w
      end) as (Hr & (f & now & cid & Hst) & Ho & Hev).
  { by destruct e; try discriminate He; destruct Hstep as (? & ? & ? & ?). }
  apply (repository_contract jsonb_value) in Hst as [? ?]; [by split_and!|apply Hs|done].
Qed.

Lemma holds_copy_rely i w w' o : holds_copy w o → Rely i w w' → holds_copy w' o.
Proof. intros Ho Hr. eapply holds_copy_keeps; [done|]. by apply grows_keeps, (Rely_grows i). Qed.

(** ** The retry loop *)

Lemma reserve_wp i o remaining attempt lastErr w :
  holds_copy w o → (remaining + attempt = inventoryReservationAttempts)%nat →
  (remaining = 0%nat → False) →
  request_wp i (reserveInventory_loop remaining attempt lastErr (reservationRequestFor o))
    (λ r w', holds_copy w' o ∧ (r = Ok tt → reservationRequestFor o ∈ w_reserved w')) w.
Proof.
  revert attempt lastErr w. induction remaining as [|remaining IH];
    intros attempt lastErr w Ho Hn Hpos; [by destruct Hpos|]. cbn [reserveInventory_loop].
  apply wp_silent; [done|]. intros w1 cancelled He1 _ _.
  pose proof (holds_copy_rely _ _ _ _ Ho He1) as Ho1. destruct cancelled as [c|].
  { apply wp_done. intros w2 He2 _. split; [by eapply holds_copy_rely|done]. }
  apply wp_call. intros w2 He2 [Hs2 Hob2] r w3 (Hp & Htk & Hdb & Hres & Hok & Hev & Hown).
  pose proof (sound_reserve _ _ Hs2 Hdb Hp Hres) as Hk.
  assert (holds_copy w3 o) as Ho3.
  { eapply holds_copy_keeps; [|apply Hk]. by eapply holds_copy_rely. }
  destruct (quiet_step i w2 w3 Hk Hob2) as [Hs3 HG]; rewrite ?Hdb, ?Hp, ?Hown, ?Htk; try done.
  split_and!; [done|done|]. destruct r as [[]|err].
  { apply wp_done. intros w4 He4 _. split; [by eapply holds_copy_rely|].
    intros _. by apply (Rely_grows _ _ _ He4), Hok. }
  destruct (negb _ || _) eqn:Hstop.
  { apply wp_done. intros w4 He4 _. split; [by eapply holds_copy_rely|done]. }
  apply wp_silent; [done|]. intros w4 stopped He4 _ _.
  assert (holds_copy w4 o) as Ho4 by by eapply holds_copy_rely.
  destruct stopped as [c|].
  { apply wp_done. intros w5 He5 _. split; [by eapply holds_copy_rely|done]. }
  apply orb_false_iff in Hstop as [_ Hlast]. apply bool_decide_eq_false in Hlast.
  unfold inventoryReservationAttempts in *. apply IH; [done|lia|lia].
Qed.

(** *** What a client is answered *)

(** The store holds the order [o] of the client's [key], in the state [o] has, and that
    state is past pending. *)
Definition settled (key : string) (o : Order) (w : world) : Prop :=
  ord_status o ∈ [StatusAccepted; StatusShipped; StatusCancelled] ∧ ord_idempotencyKey o = key
  ∧ ∃ id cur, uuid_String id = ord_id o ∧ view (w_db w) id = Some cur
      ∧ same_order o cur ∧ ord_status cur = ord_status o.
Definition answered (key : string) (r : order_result CreateOrderResult) (w : world) : Prop :=
  match r with Ok result => settled key (cor_Order result) w | Err _ => True end.

Lemma past_pending status : status ∈ [StatusAccepted; StatusShipped; StatusCancelled] → status ≠ StatusPending.
Proof. intros H ->. by repeat (apply elem_of_cons in H as [?|H]; [done|]); apply elem_of_nil in H. Qed.

Lemma settled_keeps key o w w' : settled key o w → keeps_orders w w' → settled key o w'.
Proof.
  intros (Hp & Hk & id & cur & Hid & Hv & Hsame & Hst) [He _].
  destruct (He _ _ Hv) as (cur' & Hv' & _ & [->|Hpend]).
  - split; [done|]. split; [done|]. by exists id, cur.
  - rewrite Hst in Hpend. by apply past_pending in Hp.
Qed.
Lemma settled_found key o w id :
  orders_sound w → view (w_db w) id = Some o → ord_idempotencyKey o = key →
  ord_status o ∈ [StatusAccepted; StatusShipped; StatusCancelled] → settled key o w.
Proof.
  intros Hs Hv Hk Hst. split; [done|]. split; [done|]. exists id, o. split_and!; try done.
  pose proof Hv as (row & Hrow & Hload)%view_row; [|apply (snd_wf _ Hs)].
  destruct (domainFromRows_fields _ _ _ Hload) as (_ & -> & _). by rewrite (wf_key _ (snd_wf _ Hs) _ _ Hrow).
Qed.

(** A key has one order. *)
Lemma settled_unique key o o' w :
  orders_sound w → settled key o w → settled key o' w → same_order o' o ∧ ord_status o' = ord_status o.
Proof.
  intros Hs (_ & <- & id & cur & _ & Hv & Hsame & Hst) (_ & Hk & id' & cur' & _ & Hv' & Hsame' & Hst').
  pose proof (snd_wf _ Hs) as Hwf.
  pose proof Hv as (row & Hrow & Hload)%view_row; [|done].
  pose proof Hv' as (row' & Hrow' & Hload')%view_row; [|done].
  assert (id' = id) as ->.
  { apply (wf_unique _ Hwf id' id row' row Hrow' Hrow).
    destruct (domainFromRows_fields _ _ _ Hload) as (_ & _ & _ & <- & _).
    destruct (domainFromRows_fields _ _ _ Hload') as (_ & _ & _ & <- & _).
    destruct Hsame as (_ & _ & <- & _). by destruct Hsame' as (_ & _ & <- & _). }
  assert (cur' = cur) as -> by congruence. split; [|congruence].
  etransitivity; [exact Hsame'|]. clear -Hsame. unfold same_order in *. intuition congruence.
Qed.

Lemma wp_answer i key o created w :
  settled key o w → request_wp i (Ret (Ok (mkCreateOrderResult o created))) (answered key) w.
Proof.
  intros Ho. apply wp_done. intros w1 He _. eapply settled_keeps; [exact Ho|].
  by apply grows_keeps, (Rely_grows i).
Qed.
Lemma wp_error i key err w : request_wp i (Ret (Err err)) (answered key) w.
Proof. by apply wp_done. Qed.

Lemma conflict_wp i o created w :
  holds_copy w o →
  request_wp i (resultAfterConflict (ord_id o) created) (answered (ord_idempotencyKey o)) w.
Proof.
  intros Ho. apply wp_silent; [done|]. intros w1 [o'|err] He1 Hs1 Hstep; [|by apply wp_error].
  destruct (store_step _ _ _ _ _ Hstep eq_refl Hs1 I) as ((_ & id & Hid & Hv) & _).
  pose proof (holds_copy_rely _ _ _ _ Ho He1) as (_ & _ & id' & cur & Hid' & _ & Hcur & Hsame).
  assert (id' = id) as -> by congruence. assert (cur = o') as -> by congruence.
  case_bool_decide; [|repeat case_match; by apply wp_error].
  apply wp_answer. eapply settled_found; [apply Hs1|done|symmetry; apply Hsame|done].
Qed.

(** A transition of a copy is what an update may store. *)
Lemma transition_copy w o st now o' :
  holds_copy w o → transitionTo o st now = Ok o' → (now `mod` Microsecond = 0)%Z →
  holds_copy w o' ∧ update_pre (w_db w) o' ∧ ord_status o' = st ∧ ord_id o' = ord_id o
  ∧ ord_idempotencyKey o' = ord_idempotencyKey o.
Proof.
  intros ((Hv & Ht & Hc & Hu) & Hutf & id & cur & Hid & Hcan & Hcur & Hsame) Htr Hnow.
  assert (order_step o o') as Hstep by (by exists st, now).
  destruct (order_step_valid _ _ Hv Hstep) as (Hv' & _).
  apply transitionTo_ok in Htr as (_ & _ & _ & ->).
  assert (order_storable (mkOrder (ord_id o) (ord_customerID o) (ord_customerEmail o) st
    (ord_idempotencyKey o) (ord_orderItems o) (ord_total o) (ord_createdAt o) now)) as Hst'.
  { by split_and!. }
  split_and!; [|split; [done|]|done|done|done].
  - split_and!; [done..|]. by exists id, cur.
  - cbn. intros id' cur' Hid' Hcur'. simplify_eq. by destruct Hsame as (_ & _ & _ & _ & _ & <-).
Qed.
Lemma holds_copy_same w o id cur :
  holds_copy w o → uuid_Parse (ord_id o) = Some id → view (w_db w) id = Some cur →
  same_order o cur ∧ uuid_String id = ord_id o.
Proof. intros (_ & _ & id' & cur' & ? & ? & ? & ?) ? ?. by simplify_eq. Qed.

Lemma reject_wp i o created cause w :
  holds_copy w o → request_wp i (reject o created cause) (answered (ord_idempotencyKey o)) w.
Proof.
  intros Ho. apply wp_silent; [done|]. intros w1 now He1 _ (_ & _ & _ & Hnow).
  destruct (Reject o now) as [o'|err] eqn:Hr; [|by apply wp_error].
  apply wp_call. intros w2 He2 Hs2 r w3 Hstep.
  assert (holds_copy w2 o) as Ho2 by (eapply holds_copy_rely; [exact Ho|by etransitivity]).
  destruct (transition_copy _ _ _ _ _ Ho2 Hr Hnow) as (Ho2' & Hpre & Hst & _ & <-).
  destruct (store_step _ _ _ _ _ Hstep eq_refl Hs2 Hpre) as (Hc & Hwf & Er & Ep & Eo & Et & Ee).
  destruct Hs2 as [Hs2 Hb2].
  assert ((orders_sound w3 ∧ keeps_orders w2 w3) ∧ db_outbox (w_db w3) = db_outbox (w_db w2))
    as [Hk Hob].
  { destruct r as [[]|err]; cbn in Hc.
    - destruct Hc as (id & _ & Hmv & Hob). split; [by eapply sound_rejected|done].
    - destruct Hc as [[Hdb _]|(_ & id & _ & Hmv & Hob)]; [|split; [by eapply sound_rejected|done]].
      split; [by apply sound_reserve; rewrite ?Er|by rewrite Hdb]. }
  destruct (quiet_step i w2 w3 Hk Hb2 Hob Ee) as [Hs3 HG]; [by rewrite ?Ep, ?Eo, ?Et..|].
  split_and!; [done|done|]. destruct r as [[]|err]; [by apply wp_error|].
  destruct (is_app err _); [|by apply wp_error]. apply conflict_wp. by eapply holds_copy_keeps, Hk.
Qed.

(** The events of the outbox are on record already. *)
Lemma events_absorb w :
  outbox_sound w → w_events w ∪ (ob_order_id <$> db_outbox (w_db w)) = w_events w.
Proof.
  intros Ho. apply map_eq. intros u. rewrite lookup_union, lookup_fmap.
  destruct (w_events w !! u) eqn:Hu; [by destruct (db_outbox (w_db w) !! u)|].
  destruct (db_outbox (w_db w) !! u) as [row|] eqn:Hl; [|done].
  apply (os_events _ Ho) in Hl. congruence.
Qed.

Lemma accept_step i w w' id u o :
  orders_sound w → outbox_sound w → db_wf (w_db w') →
  moved (w_db w) id o StatusPending (w_db w') →
  event_added (w_db w) id (newOrderAcceptedEvent (uuid_String u) o) (w_db w') →
  ord_status o = StatusAccepted → reservationRequestFor o ∈ w_reserved w →
  (∀ cur, view (w_db w) id = Some cur → same_order o cur ∧ uuid_String id = ord_id o) →
  w_owner w !! u = Some i → w_events w !! u = None →
  w_reserved w' = w_reserved w → w_published w' = w_published w → w_owner w' = w_owner w →
  w_tokens w' = w_tokens w →
  w_events w' = w_events w ∪ (ob_order_id <$> db_outbox (w_db w')) →
  sound w' ∧ Guar i w w'.
Proof.
  intros Hs Hb Hwf Hmv Hadd Ha Hres Hcopy Hown Hfresh Er Ep Eo Et Ee.
  assert (orders_sound w' ∧ keeps_orders w w') as Hk.
  { pose proof Hmv as (cur & Hcur & _). destruct (Hcopy _ Hcur) as [_ Hcan].
    eapply sound_accepted; try done. intros cur' Hcur'. by apply Hcopy. }
  destruct Hadd as (eid & row & Heid & Hnone & Hins & Hid & Hst & Hat & Htk & _).
  cbn in Heid. rewrite uuid_Parse_String in Heid. injection Heid as <-.
  by eapply recording_step.
Qed.

(** The order that was moved is the one answered. *)
Lemma settled_moved w w' id o :
  moved (w_db w) id o StatusPending (w_db w') → uuid_Parse (ord_id o) = Some id →
  (∀ cur, view (w_db w) id = Some cur → same_order o cur ∧ uuid_String id = ord_id o) →
  ord_status o ∈ [StatusAccepted; StatusShipped; StatusCancelled] → settled (ord_idempotencyKey o) o w'.
Proof.
  intros (cur & Hcur & _ & Hview) Hid Hcopy Hst. destruct (Hcopy _ Hcur) as [Hsame Hcan].
  split; [done|]. split; [done|]. eexists id, _. split; [done|]. split; [by rewrite Hview, decide_True|].
  by split.
Qed.

Lemma pending_wp i o created w :
  holds_copy w o → request_wp i (processPending o created) (answered (ord_idempotencyKey o)) w.
Proof.
  intros Ho. apply wp_bind; [apply _|].
  eapply wp_mono; [|by apply reserve_wp]. cbn beta. intros reserved w1 [Ho1 Hok].
  destruct reserved as [[]|err].
  2:{ destruct (is_app err _); [by apply reject_wp|by apply wp_error]. }
  specialize (Hok eq_refl). apply wp_silent; [done|]. intros w2 now He2 _ (_ & _ & _ & Hnow).
  destruct (Accept o now) as [o'|err] eqn:Ha; [|by apply wp_error].
  apply wp_new_id. intros w3 u He3 Hown3.
  apply wp_call. intros w4 He4 Hs4 r w5 Hstep.
  assert (keeps_orders w1 w4) as He14.
  { apply grows_keeps. etransitivity; [by eapply Rely_grows|].
    etransitivity; [done|by eapply Rely_grows]. }
  pose proof (owns_rely _ _ _ _ Hown3 He4) as [Hown Hfresh].
  pose proof (holds_copy_keeps _ _ _ Ho1 He14) as Ho4.
  assert (reservationRequestFor o' ∈ w_reserved w4) as Hres.
  { destruct He14 as [_ He14]. apply transitionTo_ok in Ha as (_ & _ & _ & ->). by apply He14. }
  destruct (transition_copy _ _ _ _ _ Ho4 Ha Hnow) as (Ho4' & Hpre & Hst & _ & <-).
  destruct (store_step _ _ _ _ _ Hstep eq_refl Hs4 (conj Hpre (conj (proj1 (proj2 Ho4')) eq_refl)))
    as (Hc & Hwf & Er & Ep & Eo & Et & Ee).
  destruct Hs4 as [Hs4 Hb4].
  assert (sound w5 ∧ Guar i w4 w5) as [Hs5 HG].
  { assert (w_db w5 = w_db w4 ∨ ∃ id, uuid_Parse (ord_id o') = Some id
      ∧ moved (w_db w4) id o' StatusPending (w_db w5)
      ∧ event_added (w_db w4) id (newOrderAcceptedEvent (uuid_String u) o') (w_db w5)) as Hdone.
    { destruct r as [[]|err]; cbn in Hc; [by right|]. destruct Hc as [[? _]|[_ ?]]; by auto. }
    destruct Hdone as [Hdb|(id & Hid & Hmv & Hadd)].
    - apply quiet_step; [apply sound_reserve; by rewrite ?Er|done|by rewrite Hdb| |by rewrite ?Ep, ?Eo, ?Et..].
      rewrite Ee, Hdb. by apply events_absorb.
    - eapply accept_step; try done. intros cur Hcur. by eapply holds_copy_same. }
  split_and!; [done|done|]. destruct r as [[]|err].
  - apply wp_answer. destruct Hc as (id & Hid & Hmv & _).
    eapply settled_moved; [done|done| |by rewrite Hst; left].
    intros cur Hcur. by eapply holds_copy_same.
  - destruct (is_app err _); [|by apply wp_error].
    apply conflict_wp. eapply holds_copy_keeps; [exact Ho4'|]. by apply grows_keeps, HG.
Qed.

(** An order as it was found, or as it was created. *)
Lemma persisted_wp i o created w :
  holds_copy w o → (ord_status o = StatusPending ∨ settled (ord_idempotencyKey o) o w
    ∨ ord_status o ∉ [StatusAccepted; StatusShipped; StatusCancelled]) →
  request_wp i (processPersisted o created) (answered (ord_idempotencyKey o)) w.
Proof.
  intros Ho Hst. unfold processPersisted. case_bool_decide as Hpast.
  { apply wp_answer. destruct Hst as [Hp|[?|?]]; [|done..]. by apply past_pending in Hpast. }
  case_bool_decide; [by apply wp_error|]. case_bool_decide; [by apply pending_wp|by apply wp_error].
Qed.

(** A found order is a copy of the stored one. *)
Lemma found_copy w id o : orders_sound w → view (w_db w) id = Some o → holds_copy w o.
Proof.
  intros Hs Hv. pose proof (snd_wf _ Hs) as Hwf.
  pose proof Hv as (row & Hrow & Hload)%view_row; [|done].
  destruct (wf_load _ Hwf _ _ Hrow) as (o' & Hload' & Hst & Hutf).
  assert (o' = o) as -> by congruence. pose proof (wf_key _ Hwf _ _ Hrow) as Hk.
  destruct (domainFromRows_fields _ _ _ Hload) as (_ & Hid & _). rewrite Hk in Hid.
  split; [done|]. split; [done|]. exists id, o. rewrite Hid.
  split; [apply uuid_Parse_String|done].
Qed.

(** An order found under [key]. *)
Definition found (key : string) (o : Order) (w : world) : Prop :=
  holds_copy w o ∧ ord_idempotencyKey o = key
  ∧ (ord_status o ∈ [StatusAccepted; StatusShipped; StatusCancelled] → settled (ord_idempotencyKey o) o w).

Lemma find_wp {A} i key (k : order_result Order → prog orderE A) Q w :
  (∀ w1 r, Rely i w w1 → match r with Ok o => found key o w1 | Err _ => True end →
    request_wp i (k r) Q w1) →
  request_wp i (trigger (FindByIdempotencyKey key) ≫= k) Q w.
Proof.
  intros Hk. apply wp_silent; [done|]. intros w1 r He1 Hs1 Hstep. apply Hk; [done|].
  destruct (store_step _ _ _ _ _ Hstep eq_refl Hs1 I) as ((_ & Hc) & _).
  destruct r as [o|err]; [|done]. destruct Hc as (id & Hv & Hkey).
  split_and!; [by eapply found_copy; [apply Hs1|]|done|]. intros Hst. rewrite Hkey.
  by eapply settled_found; [apply Hs1|..].
Qed.

(** What [buildOrder] hands to [Create]. *)
Definition built_ok (key : string) (r : order_result Order) : Prop :=
  match r with
  | Ok o => order_storable o ∧ ord_status o = StatusPending ∧ ord_idempotencyKey o = key
      ∧ ∃ u, ord_id o = uuid_String u
  | Err _ => True
  end.

Lemma build_wp i command w :
  request_wp i (buildOrder command) (λ r _, built_ok (coc_IdempotencyKey command) r) w.
Proof.
  apply wp_silent; [done|]. intros w1 priced _ _ _.
  destruct priced as [prices|err]; [|by apply wp_done].
  cbv zeta. destruct (bool_decide _); [by apply wp_done|].
  destruct (mapM_result _ _) as [items|err] eqn:Hitems; [|by apply wp_done].
  apply wp_new_id. intros w2 u _ _.
  apply wp_silent; [done|]. intros w3 now _ _ (_ & _ & _ & Hnow).
  apply wp_done. intros w4 _ _. unfold built_ok.
  destruct (NewOrder _ _ _ _ _ _) as [o|err] eqn:Ho; [|done].
  apply NewOrder_ok in Ho as (t & _ & _ & _ & _ & _ & _ & -> & Hv).
  split; [split_and!; [exact Hv| |exact Hnow|exact Hnow]|].
  2:{ split_and!; [done|done|]. exists u. apply uuid_String_trimmed. }
  cbn.
  apply mapM_result_Forall2 in Hitems. clear -Hitems.
  induction Hitems as [|c x l k Hx _ IH]; constructor; [|done].
  unfold NewOrderItem in Hx. destruct (validateItem _); [|done]. injection Hx as <-.
  cbn. by rewrite TrimSpace_idemp.
Qed.

Lemma create_step i o w w' r :
  sound w → order_storable o → ord_status o = StatusPending → (∃ u, ord_id o = uuid_String u) →
  request_step i _ (Create o) w r w' →
  sound w' ∧ Guar i w w' ∧ (r = Ok tt → holds_copy w' o).
Proof.
  intros Hs Hst Hp [u Hu] Hstep.
  destruct (store_step _ _ _ _ _ Hstep eq_refl Hs Hst) as (Hc & Hwf & Er & Ep & Eo & Et & Ee).
  destruct Hs as [Hs Hb].
  assert ((orders_sound w' ∧ keeps_orders w w') ∧ db_outbox (w_db w') = db_outbox (w_db w))
    as [Hk Hob].
  { assert (w_db w' = w_db w ∨ ∃ id cid, created (w_db w) id (canonical id cid o) (w_db w'))
      as [Hdb|(id & cid & Hcr)].
    { destruct r as [[]|err']; cbn in Hc.
      - destruct Hc as (id & cid & _ & Hc). right. by exists id, cid.
      - destruct Hc as [[? _]|(_ & id & cid & _ & Hc)]; [by left|right; by exists id, cid]. }
    - split; [by apply sound_reserve; rewrite ?Er|by rewrite Hdb].
    - split; [by eapply sound_created|apply Hcr]. }
  destruct (quiet_step i w w' Hk Hb Hob Ee) as [Hs' HG]; [by rewrite ?Ep, ?Eo, ?Et..|].
  split_and!; [done|done|]. intros ->.
  destruct Hc as (id & cid & Hid & _ & _ & Hview & _ & Hutf).
  rewrite Hu, uuid_Parse_String in Hid. injection Hid as <-.
  split_and!; [done|done|]. exists u, (canonical u cid o).
  rewrite Hu, uuid_Parse_String, Hview, decide_True by done. by split_and!.
Qed.
Lemma create_wp i o w (k : order_result unit → prog orderE (order_result CreateOrderResult)) Q :
  order_storable o → ord_status o = StatusPending → (∃ u, ord_id o = uuid_String u) →
  (∀ r w1, (r = Ok tt → holds_copy w1 o) → request_wp i (k r) Q w1) →
  request_wp i (trigger (Create o) ≫= k) Q w.
Proof.
  intros Hst Hp Hu Hk. apply wp_call. intros w1 _ Hs1 r w2 Hstep.
  destruct (create_step i o w1 w2 r Hs1 Hst Hp Hu Hstep) as (Hs2 & HG & Hcopy).
  split_and!; [done|done|by apply Hk].
Qed.

Lemma found_wp i key o w :
  found key o w → request_wp i (processPersisted o false) (answered key) w.
Proof.
  intros (Hcopy & <- & Hst). apply persisted_wp; [done|]. right.
  destruct (decide (ord_status o ∈ [StatusAccepted; StatusShipped; StatusCancelled])); [left|right]; auto.
Qed.

Lemma Execute_wp i command w :
  request_wp i (Execute command) (answered (coc_IdempotencyKey command)) w.
Proof.
  apply find_wp. intros w1 [o|err] He1 Ho; [by apply found_wp|].
  destruct (negb _); [by apply wp_error|]. apply wp_bind; [apply _|].
  eapply wp_mono; [|apply build_wp]. cbn beta. intros [o|e] w2 Hb; [|by apply wp_error].
  destruct Hb as (Hst & Hp & <- & Hu). apply create_wp; [done..|]. intros [[]|err'] w3 Hcopy.
  - apply persisted_wp; [by apply Hcopy|by left].
  - destruct (is_app err' _); [|by apply wp_error].
    apply find_wp. intros w5 [o'|e] He5 Ho'; [by apply found_wp|by apply wp_error].
Qed.

(** ** The worker *)

(** One call of a worker, by thread [i]. A claim draws a new token. A published
    event reaches the broker's queues, and so may one whose outcome is an error. *)
Definition worker_step (i : nat) R (e : workerE R) (w : world) (r : R) (w' : world) : Prop :=
  w_reserved w' = w_reserved w ∧ w_events w' = w_events w ∧ w_owner w' = w_owner w ∧
  match e in workerE R return R → Prop with
  | ClaimNext lease => λ r, w_published w' = w_published w
      ∧ ∃ f now token locked choice, claim_choice locked now (w_db w) choice
        ∧ outbox_ClaimNext f now token choice lease (w_db w) = (r, w_db w')
        ∧ w_tokens w !! token = None ∧ w_tokens w' = <[token := i]> (w_tokens w)
  | PublishOrderAccepted event _ => λ r, w_db w' = w_db w ∧ w_tokens w' = w_tokens w
      ∧ ((w_published w' = w_published w ∧ r ≠ Ok tt)
         ∨ ∃ oid, uuid_Parse (oae_OrderID event) = Some oid
             ∧ w_published w' = {[ oid ]} ∪ w_published w)
  | e => λ r, w_published w' = w_published w ∧ w_tokens w' = w_tokens w
      ∧ outbox_step (w_db w) e r (w_db w')
  end r.

(** An operator's redrive, and reservations for other orders. *)
Definition env_step (w w' : world) : Prop :=
  w_published w' = w_published w ∧ w_events w' = w_events w ∧ w_owner w' = w_owner w
  ∧ w_tokens w' = w_tokens w
  ∧ ((w_db w' = w_db w ∧ w_reserved w ⊆ w_reserved w')
     ∨ (w_reserved w' = w_reserved w
        ∧ ∃ now eid n, redriveOutboxEvent now eid (w_db w) = (n, w_db w'))).

(** A step that rewrites the bookkeeping of one row. *)
Lemma row_step i w w' eid row row' :
  sound w → w_reserved w' = w_reserved w → w_events w' = w_events w → w_owner w' = w_owner w →
  w_published w ⊆ w_published w' → w_tokens w ⊆ w_tokens w' →
  db_outbox (w_db w) !! eid = Some row →
  w_db w' = set_outbox (w_db w) (<[eid := row']> (db_outbox (w_db w))) →
  same_event row row' → row_ok w' row' →
  (∀ t, ob_claim_token row' = Some t → w_tokens w !! t = None ∨ w_tokens w !! t = Some i
     ∨ (ob_claim_token row = Some t ∧ ob_attempts row' ≤ ob_attempts row)%Z) →
  sound w' ∧ Guar i w w'.
Proof.
  intros [Hs [H1 H2 H3]] Er Ee Eo Hp Ht Hl Hdb Hsame Hok Htok.
  assert (orders_sound w' ∧ keeps_orders w w') as [Hs' Hk].
  { apply outbox_change_sound; [done|]. unfold outbox_change. rewrite Hdb, Er. cbn.
    split_and!; [done|done|done|done| |].
    - intros e r. rewrite lookup_insert_Some. intros [[<- <-]|[_ He]]; [by exists row|by exists r].
    - intros e r He. left. rewrite lookup_insert_is_Some. destruct (decide (eid = e)); eauto. }
  split; [split; [done|split]|split_and!].
  - rewrite Hdb, Ee. cbn. intros e r. rewrite lookup_insert_Some.
    intros [[<- <-]|[_ He]]; [|by apply H1]. destruct Hsame as (_ & _ & -> & _). by apply H1.
  - rewrite Ee, Eo. exact H2.
  - rewrite Hdb. cbn. intros e r. rewrite lookup_insert_Some. intros [[<- <-]|[_ He]]; [done|].
    destruct (H3 _ _ He) as (A & B & C & D). split_and!; [set_solver|lia|lia|done|].
    intros t [j Hj]%D. exists j. by eapply lookup_weaken.
  - split_and!; [done|done|by rewrite Ee|by rewrite Eo|done].
  - intros u Hu. by rewrite Ee in Hu.
  - rewrite Hdb. cbn. intros e r t. rewrite lookup_insert_Some. intros [[<- <-]|[_ He]] Htk.
    + destruct (Htok _ Htk) as [?|[?|[? ?]]]; [by left|by right; left|]. right; right. by exists row.
    + right; right. by exists r.
Qed.

(** A step that changes nothing but the tokens drawn and the orders published. *)
Lemma same_db_step i w w' :
  sound w → w_db w' = w_db w → w_reserved w ⊆ w_reserved w' → w_events w' = w_events w →
  w_owner w' = w_owner w → w_published w ⊆ w_published w' → w_tokens w ⊆ w_tokens w' →
  sound w' ∧ Guar i w w'.
Proof.
  intros [Hs Hb] Hdb Hr Ee Eo Hp Ht.
  apply quiet_step; [|done|by rewrite Hdb|done|done|by rewrite Eo|done].
  apply outbox_change_sound; [done|]. unfold outbox_change. rewrite Hdb.
  split_and!; [done|done|done|done| |].
  - intros eid row Hl. by exists row.
  - intros eid row Hl. left. by exists row.
Qed.

Abbreviation worker_wp := (wp worker_step sound Rely Guar).

(** What a worker knows of the row it claimed: its order, that the token is its
    own, and that under that token the row has no more attempts than it read. *)
Definition claimed (i : nat) (w : world) (entry : OutboxEntry) (oid : uuid) : Prop :=
  ∃ eid token, uuid_Parse (oe_EventID entry) = Some eid ∧ w_events w !! eid = Some oid
  ∧ uuid_Parse (oe_ClaimToken entry) = Some token ∧ w_tokens w !! token = Some i
  ∧ ∀ row, db_outbox (w_db w) !! eid = Some row → ob_claim_token row = Some token →
      (ob_attempts row ≤ oe_Attempts entry)%Z.

Lemma claimed_rely i w w' entry oid :
  claimed i w entry oid → Rely i w w' → claimed i w' entry oid.
Proof.
  intros (eid & token & He & Hev & Ht & Htk & Hat) ((_ & _ & Ge & _ & Gt) & _ & Hrow).
  exists eid, token. split_and!; [done|by eapply lookup_weaken|done|by eapply lookup_weaken|].
  intros row' Hl Htok. destruct (Hrow _ _ _ Hl Htok Htk) as (row & Hl0 & Htok0 & Hle).
  specialize (Hat _ Hl0 Htok0). lia.
Qed.

(** The fenced writes of the worker. *)
Lemma fenced_step i w w' entry oid wr f now r :
  sound w → claimed i w entry oid →
  match wr with WRetry _ _ => (oe_Attempts entry + 1 < MaxPublishAttempts)%Z | _ => True end →
  w_reserved w' = w_reserved w → w_events w' = w_events w → w_owner w' = w_owner w →
  w_published w' = w_published w → w_tokens w' = w_tokens w →
  fenced f now entry wr (w_db w) = (r, w_db w') →
  sound w' ∧ Guar i w w'.
Proof.
  intros Hs (eid & token & He & _ & Ht & Htk & Hat) Hwr Er Ee Eo Ep Et Hf.
  apply fenced_cases in Hf as [Hdb|(eid' & token' & row & row' & He' & Ht' & Hl & Hh & Hdb & Hsame & Htok & Heff)].
  { apply same_db_step; rewrite ?Er, ?Ep, ?Et; done. }
  simplify_eq. unfold holds_claim in Hh. reflect_bools.
  specialize (Hat _ Hl ltac:(done)). destruct (os_rows _ (proj2 Hs) _ _ Hl) as (_ & Hb & Hlt & _).
  specialize (Hlt ltac:(done)).
  eapply row_step; try done; [by rewrite Ep|by rewrite Et| |].
  - destruct wr as [delay|delay reason|[] reason]; destruct Heff as [Ea Es];
      (split_and!; [by rewrite Es|lia|lia|rewrite Es; done || (intros _; lia)|]);
      rewrite Htok, Et; intros t [= <-]; by exists i.
  - rewrite Htok. intros t [= <-]. by right; left.
Qed.

Lemma claim_step i w w' f now token locked choice lease entry err :
  sound w → claim_choice locked now (w_db w) choice →
  outbox_ClaimNext f now token choice lease (w_db w) = ((entry, err), w_db w') →
  w_reserved w' = w_reserved w → w_events w' = w_events w → w_owner w' = w_owner w →
  w_published w' = w_published w →
  w_tokens w !! token = None → w_tokens w' = <[token := i]> (w_tokens w) →
  (sound w' ∧ Guar i w w')
  ∧ (no_entry err ∨ ∃ oid, claimed i w' entry oid
       ∧ (err = None → oae_OrderID (oe_Event entry) = uuid_String oid)).
Proof.
  intros Hs _ Hc Er Ee Eo Ep Hfresh Et.
  assert (w_tokens w ⊆ w_tokens w') as Hsub by (rewrite Et; by apply insert_subseteq).
  apply claim_cases in Hc as [[Hdb Hno]|(eid & row & row' & _ & Hl & Hdb & Hsame & Es & Ea & Htok & Hentry)].
  { split; [apply same_db_step; by rewrite ?Er, ?Ep|by left]. }
  destruct (os_rows _ (proj2 Hs) _ _ Hl) as (A & B & C & D). split.
  - eapply row_step; try done; [by rewrite Ep| |].
    + pose proof Hsame as (_ & _ & Eoid & _). unfold row_ok. rewrite Eoid, Es, Ep, Ea.
      split_and!; [done|lia|lia|done|].
      intros t. rewrite Htok, Et. intros [= <-]. rewrite lookup_insert_eq. eauto.
    + intros t. rewrite Htok. intros [= <-]. by left.
  - destruct Hentry as [Hno|(E1 & E2 & E3 & E4)]; [by left|right].
    exists (ob_order_id row). split; [|done]. exists eid, token.
    destruct (wf_outbox _ (snd_wf _ (proj1 Hs)) _ _ Hl) as [Hid _].
    rewrite E1, E2, !uuid_Parse_String, Hid, Et, lookup_insert_eq, Ee.
    split_and!; [done|by eapply (os_events _ (proj2 Hs))|done|done|].
    rewrite Hdb. cbn. rewrite lookup_insert_eq. intros r [= <-] _. rewrite E3, Ea. done.
Qed.

Lemma mark_step i w w' f now entry oid r :
  sound w → claimed i w entry oid → oid ∈ w_published w →
  w_reserved w' = w_reserved w → w_events w' = w_events w → w_owner w' = w_owner w →
  w_published w' = w_published w → w_tokens w' = w_tokens w →
  outbox_MarkPublished f now (oe_EventID entry) (w_db w) = (r, w_db w') →
  sound w' ∧ Guar i w w'.
Proof.
  intros Hs (eid & token & He & Hev & _) Hpub Er Ee Eo Ep Et. unfold outbox_MarkPublished.
  destruct (exec_write _ _ _ _) as [a db1] eqn:Hw. intros Hdb.
  assert (w_db w' = db1) as Hdb1 by (destruct a; by simplify_eq). clear Hdb.
  assert (w_db w' = w_db w ∨ ∃ n, markOutboxEventPublished now eid (w_db w) = (n, w_db w')) as Hcases.
  { unfold with_uuid in Hw. rewrite He in Hw. rewrite Hdb1.
    apply exec_write_cases in Hw as [(n & _ & [= Hq])|(e & _ & [->|[n [= Hq]]])]; eauto. }
  destruct Hcases as [Hdb|[n Hq]]; [apply same_db_step; by rewrite ?Er, ?Ep, ?Et|].
  apply update_row_cases in Hq as [(_ & Hdb & _)|(_ & row & Hl & _ & Hdb)];
    [apply same_db_step; by rewrite ?Er, ?Ep, ?Et|].
  destruct (os_rows _ (proj2 Hs) _ _ Hl) as (_ & B & _ & D).
  pose proof (os_events _ (proj2 Hs) _ _ Hl) as Hoid. rewrite Hev in Hoid. injection Hoid as ->.
  eapply row_step; try done; [by rewrite Ep|by rewrite Et| |].
  - split_and!; cbn; [by rewrite Ep|lia|lia|done|by rewrite Et].
  - cbn. intros t Ht. by right; right.
Qed.

Lemma delete_step i w w' f now olderThan limit victims r :
  sound w → delete_choice now olderThan limit (w_db w) victims →
  w_reserved w' = w_reserved w → w_events w' = w_events w → w_owner w' = w_owner w →
  w_published w' = w_published w → w_tokens w' = w_tokens w →
  outbox_DeletePublished f victims (w_db w) = (r, w_db w') →
  sound w' ∧ Guar i w w'.
Proof.
  intros Hs _ Er Ee Eo Ep Et. unfold outbox_DeletePublished.
  destruct (exec_write _ _ _ _) as [a db1] eqn:Hw. intros Hdb.
  assert (w_db w' = db1) as Hdb1 by (repeat case_match; by simplify_eq). clear Hdb.
  set (m := filter (λ kv, ¬ (kv.1 ∈ victims ∧ ob_status kv.2 = "published")) (db_outbox (w_db w))).
  assert (w_db w' = w_db w ∨ w_db w' = set_outbox (w_db w) m) as [Hdb|Hdb].
  { rewrite Hdb1. apply exec_write_cases in Hw as [(n & _ & [= _ <-])|(e & _ & [->|[n [= _ <-]]])];
      by auto. }
  { apply same_db_step; by rewrite ?Er, ?Ep, ?Et. }
  destruct Hs as [Hs Hb].
  assert (∀ eid row, m !! eid = Some row → db_outbox (w_db w) !! eid = Some row) as Hsub.
  { intros eid row Hl. by apply map_lookup_filter_Some in Hl as [? _]. }
  assert (orders_sound w' ∧ keeps_orders w w') as [Hs' Hk].
  { apply outbox_change_sound; [done|]. unfold outbox_change. rewrite Hdb, Er, Ep. cbn.
    split_and!; [done|done|done|done| |].
    - intros eid row Hl. exists row. split; [by apply Hsub|done].
    - intros eid row Hl. destruct (decide (eid ∈ victims ∧ ob_status row = "published")) as [[_ Hpub]|Hn].
      + right. by destruct (os_rows _ Hb _ _ Hl) as (A & _); apply A.
      + left. exists row. by apply map_lookup_filter_Some. }
  destruct Hb as [H1 H2 H3]. split; [split; [done|split]|split_and!].
  - rewrite Hdb, Ee. cbn. intros eid row Hl. by apply H1, Hsub.
  - rewrite Ee, Eo. exact H2.
  - rewrite Hdb. cbn. intros eid row Hl%Hsub%H3. unfold row_ok in *. by rewrite Ep, Et.
  - split_and!; [done|by rewrite Ep|by rewrite Ee|by rewrite Eo|by rewrite Et].
  - intros u Hu. by rewrite Ee in Hu.
  - rewrite Hdb. cbn. intros eid row t Hl Ht. right; right. exists row.
    split; [by apply Hsub|done].
Qed.

Lemma wwp_call {A R} i (e : workerE R) (k : R → prog workerE A) Q w :
  (∀ w1, Rely i w w1 → sound w1 → ∀ r w2, worker_step i R e w1 r w2 →
    sound w2 ∧ Guar i w1 w2 ∧ worker_wp i (k r) Q w2) →
  worker_wp i (trigger e ≫= k) Q w.
Proof. intros Hk. exact Hk. Qed.

Definition worker_silent {R} (e : workerE R) : bool :=
  match e with
  | random _ | WorkerClock | WorkerCtxErr | WorkerTimerOrDone _ => true
  | _ => false
  end.

Lemma wwp_silent {A R} i (e : workerE R) (k : R → prog workerE A) Q w :
  worker_silent e = true →
  (∀ w1 r, Rely i w w1 → worker_wp i (k r) Q w1) →
  worker_wp i (trigger e ≫= k) Q w.
Proof.
  intros Hs Hk. apply wwp_call. intros w1 He Hi r w2 (Er & Ee & Eo & Hstep).
  assert (w2 = w1) as ->.
  { destruct w1, w2; cbn in *. destruct e; try discriminate Hs;
      destruct Hstep as (-> & -> & ->); by subst. }
  split_and!; [done|apply Guar_refl|by apply Hk].
Qed.

Lemma wwp_done {A} i (a : A) w : worker_wp i (Ret a) (λ _ _, True) w.
Proof. by apply wp_ret. Qed.

Lemma delay_wp {A} i attempt (k : Z → prog workerE A) Q w :
  (∀ d w1, Rely i w w1 → worker_wp i (k d) Q w1) →
  worker_wp i (retryDelay attempt ≫= k) Q w.
Proof. intros Hk. apply (wwp_silent i (random _)); [done|]. intros w1 r Hr. by apply Hk. Qed.

(** A fenced write, as [write] makes it. *)
Lemma write_wp {A} i (e : workerE (order_result unit)) wr entry oid (k : unit → prog workerE A) w :
  claimed i w entry oid →
  (∀ w1 r w2, worker_step i _ e w1 r w2 → w_published w2 = w_published w1
     ∧ w_tokens w2 = w_tokens w1 ∧ ∃ f now, fenced f now entry wr (w_db w1) = (r, w_db w2)) →
  match wr with WRetry _ _ => (oe_Attempts entry + 1 < MaxPublishAttempts)%Z | _ => True end →
  (∀ w1, worker_wp i (k tt) (λ _ _, True) w1) →
  worker_wp i (write e ≫= k) (λ _ _, True) w.
Proof.
  intros Hc Hf Hwr Hk. apply (wwp_call i e (λ _, k tt)). intros w1 He Hs r w2 Hstep.
  pose proof (claimed_rely _ _ _ _ _ Hc He) as Hc1.
  destruct (Hf _ _ _ Hstep) as (Ep & Et & f & now & Hw). destruct Hstep as (Er & Ee & Eo & _).
  destruct (fenced_step i w1 w2 entry oid wr f now r) as [Hs2 HG]; try done.
Qed.

Lemma settle_wp i u entry oid published w :
  claimed i w entry oid → (published = Ok tt → oid ∈ w_published w) →
  worker_wp i (settle u entry published) (λ _ _, True) w.
Proof.
  intros Hc Hpub. unfold settle. destruct published as [[]|err].
  - apply (wwp_call i (MarkPublished _) (λ _, Ret _)). intros w1 He Hs r w2 (Er & Ee & Eo & Ep & Et & f & now & Hm).
    destruct (mark_step i w1 w2 f now entry oid r) as [Hs2 HG]; try done.
    { by eapply claimed_rely. }
    { by apply (Rely_grows _ _ _ He), Hpub. }
  - destruct (is_app err ErrPublisherUnavailable).
    { apply delay_wp. intros pause w1 He.
      eapply (write_wp i (Release entry pause) (WRelease pause)).
      - by eapply claimed_rely.
      - intros w2 r w3 (_ & _ & _ & Ep & Et & f & now & Hf). eauto 10.
      - done.
      - intros w2. apply wwp_done. }
    destruct (is_app err ErrEventUnpublishable).
    { eapply (write_wp i (MarkNeedsAttention entry false (Error err)) (WAttention false (Error err)));
        [done| |done|intros w2; apply wwp_done].
      intros w2 r w3 (_ & _ & _ & Ep & Et & f & now & Hf). eauto 10. }
    destruct (_ <=? _)%Z eqn:Hmax; reflect_bools.
    { eapply (write_wp i (MarkNeedsAttention entry true (Error err)) (WAttention true (Error err)));
        [done| |done|intros w2; apply wwp_done].
      intros w2 r w3 (_ & _ & _ & Ep & Et & f & now & Hf). eauto 10. }
    apply delay_wp. intros d w1 He.
    eapply (write_wp i (ScheduleRetry entry d (Error err)) (WRetry d (Error err))).
    + by eapply claimed_rely.
    + intros w2 r w3 (_ & _ & _ & Ep & Et & f & now & Hf). eauto 10.
    + done.
    + intros w2. apply wwp_done.
Qed.

Lemma delete_wp i u w :
  worker_wp i (deleteOldPublishedEvents u) (λ _ _, True) w.
Proof.
  apply wwp_silent; [done|]. intros w1 now _. destruct (_ && _); [apply wwp_done|].
  apply wwp_call. intros w2 _ Hs r w3 (Er & Ee & Eo & Ep & Et & f & now' & victims & Hch & Hd).
  destruct (delete_step i w2 w3 f now' _ _ victims r Hs Hch Er Ee Eo Ep Et Hd) as [Hs3 HG].
  split_and!; [done|done|]. destruct r; [apply wwp_done|].
  apply wwp_silent; [done|]. intros; apply wwp_done.
Qed.

Lemma publishNext_wp i u w : worker_wp i (publishNext u) (λ _ _, True) w.
Proof.
  apply wwp_call. intros w1 _ Hs [entry err] w2
    (Er & Ee & Eo & Ep & f & now & token & locked & choice & Hch & Hc & Hfresh & Et).
  destruct (claim_step i w1 w2 _ _ _ _ _ _ _ _ Hs Hch Hc Er Ee Eo Ep Hfresh Et) as [[Hs2 HG] Hentry].
  split_and!; [done|done|]. destruct err as [err|].
  - destruct (is_app err ErrOutboxEmpty).
    { apply wp_bind; [apply _|]. eapply wp_mono; [|apply delete_wp].
      intros u' w3 _. apply wwp_done. }
    destruct (is_app err ErrEventUnpublishable) eqn:Hun.
    + destruct Hentry as [(e & [= ->] & Hno)|(oid & Hcl & _)]; [congruence|].
      eapply (write_wp i (MarkNeedsAttention entry false (Error err)) (WAttention false (Error err)));
        [done| |done|intros w3; apply wwp_done].
      intros w3 r w4 (_ & _ & _ & Ep' & Et' & f' & now' & Hf). eauto 10.
    + apply wwp_silent; [done|]. intros; apply wwp_done.
  - destruct Hentry as [(e & ? & _)|(oid & Hcl & Hoid)]; [done|]. specialize (Hoid eq_refl).
    apply wwp_call. intros w3 He Hs3 r w4 (Er' & Ee' & Eo' & Edb & Et' & Hpub).
    assert (w_published w3 ⊆ w_published w4 ∧ (r = Ok tt → oid ∈ w_published w4)) as [Hsub Hin].
    { destruct Hpub as [[-> Hne]|(oid' & Hp & ->)]; [by split|].
      rewrite Hoid, uuid_Parse_String in Hp. injection Hp as <-. split; set_solver. }
    destruct (same_db_step i w3 w4) as [Hs4 HG4]; try done; [by rewrite Er'|by rewrite Et'|].
    split_and!; [done|done|]. apply settle_wp with (oid := oid); [|done].
    apply (claimed_rely i w2); [done|]. etransitivity; [done|].
    split_and!; [apply HG4|by rewrite Ee'|]. rewrite Edb. intros eid row t Hl Ht _. by exists row.
Qed.

Lemma Run_wp i rounds u w : worker_wp i (Run rounds u) (λ _ _, True) w.
Proof.
  revert u w. induction rounds as [|rounds IH]; intros u w; [apply wwp_done|]. cbn [Run].
  apply wwp_silent; [done|]. intros w1 [c|] _; [apply wwp_done|].
  apply wp_bind; [apply _|]. eapply wp_mono; [|apply publishNext_wp].
  intros [u' pause] w2 _. case_bool_decide; [apply IH|].
  apply wwp_silent; [done|]. intros w3 [c|] _; [apply wwp_done|apply IH].
Qed.

(** ** The system *)

Abbreviation serviceE := (sumE orderE workerE).
Abbreviation service_step := (sum_handler request_step worker_step).

(** A request, or a worker observed for some rounds of its loop. *)
Inductive thread :=
| Request (command : CreateOrderCommand)
| Worker (lease pollInterval : Z) (rounds : nat).

(** A request ends with its answer. *)
Definition thread_prog (t : thread) : prog serviceE (option (order_result CreateOrderResult)) :=
  match t with
  | Request command => embed (λ _, inlE) (r ← Execute command; Ret (Some r))
  | Worker lease pollInterval rounds =>
      embed (λ _, inrE) (_ ← Run rounds (NewPublishOrderEvents lease pollInterval); Ret None)
  end.

(** What a thread promises of its answer. *)
Definition promise (t : thread) (answer : option (order_result CreateOrderResult)) (w : world) : Prop :=
  match t, answer with
  | Request command, Some r => answered (coc_IdempotencyKey command) r w
  | _, _ => True
  end.

Lemma answer_wp i command w :
  request_wp i (r ← Execute command; Ret (Some r)) (promise (Request command)) w.
Proof.
  apply wp_bind; [apply _|]. eapply wp_mono; [|apply Execute_wp]. intros r w1 Hr. apply wp_done. intros w2 He _.
  destruct r as [result|]; [|done]. eapply settled_keeps; [exact Hr|]. by apply grows_keeps, (Rely_grows i).
Qed.
Lemma thread_wp i t w :
  wp service_step sound Rely Guar i (thread_prog t) (promise t) w.
Proof.
  destruct t as [command|lease poll rounds]; cbn [thread_prog].
  - apply (wp_embed request_step); [done|]. apply answer_wp.
  - apply (wp_embed worker_step); [done|]. apply wp_bind; [apply _|].
    eapply wp_mono; [|apply Run_wp]. intros a w' _. by apply wp_ret.
Qed.

Lemma env_sound w w' : sound w → env_step w w' → sound w' ∧ ∀ i, Rely i w w'.
Proof.
  intros Hs (Ep & Ee & Eo & Et & Hcase).
  assert (∀ j, sound w' ∧ Guar j w w') as Hj.
  { intros j. destruct Hcase as [[Hdb Hr]|(Er & now & eid & n & Hq)].
    - apply same_db_step; by rewrite ?Ep, ?Et.
    - apply update_row_cases in Hq as [(_ & Hdb & _)|(_ & row & Hl & _ & Hdb)].
      { apply same_db_step; by rewrite ?Er, ?Ep, ?Et. }
      destruct (os_rows _ (proj2 Hs) _ _ Hl) as (_ & B & _ & D).
      eapply row_step; try done; [by rewrite Ep|by rewrite Et| |].
      + split_and!; cbn; [done|done|done|done|by rewrite Et].
      + cbn. intros t Ht. right; right. split; [done|lia]. }
  split; [apply (Hj 0%nat)|]. intros i. apply (Guar_Rely i (S i)); [lia|apply Hj].
Qed.

Lemma service_reaches (threads : list thread) w c :
  sound w →
  rtc (pool_step service_step env_step) (thread_prog <$> threads, w) c →
  sound c.2 ∧ ∀ i t answer, threads !! i = Some t → c.1 !! i = Some (Ret answer) → promise t answer c.2.
Proof.
  intros Hw Hsteps.
  enough (sound c.2 ∧ ∀ i answer, c.1 !! i = Some (Ret answer) →
    ∀ t, threads !! i = Some t → promise t answer c.2) as [Hs Hp]; [by split; eauto|].
  eapply (pool_adequate service_step env_step sound Rely Guar)
    with (Q := λ i answer w, ∀ t, threads !! i = Some t → promise t answer w); [..|exact Hsteps].
  - apply Guar_Rely.
  - intros i w1 w2 Hs He. by destruct (env_sound _ _ Hs He).
  - intros w1 w2 Hs He. by destruct (env_sound _ _ Hs He).
  - split; [done|]. cbn [fst snd]. intros i p Hi. apply list_lookup_fmap_Some in Hi as (t & -> & Ht).
    eapply wp_mono; [|apply thread_wp]. intros answer w' Hp t' Ht'. by simplify_eq.
Qed.

(** C4: however requests and outbox workers interleave at their calls, with
    database faults, lost answers, redrives and cleanups in between, every
    reachable state is sound: every stored order loads and idempotency keys are
    unique; an order is accepted only if its basket was reserved, and its event
    waits in the outbox until the broker has routed it; the outbox holds only
    events of accepted orders; a row is marked published only after its event was
    routed, and no row uses more than its ten attempts. *)
Theorem order_service_sound (threads : list thread) w c :
  sound w →
  rtc (pool_step service_step env_step) (thread_prog <$> threads, w) c →
  sound c.2.
Proof. intros Hw Hsteps. by apply (service_reaches threads w c). Qed.

(** C5: What a client is told is so, and repeating a request is safe. However the calls
    interleave: a request that is answered an order finds that order stored under its
    idempotency key, in the state it was told, which is past pending; and any two
    requests under one key that are answered an order are answered the same one. *)
Theorem answers_stand (threads : list thread) w c i command result :
  sound w →
  rtc (pool_step service_step env_step) (thread_prog <$> threads, w) c →
  threads !! i = Some (Request command) → c.1 !! i = Some (Ret (Some (Ok result))) →
  settled (coc_IdempotencyKey command) (cor_Order result) c.2
  ∧ ∀ j command' result', threads !! j = Some (Request command') →
      c.1 !! j = Some (Ret (Some (Ok result'))) →
      coc_IdempotencyKey command' = coc_IdempotencyKey command →
      same_order (cor_Order result') (cor_Order result)
      ∧ ord_status (cor_Order result') = ord_status (cor_Order result).
Proof.
  intros Hw Hsteps Hi Hr. destruct (service_reaches _ _ _ Hw Hsteps) as [Hs Hp].
  pose proof (Hp _ _ _ Hi Hr) as Hset. split; [exact Hset|]. intros j command' result' Hj Hr' Hkey.
  pose proof (Hp _ _ _ Hj Hr') as Hset'. cbn in Hset, Hset'. rewrite Hkey in Hset'.
  by eapply settled_unique; [apply Hs|..].
Qed.
End order_system.

(** ** A schedule in which nothing fails

    Every call answered by a store without faults, its clocks at a microsecond; every
    reservation is made and every event routed. *)
Definition fresh_text (n : nat) : option uuid := uuid_Parse ("id-" +:+ Itoa (Z.of_nat n)).
(** Three identifiers that are none of the first. *)
Definition sample_uuids : list sample_uuid_type := omap sample_uuid_parse ["id-7"; "id-8"; "id-9"].
Lemma sample_uuids_last (X : gset sample_uuid_type) : (size X < 3)%nat → ∃ u, (u ∉ X).
Proof.
  intros HX. destruct (missing_element sample_uuids X) as (u & _ & Hu); [|exact HX|by exists u].
  apply (bool_decide_unpack _). vm_compute. exact I.
Qed.
Definition with_db (db : database) (w : world) : world :=
  mkWorld db (w_reserved w) (w_published w) (w_events w) (w_owner w) (w_tokens w).
Definition basket_prices : gmap string Money :=
  {[ "A" := mkMoney 1250 "EUR"; "B" := mkMoney 500 "EUR" ]}.
Definition quiet_request (i : nat) R (e : orderE R) (w : world) : option (R * world) :=
  match e in orderE R return option (R * world) with
  | FindByIdempotencyKey key => Some (repository_FindByIdempotencyKey no_faults key (w_db w) (w_db w), w)
  | FindByID id => Some (repository_FindByID no_faults id (w_db w) (w_db w), w)
  | Create o => let '(r, db) := repository_Create no_faults o (w_db w) in Some (r, with_db db w)
  | Update o expected =>
      let '(r, db) := repository_Update no_faults o expected (w_db w) in Some (r, with_db db w)
  | UpdateAndRecordEvent o expected event =>
      let '(r, db) := repository_UpdateAndRecordEvent no_faults Microsecond "" o expected event (w_db w) in
      Some (r, mkWorld db (w_reserved w) (w_published w) (w_events w ∪ (ob_order_id <$> db_outbox db))
                 (w_owner w) (w_tokens w))
  | Prices _ => Some (Ok basket_prices, w)
  | Reserve request =>
      Some (Ok tt, mkWorld (w_db w) (request :: w_reserved w) (w_published w) (w_events w) (w_owner w) (w_tokens w))
  | Clock => Some (Microsecond, w)
  | NewID =>
      u ← fresh_text (size (w_owner w));
      if w_owner w !! u is Some _ then None
      else Some (uuid_String u, mkWorld (w_db w) (w_reserved w) (w_published w) (w_events w)
                                  (<[u := i]> (w_owner w)) (w_tokens w))
  | CtxErr => Some (None, w)
  | TimerOrDone _ => Some (None, w)
  end.

Definition quiet_worker (i : nat) R (e : workerE R) (w : world) : option (R * world) :=
  match e in workerE R return option (R * world) with
  | ClaimNext lease =>
      token ← fresh_text (size (w_tokens w));
      let '(r, db) := outbox_ClaimNext no_faults Microsecond token (first_due Microsecond (w_db w)) lease (w_db w) in
      if w_tokens w !! token is Some _ then None
      else Some (r, mkWorld db (w_reserved w) (w_published w) (w_events w) (w_owner w) (<[token := i]> (w_tokens w)))
  | PublishOrderAccepted event correlationID =>
      oid ← uuid_Parse (oae_OrderID event);
      Some (Ok tt, mkWorld (w_db w) (w_reserved w) ({[ oid ]} ∪ w_published w) (w_events w) (w_owner w) (w_tokens w))
  | MarkPublished eventID =>
      let '(r, db) := outbox_MarkPublished no_faults Microsecond eventID (w_db w) in Some (r, with_db db w)
  | random _ | WorkerClock => Some (0%Z, w)
  | WorkerCtxErr => Some (None, w)
  | WorkerTimerOrDone _ => Some (None, w)
  | _ => None
  end.

Ltac quiet_case :=
  repeat first
    [ match goal with
      | H : Some _ = Some _ |- _ => injection H; clear H; intros
      | H : None = Some _ |- _ => discriminate H
      | H : (_ ≫= _) = Some _ |- _ => apply bind_Some in H as (? & ? & ?)
      end
    | match goal with H : context [match ?x with _ => _ end] |- _ => destruct x eqn:? end; try done ]; subst.

Lemma quiet_request_step i R (e : orderE R) w r w' :
  quiet_request i R e w = Some (r, w') → request_step i R e w r w'.
Proof.
  destruct e; cbn; intros Hq; quiet_case; split_and!; try done; try (exists no_faults, Microsecond, ""; by cbn).
  - by apply list_subseteq_cons.
  - intros _. by left.
  - by exists (Ok x), x.
Qed.
Lemma quiet_worker_step i R (e : workerE R) w r w' :
  quiet_worker i R e w = Some (r, w') → worker_step i R e w r w'.
Proof.
  destruct e; cbn; intros Hq; quiet_case; repeat (split; [done|]); try done.
  - exists no_faults, Microsecond, x, ∅, (first_due Microsecond (w_db w)). split; [apply first_due_choice|done].
  - by exists no_faults, Microsecond.
  - right. by exists x.
Qed.

Definition quiet_service (i : nat) R (e : sumE orderE workerE R) (w : world) : option (R * world) :=
  match e with inlE e => quiet_request i _ e w | inrE e => quiet_worker i _ e w end.
Lemma quiet_service_step i R (e : sumE orderE workerE R) w r w' :
  quiet_service i R e w = Some (r, w') → sum_handler request_step worker_step i R e w r w'.
Proof. destruct e; [apply quiet_request_step|apply quiet_worker_step]. Qed.

(** The empty store is sound, and so is what two requests for one key and two
    workers make of it. *)
Definition sample_world : world := mkWorld empty_database [] ∅ ∅ ∅ ∅.
Definition sample_threads : list thread :=
  [Request sample_command; Request sample_command; Worker (Minute) Second 5; Worker Minute Second 5].

Lemma sample_world_sound : sound sample_world.
Proof.
  split; split; try apply empty_database_wf.
  - intros id o Hv. unfold view in Hv. cbn in Hv. by rewrite lookup_empty in Hv.
  - intros id ev (eid & row & Hl & _). cbn in Hl. by rewrite lookup_empty in Hl.
  - intros eid row Hl. cbn in Hl. by rewrite lookup_empty in Hl.
  - intros eid [x Hx]. cbn in Hx. by rewrite lookup_empty in Hx.
  - intros eid row Hl. cbn in Hl. by rewrite lookup_empty in Hl.
Qed.

Lemma order_service_sound_witness :
  sound sample_world
  ∧ ∀ c, rtc (pool_step (sum_handler request_step worker_step) env_step)
      (thread_prog <$> sample_threads, sample_world) c → sound c.2.
Proof.
  pose proof sample_world_sound as Hs.
  split; [exact Hs|]. intros c.
  exact (order_service_sound sample_jsonb_value sample_threads sample_world c Hs).
Defined.

(** Both requests look for the key before either stores its order; the slower one is then
    answered the order of the other. *)
Definition basket_command : CreateOrderCommand :=
  mkCreateOrderCommand "key-1" "c-1" "a@b.example" [mkCreateOrderItem "A" 2; mkCreateOrderItem "B" 1].

Definition race : list thread := [Request basket_command; Request basket_command].
Definition race_run :=
  exec_pool quiet_service ([0; 1] ++ replicate 12 1 ++ replicate 12 0) (thread_prog <$> race, sample_world).

Lemma race_run_steps c :
  race_run = Some c →
  rtc (pool_step (sum_handler request_step worker_step) env_step) (thread_prog <$> race, sample_world) c.
Proof. unfold race_run. apply exec_pool_steps, quiet_service_step. Qed.

Lemma race_run_answers :
  ∃ c result result',
    rtc (pool_step (sum_handler request_step worker_step) env_step) (thread_prog <$> race, sample_world) c
    ∧ c.1 !! 0 = Some (Ret (Some (Ok result))) ∧ c.1 !! 1 = Some (Ret (Some (Ok result')))
    ∧ cor_Created result = false ∧ cor_Created result' = true.
Proof.
  assert ((if race_run is Some c then
    match c.1 !! 0, c.1 !! 1 with
    | Some (Ret (Some (Ok result))), Some (Ret (Some (Ok result'))) =>
        negb (cor_Created result) && cor_Created result'
    | _, _ => false
    end else false) = true) as Hrun by (vm_compute; reflexivity).
  destruct race_run as [c|] eqn:Hc; [|done].
  apply race_run_steps in Hc.
  destruct (c.1 !! 0) as [[[[result|]|]|]|] eqn:H0; try done.
  destruct (c.1 !! 1) as [[[[result'|]|]|]|] eqn:H1; try done. reflect_bools. by exists c, result, result'.
Qed.

Lemma answers_stand_witness :
  ∃ c result result',
    rtc (pool_step (sum_handler request_step worker_step) env_step) (thread_prog <$> race, sample_world) c
    ∧ cor_Created result = false ∧ cor_Created result' = true
    ∧ settled "key-1" (cor_Order result) c.2 ∧ same_order (cor_Order result') (cor_Order result).
Proof.
  destruct race_run_answers as (c & result & result' & Hsteps & H0 & H1 & Hc & Hc').
  exists c, result, result'.
  destruct (answers_stand sample_jsonb_value race sample_world c 0 basket_command result
    sample_world_sound Hsteps eq_refl H0) as [Hset Hsame].
  destruct (Hsame 1%nat basket_command result' eq_refl H1 eq_refl) as [Hs _]. by split_and!.
Defined.
