(* ===== verification/InventoryErrors.v ===== *)
(** * Errors of inventory-service

    The sentinels and typed errors of the application package, as the leaves of one
    error tree, with the lines and violations they carry. *)
From S2P Require Import Prelude GoErrors GoStrings.

(* @go inventory-service/internal/inventory/application/canonical.go Line *)
Record Line := mkLine { ProductSKU : string; Quantity : Z }.
#[export] Instance Line_eq_dec : EqDecision Line.
Proof. solve_decision. Defined.

(* @go inventory-service/internal/inventory/application/errors.go FieldViolation *)
Record FieldViolation := mkFieldViolation { Field : string; Description : string }.
(* @go inventory-service/internal/inventory/application/errors.go Shortfall *)
Record Shortfall := mkShortfall { sf_ProductSKU : string; sf_Requested : Z; sf_Available : Z }.
#[export] Instance Shortfall_eq_dec : EqDecision Shortfall.
Proof. solve_decision. Defined.

(* @src inventory-service/internal/inventory/application/errors.go:9-35 var *)
Inductive inventory_sentinel :=
| ErrInvalidRequest | ErrInsufficientStock | ErrUnknownProductSKU | ErrIdempotencyConflict
| ErrReservationNotFound | ErrReservationAlreadyClaimed
(** [context.Canceled] and [context.DeadlineExceeded]. *)
| Canceled | DeadlineExceeded.
#[export] Instance inventory_sentinel_eq_dec : EqDecision inventory_sentinel.
Proof. solve_decision. Defined.

(* @src inventory-service/internal/inventory/application/errors.go:56-136 InvalidRequestError InsufficientStockError UnknownProductSKUError IdempotencyConflictError *)
Inductive inventory_leaf :=
| Sentinel (s : inventory_sentinel)
| InvalidRequestError (Violations : list FieldViolation) (Omitted : Z)
| InsufficientStockError (Shortfalls : list Shortfall)
| UnknownProductSKUError (ProductSKUs : list string)
| IdempotencyConflictError (Held Requested : list Line).

Definition inventory_sentinel_text (s : inventory_sentinel) : string :=
  match s with
  | ErrInvalidRequest => "invalid reservation request"
  | ErrInsufficientStock => "insufficient stock"
  | ErrUnknownProductSKU => "unknown product sku"
  | ErrIdempotencyConflict => "order id already used with different lines"
  | ErrReservationNotFound => "reservation not found"
  | ErrReservationAlreadyClaimed => "reservation already claimed"
  | Canceled => "context canceled"
  | DeadlineExceeded => "context deadline exceeded"
  end.

(* @go inventory-service/internal/inventory/application/errors.go describeLines *)
Definition inventory_describeLines (lines : list Line) : string :=
  "[" +:+ strings_Join ((λ line, ProductSKU line +:+ " x" +:+ Itoa (Quantity line)) <$> lines) ", "
  +:+ "]".

(** [Unwrap] of the typed errors, and the identity of a sentinel. *)
Definition inventory_leaf_is (l : inventory_leaf) (s : inventory_sentinel) : bool :=
  bool_decide (s = match l with
  | Sentinel s' => s'
  | InvalidRequestError _ _ => ErrInvalidRequest
  | InsufficientStockError _ => ErrInsufficientStock
  | UnknownProductSKUError _ => ErrUnknownProductSKU
  | IdempotencyConflictError _ _ => ErrIdempotencyConflict
  end).

Definition inventory_leaf_text (l : inventory_leaf) : string :=
  match l with
  | Sentinel s => inventory_sentinel_text s
  | InvalidRequestError violations omitted =>
      let message := inventory_sentinel_text ErrInvalidRequest +:+ ": "
        +:+ strings_Join ((λ v, Field v +:+ " " +:+ Description v) <$> violations) "; " in
      if (omitted >? 0)%Z then message +:+ " (and " +:+ Itoa omitted +:+ " more)" else message
  | InsufficientStockError shortfalls =>
      inventory_sentinel_text ErrInsufficientStock +:+ ": "
      +:+ strings_Join ((λ s, sf_ProductSKU s +:+ " (" +:+ Itoa (sf_Requested s) +:+ " requested, "
                           +:+ Itoa (sf_Available s) +:+ " available)") <$> shortfalls) ", "
  | UnknownProductSKUError skus =>
      inventory_sentinel_text ErrUnknownProductSKU +:+ ": " +:+ strings_Join skus ", "
  | IdempotencyConflictError held requested =>
      inventory_sentinel_text ErrIdempotencyConflict +:+ ": holds "
      +:+ inventory_describeLines held +:+ ", requested " +:+ inventory_describeLines requested
  end.

#[export] Instance inventory_GoError : GoError inventory_leaf inventory_sentinel := {|
  leaf_is := inventory_leaf_is;
  leaf_text := inventory_leaf_text;
|}.

Abbreviation inventory_error := (error inventory_leaf).
Abbreviation inventory_result := (result inventory_error).

Definition inv (s : inventory_sentinel) : inventory_error := Leaf (Sentinel s).
Definition is_inv (err : inventory_error) (s : inventory_sentinel) : bool := errors_Is err s.

(** The typed-error targets of [errors.As]. *)
Definition as_InvalidRequest (l : inventory_leaf) : option (list FieldViolation * Z) :=
  match l with InvalidRequestError v o => Some (v, o) | _ => None end.
Definition as_InsufficientStock (l : inventory_leaf) : option (list Shortfall) :=
  match l with InsufficientStockError s => Some s | _ => None end.
Definition as_UnknownProductSKU (l : inventory_leaf) : option (list string) :=
  match l with UnknownProductSKUError s => Some s | _ => None end.
Definition as_IdempotencyConflict (l : inventory_leaf) : option (list Line * list Line) :=
  match l with IdempotencyConflictError h r => Some (h, r) | _ => None end.
