(* ===== verification/InventoryCanonical.v ===== *)
(** * Canonical reservation requests

    [application.Canonicalize] of inventory-service: validation with a capped
    report, and the one form a request is reduced to. *)
From S2P Require Import Prelude GoErrors GoStrings External Postgres InventoryErrors.

(* @go inventory-service/internal/inventory/application/canonical.go maxLineQuantity *)
Definition maxLineQuantity : Z := 10000.
(* @go inventory-service/internal/inventory/application/canonical.go maxLines *)
Definition maxLines : Z := 200.
(* @go inventory-service/internal/inventory/application/canonical.go maxReportedViolations *)
Definition maxReportedViolations : nat := 20.

(* @go inventory-service/internal/inventory/application/canonical.go violationReport *)
Record violationReport := mkReport { violations : list FieldViolation; omitted : Z }.

(* @go inventory-service/internal/inventory/application/canonical.go violationReport.add *)
Definition report_add (report : violationReport) (violation : FieldViolation) : violationReport :=
  if bool_decide (maxReportedViolations ≤ length (violations report))
  then mkReport (violations report) (omitted report + 1)
  else mkReport (violations report ++ [violation]) (omitted report).

(* @go inventory-service/internal/inventory/application/canonical.go violationReport.err *)
Definition report_err (report : violationReport) : option inventory_error :=
  if bool_decide (violations report = []) then None
  else Some (Leaf (InvalidRequestError (violations report) (omitted report))).

Definition line_field (index : nat) (field : string) : string :=
  "lines[" +:+ Itoa (Z.of_nat index) +:+ "]." +:+ field.

(** The body of the loop: what is wrong with the line, or the updated totals. *)
(* @src inventory-service/internal/inventory/application/canonical.go:57-82 Canonicalize *)
Definition checkLine (index : nat) (line : Line) (quantities : gmap string Z)
    : FieldViolation + gmap string Z :=
  let productSKU := TrimSpace (ProductSKU line) in
  let total := default 0%Z (quantities !! productSKU) in
  if bool_decide (productSKU = "")
  then inl (mkFieldViolation (line_field index "product_sku") "must not be blank")
  else if (Quantity line <=? 0)%Z || (maxLineQuantity <? Quantity line)%Z
  then inl (mkFieldViolation (line_field index "quantity")
         ("must be between 1 and " +:+ Itoa maxLineQuantity +:+ ", got " +:+ Itoa (Quantity line)))
  else if (wrap32 (maxLineQuantity - Quantity line) <? total)%Z
  then inl (mkFieldViolation (line_field index "quantity")
         ("total quantity for " +:+ productSKU +:+ " exceeds " +:+ Itoa maxLineQuantity))
  else inr (<[productSKU := wrap32 (total + Quantity line)]> quantities).

(* @src inventory-service/internal/inventory/application/canonical.go:55-83 Canonicalize *)
Fixpoint checkLines (index : nat) (lines : list Line) (report : violationReport)
    (quantities : gmap string Z) : violationReport * gmap string Z :=
  match lines with
  | [] => (report, quantities)
  | line :: lines' =>
      match checkLine index line quantities with
      | inl violation => checkLines (S index) lines' (report_add report violation) quantities
      | inr quantities' => checkLines (S index) lines' report quantities'
      end
  end.

Definition line_sku_le (a b : Line) : Prop := string_le (ProductSKU a) (ProductSKU b).
#[export] Instance line_sku_le_dec a b : Decision (line_sku_le a b).
Proof. unfold line_sku_le; apply _. Defined.

(** The order a map is ranged over does not matter: its lines are sorted. *)
(* @src inventory-service/internal/inventory/application/canonical.go:89-96 Canonicalize *)
Definition sortedLines (quantities : gmap string Z) : list Line :=
  merge_sort line_sku_le ((λ kv, mkLine kv.1 kv.2) <$> map_to_list quantities).

Section canonicalize.
Context {Uuid : UuidLib}.

(* @go inventory-service/internal/inventory/application/canonical.go Canonicalize *)
Definition Canonicalize (orderID : string) (lines : list Line)
    : inventory_result (string * list Line) :=
  let report := mkReport [] 0 in
  let trimmedOrderID := TrimSpace orderID in
  let report := match uuid_Parse trimmedOrderID with
                | None => report_add report (mkFieldViolation "order_id" "must be a uuid")
                | Some _ => report
                end in
  let report := if bool_decide (lines = [])
                then report_add report (mkFieldViolation "lines" "at least one line is required")
                else report in
  if (maxLines <? Z.of_nat (length lines))%Z
  then
    let report := report_add report (mkFieldViolation "lines"
      ("at most " +:+ Itoa maxLines +:+ " lines are supported, got "
       +:+ Itoa (Z.of_nat (length lines)))) in
    match report_err report with
    | Some err => Err err
    | None => Ok ("", [])
    end
  else
    let '(report, quantities) := checkLines 0 lines report ∅ in
    match report_err report with
    | Some err => Err err
    | None => Ok (trimmedOrderID, sortedLines quantities)
    end.
End canonicalize.

(** ** What a request asks for *)

(** The quantity asked of [sku] over all the lines that name it. *)
Definition line_total (lines : list Line) (sku : string) : Z :=
  foldr (λ line sum, Quantity line + sum)%Z 0%Z
    (filter (λ line, TrimSpace (ProductSKU line) = sku) lines).
Definition names (lines : list Line) (sku : string) : Prop :=
  Exists (λ line, TrimSpace (ProductSKU line) = sku) lines.
#[export] Instance names_dec lines sku : Decision (names lines sku).
Proof. unfold names; apply _. Defined.

Definition line_fine (line : Line) : Prop :=
  TrimSpace (ProductSKU line) ≠ "" ∧ (1 ≤ Quantity line ≤ 10000)%Z.
Definition lines_fine (lines : list Line) : Prop :=
  Forall line_fine lines ∧ ∀ sku, (line_total lines sku ≤ 10000)%Z.

Lemma line_total_app ls ls' sku : line_total (ls ++ ls') sku = (line_total ls sku + line_total ls' sku)%Z.
Proof.
  unfold line_total. rewrite filter_app. generalize (filter (λ l, TrimSpace (ProductSKU l) = sku) ls).
  intros l. induction l as [|a l IH]; cbn; lia.
Qed.
Lemma line_total_singleton line sku :
  line_total [line] sku = if decide (TrimSpace (ProductSKU line) = sku) then Quantity line else 0%Z.
Proof. unfold line_total. cbn. case_decide; cbn; lia. Qed.
Lemma line_total_nonneg ls sku : Forall line_fine ls → (0 ≤ line_total ls sku)%Z.
Proof.
  unfold line_total. induction 1 as [|line ls [_ Hq] _ IH]; [done|].
  rewrite filter_cons. case_decide; cbn; lia.
Qed.
Lemma line_total_not_named ls sku : ¬ names ls sku → line_total ls sku = 0%Z.
Proof.
  unfold line_total, names. intros Hn. induction ls as [|line ls IH]; [done|].
  rewrite filter_cons. case_decide as Hl; [destruct Hn; by constructor|].
  apply IH. intros ?. apply Hn. by apply Exists_cons_tl.
Qed.

Lemma line_total_prefix pre rest sku :
  Forall line_fine rest → (line_total (pre ++ rest) sku ≤ 10000)%Z → (line_total pre sku ≤ 10000)%Z.
Proof.
  intros Hf. rewrite line_total_app. pose proof (line_total_nonneg rest sku Hf). lia.
Qed.

(** The map the loop builds, against the lines seen. *)
Definition describes (lines : list Line) (quantities : gmap string Z) : Prop :=
  ∀ sku, quantities !! sku
    = if decide (names lines sku) then Some (line_total lines sku) else None.

Lemma describes_total ls q sku : describes ls q → default 0%Z (q !! sku) = line_total ls sku.
Proof.
  intros Hd. rewrite Hd. case_decide as Hn; [done|]. by rewrite line_total_not_named.
Qed.
Lemma describes_snoc ls q line :
  describes ls q →
  describes (ls ++ [line]) (<[TrimSpace (ProductSKU line)
    := line_total ls (TrimSpace (ProductSKU line)) + Quantity line]> q)%Z.
Proof.
  intros Hd sku. rewrite line_total_app, line_total_singleton. rewrite lookup_insert.
  assert (names (ls ++ [line]) sku ↔ names ls sku ∨ TrimSpace (ProductSKU line) = sku) as Hiff.
  { unfold names. rewrite Exists_app, Exists_cons, Exists_nil. tauto. }
  case_decide as Hs; subst; [by rewrite decide_True by naive_solver|].
  rewrite Hd, Z.add_0_r. apply decide_ext. naive_solver.
Qed.

(** ** The loop *)

(** What one line adds, against the lines before it. *)
Lemma checkLine_spec index line ls q :
  describes ls q → lines_fine ls →
  match checkLine index line q with
  | inr q' => lines_fine (ls ++ [line]) ∧ describes (ls ++ [line]) q'
  | inl _ => ¬ lines_fine (ls ++ [line])
  end.
Proof.
  intros Hd [Hf Ht]. unfold checkLine. rewrite (describes_total ls) by done.
  pose proof (Ht (TrimSpace (ProductSKU line))) as Hle.
  pose proof (line_total_nonneg ls (TrimSpace (ProductSKU line)) Hf) as Hge.
  assert (Forall line_fine (ls ++ [line]) ↔ line_fine line) as Hiff.
  { rewrite Forall_app, Forall_singleton. tauto. }
  unfold lines_fine, line_fine, maxLineQuantity in *.
  case_bool_decide as Hblank; [tauto|].
  destruct (_ || _) eqn:Hq; reflect_bools; [intros [(_ & ?)%Hiff _]; lia|].
  rewrite !wrap32_id by (int_unfold; lia).
  assert (line_total (ls ++ [line]) (TrimSpace (ProductSKU line))
          = line_total ls (TrimSpace (ProductSKU line)) + Quantity line)%Z as Heq.
  { by rewrite line_total_app, line_total_singleton, decide_True. }
  destruct (_ <? _)%Z eqn:Hsum; reflect_bools.
  - intros [_ Hall]. specialize (Hall (TrimSpace (ProductSKU line))). lia.
  - split; [|by apply describes_snoc]. split; [apply Hiff; split; [done|lia]|].
    intros sku. destruct (decide (TrimSpace (ProductSKU line) = sku)) as [<-|Hne]; [lia|].
    rewrite line_total_app, line_total_singleton, decide_False by done. specialize (Ht sku). lia.
Qed.

(** The violations the loop finds, all of them. *)
Fixpoint problems (index : nat) (lines : list Line) (quantities : gmap string Z)
    : list FieldViolation * gmap string Z :=
  match lines with
  | [] => ([], quantities)
  | line :: lines' =>
      match checkLine index line quantities with
      | inl violation =>
          let '(rest, quantities') := problems (S index) lines' quantities in
          (violation :: rest, quantities')
      | inr quantities' => problems (S index) lines' quantities'
      end
  end.

Lemma checkLines_problems index lines report q :
  checkLines index lines report q
  = (foldl report_add report (problems index lines q).1, (problems index lines q).2).
Proof.
  revert index report q. induction lines as [|line lines IH]; intros index report q; cbn; [done|].
  destruct (checkLine _ _ _) as [v|q']; rewrite IH; [|done]. by destruct (problems _ _ _).
Qed.

Lemma lines_fine_prefix pre rest : lines_fine (pre ++ rest) → lines_fine pre.
Proof.
  intros [[Hp Hr]%Forall_app Ht]. split; [done|]. intros sku. by eapply line_total_prefix.
Qed.

Lemma problems_none index pre lines q :
  describes pre q → lines_fine pre →
  ((problems index lines q).1 = [] ↔ lines_fine (pre ++ lines))
  ∧ ((problems index lines q).1 = [] → describes (pre ++ lines) (problems index lines q).2).
Proof.
  revert index pre q. induction lines as [|line lines IH]; intros index pre q Hd Hf; cbn.
  { by rewrite app_nil_r. }
  pose proof (checkLine_spec index line pre q Hd Hf) as Hcheck.
  destruct (checkLine _ _ _) as [v|q'].
  - destruct (problems _ _ _). cbn. split; [|done]. split; [done|]. intros Hall. destruct Hcheck.
    apply (lines_fine_prefix _ lines). by rewrite <-app_assoc.
  - destruct Hcheck as [Hf' Hd']. destruct (IH (S index) _ _ Hd' Hf') as [H1 H2].
    rewrite <-app_assoc in H1, H2. done.
Qed.

(** ** The report *)
Definition capped (all : list FieldViolation) : violationReport :=
  mkReport (take maxReportedViolations all)
    (Z.of_nat (length all) - Z.of_nat (length (take maxReportedViolations all))).

Lemma report_add_capped all v : report_add (capped all) v = capped (all ++ [v]).
Proof.
  unfold report_add, capped, maxReportedViolations. cbn [violations omitted].
  rewrite !length_take, length_app. cbn [length].
  case_bool_decide as Hc; f_equal; try lia.
  - rewrite (take_app_le all) by lia. done.
  - rewrite !take_ge; [done|..]; rewrite ?length_app; cbn; lia.
Qed.
Lemma report_adds_capped all vs : foldl report_add (capped all) vs = capped (all ++ vs).
Proof.
  revert all. induction vs as [|v vs IH]; intros all; cbn; [by rewrite app_nil_r|].
  rewrite report_add_capped, IH. by rewrite <-app_assoc.
Qed.
Lemma report_err_capped all :
  report_err (capped all)
  = if bool_decide (all = []) then None
    else Some (Leaf (InvalidRequestError (violations (capped all)) (omitted (capped all)))).
Proof. unfold report_err. by destruct all. Qed.

Lemma sorted_strict (l : list string) :
  Sorted string_le l → NoDup l → StronglySorted string_lt l.
Proof.
  intros Hs%Sorted_StronglySorted Hnd; [|apply _]. induction Hs as [|s l _ IH Hall]; constructor.
  - apply IH. by apply NoDup_cons in Hnd as [_ ?].
  - apply NoDup_cons in Hnd as [Hnot _]. rewrite Forall_forall in *. intros t Ht.
    split; [by apply Hall|]. congruence.
Qed.

(** Lists of lines in strict order of their products are equal when they have the
    same lines. *)
Lemma strictly_sorted_unique (ls ks : list Line) :
  StronglySorted string_lt (ProductSKU <$> ls) → StronglySorted string_lt (ProductSKU <$> ks) →
  (∀ line, line ∈ ls ↔ line ∈ ks) → ls = ks.
Proof.
  intros Hl Hk Hel.
  assert (∀ l, StronglySorted string_lt l → Sorted string_le l ∧ NoDup l) as Hstrict.
  { induction 1 as [|s l _ [IH1 IH2] Hall]; [split; constructor|].
    rewrite Forall_forall in Hall. split; constructor; try done.
    - destruct l as [|s' l]; constructor. apply Hall. by left.
    - intros Hs. by destruct (Hall s Hs). }
  destruct (Hstrict _ Hl) as [Hl1 Hl2], (Hstrict _ Hk) as [Hk1 Hk2].
  apply (sorted_by_key_unique string_le ProductSKU); try done.
  apply NoDup_Permutation; [by eapply NoDup_fmap_1..|done].
Qed.

Section canonicalize_spec.
Context {Uuid : UuidLib}.

Definition acceptable (orderID : string) (lines : list Line) : Prop :=
  is_Some (uuid_Parse (TrimSpace orderID))
  ∧ (1 ≤ Z.of_nat (length lines) ≤ 200)%Z ∧ lines_fine lines.

(** Everything that is wrong with a request. *)
Definition all_problems (orderID : string) (lines : list Line) : list FieldViolation :=
  (if bool_decide (is_Some (uuid_Parse (TrimSpace orderID))) then []
   else [mkFieldViolation "order_id" "must be a uuid"])
  ++ (if bool_decide (lines = [])
      then [mkFieldViolation "lines" "at least one line is required"] else [])
  ++ (if (200 <? Z.of_nat (length lines))%Z
      then [mkFieldViolation "lines" ("at most 200 lines are supported, got "
              +:+ Itoa (Z.of_nat (length lines)))]
      else (problems 0 lines ∅).1).

Lemma describes_nil : describes [] ∅.
Proof. intros sku. rewrite lookup_empty. by case_decide as H; [apply Exists_nil in H|]. Qed.
Lemma lines_fine_nil : lines_fine [].
Proof. split; [constructor|]. intros sku. cbn. lia. Qed.

(** The validation and the report, without the order in which they run. *)
Lemma Canonicalize_eq orderID lines :
  Canonicalize orderID lines
  = match all_problems orderID lines with
    | [] => Ok (TrimSpace orderID, sortedLines (problems 0 lines ∅).2)
    | ps => Err (Leaf (InvalidRequestError (violations (capped ps)) (omitted (capped ps))))
    end.
Proof.
  unfold Canonicalize, all_problems, maxLines.
  change (mkReport [] 0) with (capped []).
  assert (match uuid_Parse (TrimSpace orderID) with
          | Some _ => capped []
          | None => report_add (capped []) (mkFieldViolation "order_id" "must be a uuid")
          end = capped (if bool_decide (is_Some (uuid_Parse (TrimSpace orderID))) then []
                        else [mkFieldViolation "order_id" "must be a uuid"])) as ->.
  { destruct (uuid_Parse _); by rewrite ?report_add_capped. }
  generalize (if bool_decide (is_Some (uuid_Parse (TrimSpace orderID))) then []
              else [mkFieldViolation "order_id" "must be a uuid"]). intros first.
  assert (∀ v, (if bool_decide (lines = []) then report_add (capped first) v else capped first)
    = capped (first ++ if bool_decide (lines = []) then [v] else [])) as Hif.
  { intros v. case_bool_decide; by rewrite ?report_add_capped, ?app_nil_r. }
  rewrite Hif. rewrite (app_assoc first). generalize (first ++ if bool_decide (lines = [])
    then [mkFieldViolation "lines" "at least one line is required"] else []). clear Hif first.
  intros first. destruct (200 <? _)%Z.
  - rewrite report_add_capped, report_err_capped. by destruct first.
  - rewrite checkLines_problems, report_adds_capped, report_err_capped.
    by destruct (first ++ _).
Qed.

Lemma all_problems_none orderID lines :
  all_problems orderID lines = [] ↔ acceptable orderID lines.
Proof.
  unfold all_problems, acceptable.
  destruct (problems_none 0 [] lines ∅ describes_nil lines_fine_nil) as [Hp _]. cbn [app] in Hp.
  destruct (200 <? _)%Z eqn:Hlen; reflect_bools.
  - split; [intros (_ & (_ & [=])%app_nil)%app_nil|]. lia.
  - rewrite !app_nil, Hp. destruct lines as [|line lines].
    + cbn. split; [naive_solver|]. intros (_ & ? & _). lia.
    + do 2 case_bool_decide; try done; cbn [length] in *; naive_solver lia.
Qed.

(** ** The canonical lines *)
Lemma elem_of_sortedLines q line :
  line ∈ sortedLines q ↔ q !! ProductSKU line = Some (Quantity line).
Proof.
  unfold sortedLines. rewrite merge_sort_Permutation, list_elem_of_fmap.
  setoid_rewrite elem_of_map_to_list'. destruct line as [sku n]. cbn. split.
  - by intros ([] & [= -> ->] & ?).
  - intros ?. by exists (sku, n).
Qed.

Lemma skus_of_sortedLines q : ProductSKU <$> sortedLines q ≡ₚ (map_to_list q).*1.
Proof.
  unfold sortedLines. rewrite merge_sort_Permutation. by rewrite <-list_fmap_compose.
Qed.

Lemma Sorted_fmap_le ls : Sorted line_sku_le ls → Sorted string_le (ProductSKU <$> ls).
Proof.
  induction 1 as [|line ls _ IH Hhd]; cbn; constructor; [done|].
  destruct Hhd; constructor; done.
Qed.

Lemma sortedLines_sorted q : StronglySorted string_lt (ProductSKU <$> sortedLines q).
Proof.
  apply sorted_strict.
  - apply Sorted_fmap_le. unfold sortedLines. apply Sorted_merge_sort.
    intros a b. apply string_le_total.
  - rewrite skus_of_sortedLines. apply NoDup_fst_map_to_list.
Qed.

Lemma Canonicalize_iff orderID lines id' canonical :
  Canonicalize orderID lines = Ok (id', canonical)
  ↔ acceptable orderID lines ∧ id' = TrimSpace orderID
    ∧ StronglySorted string_lt (ProductSKU <$> canonical)
    ∧ ∀ sku quantity, mkLine sku quantity ∈ canonical
        ↔ names lines sku ∧ quantity = line_total lines sku.
Proof.
  rewrite Canonicalize_eq, <-all_problems_none.
  destruct (all_problems orderID lines) as [|v vs] eqn:Hps.
  2:{ split; [discriminate|]. by intros [[=] _]. }
  assert (describes lines (problems 0 lines ∅).2) as Hd.
  { apply all_problems_none in Hps as (_ & _ & Hfine).
    destruct (problems_none 0 [] lines ∅ describes_nil lines_fine_nil) as [Hp Hd].
    by apply Hd, Hp. }
  assert (∀ sku quantity, mkLine sku quantity ∈ sortedLines (problems 0 lines ∅).2
    ↔ names lines sku ∧ quantity = line_total lines sku) as Hel.
  { intros sku quantity. rewrite elem_of_sortedLines. cbn. rewrite Hd. case_decide; naive_solver. }
  split.
  - intros [= <- <-]. split_and!; [done|done|apply sortedLines_sorted|done].
  - intros (_ & -> & Hs & Hc). do 2 f_equal. apply strictly_sorted_unique; [apply sortedLines_sorted|done|].
    intros [sku quantity]. by rewrite Hel, Hc.
Qed.

Lemma line_total_named ls sku : Forall line_fine ls → names ls sku → (1 ≤ line_total ls sku)%Z.
Proof.
  intros Hf. unfold names. induction 1 as [line ls Hl|line ls Hin IH]; apply Forall_cons in Hf as [[_ Hq] Hf];
    change (line :: ls) with ([line] ++ ls); rewrite line_total_app, line_total_singleton.
  - rewrite decide_True by done. pose proof (line_total_nonneg ls sku Hf). lia.
  - specialize (IH Hf). case_decide; lia.
Qed.

(** What [Canonicalize] gives the use case. *)
Lemma Canonicalize_lines id lines id' canonical :
  Canonicalize id lines = Ok (id', canonical) →
  NoDup (ProductSKU <$> canonical) ∧ canonical ≠ []
  ∧ StronglySorted string_lt (ProductSKU <$> canonical)
  ∧ Forall (λ line, 1 ≤ Quantity line ≤ 10000)%Z canonical.
Proof.
  intros Hc. pose proof Hc as ((_ & Hlen & Hfine & Hmax) & _ & Hs & Hel)%Canonicalize_iff. split_and!.
  - rewrite Canonicalize_eq in Hc. destruct (all_problems id lines); [|done]. injection Hc as _ <-.
    rewrite skus_of_sortedLines. apply NoDup_fst_map_to_list.
  - destruct lines as [|line lines]; [cbn in Hlen; lia|]. intros Hnil.
    eapply (not_elem_of_nil (mkLine _ _)). rewrite <-Hnil. apply Hel. split; [by constructor|done].
  - exact Hs.
  - apply Forall_forall. intros [sku q] [Hn ->]%Hel. cbn. split; [by apply line_total_named|apply Hmax].
Qed.

(** C30: [Canonicalize] accepts exactly the requests with an order id that is a uuid, one
    to two hundred lines, no blank product and quantities, per line and summed per
    product, between 1 and 10000; and answers the trimmed order id with the products
    in strict byte order, so each once, each with the sum of what was asked of it.
    The int32 sums of the source never wrap. *)
Theorem Canonicalize_spec orderID lines id' canonical :
  Canonicalize orderID lines = Ok (id', canonical)
  ↔ acceptable orderID lines ∧ id' = TrimSpace orderID
    ∧ StronglySorted string_lt (ProductSKU <$> canonical)
    ∧ ∀ sku quantity, mkLine sku quantity ∈ canonical
        ↔ names lines sku ∧ quantity = line_total lines sku.
Proof. exact (Canonicalize_iff orderID lines id' canonical). Qed.

(** Two acceptable requests for the same things get the same answer, however their
    lines are ordered, split or spelled, and whatever surrounds the order id. *)
Theorem Canonicalize_rewording orderID orderID' lines lines' :
  acceptable orderID lines → acceptable orderID' lines' →
  TrimSpace orderID = TrimSpace orderID' →
  (∀ sku, names lines sku ↔ names lines' sku) →
  (∀ sku, line_total lines sku = line_total lines' sku) →
  ∃ canonical, Canonicalize orderID lines = Ok (TrimSpace orderID, canonical)
    ∧ Canonicalize orderID' lines' = Ok (TrimSpace orderID, canonical).
Proof.
  intros Ha%all_problems_none Ha'%all_problems_none Hid Hn Ht.
  rewrite !Canonicalize_eq, Ha, Ha', <-Hid. eexists. split; [done|]. do 2 f_equal.
  apply strictly_sorted_unique; [apply sortedLines_sorted..|]. intros [sku quantity].
  rewrite !elem_of_sortedLines. cbn.
  apply all_problems_none in Ha as (_ & _ & Hf), Ha' as (_ & _ & Hf').
  destruct (problems_none 0 [] lines ∅ describes_nil lines_fine_nil) as [Hp Hd].
  destruct (problems_none 0 [] lines' ∅ describes_nil lines_fine_nil) as [Hp' Hd'].
  rewrite (Hd (proj2 Hp Hf)), (Hd' (proj2 Hp' Hf')), Ht. cbn.
  do 2 case_decide; naive_solver.
Qed.

(** A refusal names the first twenty things wrong with the request, in the order of
    its lines, and counts the rest; it names at least one. *)
Theorem Canonicalize_report orderID lines err :
  Canonicalize orderID lines = Err err →
  ∃ reported omitted, err = Leaf (InvalidRequestError reported omitted)
    ∧ 1 ≤ length reported ≤ 20 ∧ ((0 < omitted)%Z → length reported = 20)
    ∧ (∃ rest, all_problems orderID lines = reported ++ rest
               ∧ omitted = Z.of_nat (length rest)).
Proof.
  rewrite Canonicalize_eq. destruct (all_problems orderID lines) as [|v vs] eqn:Hps; [done|].
  intros [= <-]. unfold capped, maxReportedViolations.
  exists (take 20 (v :: vs)), (Z.of_nat (length (drop 20 (v :: vs)))).
  pose proof (take_drop 20 (v :: vs)) as Htd. remember (take 20 (v :: vs)) as reported eqn:Hr.
  remember (drop 20 (v :: vs)) as rest eqn:Hrest.
  assert (length reported = 20 `min` S (length vs)) as Hlen by (by rewrite Hr, length_take).
  assert (length rest = S (length vs) - 20) as Hlen' by (by rewrite Hrest, length_drop).
  split; [|split; [lia|split; [lia|by exists rest]]].
  cbn [violations omitted length]. do 2 f_equal; [done|].
  change (S (length (take 19 vs))) with (length (take 20 (v :: vs))). rewrite <-Hr. lia.
Qed.
End canonicalize_spec.

(** ** A request at work *)
Definition sample_lines : list Line := [mkLine " B " 2; mkLine "A" 1; mkLine "B" 3].
Lemma sample_uuid_parses s : sample_uuid_ok s = true → is_Some (uuid_Parse s).
Proof.
  intros Hs. cbn. unfold sample_uuid_parse. destruct (Sumbool.sumbool_of_bool _); [done|congruence].
Qed.
Lemma sample_acceptable id : sample_uuid_ok (TrimSpace id) = true → acceptable id sample_lines.
Proof.
  intros Hid. split_and!; [by apply sample_uuid_parses|cbn; lia..|].
  split; [repeat constructor; vm_compute; done|]. intros sku.
  change sample_lines with ([mkLine " B " 2] ++ [mkLine "A" 1] ++ [mkLine "B" 3]).
  rewrite !line_total_app, !line_total_singleton. repeat case_decide; cbn; lia.
Qed.

Lemma Canonicalize_rewording_witness :
  ∃ canonical, Canonicalize " o1" sample_lines = Ok (TrimSpace " o1", canonical)
    ∧ Canonicalize "o1 " sample_lines = Ok (TrimSpace " o1", canonical).
Proof.
  apply (Canonicalize_rewording " o1" "o1 " sample_lines sample_lines);
    [apply sample_acceptable; reflexivity..|reflexivity|intros; reflexivity|intros; reflexivity].
Defined.

Lemma Canonicalize_report_witness :
  ∃ reported omitted, Leaf (InvalidRequestError
        [mkFieldViolation "lines" "at least one line is required"] 0)
      = Leaf (InvalidRequestError reported omitted)
    ∧ 1 ≤ length reported ≤ 20 ∧ ((0 < omitted)%Z → length reported = 20)
    ∧ (∃ rest, all_problems "o1" [] = reported ++ rest ∧ omitted = Z.of_nat (length rest)).
Proof. apply (Canonicalize_report "o1" []). reflexivity. Defined.

(** The canonical form of the sample: products in order, quantities summed. *)
Example Canonicalize_sample :
  Canonicalize " o1" sample_lines = Ok ("o1", [mkLine "A" 1; mkLine "B" 5]).
Proof. vm_compute. reflexivity. Qed.
