(* ===== verification/ReservationStore.v ===== *)
(** * The reservation store

    Package [postgres] of inventory-service: the tables of its migration, the
    transaction that holds stock for an order, the query behind a refusal's details,
    and the query that finds what an order holds. *)
From S2P Require Import Prelude GoErrors GoStrings External Postgres Prog InventoryErrors.

(** [uuid_in] of the server, which reads the text of a UUID parameter, and the
    collation ORDER BY compares texts in. *)
Class PostgresText (U : UuidLib) : Type := {
  uuid_in : string → option uuid;
  collate : string → string → Prop;
  collate_dec :: ∀ s t, Decision (collate s t);
}.
(** The database uses the byte order, and reads the text of an identifier. *)
Class PostgresTextLaws {U : UuidLib} (T : PostgresText U) : Prop := {
  uuid_in_String : ∀ u, uuid_in (uuid_String u) = Some u;
  collate_bytes : ∀ s t, collate s t ↔ string_le s t;
}.
#[export] Instance sample_postgres_text : PostgresText sample_uuid :=
  {| uuid_in := uuid_Parse; collate := string_le |}.
#[export] Instance sample_postgres_text_laws : PostgresTextLaws sample_postgres_text.
Proof. split; [|done]. intros u. apply uuid_Parse_String. Qed.

Section reservation_store.
Context {Uuid : UuidLib} {Pg : Postgres} {Text : PostgresText Uuid}.

(** ** Tables *)

(* @src inventory-service/migrations/000001_create_stock.up.sql:4-20 stock_items *)
Record stockRow := mkStockRow { sk_on_hand : Z; sk_reserved : Z; sk_updated_at : Z }.
(* @src inventory-service/migrations/000001_create_stock.up.sql:22-32 reservations *)
Record reservationRow := mkReservationRow { rs_quantity : Z; rs_created_at : Z }.

(** Both tables by their primary keys. *)
Record inventory_db := mkInventoryDb {
  stock_items : gmap string stockRow;
  reservations : gmap (uuid * string) reservationRow;
}.

(** ** Statements *)

(** [INSERT ... ON CONFLICT DO NOTHING]: the number of rows inserted. The foreign
    key is checked after the conflict. *)
(* @src inventory-service/internal/inventory/adapter/outbound/postgres/reservation_store.go:140-145 claimReservation *)
Definition insertReservation (now : Z) (orderID productSKU : string) (quantity : Z)
    (db : inventory_db) : result pg_error (Z * inventory_db) :=
  match uuid_in orderID with
  | None => Err (PgError "22P02" "")
  | Some order =>
      if negb (int4_ok quantity) then Err pg_int4_error
      else if negb (text_ok productSKU) then Err pg_encoding_error
      else if (quantity <=? 0)%Z then Err (PgError "23514" "reservations_quantity_positive")
      else match reservations db !! (order, productSKU) with
      | Some _ => Ok (0%Z, db)
      | None =>
          match stock_items db !! productSKU with
          | None => Err (PgError "23503" "reservations_product_sku_fkey")
          | Some _ => Ok (1%Z, mkInventoryDb (stock_items db)
              (<[(order, productSKU) := mkReservationRow quantity now]> (reservations db)))
          end
      end
  end.

(** The CHECK constraints of [stock_items] an update can break. *)
(* @src inventory-service/migrations/000001_create_stock.up.sql:14-19 stock_items *)
Definition stock_check (row : stockRow) : option string :=
  if (sk_on_hand row <? 0)%Z then Some "stock_items_on_hand_non_negative"
  else if (sk_reserved row <? 0)%Z then Some "stock_items_reserved_non_negative"
  else if (sk_on_hand row <? sk_reserved row)%Z then Some "stock_items_reserved_within_stock"
  else None.

(** The number of rows updated. *)
(* @src inventory-service/internal/inventory/adapter/outbound/postgres/reservation_store.go:183-190 takeStock *)
Definition updateStock (now : Z) (productSKU : string) (quantity : Z) (db : inventory_db)
    : result pg_error (Z * inventory_db) :=
  if negb (int4_ok quantity) then Err pg_int4_error
  else if negb (text_ok productSKU) then Err pg_encoding_error
  else match stock_items db !! productSKU with
  | None => Ok (0%Z, db)
  | Some row =>
      if (sk_on_hand row - sk_reserved row <? quantity)%Z then Ok (0%Z, db)
      else
      let row' := mkStockRow (sk_on_hand row) (sk_reserved row + quantity) now in
      if negb (int4_ok (sk_reserved row')) then Err (PgError "22003" "")
      else match stock_check row' with
      | Some constraint => Err (PgError "23514" constraint)
      | None => Ok (1%Z, mkInventoryDb (<[productSKU := row']> (stock_items db)) (reservations db))
      end
  end.

(* @src inventory-service/internal/inventory/adapter/outbound/postgres/reservation_store.go:286-288 ReservationStore.availability *)
Definition selectAvailability (productSKUs : list string) (db : inventory_db)
    : list (string * Z) :=
  map_to_list ((λ row, sk_on_hand row - sk_reserved row)%Z
    <$> filter (λ kv, kv.1 ∈ productSKUs) (stock_items db)).

Definition line_collate (a b : Line) : Prop := collate (ProductSKU a) (ProductSKU b).
#[export] Instance line_collate_dec a b : Decision (line_collate a b).
Proof. unfold line_collate; apply _. Defined.

Definition held_by (order : uuid) (kv : uuid * string * reservationRow) : Prop := kv.1.1 = order.
#[export] Instance held_by_dec order kv : Decision (held_by order kv).
Proof. unfold held_by; apply _. Defined.

(** What an order holds, in no order. *)
Definition held_lines (order : uuid) (db : inventory_db) : list Line :=
  (λ kv, mkLine kv.1.2 (rs_quantity kv.2)) <$> map_to_list (filter (held_by order) (reservations db)).

(* @src inventory-service/internal/inventory/adapter/outbound/postgres/reservation_store.go:40-43 ReservationStore.Find *)
Definition selectReservation (orderID : string) (db : inventory_db) : result pg_error (list Line) :=
  match uuid_in orderID with
  | None => Err (PgError "22P02" "")
  | Some order => Ok (merge_sort line_collate (held_lines order db))
  end.

(** ** Operations *)

(** [database/sql] answers a cancelled or expired context with the context's own
    error; any other error only has a text. *)
Definition inventory_pg_err (e : pg_error) : inventory_error :=
  match e with
  | DriverError text =>
      if bool_decide (text = "context canceled") then inv Canceled
      else if bool_decide (text = "context deadline exceeded") then inv DeadlineExceeded
      else Opaque text
  | PgError _ _ => Opaque (pg_error_text e)
  end.

(* @go inventory-service/internal/inventory/adapter/outbound/postgres/reservation_store.go isUnknownProduct *)
Definition isUnknownProduct (err : pg_error) : bool :=
  match err with PgError code _ => bool_decide (code = "23503") | DriverError _ => false end.

(** [RowsAffected] of the driver never fails. *)
(* @go inventory-service/internal/inventory/adapter/outbound/postgres/reservation_store.go claimReservation *)
Definition claimReservation (f : faults) (n : nat) (now : Z) (orderID : string) (line : Line)
    (db : inventory_db) : inventory_result inventory_db :=
  match exec_stmt f n (insertReservation now orderID (ProductSKU line) (Quantity line) db) with
  | Err err =>
      if isUnknownProduct err then Err (Note (inv ErrUnknownProductSKU) (ProductSKU line))
      else Err (Wrap ("claim " +:+ ProductSKU line +:+ " for order " +:+ orderID)
                  (inventory_pg_err err))
  | Ok (claimed, db') =>
      if (claimed =? 0)%Z then Err (inv ErrReservationAlreadyClaimed) else Ok db'
  end.

(* @go inventory-service/internal/inventory/adapter/outbound/postgres/reservation_store.go takeStock *)
Definition takeStock (f : faults) (n : nat) (now : Z) (line : Line) (db : inventory_db)
    : inventory_result inventory_db :=
  match exec_stmt f n (updateStock now (ProductSKU line) (Quantity line) db) with
  | Err err => Err (Wrap ("reserve stock for " +:+ ProductSKU line) (inventory_pg_err err))
  | Ok (reserved, db') =>
      if (reserved =? 0)%Z then Err (Note (inv ErrInsufficientStock) (ProductSKU line)) else Ok db'
  end.

(* @go inventory-service/internal/inventory/adapter/outbound/postgres/reservation_store.go claimLine *)
Definition claimLine (f : faults) (n : nat) (now : Z) (orderID : string) (line : Line)
    (db : inventory_db) : inventory_result inventory_db :=
  db' ← claimReservation f n now orderID line db;
  takeStock f (S n) now line db'.

(* @src inventory-service/internal/inventory/adapter/outbound/postgres/reservation_store.go:106-110 ReservationStore.claim *)
Fixpoint claimLines (f : faults) (n : nat) (now : Z) (orderID : string) (lines : list Line)
    (db : inventory_db) : inventory_result inventory_db :=
  match lines with
  | [] => Ok db
  | line :: lines' =>
      match claimLine f n now orderID line db with
      | Err err => Err err
      | Ok db' => claimLines f (S (S n)) now orderID lines' db'
      end
  end.

(** An early return leaves the deferred Rollback to undo the transaction. *)
(* @go inventory-service/internal/inventory/adapter/outbound/postgres/reservation_store.go ReservationStore.claim *)
Definition store_claim (f : faults) (now : Z) (orderID : string) (lines : list Line)
    (db : inventory_db) : inventory_result unit * inventory_db :=
  match flt_begin f with
  | Some text =>
      (Err (Wrap "begin claim transaction" (inventory_pg_err (DriverError text))), db)
  | None =>
      match claimLines f 0 now orderID lines db with
      | Err err => (Err err, db)
      | Ok db' =>
          let '(committed, db'') := exec_commit f db db' in
          (map_err (λ err, Wrap "commit claim transaction" (inventory_pg_err err)) committed, db'')
      end
  end.

(** A row answered after the query failed to start or to finish is not looked at. *)
(* @go inventory-service/internal/inventory/adapter/outbound/postgres/reservation_store.go ReservationStore.availability *)
Definition store_availability (f : faults) (lines : list Line) (db : inventory_db)
    : inventory_result (gmap string Z) :=
  let productSKUs := ProductSKU <$> lines in
  if negb (forallb text_ok productSKUs)
  then Err (Wrap "query availability" (inventory_pg_err pg_encoding_error))
  else match exec_stmt f 0 (Ok (selectAvailability productSKUs db)) with
  | Err err => Err (Wrap "query availability" (inventory_pg_err err))
  | Ok rows =>
      match flt_rows f with
      | Some text => Err (Wrap "iterate availability" (inventory_pg_err (DriverError text)))
      | None => Ok (list_to_map rows)
      end
  end.

(* @go inventory-service/internal/inventory/adapter/outbound/postgres/reservation_store.go ReservationStore.Find *)
Definition store_Find (f : faults) (orderID : string) (db : inventory_db)
    : inventory_result (list Line) :=
  match exec_query f 0 (selectReservation orderID db) with
  | Err err => Err (Wrap "query reservation" (inventory_pg_err err))
  | Ok lines =>
      match flt_rows f with
      | Some text => Err (Wrap "iterate reservation" (inventory_pg_err (DriverError text)))
      | None => if bool_decide (lines = []) then Err (inv ErrReservationNotFound) else Ok lines
      end
  end.
End reservation_store.

(** ** What a refusal says *)

Definition shortfall_le (a b : Shortfall) : Prop := string_le (sf_ProductSKU a) (sf_ProductSKU b).
#[export] Instance shortfall_le_dec a b : Decision (shortfall_le a b).
Proof. unfold shortfall_le; apply _. Defined.

(* @src inventory-service/internal/inventory/adapter/outbound/postgres/reservation_store.go:233-238 ReservationStore.describeFailure *)
Definition unknown_skus (available : gmap string Z) (lines : list Line) : list string :=
  filter (λ sku, available !! sku = None) (ProductSKU <$> lines).

(* @src inventory-service/internal/inventory/adapter/outbound/postgres/reservation_store.go:248-257 ReservationStore.describeFailure *)
Definition shortfalls_of (available : gmap string Z) (lines : list Line) : list Shortfall :=
  omap (λ line,
    let free := default 0%Z (available !! ProductSKU line) in
    if (free <? Quantity line)%Z then Some (mkShortfall (ProductSKU line) (Quantity line) free)
    else None) lines.

Definition describable (claimErr : inventory_error) : bool :=
  is_inv claimErr ErrUnknownProductSKU || is_inv claimErr ErrInsufficientStock.

(** What becomes of a describable refusal when [availability] answers [queried]. *)
(* @src inventory-service/internal/inventory/adapter/outbound/postgres/reservation_store.go:220-270 ReservationStore.describeFailure *)
Definition describe_refusal (claimErr : inventory_error) (lines : list Line)
    (queried : inventory_result (gmap string Z)) : inventory_error :=
  match queried with
  | Err _ => claimErr
  | Ok available =>
      let unknown := unknown_skus available lines in
      if negb (bool_decide (unknown = []))
      then Leaf (UnknownProductSKUError (merge_sort string_le unknown))
      else
      let shortfalls := shortfalls_of available lines in
      if bool_decide (shortfalls = []) then claimErr
      else Leaf (InsufficientStockError (merge_sort shortfall_le shortfalls))
  end.

(** ** The store as calls

    [Find] is one query; [Claim] a transaction and then, on a refusal, a second
    query, between which other transactions commit. *)
Inductive storeE : Type → Type :=
| Find (orderID : string) : storeE (inventory_result (list Line))
| claim (orderID : string) (lines : list Line) : storeE (inventory_result unit)
| availability (lines : list Line) : storeE (inventory_result (gmap string Z)).

(* @go inventory-service/internal/inventory/adapter/outbound/postgres/reservation_store.go ReservationStore.describeFailure *)
Definition describeFailure (claimErr : inventory_error) (lines : list Line)
    : prog storeE inventory_error :=
  if negb (describable claimErr) then mret claimErr
  else
    queried ← trigger (availability lines);
    mret (describe_refusal claimErr lines queried).

(* @go inventory-service/internal/inventory/adapter/outbound/postgres/reservation_store.go ReservationStore.Claim *)
Definition Claim (orderID : string) (lines : list Line) : prog storeE (inventory_result unit) :=
  claimed ← trigger (claim orderID lines);
  match claimed with
  | Ok _ => mret (Ok tt)
  | Err err => err' ← describeFailure err lines; mret (Err err')
  end.
