(* ===== verification/ReserveStock.v ===== *)
(** * Reserving stock

    [application.ReserveStock] of inventory-service: the use case over its store. *)
From S2P Require Import Prelude GoErrors GoStrings External Prog InventoryErrors InventoryCanonical ReservationStore.

(* @go inventory-service/internal/inventory/application/reserve_stock.go claimAttempts *)
Definition claimAttempts : nat := 2.

(* @go inventory-service/internal/inventory/application/reserve_stock.go ReserveStockCommand *)
Record ReserveStockCommand := mkReserveStockCommand {
  rsc_OrderID : string;
  rsc_Lines : list Line;
}.

(* @go inventory-service/internal/inventory/application/reserve_stock.go confirmSameProducts *)
Definition confirmSameProducts (held requested : list Line) : inventory_result unit :=
  if bool_decide (held = requested) then Ok tt
  else Err (Leaf (IdempotencyConflictError held requested)).

Definition gave_up (orderID : string) : inventory_error :=
  Opaque ("claim reservation for order " +:+ orderID +:+ ": gave up after "
          +:+ Itoa (Z.of_nat claimAttempts) +:+ " attempts").

(* @src inventory-service/internal/inventory/application/reserve_stock.go:45-73 ReserveStock.Execute *)
Fixpoint reserve_attempts (attempts : nat) (orderID : string) (lines : list Line)
    : prog storeE (inventory_result unit) :=
  match attempts with
  | O => mret (Err (gave_up orderID))
  | S attempts' =>
      found ← trigger (Find orderID);
      match found with
      | Ok held => mret (confirmSameProducts held lines)
      | Err err =>
          if negb (is_inv err ErrReservationNotFound)
          then mret (Err (Wrap "find reservation" err))
          else
          claimed ← Claim orderID lines;
          match claimed with
          | Ok _ => mret (Ok tt)
          | Err err =>
              if is_inv err ErrReservationAlreadyClaimed
              then reserve_attempts attempts' orderID lines
              else mret (Err err)
          end
      end
  end.

(* @go inventory-service/internal/inventory/application/reserve_stock.go ReserveStock.Execute *)
Definition ReserveStock_Execute `{!UuidLib} (command : ReserveStockCommand)
    : prog storeE (inventory_result unit) :=
  match Canonicalize (rsc_OrderID command) (rsc_Lines command) with
  | Err err => mret (Err err)
  | Ok (orderID, lines) => reserve_attempts claimAttempts orderID lines
  end.
