(* ===== verification/ReservationSpec.v ===== *)
(** * What a reservation promises

    The invariant of the inventory tables, the effect and the verdict of a claim
    stated without its statements, and the proof that the transaction has them. *)
From S2P Require Import Prelude GoErrors GoStrings External Postgres Prog InventoryErrors InventoryCanonical ReservationStore.

Section reservation_spec.
Context {Uuid : UuidLib} {Pg : Postgres} {Text : PostgresText Uuid}.

(** ** The invariant *)

(** The units of [sku] all orders hold together. *)
Definition reserved_sum (sku : string) (m : gmap (uuid * string) reservationRow) : Z :=
  map_fold (λ k row sum, if decide (k.2 = sku) then rs_quantity row + sum else sum)%Z 0%Z m.

Lemma reserved_sum_insert sku m o s row :
  m !! (o, s) = None →
  reserved_sum sku (<[(o, s) := row]> m)
  = ((if decide (s = sku) then rs_quantity row else 0) + reserved_sum sku m)%Z.
Proof.
  intros Hm. unfold reserved_sum. rewrite map_fold_insert_L; [cbn; by case_decide| |done].
  intros j1 j2 z1 z2 y _ _ _. repeat case_decide; lia.
Qed.

Definition stock_wf (row : stockRow) : Prop :=
  (0 ≤ sk_reserved row ≤ sk_on_hand row)%Z ∧ (sk_on_hand row ≤ MaxInt32)%Z.

(** No more is promised than there is, what the warehouse counts as reserved is what
    the orders hold, and orders hold known products. *)
Record inventory_wf (db : inventory_db) : Prop := {
  iw_stock : ∀ sku row, stock_items db !! sku = Some row → stock_wf row;
  iw_reserved : ∀ sku row, stock_items db !! sku = Some row →
    sk_reserved row = reserved_sum sku (reservations db);
  iw_rows : ∀ o sku row, reservations db !! (o, sku) = Some row →
    (0 < rs_quantity row)%Z ∧ is_Some (stock_items db !! sku);
}.

Lemma reserved_sum_delete sku m o s row :
  m !! (o, s) = Some row →
  reserved_sum sku m = ((if decide (s = sku) then rs_quantity row else 0) + reserved_sum sku (delete (o, s) m))%Z.
Proof.
  intros Hm. rewrite <-(insert_delete_id m (o, s) row) at 1 by done.
  apply reserved_sum_insert, lookup_delete_eq.
Qed.
Lemma reserved_sum_nonneg sku m :
  map_Forall (λ _ row, 0 ≤ rs_quantity row)%Z m → (0 ≤ reserved_sum sku m)%Z.
Proof.
  unfold reserved_sum. induction m as [|[o s] row m Hm _ IH] using map_first_key_ind; [done|].
  intros Hpos. change (0 ≤ reserved_sum sku (<[(o, s) := row]> m))%Z.
  apply map_Forall_insert in Hpos as [Hrow Hpos]; [|done]. specialize (IH Hpos).
  rewrite reserved_sum_insert by done. unfold reserved_sum. case_decide; lia.
Qed.

(** What some orders hold of a product is part of the sum of all. *)
Lemma reserved_sum_part sku m (parts : list (uuid * Z)) :
  map_Forall (λ _ row, 0 ≤ rs_quantity row)%Z m → NoDup parts.*1 →
  Forall (λ part, part.2 = 0%Z ∨ ∃ row, m !! (part.1, sku) = Some row ∧ rs_quantity row = part.2) parts →
  (foldr (λ part sum, part.2 + sum)%Z 0%Z parts ≤ reserved_sum sku m)%Z.
Proof.
  revert m. induction parts as [|[o n] parts IH]; intros m Hpos Hnd Hparts; [by apply reserved_sum_nonneg|].
  apply NoDup_cons in Hnd as [Hnot Hnd]. apply Forall_cons in Hparts as [Ho Hparts]. cbn [fst snd foldr] in *.
  destruct Ho as [->|(row & Hrow & <-)]; [specialize (IH m Hpos Hnd Hparts); lia|].
  rewrite (reserved_sum_delete sku m o sku row), decide_True by done. apply Zplus_le_compat_l, IH; [|done|].
  - by apply map_Forall_delete.
  - rewrite Forall_forall in Hparts |- *. intros [o' n'] Hin.
    destruct (Hparts _ Hin) as [->|(row' & Hrow' & Hq)]; [by left|right].
    exists row'. split; [|done]. rewrite lookup_delete_ne; [done|]. cbn. intros [= ->].
    apply Hnot. by apply (list_elem_of_fmap_2 fst _ _ Hin).
Qed.

(** ** The effect and the verdict of a claim *)

Definition take_units (now quantity : Z) (row : stockRow) : stockRow :=
  mkStockRow (sk_on_hand row) (sk_reserved row + quantity) now.
Definition grant_line (now : Z) (order : uuid) (db : inventory_db) (line : Line) : inventory_db :=
  mkInventoryDb (alter (take_units now (Quantity line)) (ProductSKU line) (stock_items db))
    (<[(order, ProductSKU line) := mkReservationRow (Quantity line) now]> (reservations db)).
(** Every line held at once. *)
Definition grant (now : Z) (order : uuid) (lines : list Line) (db : inventory_db) : inventory_db :=
  foldl (grant_line now order) db lines.

(** Whether one line can be held, and if not, why. *)
Definition verdict (order : uuid) (db : inventory_db) (line : Line) : inventory_result unit :=
  match reservations db !! (order, ProductSKU line), stock_items db !! ProductSKU line with
  | Some _, _ => Err (inv ErrReservationAlreadyClaimed)
  | None, None => Err (Note (inv ErrUnknownProductSKU) (ProductSKU line))
  | None, Some row =>
      if (sk_on_hand row - sk_reserved row <? Quantity line)%Z
      then Err (Note (inv ErrInsufficientStock) (ProductSKU line)) else Ok tt
  end.
(** The first line that cannot be held decides. *)
Definition claim_verdict (order : uuid) (lines : list Line) (db : inventory_db)
    : inventory_result unit :=
  match mapM_result (verdict order db) lines with Ok _ => Ok tt | Err err => Err err end.

(** Lines a statement accepts as parameters. *)
Definition line_ok (line : Line) : Prop :=
  (0 < Quantity line)%Z ∧ in_int32 (Quantity line) ∧ text_ok (ProductSKU line) = true.

Lemma verdict_ok order db line :
  verdict order db line = Ok tt ↔
  reservations db !! (order, ProductSKU line) = None
  ∧ ∃ row, stock_items db !! ProductSKU line = Some row
      ∧ (Quantity line ≤ sk_on_hand row - sk_reserved row)%Z.
Proof.
  unfold verdict. destruct (reservations db !! _); [split; [done|naive_solver]|].
  destruct (stock_items db !! _) as [row|]; [|naive_solver].
  destruct (_ <? _)%Z eqn:Hq; reflect_bools; [|naive_solver].
  split; [done|]. intros (_ & ? & [= <-] & ?). lia.
Qed.

(** A grant leaves the verdict on every other product alone. *)
Lemma verdict_grant_line now order db line line' :
  ProductSKU line ≠ ProductSKU line' →
  verdict order (grant_line now order db line) line' = verdict order db line'.
Proof.
  intros Hne. unfold verdict, grant_line. cbn.
  rewrite lookup_insert_ne by naive_solver. by rewrite lookup_alter_ne.
Qed.
Lemma verdicts_grant_line now order db line lines :
  ProductSKU line ∉ (ProductSKU <$> lines) →
  mapM_result (verdict order (grant_line now order db line)) lines
  = mapM_result (verdict order db) lines.
Proof.
  induction lines as [|line' lines IH]; [done|]. cbn. intros [Hne Hn]%not_elem_of_cons.
  rewrite verdict_grant_line by done. by rewrite IH.
Qed.

Lemma grant_line_wf now order db line :
  inventory_wf db → (0 < Quantity line)%Z → verdict order db line = Ok tt →
  inventory_wf (grant_line now order db line).
Proof.
  intros [Hs Hr Hk] Hq (Hnone & row0 & Hrow0 & Hfree)%verdict_ok. split; unfold grant_line; cbn.
  - intros sku row. rewrite lookup_alter. case_decide as Hsku; [subst sku|apply Hs].
    rewrite Hrow0. intros [= <-]. destruct (Hs _ _ Hrow0) as [H1 H2].
    unfold stock_wf, take_units. cbn. lia.
  - intros sku row. rewrite lookup_alter, reserved_sum_insert by done.
    case_decide as Hsku; [subst sku|].
    + rewrite Hrow0. intros [= <-]. cbn. rewrite (Hr _ _ Hrow0). lia.
    + intros Hrow. by rewrite (Hr _ _ Hrow).
  - intros o sku row. rewrite lookup_insert_Some. intros [[[= <- <-] <-]|[_ Hrow]].
    + cbn. split; [done|]. rewrite lookup_alter, decide_True by done. by rewrite Hrow0.
    + destruct (Hk _ _ _ Hrow) as [? [row' Hrow']]. split; [done|].
      rewrite lookup_alter. case_decide; subst; by rewrite Hrow'.
Qed.

(** ** One line of the transaction *)
Lemma claimLine_no_faults n now id order db line :
  inventory_wf db → uuid_in id = Some order → line_ok line →
  claimLine no_faults n now id line db
  = match verdict order db line with
    | Ok _ => Ok (grant_line now order db line)
    | Err err => Err err
    end.
Proof.
  intros Hwf Hid (Hq & Hi & Ht). unfold claimLine, claimReservation, takeStock, exec_stmt. cbn.
  unfold insertReservation. rewrite Hid, (proj2 (int4_ok_spec _) Hi), Ht. cbn [negb].
  rewrite (proj2 (Z.leb_gt _ _)) by done. unfold verdict.
  destruct (reservations db !! _) as [r|] eqn:Hres; [done|].
  destruct (stock_items db !! _) as [row|] eqn:Hrow; [|done]. cbn.
  unfold updateStock. rewrite (proj2 (int4_ok_spec _) Hi), Ht. cbn [negb stock_items]. rewrite Hrow.
  destruct (_ <? _)%Z eqn:Hfree; [done|]. reflect_bools.
  destruct (iw_stock _ Hwf _ _ Hrow) as [Hb Hmax].
  assert (int4_ok (sk_reserved row + Quantity line) = true) as Hint.
  { apply int4_ok_spec. int_unfold. lia. }
  cbn. rewrite Hint. cbn.
  unfold stock_check. cbn. rewrite !(proj2 (Z.ltb_ge _ _)) by lia. cbn.
  unfold grant_line. do 2 f_equal. symmetry. apply map_eq. intros sku.
  rewrite lookup_alter, lookup_insert. case_decide; [|done]. subst. by rewrite Hrow.
Qed.

(** A success had no fault, so it is the success of the sequence without faults. *)
Lemma exec_stmt_ok {A} f n (s : result pg_error A) a : exec_stmt f n s = Ok a → s = Ok a.
Proof. unfold exec_stmt. by destruct (flt_stmt f n) as [[]|]. Qed.

Lemma claimLine_ok f n now id db line db' :
  claimLine f n now id line db = Ok db' → claimLine no_faults n now id line db = Ok db'.
Proof.
  unfold claimLine. intros (db1 & H1 & H2)%result_bind_ok. apply result_bind_ok. exists db1.
  revert H1 H2. unfold claimReservation, takeStock.
  destruct (exec_stmt f n _) as [[c d]|e] eqn:E1; [|by destruct (isUnknownProduct e)].
  apply exec_stmt_ok in E1. unfold exec_stmt at 2. cbn [flt_stmt no_faults]. rewrite E1.
  intros ->. destruct (exec_stmt f (S n) _) as [[c2 d2]|e] eqn:E2; [|done].
  apply exec_stmt_ok in E2. unfold exec_stmt. cbn [flt_stmt no_faults]. by rewrite E2.
Qed.

Lemma claimLine_parameters f n now id db line db' :
  claimLine f n now id line db = Ok db' → line_ok line ∧ is_Some (uuid_in id).
Proof.
  intros H%claimLine_ok. revert H. unfold claimLine.
  intros (db1 & H1 & _)%result_bind_ok. revert H1.
  unfold claimReservation, exec_stmt. cbn [flt_stmt no_faults]. unfold insertReservation.
  destruct (uuid_in id) as [o|]; [|done]. destruct (int4_ok _) eqn:Hi; [|done].
  destruct (text_ok _) eqn:Ht; [|done]. cbn [negb].
  destruct (_ <=? _)%Z eqn:Hq; [done|]. intros _. reflect_bools.
  split; [|done]. split_and!; [done|by apply int4_ok_spec|done].
Qed.

(** ** The transaction *)
Lemma claimLines_ok f n now id lines db db' :
  inventory_wf db → NoDup (ProductSKU <$> lines) →
  claimLines f n now id lines db = Ok db' →
  Forall line_ok lines ∧ (lines ≠ [] → is_Some (uuid_in id))
  ∧ ∀ order, uuid_in id = Some order →
      claim_verdict order lines db = Ok tt ∧ db' = grant now order lines db ∧ inventory_wf db'.
Proof.
  revert n db. induction lines as [|line lines IH]; intros n db Hwf Hnd; cbn [claimLines].
  - intros [= <-]. split; [constructor|]. split; [done|]. intros order _. done.
  - destruct (claimLine f n now id line db) as [db1|] eqn:H1; [|done]. intros Hrest.
    apply NoDup_cons in Hnd as [Hnot Hnd].
    destruct (claimLine_parameters _ _ _ _ _ _ _ H1) as [Hok [order Hid]].
    apply claimLine_ok in H1. rewrite (claimLine_no_faults _ _ _ order) in H1 by done.
    destruct (verdict order db line) as [[]|] eqn:Hv; [|done]. injection H1 as <-.
    assert (inventory_wf (grant_line now order db line)) as Hwf1.
    { apply grant_line_wf; [done|by destruct Hok|done]. }
    destruct (IH _ _ Hwf1 Hnd Hrest) as (Hall & _ & Hgrant).
    split; [by constructor|]. split; [by intros _|]. intros order' Ho'. rewrite Hid in Ho'.
    injection Ho' as <-. destruct (Hgrant order Hid) as (Hvs & -> & Hwf2).
    split; [|done]. unfold claim_verdict in *. cbn. rewrite Hv.
    rewrite verdicts_grant_line in Hvs by done. by destruct (mapM_result _ lines).
Qed.

Lemma claimLines_no_faults n now id order lines db :
  inventory_wf db → NoDup (ProductSKU <$> lines) → uuid_in id = Some order →
  Forall line_ok lines →
  claimLines no_faults n now id lines db
  = match claim_verdict order lines db with
    | Ok _ => Ok (grant now order lines db)
    | Err err => Err err
    end.
Proof.
  intros Hwf Hnd Hid Hok. revert n db Hwf. induction Hok as [|line lines Hl _ IH]; intros n db Hwf; [done|].
  apply NoDup_cons in Hnd as [Hnot Hnd]. cbn [claimLines].
  rewrite (claimLine_no_faults _ _ _ order) by done. unfold claim_verdict. cbn [mapM_result].
  destruct (verdict order db line) as [[]|err] eqn:Hv; [|done].
  rewrite IH; [|done|apply grant_line_wf; [done|by destruct Hl|done]].
  unfold claim_verdict. rewrite verdicts_grant_line by done. by destruct (mapM_result _ lines).
Qed.

Lemma claim_is_verdict now id order lines db :
  inventory_wf db → NoDup (ProductSKU <$> lines) → uuid_in id = Some order →
  Forall line_ok lines →
  store_claim no_faults now id lines db
  = match claim_verdict order lines db with
    | Ok _ => (Ok tt, grant now order lines db)
    | Err err => (Err err, db)
    end.
Proof.
  intros Hwf Hnd Hid Hok. unfold store_claim. cbn [flt_begin no_faults].
  rewrite (claimLines_no_faults _ _ _ order) by done. by destruct (claim_verdict _ _ _).
Qed.

(** C28: The claim is the specification. For the id and the lines an accepted request is
    reduced to, on tables that keep their invariant and without a fault: when the
    database can read the id and every product's text, the claim answers the verdict on
    its first line that cannot be held - the order already has the product, the product
    is unknown, there is not enough of it - and then changes nothing, or holds every line
    at once; when it cannot read one of them, the claim answers an error and changes
    nothing. *)
Theorem claim_decides now orderID asked id lines db :
  inventory_wf db → Canonicalize orderID asked = Ok (id, lines) →
  (∀ order, uuid_in id = Some order → Forall (λ line, text_ok (ProductSKU line) = true) lines →
     store_claim no_faults now id lines db
     = match claim_verdict order lines db with
       | Ok _ => (Ok tt, grant now order lines db)
       | Err err => (Err err, db)
       end)
  ∧ (uuid_in id = None ∨ Exists (λ line, text_ok (ProductSKU line) = false) lines →
     ∃ err, store_claim no_faults now id lines db = (Err err, db)).
Proof.
  intros Hwf (Hnd & Hne & _ & Hq)%Canonicalize_lines. split.
  - intros order Hid Htext. apply claim_is_verdict; [done..|].
    apply Forall_forall. intros line Hl. rewrite Forall_forall in Hq, Htext.
    destruct (Hq _ Hl). split; [lia|]. split; [int_unfold; lia|by apply Htext].
  - intros Hbad. unfold store_claim. cbn [flt_begin no_faults].
    destruct (claimLines no_faults 0 now id lines db) as [db1|err] eqn:Hc; [|by exists err].
    destruct (claimLines_ok _ _ _ _ _ _ _ Hwf Hnd Hc) as (Hok & Hid & _). exfalso.
    destruct Hbad as [Hnone|(line & Hl & Hbad)%Exists_exists].
    + destruct (Hid Hne). congruence.
    + rewrite Forall_forall in Hok. destruct (Hok _ Hl) as (_ & _ & Ht). congruence.
Qed.

Lemma claim_outcome f now id lines db r db' :
  inventory_wf db → NoDup (ProductSKU <$> lines) → lines ≠ [] →
  store_claim f now id lines db = (r, db') →
  inventory_wf db'
  ∧ (r ≠ Ok tt ∧ db' = db
     ∨ (∃ order, uuid_in id = Some order ∧ claim_verdict order lines db = Ok tt
          ∧ db' = grant now order lines db)
       ∧ (r = Ok tt ∨ ∃ text, flt_commit f = Some (text, true))).
Proof.
  intros Hwf Hnd Hne. unfold store_claim.
  destruct (flt_begin f) as [text|]; [intros [= <- <-]; eauto|].
  destruct (claimLines f 0 now id lines db) as [db1|err] eqn:Hc; [|intros [= <- <-]; eauto].
  destruct (claimLines_ok _ _ _ _ _ _ _ Hwf Hnd Hc) as (_ & Hid & Hgrant).
  destruct (Hid Hne) as [order Ho]. destruct (Hgrant order Ho) as (Hv & -> & Hwf1).
  unfold exec_commit. destruct (flt_commit f) as [[text []]|] eqn:Hf; intros [= <- <-]; cbn.
  - split; [done|]. right. split; [by exists order|]. right. by exists text.
  - split; [done|]. by left.
  - split; [done|]. right. split; [by exists order|]. by left.
Qed.

(** C18: All or nothing, whatever faults the connection adds: a success means every line
    could be held and is; a failure leaves the tables as they were, unless the
    answer to COMMIT was lost, and then every line is held. The tables keep their
    invariant, so no more is promised than there is. *)
Theorem claim_all_or_nothing f now id lines db r db' :
  inventory_wf db → NoDup (ProductSKU <$> lines) → lines ≠ [] →
  store_claim f now id lines db = (r, db') →
  inventory_wf db'
  ∧ (r ≠ Ok tt ∧ db' = db
     ∨ (∃ order, uuid_in id = Some order ∧ claim_verdict order lines db = Ok tt
          ∧ db' = grant now order lines db)
       ∧ (r = Ok tt ∨ ∃ text, flt_commit f = Some (text, true))).
Proof. exact (claim_outcome f now id lines db r db'). Qed.

(** ** What a refusal says *)

Lemma availability_lookup f lines db available :
  store_availability f lines db = Ok available →
  ∀ sku, sku ∈ (ProductSKU <$> lines) →
    available !! sku = (λ row, sk_on_hand row - sk_reserved row)%Z <$> stock_items db !! sku.
Proof.
  unfold store_availability. destruct (negb _); [done|].
  destruct (exec_stmt f 0 _) as [rows|] eqn:Hrows; [|done]. apply exec_stmt_ok in Hrows.
  injection Hrows as <-. destruct (flt_rows f); [done|]. intros [= <-] sku Hsku.
  unfold selectAvailability. rewrite list_to_map_to_list, lookup_fmap. f_equal.
  apply option_eq. intros row. rewrite map_lookup_filter_Some. naive_solver.
Qed.

Lemma and_iff_compat_l_strong (P Q R : Prop) : (P → (Q ↔ R)) → P ∧ Q ↔ P ∧ R.
Proof. tauto. Qed.
Lemma and_iff_compat_r_strong (P Q R : Prop) : (P → (Q ↔ R)) → Q ∧ P ↔ R ∧ P.
Proof. tauto. Qed.

Definition short_line (db : inventory_db) (line : Line) (s : Shortfall) : Prop :=
  ∃ row, stock_items db !! ProductSKU line = Some row
    ∧ (sk_on_hand row - sk_reserved row < Quantity line)%Z
    ∧ s = mkShortfall (ProductSKU line) (Quantity line) (sk_on_hand row - sk_reserved row).

(** A described refusal is complete and exact for the tables the second query saw:
    it names, in byte order, every requested product that is not stocked; or, when
    all are, every line that asks for more than is free, with both numbers; and
    otherwise, or when the query fails, it is the error of the claim unchanged. *)
Theorem describe_refusal_exact f claimErr lines db :
  describe_refusal claimErr lines (store_availability f lines db) = claimErr
  ∨ (∃ skus, describe_refusal claimErr lines (store_availability f lines db)
        = Leaf (UnknownProductSKUError skus)
      ∧ skus ≠ [] ∧ Sorted string_le skus
      ∧ ∀ sku, sku ∈ skus ↔ sku ∈ (ProductSKU <$> lines) ∧ stock_items db !! sku = None)
  ∨ (∃ shortfalls, describe_refusal claimErr lines (store_availability f lines db)
        = Leaf (InsufficientStockError shortfalls)
      ∧ shortfalls ≠ [] ∧ Sorted shortfall_le shortfalls
      ∧ (∀ line, line ∈ lines → is_Some (stock_items db !! ProductSKU line))
      ∧ ∀ s, s ∈ shortfalls ↔ ∃ line, line ∈ lines ∧ short_line db line s).
Proof.
  destruct (store_availability f lines db) as [available|] eqn:Hav; [|by left].
  pose proof (availability_lookup _ _ _ _ Hav) as Hlook. unfold describe_refusal.
  assert (∀ sku, sku ∈ unknown_skus available lines
    ↔ sku ∈ (ProductSKU <$> lines) ∧ stock_items db !! sku = None) as Hunknown.
  { intros sku. unfold unknown_skus. rewrite list_elem_of_filter. split.
    - intros [Hn Hs]. rewrite Hlook in Hn by done. by apply fmap_None in Hn.
    - intros [Hs Hn]. rewrite Hlook by done. by rewrite Hn. }
  case_bool_decide as Hnone; cbn [negb].
  2:{ right; left. eexists. split; [done|]. split.
      { intros Hnil. apply Hnone, Permutation_nil_r. by rewrite <-Hnil, merge_sort_Permutation. }
      split; [apply Sorted_merge_sort; intros a b; apply string_le_total|].
      intros sku. by rewrite merge_sort_Permutation. }
  assert (∀ line, line ∈ lines → is_Some (stock_items db !! ProductSKU line)) as Hall.
  { intros line Hl. apply not_eq_None_Some. intros Hn.
    apply (not_elem_of_nil (ProductSKU line)). rewrite <-Hnone. apply Hunknown.
    split; [by apply list_elem_of_fmap_2|done]. }
  assert (∀ s, s ∈ shortfalls_of available lines
    ↔ ∃ line, line ∈ lines ∧ short_line db line s) as Hshort.
  { intros s. unfold shortfalls_of. rewrite list_elem_of_omap. apply exist_proper. intros line.
    apply and_iff_compat_l_strong. intros Hl. destruct (Hall line Hl) as [row Hrow].
    rewrite (Hlook _ (list_elem_of_fmap_2 ProductSKU _ _ Hl)). unfold short_line. rewrite Hrow. cbn.
    destruct (_ <? _)%Z eqn:Hq; reflect_bools; [naive_solver|].
    split; [done|]. intros (? & [= <-] & ? & _). lia. }
  case_bool_decide as Hempty; [by left|]. right; right. eexists. split; [done|]. split.
  { intros Hnil. apply Hempty, Permutation_nil_r. by rewrite <-Hnil, merge_sort_Permutation. }
  split; [apply Sorted_merge_sort; intros a b; apply string_le_total|]. split; [done|].
  intros s. by rewrite merge_sort_Permutation.
Qed.
End reservation_spec.

(** ** A claim at work *)
Definition sample_stock : inventory_db :=
  mkInventoryDb {[ "A" := mkStockRow 5 0 0; "B" := mkStockRow 3 0 0 ]} ∅.
Lemma sample_stock_wf : inventory_wf sample_stock.
Proof.
  split; cbn.
  - intros sku row. rewrite lookup_insert_Some, lookup_singleton_Some.
    intros [[_ <-]|[_ [_ <-]]]; split; cbn; int_unfold; lia.
  - intros sku row. rewrite lookup_insert_Some, lookup_singleton_Some.
    intros [[_ <-]|[_ [_ <-]]]; done.
  - intros o sku row. by rewrite lookup_empty.
Qed.
Definition sample_basket : list Line := [mkLine "A" 2; mkLine "B" 3].
Lemma sample_basket_ok : Forall line_ok sample_basket ∧ NoDup (ProductSKU <$> sample_basket).
Proof.
  split; [repeat constructor; vm_compute; done|].
  apply NoDup_cons. split; [|apply NoDup_singleton]. by intros Heq%list_elem_of_singleton.
Qed.

Lemma sample_canonical id : TrimSpace id = "o1" →
  Canonicalize id sample_basket = Ok ("o1", sample_basket).
Proof. intros Hid. unfold Canonicalize. rewrite Hid. vm_compute. reflexivity. Qed.

Lemma claim_decides_witness :
  ∃ order, uuid_in "o1" = Some order
    ∧ store_claim no_faults 7 "o1" sample_basket sample_stock
      = match claim_verdict order sample_basket sample_stock with
        | Ok _ => (Ok tt, grant 7 order sample_basket sample_stock)
        | Err err => (Err err, sample_stock)
        end.
Proof.
  destruct (sample_uuid_parses "o1" eq_refl) as [order Ho]. exists order. split; [exact Ho|].
  apply (claim_decides 7 " o1" sample_basket "o1" sample_basket sample_stock sample_stock_wf);
    [by apply sample_canonical|exact Ho|by repeat constructor].
Defined.

(** The answer to COMMIT is lost after the server applied it. *)
Definition lost_commit : faults := mkFaults None (λ _, None) None (Some ("broken pipe", true)).
Lemma claim_all_or_nothing_witness :
  let '(r, db) := store_claim lost_commit 7 "o1" sample_basket sample_stock in
  inventory_wf db
  ∧ (r ≠ Ok tt ∧ db = sample_stock
     ∨ (∃ order, uuid_in "o1" = Some order ∧ claim_verdict order sample_basket sample_stock = Ok tt
          ∧ db = grant 7 order sample_basket sample_stock)
       ∧ (r = Ok tt ∨ ∃ text, flt_commit lost_commit = Some (text, true))).
Proof.
  destruct (store_claim _ _ _ _ _) as [r db] eqn:Hc.
  apply (claim_all_or_nothing lost_commit 7 "o1" sample_basket sample_stock);
    [apply sample_stock_wf|apply sample_basket_ok|discriminate|exact Hc].
Defined.
