(* ===== verification/InventoryService.v ===== *)
(** * Inventory under concurrency

    Requests of inventory-service against one database, interleaved at the statements
    and transactions of its store: the stock never oversold, an order told yes only
    when it holds its basket, and a repeated request answered without a second hold. *)
From S2P Require Import Prelude GoErrors GoStrings External Postgres Prog InventoryErrors InventoryCanonical.
From S2P Require Import ReservationStore ReserveStock ReservationSpec.

Section inventory_service.
Context {Uuid : UuidLib} {Pg : Postgres} {Text : PostgresText Uuid}.

(** One call against the tables; the faults are the connection's choice. *)
Definition store_step (i : nat) R (e : storeE R) : inventory_db → R → inventory_db → Prop :=
  match e with
  | Find id => λ db r db', db' = db ∧ ∃ f, r = store_Find f id db
  | claim id lines => λ db r db', ∃ f now, store_claim f now id lines db = (r, db')
  | availability lines => λ db r db', db' = db ∧ ∃ f, r = store_availability f lines db
  end.

(** The warehouse: a delivery, a correction, a new product. What is promised to
    orders is not its to change. *)
Definition warehouse_step (db db' : inventory_db) : Prop :=
  reservations db' = reservations db
  ∧ ∃ sku row, stock_items db' = <[sku := row]> (stock_items db) ∧ stock_wf row
      ∧ sk_reserved row = match stock_items db !! sku with Some r => sk_reserved r | None => 0%Z end.

(** Reservations are only ever added. *)
Definition grows (i : nat) (db db' : inventory_db) : Prop := reservations db ⊆ reservations db'.
#[export] Instance grows_preorder i : PreOrder (grows i).
Proof. split; unfold grows; [intros db|intros db1 db2 db3]; [done|by transitivity (reservations db2)]. Qed.

(** The order holds every line. *)
Definition holds (order : uuid) (lines : list Line) (db : inventory_db) : Prop :=
  ∀ line, line ∈ lines → ∃ row, reservations db !! (order, ProductSKU line) = Some row
    ∧ rs_quantity row = Quantity line.

Lemma holds_grows i order lines db db' : holds order lines db → grows i db db' → holds order lines db'.
Proof.
  intros Hh Hg line Hl. destruct (Hh line Hl) as (row & Hrow & Hq). exists row.
  split; [by eapply lookup_weaken|done].
Qed.

(** What a finished request has: its basket, or an error other than the loop's. *)
Definition reserve_post (command : ReserveStockCommand) (r : inventory_result unit)
    (db : inventory_db) : Prop :=
  match r with
  | Ok _ => ∃ id order lines, Canonicalize (rsc_OrderID command) (rsc_Lines command) = Ok (id, lines)
      ∧ uuid_in id = Some order ∧ holds order lines db
  | Err err => ∀ id, err ≠ gave_up id
  end.

(** ** Lemmas on the store *)

Lemma verdicts_ok order lines db :
  claim_verdict order lines db = Ok tt → Forall (λ line, verdict order db line = Ok tt) lines.
Proof.
  unfold claim_verdict. destruct (mapM_result _ _) as [us|] eqn:Hm; [|done]. intros _.
  apply mapM_result_Forall2 in Hm. induction Hm as [|line [] ls us' Hl _ IH]; constructor; done.
Qed.

Lemma grant_lookup now order lines db line :
  NoDup (ProductSKU <$> lines) → line ∈ lines →
  reservations (grant now order lines db) !! (order, ProductSKU line)
  = Some (mkReservationRow (Quantity line) now).
Proof.
  unfold grant. revert db. induction lines as [|line' lines IH]; intros db Hnd Hl.
  - by apply elem_of_nil in Hl.
  - cbn in *. apply NoDup_cons in Hnd as [Hnot Hnd]. apply elem_of_cons in Hl as [->|Hl]; [|by apply IH].
    clear IH Hnd. assert (reservations (grant_line now order db line') !! (order, ProductSKU line')
      = Some (mkReservationRow (Quantity line') now)) as Hlook by (cbn; by rewrite lookup_insert_eq).
    revert Hlook. generalize (grant_line now order db line'). clear db.
    induction lines as [|l lines IH]; intros db Hlook; [done|]. cbn in *.
    apply not_elem_of_cons in Hnot as [Hne Hnot]. apply IH; [done|]. cbn.
    rewrite lookup_insert_ne; [done|]. naive_solver.
Qed.

Lemma grant_other now order lines db k :
  (∀ line, line ∈ lines → k ≠ (order, ProductSKU line)) →
  reservations (grant now order lines db) !! k = reservations db !! k.
Proof.
  unfold grant. revert db. induction lines as [|line lines IH]; intros db Hk; [done|].
  cbn. rewrite IH by (intros; apply Hk; by right). cbn. apply lookup_insert_ne.
  intros <-. apply (Hk line); [by left|done].
Qed.

Lemma grant_grows i now order lines db :
  claim_verdict order lines db = Ok tt → grows i db (grant now order lines db).
Proof.
  intros Hv%verdicts_ok. apply map_subseteq_spec. intros k row Hrow.
  rewrite grant_other; [done|]. intros line Hl ->. rewrite Forall_forall in Hv.
  apply Hv, verdict_ok in Hl as [Hnone _]. congruence.
Qed.

Lemma grant_holds now order lines db :
  NoDup (ProductSKU <$> lines) → holds order lines (grant now order lines db).
Proof.
  intros Hnd line Hl. eexists. split; [by apply grant_lookup|done].
Qed.

(** The errors a transaction ends with. *)
Definition claim_error (err : inventory_error) : Prop :=
  (∃ s, err = Note (inv ErrUnknownProductSKU) s) ∨ (∃ s, err = Note (inv ErrInsufficientStock) s)
  ∨ (∃ p e, err = Wrap p (inventory_pg_err e)).

Lemma claim_error_wrap p e : claim_error (Wrap p (inventory_pg_err e)).
Proof. right; right. by exists p, e. Qed.

Lemma pg_err_is e s : is_inv (inventory_pg_err e) s = true → s = Canceled ∨ s = DeadlineExceeded.
Proof.
  destruct e as [|text]; cbn; [done|]. repeat case_bool_decide; unfold is_inv; cbn;
    unfold inventory_leaf_is; intros; reflect_bools; subst; eauto; done.
Qed.

Lemma claimLines_error f n now id lines db err :
  inventory_wf db → NoDup (ProductSKU <$> lines) →
  claimLines f n now id lines db = Err err →
  claim_error err
  ∨ err = inv ErrReservationAlreadyClaimed
    ∧ ∃ order line, uuid_in id = Some order ∧ line ∈ lines
        ∧ is_Some (reservations db !! (order, ProductSKU line)).
Proof.
  revert n db. induction lines as [|line lines IH]; intros n db Hwf Hnd; cbn [claimLines]; [done|].
  apply NoDup_cons in Hnd as [Hnot Hnd].
  destruct (claimLine f n now id line db) as [db1|err1] eqn:H1.
  - intros Hrest. pose proof (claimLine_parameters _ _ _ _ _ _ _ H1) as [Hok [order Hid]].
    apply claimLine_ok in H1. rewrite (claimLine_no_faults _ _ _ order) in H1 by done.
    destruct (verdict order db line) as [[]|] eqn:Hv; [|done]. injection H1 as <-.
    destruct (IH _ _ (grant_line_wf now _ _ _ Hwf (proj1 Hok) Hv) Hnd Hrest)
      as [He|(He & order' & line' & Ho' & Hl' & Hs')]; [by left|right].
    split; [done|]. exists order', line'. rewrite Hid in Ho'. injection Ho' as <-.
    split; [done|]. split; [by right|]. cbn in Hs'. rewrite lookup_insert_ne in Hs'; [done|].
    intros [= Heq]. apply Hnot. rewrite Heq. by apply list_elem_of_fmap_2.
  - intros [= ->]. revert H1. unfold claimLine, claimReservation, takeStock.
    destruct (exec_stmt f n _) as [[c db1]|e] eqn:E1.
    + apply exec_stmt_ok in E1. destruct (c =? 0)%Z eqn:Hc; cbn.
      * intros [= <-]. right. split; [done|]. revert E1. unfold insertReservation.
        destruct (uuid_in id) as [order|]; [|done]. repeat (destruct (negb _); [done|]).
        destruct (_ <=? _)%Z; [done|]. destruct (reservations db !! _) eqn:Hr.
        { intros _. exists order, line. split; [done|]. split; [by left|done]. }
        destruct (stock_items db !! _); [|done]. intros [= <- <-]. done.
      * destruct (exec_stmt f (S n) _) as [[c2 db2]|e2].
        -- destruct (c2 =? 0)%Z; [|done]. intros [= <-]. left. right; left. eauto.
        -- intros [= <-]. left. right; right. eauto.
    + destruct (isUnknownProduct e); cbn; intros [= <-]; left; [left|right; right]; eauto.
Qed.

Lemma store_claim_error f now id lines db err db' :
  inventory_wf db → NoDup (ProductSKU <$> lines) →
  store_claim f now id lines db = (Err err, db') →
  claim_error err
  ∨ err = inv ErrReservationAlreadyClaimed
    ∧ ∃ order line, uuid_in id = Some order ∧ line ∈ lines
        ∧ is_Some (reservations db !! (order, ProductSKU line)).
Proof.
  intros Hwf Hnd. unfold store_claim. destruct (flt_begin f) as [text|].
  { intros [= <- <-]. left. exact (claim_error_wrap _ (DriverError text)). }
  destruct (claimLines _ _ _ _ _ _) as [db1|e] eqn:Hc.
  - destruct (exec_commit_cases f db db1) as [->|(text & [->| ->])]; cbn [map_err];
      intros [= <- <-]; left; exact (claim_error_wrap _ (DriverError text)).
  - intros [= <- _]. by eapply claimLines_error.
Qed.

(** A described refusal is not a conflict over the order id, nor the loop's error. *)
Lemma describe_refusal_error err lines queried :
  claim_error err →
  is_inv (describe_refusal err lines queried) ErrReservationAlreadyClaimed = false
  ∧ ∀ id, describe_refusal err lines queried ≠ gave_up id.
Proof.
  intros He. assert (is_inv err ErrReservationAlreadyClaimed = false ∧ ∀ id, err ≠ gave_up id) as Herr.
  { destruct He as [(s & ->)|[(s & ->)|(p & e & ->)]]; (split; [|intros id; unfold gave_up; discriminate]);
      [done|done|].
    destruct (is_inv (Wrap p (inventory_pg_err e)) _) eqn:H; [|done].
    by apply pg_err_is in H as [|]. }
  unfold describe_refusal. destruct queried; [|done]. cbn zeta.
  destruct (negb _); [done|]. by case_bool_decide.
Qed.

(** ** The steps *)

Abbreviation store_wp := (wp store_step inventory_wf grows grows).

Lemma claim_step_wf i id lines db r db' :
  inventory_wf db → NoDup (ProductSKU <$> lines) → lines ≠ [] →
  store_step i _ (claim id lines) db r db' →
  inventory_wf db' ∧ grows i db db'
  ∧ (r = Ok tt → ∃ order, uuid_in id = Some order ∧ holds order lines db').
Proof.
  intros Hwf Hnd Hne (f & now & Hc).
  destruct (claim_outcome _ _ _ _ _ _ _ Hwf Hnd Hne Hc)
    as [Hwf' [[Hr ->]|[(order & Hid & Hv & ->) _]]]; split_and!; try done.
  - by apply grant_grows.
  - intros _. exists order. split; [done|]. by apply grant_holds.
Qed.

Lemma find_held f id db lines :
  store_Find f id db = Ok lines →
  ∃ order, uuid_in id = Some order ∧ lines = merge_sort line_collate (held_lines order db).
Proof.
  unfold store_Find, selectReservation. destruct (exec_query f 0 _) as [held|] eqn:E; [|done].
  apply exec_stmt_ok in E. destruct (uuid_in id) as [order|]; [|done]. injection E as <-.
  destruct (flt_rows f); [done|]. case_bool_decide; [done|]. intros [= <-]. by exists order.
Qed.

Lemma elem_of_held_lines order db line :
  line ∈ held_lines order db
  ↔ ∃ row, reservations db !! (order, ProductSKU line) = Some row ∧ rs_quantity row = Quantity line.
Proof.
  unfold held_lines. rewrite list_elem_of_fmap. split.
  - intros ([[o sku] row] & -> & Hin). apply elem_of_map_to_list in Hin.
    apply map_lookup_filter_Some in Hin as [Hr Ho]. cbv in Ho. subst o. by exists row.
  - intros (row & Hr & Hq). exists ((order, ProductSKU line), row). split.
    { destruct line. cbn in *. by rewrite Hq. }
    apply elem_of_map_to_list, map_lookup_filter_Some. done.
Qed.

Lemma find_holds f id db lines order :
  store_Find f id db = Ok lines → uuid_in id = Some order → holds order lines db.
Proof.
  intros Hf Hid line Hl. apply find_held in Hf as (o & Ho & ->). rewrite Hid in Ho. injection Ho as <-.
  rewrite merge_sort_Permutation in Hl. by apply elem_of_held_lines.
Qed.

(** An order that holds something is found. *)
Lemma find_not_missing f id db order sku :
  uuid_in id = Some order → is_Some (reservations db !! (order, sku)) →
  ∀ err, store_Find f id db = Err err → is_inv err ErrReservationNotFound = false.
Proof.
  intros Hid [row Hrow] err. unfold store_Find, selectReservation. rewrite Hid.
  assert (merge_sort line_collate (held_lines order db) ≠ []) as Hne.
  { intros Hnil. apply (not_elem_of_nil (mkLine sku (rs_quantity row))). rewrite <-Hnil.
    rewrite merge_sort_Permutation. apply elem_of_held_lines. by exists row. }
  assert (∀ p e, is_inv (Wrap p (inventory_pg_err e)) ErrReservationNotFound = false) as Hw.
  { intros p e. destruct (is_inv (Wrap p _) _) eqn:H; [|done]. by apply pg_err_is in H as [|]. }
  destruct (exec_query f 0 _) as [held|e] eqn:E; [|intros [= <-]; apply Hw].
  apply exec_stmt_ok in E. injection E as <-.
  destruct (flt_rows f) as [text|]; [intros [= <-]; exact (Hw _ (DriverError text))|].
  by rewrite bool_decide_false.
Qed.

(** ** The use case *)
Definition attempts_post (id : string) (order : uuid) (lines : list Line) (r : inventory_result unit)
    (db : inventory_db) : Prop :=
  match r with Ok _ => holds order lines db | Err err => ∀ id', err ≠ gave_up id' end.

Lemma store_wp_ret i {A} (a : A) (Q : A → inventory_db → Prop) db :
  (∀ db', grows i db db' → Q a db') → store_wp i (mret a) Q db.
Proof. intros HQ. apply wp_ret. intros db' Hg _. by apply HQ. Qed.

Lemma reserve_attempts_wp i attempts id order lines db :
  uuid_in id = Some order → NoDup (ProductSKU <$> lines) → lines ≠ [] →
  (attempts = 0 → False) →
  (attempts = 1 → ∃ sku, is_Some (reservations db !! (order, sku))) →
  store_wp i (reserve_attempts attempts id lines) (attempts_post id order lines) db.
Proof.
  intros Hid Hnd Hne. revert db. induction attempts as [|attempts IH]; intros db Hpos Hone.
  { by destruct Hpos. }
  cbn [reserve_attempts]. apply wp_vis. intros db1 Hg1 Hwf1 found db2 [-> [f Hf]].
  split; [done|]. split; [reflexivity|]. destruct found as [held|err]; subst.
  { apply store_wp_ret. intros db' Hg. unfold confirmSameProducts. case_bool_decide as Heq; [|done].
    subst. eapply holds_grows; [|done]. by eapply find_holds. }
  destruct (is_inv err ErrReservationNotFound) eqn:Hmissing; cbn [negb].
  2:{ by apply store_wp_ret. }
  assert (attempts ≠ 0) as Hattempts.
  { intros ->. destruct (Hone eq_refl) as (sku & row & Hrow).
    rewrite (find_not_missing f id db1 order sku) in Hmissing; [done|done| |done].
    exists row. by eapply lookup_weaken. }
  unfold Claim. apply wp_bind; [apply _|]. apply wp_vis.
  intros db2 Hg2 Hwf2 claimed db3 Hc. pose proof Hc as (f' & now & Hc').
  destruct (claim_step_wf i _ _ _ _ _ Hwf2 Hnd Hne Hc) as (Hwf3 & Hg3 & Hholds).
  split; [done|]. split; [done|]. destruct claimed as [[]|err'].
  { destruct (Hholds eq_refl) as (o & Ho & Hh). rewrite Hid in Ho. injection Ho as <-.
    apply store_wp_ret. intros db4 Hg4. apply store_wp_ret. intros db5 Hg5.
    eapply holds_grows; [|done]. by eapply holds_grows. }
  destruct (store_claim_error _ _ _ _ _ _ _ Hwf2 Hnd Hc') as [He|(-> & o & line & Ho & Hl & Hs)].
  - apply wp_bind; [apply _|]. unfold describeFailure. destruct (describable err') eqn:Hd; cbn [negb].
    + apply wp_vis. intros db4 Hg4 Hwf4 queried db5 [-> _]. split; [done|]. split; [reflexivity|].
      do 2 (apply store_wp_ret; intros ? _).
      destruct (describe_refusal_error err' lines queried He) as [-> Hgave]. by apply store_wp_ret.
    + do 2 (apply store_wp_ret; intros ? _).
      destruct (describe_refusal_error err' lines (Err err') He) as [Hno Hgave].
      cbn [describe_refusal] in *. rewrite Hno. by apply store_wp_ret.
  - rewrite Hid in Ho. injection Ho as <-. unfold describeFailure. cbn [describable is_inv negb].
    cbn. intros db4 Hg4 _ . apply IH; [done|]. intros _. exists (ProductSKU line).
    destruct Hs as [row Hrow]. exists row. eapply lookup_weaken; [|exact Hg4].
    by eapply lookup_weaken.
Qed.

(** The order id a command's statements are sent: only one the server can read. *)
Lemma claim_needs_uuid f now id lines db r db' :
  uuid_in id = None → lines ≠ [] → store_claim f now id lines db = (r, db') →
  ∃ err, r = Err err ∧ db' = db ∧ claim_error err.
Proof.
  intros Hid Hne. unfold store_claim. destruct (flt_begin f) as [text|].
  { intros [= <- <-]. eexists. split; [done|]. split; [done|].
    exact (claim_error_wrap _ (DriverError text)). }
  destruct lines as [|line lines]; [done|]. cbn [claimLines].
  destruct (claimLine f 0 now id line db) as [db1|err] eqn:H1.
  { apply claimLine_parameters in H1 as [_ [o Ho]]. congruence. }
  intros [= <- <-]. eexists. split; [done|]. split; [done|]. revert H1.
  unfold claimLine, claimReservation, exec_stmt. destruct (flt_stmt f 0) as [[text applied]|].
  - cbn. intros [= <-]. exact (claim_error_wrap _ (DriverError text)).
  - unfold insertReservation. rewrite Hid. cbn. intros [= <-].
    exact (claim_error_wrap _ (PgError "22P02" "")).
Qed.

Lemma attempts_unreadable_wp i attempts id lines db :
  uuid_in id = None → lines ≠ [] → attempts ≠ 0 →
  store_wp i (reserve_attempts attempts id lines)
    (λ r _, ∃ err, r = Err err ∧ ∀ id', err ≠ gave_up id') db.
Proof.
  intros Hid Hne Hpos. destruct attempts as [|attempts]; [done|].
  cbn [reserve_attempts]. apply wp_vis. intros db1 Hg1 Hwf1 found db2 [-> [f Hf]].
  split; [done|]. split; [reflexivity|]. subst found.
  destruct (store_Find f id db1) as [held|err] eqn:Hf.
  { apply find_held in Hf as (o & Ho & _). congruence. }
  destruct (negb _); [apply store_wp_ret; eauto|].
  unfold Claim. apply wp_bind; [apply _|]. apply wp_vis.
  intros db2 Hg2 Hwf2 claimed db3 (f' & now & Hc).
  destruct (claim_needs_uuid _ _ _ _ _ _ _ Hid Hne Hc) as (err' & -> & -> & He).
  split; [done|]. split; [reflexivity|]. apply wp_bind; [apply _|]. unfold describeFailure.
  destruct (describable err'); cbn [negb].
  - apply wp_vis. intros db4 Hg4 Hwf4 queried db5 [-> _]. split; [done|]. split; [reflexivity|].
    do 2 (apply store_wp_ret; intros ? _).
    destruct (describe_refusal_error err' lines queried He) as [-> Hgave]. apply store_wp_ret. eauto.
  - do 2 (apply store_wp_ret; intros ? _).
    destruct (describe_refusal_error err' lines (Err err') He) as [Hno Hgave].
    cbn [describe_refusal] in *. rewrite Hno. apply store_wp_ret. eauto.
Qed.

Lemma ReserveStock_wp i command db :
  store_wp i (ReserveStock_Execute command) (reserve_post command) db.
Proof.
  unfold ReserveStock_Execute, reserve_post.
  destruct (Canonicalize _ _) as [[id lines]|err] eqn:Hc.
  - destruct (Canonicalize_lines _ _ _ _ Hc) as (Hnd & Hne & _). destruct (uuid_in id) as [order|] eqn:Hid.
    + eapply wp_mono; [|apply (reserve_attempts_wp i claimAttempts id order lines); try done].
      intros [[]|err] db'; [|done]. intros Hh. by exists id, order, lines.
    + eapply wp_mono; [|by apply (attempts_unreadable_wp i claimAttempts id lines)].
      intros r db' (err & -> & Herr). done.
  - apply store_wp_ret. intros db' _. rewrite Canonicalize_eq in Hc.
    destruct (all_problems _ _); [done|]. injection Hc as <-. done.
Qed.

(** ** The system *)

Lemma unstocked_sum db sku :
  inventory_wf db → stock_items db !! sku = None → reserved_sum sku (reservations db) = 0%Z.
Proof.
  intros Hwf Hsku.
  assert (∀ o s row, reservations db !! (o, s) = Some row → s ≠ sku) as Hne.
  { intros o s row Hrow ->. destruct (iw_rows _ Hwf _ _ _ Hrow) as [_ [? ?]]. congruence. }
  clear Hwf Hsku. revert Hne. induction (reservations db) as [|[o s] row m Hm IH] using map_ind; intros Hne.
  - done.
  - rewrite reserved_sum_insert by done. rewrite decide_False.
    + rewrite IH; [done|]. intros o' s' row' Hrow'. apply (Hne o' s' row').
      rewrite lookup_insert_ne; [done|]. intros [= <- <-]. congruence.
    + apply (Hne o s row). by rewrite lookup_insert_eq.
Qed.

Lemma warehouse_wf db db' : inventory_wf db → warehouse_step db db' → inventory_wf db'.
Proof.
  intros Hwf (Hres & sku & row & Hst & Hrow & Hsame). split; rewrite ?Hres, Hst.
  - intros s r. rewrite lookup_insert_Some. intros [[_ <-]|[_ Hr]]; [done|by eapply iw_stock].
  - intros s r. rewrite lookup_insert_Some. intros [[<- <-]|[_ Hr]]; [|by apply iw_reserved].
    rewrite Hsame. destruct (stock_items db !! sku) as [r0|] eqn:Hr0; [by apply iw_reserved|].
    symmetry. by apply unstocked_sum.
  - intros o s r Hr. destruct (iw_rows _ Hwf _ _ _ Hr) as [? [r' Hr']]. split; [done|].
    destruct (decide (sku = s)) as [<-|Hne]; [by rewrite lookup_insert_eq|].
    by rewrite lookup_insert_ne, Hr'.
Qed.

(** C6: However reservation requests interleave, with faults of the database, lost
    answers and deliveries to the warehouse in between, the tables keep their
    invariant: for every product the units promised are exactly what the orders
    hold, and never more than there are. A request that was answered yes has its
    whole basket held for its order, from then on; and no request ends in the
    use case's give-up error: the second look always finds the order that won. *)
Theorem inventory_service_sound (commands : list ReserveStockCommand) db c :
  inventory_wf db →
  rtc (pool_step store_step warehouse_step) (ReserveStock_Execute <$> commands, db) c →
  inventory_wf c.2
  ∧ ∀ i command r, commands !! i = Some command → c.1 !! i = Some (Ret r) →
      reserve_post command r c.2.
Proof.
  intros Hwf Hsteps.
  set (post := λ (i : nat) r db, ∀ command, commands !! i = Some command → reserve_post command r db).
  enough (inventory_wf c.2 ∧ ∀ i r, c.1 !! i = Some (Ret r) → post i r c.2) as [H1 H2].
  { split; [done|]. intros i command r Hi Hr. by apply (H2 i r Hr). }
  eapply (pool_adequate store_step warehouse_step inventory_wf grows grows); [..|exact Hsteps].
  - done.
  - intros i db1 db2 _ (Hres & _). unfold grows. by rewrite Hres.
  - apply warehouse_wf.
  - split; [done|]. cbn [fst snd]. intros i t Hi.
    apply list_lookup_fmap_Some in Hi as (command & -> & Hi).
    eapply wp_mono; [|apply ReserveStock_wp]. intros r db' Hr command' Hi'. congruence.
Qed.

(** ** Repeating a request *)

(** The store without faults, its clock at [now]. *)
Definition quiet_store (now : Z) R (e : storeE R) : inventory_db → R * inventory_db :=
  match e with
  | Find id => λ db, (store_Find no_faults id db, db)
  | claim id lines => λ db, store_claim no_faults now id lines db
  | availability lines => λ db, (store_availability no_faults lines db, db)
  end.

(** What the order holds, as [Find] answers it. *)
Definition held (order : uuid) (db : inventory_db) : list Line :=
  merge_sort line_collate (held_lines order db).

Lemma find_no_faults id order db :
  uuid_in id = Some order →
  store_Find no_faults id db
  = if bool_decide (held order db = []) then Err (inv ErrReservationNotFound) else Ok (held order db).
Proof. intros Hid. unfold store_Find, selectReservation, exec_stmt. cbn. by rewrite Hid. Qed.

Context {TextL : PostgresTextLaws Text}.

#[local] Instance line_collate_total : Total line_collate.
Proof.
  intros a b. destruct (string_le_total (ProductSKU a) (ProductSKU b)); [left|right];
    by apply collate_bytes.
Qed.

Lemma held_sorted order db : StronglySorted string_lt (ProductSKU <$> held order db).
Proof.
  apply sorted_strict.
  - apply Sorted_fmap_le. eapply Sorted_mono; [intros a b; apply collate_bytes|].
    by apply (Sorted_merge_sort line_collate).
  - unfold held. rewrite merge_sort_Permutation. unfold held_lines. rewrite <-list_fmap_compose.
    apply NoDup_fmap_inj_on; [|apply NoDup_map_to_list].
    intros [[o1 s1] r1] [[o2 s2] r2] H1 H2. cbn. intros ->.
    apply elem_of_map_to_list, map_lookup_filter_Some in H1 as [H1 E1].
    apply elem_of_map_to_list, map_lookup_filter_Some in H2 as [H2 E2].
    cbv in E1, E2. congruence.
Qed.

Lemma elem_of_held order db line :
  line ∈ held order db
  ↔ ∃ row, reservations db !! (order, ProductSKU line) = Some row ∧ rs_quantity row = Quantity line.
Proof. unfold held. rewrite merge_sort_Permutation. apply elem_of_held_lines. Qed.

(** An order that held nothing holds what it was granted. *)
Lemma held_grant now order lines db :
  held order db = [] → StronglySorted string_lt (ProductSKU <$> lines) →
  NoDup (ProductSKU <$> lines) → held order (grant now order lines db) = lines.
Proof.
  intros Hnone Hs Hnd. apply strictly_sorted_unique; [apply held_sorted|done|].
  intros line. rewrite elem_of_held. split.
  - intros (row & Hrow & Hq). destruct (decide (Exists (λ l, ProductSKU l = ProductSKU line) lines)) as [He|He].
    + apply Exists_exists in He as (l & Hl & Heq). rewrite <-Heq, grant_lookup in Hrow by done.
      injection Hrow as <-. cbn in Hq. destruct l, line. cbn in *. by subst.
    + rewrite grant_other in Hrow.
      * exfalso. apply (not_elem_of_nil line). rewrite <-Hnone. apply elem_of_held. by exists row.
      * intros l Hl [= Heq]. apply He, Exists_exists. by exists l.
  - intros Hl. eexists. split; [by apply grant_lookup|done].
Qed.

(** Without faults the loop's answer comes from what the order holds and, when it
    holds nothing, from the verdict of the claim. *)
Lemma quiet_attempts now attempts id order lines db :
  inventory_wf db → uuid_in id = Some order → NoDup (ProductSKU <$> lines) → lines ≠ [] →
  held order db ≠ [] →
  run (quiet_store now) (reserve_attempts (S attempts) id lines) db
  = (confirmSameProducts (held order db) lines, db).
Proof.
  intros Hwf Hid Hnd Hne Hheld. cbn. rewrite (find_no_faults _ order) by done.
  by rewrite bool_decide_false.
Qed.

Lemma held_same order db db' : reservations db' = reservations db → held order db' = held order db.
Proof. intros Hr. unfold held, held_lines. by rewrite Hr. Qed.

(** A grant to another order is not seen. *)
Lemma held_grant_other now order order' lines db :
  order' ≠ order → held order (grant now order' lines db) = held order db.
Proof.
  intros Hne. unfold held, held_lines. do 3 f_equal. apply map_eq. intros k. apply option_eq.
  intros row. rewrite !map_lookup_filter_Some. apply and_iff_compat_r_strong. intros Hk.
  rewrite grant_other; [done|]. intros line _ ->. by apply Hne.
Qed.

(** What [Find] answers, whatever the connection does. *)
Lemma find_answers f id order db :
  uuid_in id = Some order →
  (store_Find f id db = Ok (held order db) ∧ held order db ≠ [])
  ∨ ∃ err, store_Find f id db = Err err ∧ (is_inv err ErrReservationNotFound = true → held order db = []).
Proof.
  intros Hid. destruct (store_Find f id db) as [lines|err] eqn:Hf.
  - left. pose proof Hf as (o & Ho & ->)%find_held. rewrite Hid in Ho. injection Ho as <-.
    split; [done|]. intros Hnil. unfold store_Find in Hf. destruct (exec_query _ _ _) as [ls|]; [|done].
    destruct (flt_rows f); [done|]. case_bool_decide as Hls; [done|]. injection Hf as ->. by apply Hls.
  - right. exists err. split; [done|]. intros Hm. destruct (held order db) as [|line ls] eqn:Hh; [done|].
    assert (line ∈ held order db) as (row & Hrow & _)%elem_of_held by (rewrite Hh; by left).
    rewrite (find_not_missing f id db order (ProductSKU line) Hid ltac:(by exists row) err Hf) in Hm. done.
Qed.

(** ** A request served while no other is *)

(** The warehouse may work meanwhile; the other threads of the pool, if any, may not be
    relied on. *)
Definition undisturbed (i : nat) (db db' : inventory_db) : Prop :=
  i = 0 → reservations db' = reservations db.
Definition by_first (i : nat) (_ _ : inventory_db) : Prop := i = 0.
#[local] Instance undisturbed_preorder i : PreOrder (undisturbed i).
Proof. split; unfold undisturbed; [done|]. intros x y z H1 H2 Hi. by rewrite H2, H1. Qed.

(** After a refusal of the claim, the answer is an error whatever the second query says. *)
Lemma refused_wp err id lines attempts (Q : inventory_result unit → inventory_db → Prop) db :
  claim_error err → (∀ err db, Q (Err err) db) →
  wp store_step inventory_wf undisturbed by_first 0
    (claimed ← (err' ← describeFailure err lines; mret (Err err' : inventory_result unit));
     match claimed with
     | Ok _ => mret (Ok tt)
     | Err err =>
         if is_inv err ErrReservationAlreadyClaimed then reserve_attempts attempts id lines
         else mret (Err err)
     end) Q db.
Proof.
  intros He HQ. unfold describeFailure. destruct (describable err); cbn [negb].
  - cbn. intros db1 _ Hwf queried db2 [-> _]. do 2 (split; [done|]).
    destruct (describe_refusal_error err lines queried He) as [-> _]. cbn. auto.
  - destruct (describe_refusal_error err lines (Err err) He) as [Hno _]. cbn [describe_refusal] in Hno.
    cbn. rewrite Hno. cbn. auto.
Qed.

Lemma first_request_wp attempts id order lines db :
  uuid_in id = Some order → NoDup (ProductSKU <$> lines) → lines ≠ [] →
  StronglySorted string_lt (ProductSKU <$> lines) →
  wp store_step inventory_wf undisturbed by_first 0 (reserve_attempts attempts id lines)
    (λ r db', r = Ok tt → held order db' = lines) db.
Proof.
  intros Hid Hnd Hne Hs. destruct attempts as [|attempts]; [by cbn|].
  cbn [reserve_attempts]. apply wp_vis. intros db1 _ Hwf1 found db2 [-> [f ->]].
  do 2 (split; [done|]). destruct (find_answers f id order db1 Hid) as [[-> Hh]|(err & -> & Hmiss)].
  { apply wp_ret. intros db2 Hr _. unfold confirmSameProducts. case_bool_decide as Heq; [|done].
    intros _. by rewrite (held_same _ db1 db2 (Hr eq_refl)). }
  destruct (is_inv err ErrReservationNotFound); cbn [negb]; [|by apply wp_ret].
  specialize (Hmiss eq_refl). unfold Claim. cbn [mbind prog_bind prog_bind_go trigger]. apply wp_vis.
  intros db2 Hr2 Hwf2 claimed db3 (f' & now & Hc). rewrite <-(held_same _ db1 db2 (Hr2 eq_refl)) in Hmiss.
  destruct (claim_outcome _ _ _ _ _ _ _ Hwf2 Hnd Hne Hc) as [Hwf3 Hout]. do 2 (split; [done|]).
  destruct claimed as [[]|err'].
  - destruct Hout as [[? _]|[(o & Ho & _ & ->) _]]; [done|]. rewrite Hid in Ho. injection Ho as <-.
    apply wp_ret. intros db4 Hr4 _ _. rewrite (held_same _ _ db4 (Hr4 eq_refl)). by apply held_grant.
  - destruct (store_claim_error _ _ _ _ _ _ _ Hwf2 Hnd Hc) as [He|(-> & o & line & Ho & Hl & row & Hrow)].
    + by apply (refused_wp err' id lines attempts).
    + rewrite Hid in Ho. injection Ho as <-. exfalso.
      apply (not_elem_of_nil (mkLine (ProductSKU line) (rs_quantity row))).
      rewrite <-Hmiss. apply elem_of_held. by exists row.
Qed.

Lemma first_request command id order lines db db' :
  inventory_wf db → Canonicalize (rsc_OrderID command) (rsc_Lines command) = Ok (id, lines) →
  uuid_in id = Some order →
  rtc (pool_step store_step warehouse_step) ([ReserveStock_Execute command], db) ([Ret (Ok tt)], db') →
  inventory_wf db' ∧ held order db' = lines.
Proof.
  intros Hwf Hc Hid Hsteps. pose proof (Canonicalize_lines _ _ _ _ Hc) as (Hnd & Hne & Hs & _).
  destruct (pool_adequate store_step warehouse_step inventory_wf undisturbed by_first
    (λ _ (r : inventory_result unit) db', r = Ok tt → held order db' = lines)) with (c := ([ReserveStock_Execute command], db))
    (c' := ([Ret (Ok tt) : prog storeE (inventory_result unit)], db')) as [Hwf' Hpost].
  - intros i j w w' Hij Hj Hi. unfold by_first in Hj. congruence.
  - intros i w w' _ (Hr & _) _. done.
  - exact warehouse_wf.
  - split; [done|]. intros [|i] t Hi; [|done]. injection Hi as <-. cbn [snd].
    unfold ReserveStock_Execute. rewrite Hc. by apply first_request_wp.
  - exact Hsteps.
  - split; [done|]. by apply (Hpost 0 (Ok tt)).
Qed.

(** ** The requests after it *)

(** The answers to later requests, of which those for [order] find [lines]. *)
Definition repeat_answer (order : uuid) (lines : list Line) (command : ReserveStockCommand)
    (r : inventory_result unit) : Prop :=
  match Canonicalize (rsc_OrderID command) (rsc_Lines command) with
  | Err err => r = Err err
  | Ok (id, asked) => uuid_in id = Some order →
      (asked = lines ∧ r = Ok tt)
      ∨ (asked ≠ lines ∧ r = Err (Leaf (IdempotencyConflictError lines asked)))
      ∨ ∃ err, r = Err (Wrap "find reservation" err)
  end.

Definition anything (i : nat) (_ _ : inventory_db) : Prop := True.
#[local] Instance anything_preorder i : PreOrder (anything i).
Proof. by split. Qed.

Section repeated.
Context (order : uuid) (lines : list Line) (Hlines : lines ≠ []).

Definition keeps_basket (db : inventory_db) : Prop := inventory_wf db ∧ held order db = lines.
Abbreviation later_wp := (wp store_step keeps_basket anything anything).

Lemma describeFailure_later i err asked Q db :
  (∀ err db, Q err db) → later_wp i (describeFailure err asked) Q db.
Proof.
  intros HQ. unfold describeFailure. destruct (negb _); [by apply wp_ret; auto|].
  apply wp_vis. intros db1 _ Hk queried db2 [-> _]. do 2 (split; [done|]). apply wp_ret. auto.
Qed.

(** A claim for another order leaves the basket alone. *)
Lemma claim_keeps i id asked db r db' :
  uuid_in id ≠ Some order → NoDup (ProductSKU <$> asked) → asked ≠ [] → keeps_basket db →
  store_step i _ (claim id asked) db r db' → keeps_basket db'.
Proof.
  intros Hid Hnd Hne [Hwf Hh] (f & now & Hc).
  destruct (claim_outcome _ _ _ _ _ _ _ Hwf Hnd Hne Hc) as [Hwf' [[_ ->]|[(o & Ho & _ & ->) _]]]; [done|].
  split; [done|]. rewrite held_grant_other; [done|]. congruence.
Qed.

Lemma other_order_wp i attempts id asked db :
  uuid_in id ≠ Some order → NoDup (ProductSKU <$> asked) → asked ≠ [] →
  later_wp i (reserve_attempts attempts id asked) (λ _ _, True) db.
Proof.
  intros Hid Hnd Hne. revert db. induction attempts as [|attempts IH]; intros db; [done|].
  cbn [reserve_attempts]. apply wp_vis. intros db1 _ Hk1 found db2 [-> _]. do 2 (split; [done|]).
  destruct found as [found|err]; [done|]. destruct (negb _); [done|].
  unfold Claim. apply wp_bind; [apply _|]. apply wp_vis. intros db2 _ Hk2 claimed db3 Hc.
  split; [by eapply claim_keeps|]. split; [done|].
  assert (∀ (r : inventory_result unit) db, later_wp i (match r with
    | Ok _ => mret (Ok tt)
    | Err err => if is_inv err ErrReservationAlreadyClaimed then reserve_attempts attempts id asked
                 else mret (Err err)
    end) (λ _ _, True) db) as Hrest.
  { intros [[]|err'] db4; [done|]. by destruct (is_inv err' _). }
  destruct claimed as [[]|err']; [by apply wp_ret; auto|].
  apply wp_bind; [apply _|]. apply describeFailure_later. intros err4 db4. apply wp_ret.
  intros db5 _ _. exact (Hrest (Err err4) db5).
Qed.

Lemma repeated_wp i command db :
  later_wp i (ReserveStock_Execute command) (λ r _, repeat_answer order lines command r) db.
Proof.
  unfold ReserveStock_Execute, repeat_answer.
  destruct (Canonicalize _ _) as [[id asked]|err] eqn:Hc; [|done].
  pose proof (Canonicalize_lines _ _ _ _ Hc) as (Hnd & Hne & _).
  destruct (decide (uuid_in id = Some order)) as [Hid|Hid].
  2:{ eapply wp_mono; [|by apply other_order_wp]. by intros r db' _ ?. }
  unfold claimAttempts. cbn [reserve_attempts]. apply wp_vis.
  intros db1 _ [Hwf1 Hh1] found db2 [-> [f ->]]. do 2 (split; [done|]).
  destruct (find_answers f id order db1 Hid) as [[-> _]|(err & -> & Hmiss)].
  - rewrite Hh1. unfold confirmSameProducts. case_bool_decide; apply wp_ret; intros ? _ _ _; auto.
  - destruct (is_inv err _); [by rewrite Hmiss in Hh1|]. apply wp_ret. intros ? _ _ _. eauto.
Qed.
End repeated.

(** C29: The order id is an idempotency key for requests that do not overlap the first.
    Let a request be answered yes while no other is served, the warehouse working and
    the connection failing as they like. From then on, whatever requests are served, in
    any number and interleaving and with any faults, the order holds exactly the lines
    of that request, and every request for the order - however it spells the id and
    words its lines - is answered by them: yes when it reduces to the same lines, a
    refusal with what is held and what was asked when it does not, the error of its
    lookup when that failed; a request that is not valid is answered with its problems.
    Without a fault the answer is one of the first two and changes nothing. (Of two first
    requests that overlap, with different products, both can be answered yes:
    [disjoint_baskets_share_order].) *)
Theorem reserve_idempotent command commands id order lines db db' c :
  inventory_wf db →
  Canonicalize (rsc_OrderID command) (rsc_Lines command) = Ok (id, lines) → uuid_in id = Some order →
  rtc (pool_step store_step warehouse_step) ([ReserveStock_Execute command], db) ([Ret (Ok tt)], db') →
  rtc (pool_step store_step warehouse_step) (ReserveStock_Execute <$> commands, db') c →
  held order c.2 = lines
  ∧ (∀ i command' r, commands !! i = Some command' → c.1 !! i = Some (Ret r) →
       repeat_answer order lines command' r)
  ∧ ∀ now command' id' asked,
      Canonicalize (rsc_OrderID command') (rsc_Lines command') = Ok (id', asked) → uuid_in id' = Some order →
      run (quiet_store now) (ReserveStock_Execute command') c.2
      = (if bool_decide (asked = lines) then Ok tt
         else Err (Leaf (IdempotencyConflictError lines asked)), c.2).
Proof.
  intros Hwf Hc Hid Hfirst Hsteps. destruct (first_request _ _ _ _ _ _ Hwf Hc Hid Hfirst) as [Hwf' Hheld].
  pose proof (Canonicalize_lines _ _ _ _ Hc) as (_ & Hne & _).
  destruct (pool_adequate store_step warehouse_step (keeps_basket order lines) anything anything
    (λ i r _, ∀ command', commands !! i = Some command' → repeat_answer order lines command' r))
    with (c := (ReserveStock_Execute <$> commands, db')) (c' := c) as [[Hwfc Hheldc] Hpost]; try done.
  - intros w w' [Hw Hh] Henv. split; [by eapply warehouse_wf|]. destruct Henv as [Hr _].
    by rewrite (held_same _ _ _ Hr).
  - split; [done|]. cbn [fst snd]. intros i t Hi.
    apply list_lookup_fmap_Some in Hi as (command' & -> & Hi).
    eapply wp_mono; [|by apply (repeated_wp order lines Hne)]. intros r db1 Hr command1 Hi1. congruence.
  - split; [done|]. split; [intros i command' r Hi Hr; by apply (Hpost i r Hr)|].
    intros now command' id' asked Hc' Hid'. unfold ReserveStock_Execute. rewrite Hc'.
    pose proof (Canonicalize_lines _ _ _ _ Hc') as (Hnd' & Hne' & _).
    unfold claimAttempts. rewrite (quiet_attempts _ _ _ order) by (done || by rewrite Hheldc).
    rewrite Hheldc. unfold confirmSameProducts. by rewrite (bool_decide_ext (lines = asked) (asked = lines)) by done.
Qed.
End inventory_service.

(** ** The service at work *)
Definition sample_command : ReserveStockCommand := mkReserveStockCommand "o1" sample_basket.
Definition sample_commands : list ReserveStockCommand :=
  [sample_command; mkReserveStockCommand " o1" [mkLine "B" 3; mkLine "A" 2];
   mkReserveStockCommand "o2" [mkLine "A" 4]].

Lemma inventory_service_sound_witness :
  inventory_wf sample_stock
  ∧ ∀ c, rtc (pool_step store_step warehouse_step)
      (ReserveStock_Execute <$> sample_commands, sample_stock) c →
    inventory_wf c.2
    ∧ ∀ i command r, sample_commands !! i = Some command → c.1 !! i = Some (Ret r) →
        reserve_post command r c.2.
Proof.
  split; [exact sample_stock_wf|]. intros c.
  exact (inventory_service_sound sample_commands sample_stock c sample_stock_wf).
Defined.

Lemma sample_verdict order : claim_verdict order sample_basket sample_stock = Ok tt.
Proof. unfold claim_verdict, sample_basket, verdict. cbn. by rewrite !lookup_empty. Qed.

Lemma sample_run order :
  uuid_in "o1" = Some order →
  run (quiet_store 7) (ReserveStock_Execute sample_command) sample_stock
  = (Ok tt, grant 7 order sample_basket sample_stock).
Proof.
  intros Ho. unfold ReserveStock_Execute. cbn [rsc_OrderID rsc_Lines sample_command].
  rewrite sample_canonical by reflexivity. unfold claimAttempts. cbn [reserve_attempts].
  unfold Claim. cbn [run trigger mbind prog_bind prog_bind_go quiet_store].
  rewrite (find_no_faults _ order) by done.
  assert (held order sample_stock = []) as ->.
  { unfold held, held_lines. cbn. by rewrite map_filter_empty, map_to_list_empty. }
  rewrite bool_decide_true by done.
  change (is_inv (inv ErrReservationNotFound) ErrReservationNotFound) with true. cbn [negb].
  cbn [run trigger mbind prog_bind prog_bind_go quiet_store].
  rewrite (claim_is_verdict 7 "o1" order) by first [apply sample_stock_wf | apply sample_basket_ok | done].
  by rewrite sample_verdict.
Qed.

(** A pool that runs one request by itself. *)
Lemma run_alone order :
  uuid_in "o1" = Some order →
  rtc (pool_step store_step warehouse_step) ([ReserveStock_Execute sample_command], sample_stock)
    ([Ret (Ok tt)], grant 7 order sample_basket sample_stock).
Proof.
  intros Ho. pose proof (run_pool store_step warehouse_step (quiet_store 7)
    (ReserveStock_Execute sample_command) sample_stock) as Hp.
  rewrite (sample_run order Ho) in Hp. apply Hp. intros R e w.
  destruct e; cbn; [by eauto| |by eauto]. exists no_faults, 7%Z. apply surjective_pairing.
Qed.

(** The same basket in other words, and another basket. *)
Lemma reserve_idempotent_witness :
  ∃ order, uuid_in "o1" = Some order
  ∧ run (quiet_store 9) (ReserveStock_Execute (mkReserveStockCommand " o1" sample_basket))
      (grant 7 order sample_basket sample_stock)
    = (Ok tt, grant 7 order sample_basket sample_stock)
  ∧ ∀ c, rtc (pool_step store_step warehouse_step)
        (ReserveStock_Execute <$> sample_commands, grant 7 order sample_basket sample_stock) c →
      held order c.2 = sample_basket
      ∧ ∀ r, c.1 !! 0 = Some (Ret r) → repeat_answer order sample_basket sample_command r.
Proof.
  destruct (sample_uuid_parses "o1" eq_refl) as [order Ho]. exists order. split; [exact Ho|].
  pose proof (λ c, reserve_idempotent sample_command sample_commands "o1" order sample_basket
    sample_stock (grant 7 order sample_basket sample_stock) c sample_stock_wf
    (sample_canonical "o1" eq_refl) Ho (run_alone order Ho)) as Hall.
  split.
  - destruct (Hall _ (rtc_refl _ _)) as (_ & _ & Hrun). cbn [snd] in Hrun.
    rewrite (Hrun 9%Z (mkReserveStockCommand " o1" sample_basket) "o1" sample_basket);
      [by rewrite bool_decide_true|by apply sample_canonical|exact Ho].
  - intros c Hc. destruct (Hall c Hc) as (Hheld & Hans & _). split; [exact Hheld|].
    intros r Hr. by apply (Hans 0).
Defined.

(** ** Two baskets under one order id *)

Definition one_of (sku : string) : list Line := [mkLine sku 1].
Lemma one_of_canonical sku : TrimSpace sku = sku → sku ≠ "" →
  Canonicalize "o1" (one_of sku) = Ok ("o1", one_of sku).
Proof.
  intros Htrim Hne. apply Canonicalize_iff.
  assert (∀ s, line_total (one_of sku) s = if decide (sku = s) then 1%Z else 0%Z) as Ht.
  { intros s. unfold one_of. rewrite line_total_singleton. cbn. by rewrite Htrim. }
  split; [|split; [reflexivity|split; [repeat constructor|]]].
  - split; [by apply sample_uuid_parses|]. split; [cbn; lia|]. split.
    + repeat constructor; cbn; rewrite ?Htrim; try done; lia.
    + intros s. rewrite Ht. case_decide; lia.
  - intros s q. unfold one_of, names. rewrite list_elem_of_singleton, Exists_cons, Exists_nil.
    fold (one_of sku). rewrite Ht. cbn. rewrite Htrim.
    split; [intros [= -> ->]|intros [[->|[]] ->]]; by rewrite decide_True; auto.
Qed.

Definition disjoint_commands : list ReserveStockCommand :=
  [mkReserveStockCommand "o1" (one_of "A"); mkReserveStockCommand "o1" (one_of "B")].
Definition both_granted (order : uuid) : inventory_db :=
  grant 8 order (one_of "B") (grant 7 order (one_of "A") sample_stock).

Lemma sample_find_nothing order :
  uuid_in "o1" = Some order → store_Find no_faults "o1" sample_stock = Err (inv ErrReservationNotFound).
Proof.
  intros Ho. rewrite (find_no_faults _ order) by done. unfold held, held_lines. cbn.
  by rewrite map_filter_empty, map_to_list_empty.
Qed.

Lemma one_of_claim now sku order db :
  uuid_in "o1" = Some order → inventory_wf db → line_ok (mkLine sku 1) →
  verdict order db (mkLine sku 1) = Ok tt →
  store_claim no_faults now "o1" (one_of sku) db = (Ok tt, grant now order (one_of sku) db).
Proof.
  intros Ho Hwf Hok Hv. rewrite (claim_is_verdict now "o1" order); [|done|apply NoDup_singleton|done|by constructor].
  unfold claim_verdict, one_of. cbn. by rewrite Hv.
Qed.

(** The store's conflict is one over a product of an order, not over the order id: two
    requests that carry one order id and disjoint baskets can both be answered yes,
    when each looks before the other has held anything, and the order then holds
    both baskets. *)
Theorem disjoint_baskets_share_order :
  ∃ order c, uuid_in "o1" = Some order
    ∧ rtc (pool_step store_step warehouse_step)
        (ReserveStock_Execute <$> disjoint_commands, sample_stock) c
    ∧ c.1 = [Ret (Ok tt); Ret (Ok tt)]
    ∧ held order c.2 = [mkLine "A" 1; mkLine "B" 1].
Proof.
  destruct (sample_uuid_parses "o1" eq_refl) as [order Ho].
  exists order, ([Ret (Ok tt); Ret (Ok tt)], both_granted order). split; [exact Ho|].
  assert (verdict order sample_stock (mkLine "A" 1) = Ok tt) as Hv1
    by (unfold verdict; cbn; by rewrite lookup_empty).
  assert (inventory_wf (grant 7 order (one_of "A") sample_stock)) as Hwf1.
  { apply grant_line_wf; [apply sample_stock_wf|done|done]. }
  assert (verdict order (grant 7 order (one_of "A") sample_stock) (mkLine "B" 1) = Ok tt) as Hv2.
  { unfold one_of, grant. cbn [foldl]. rewrite verdict_grant_line by done.
    unfold verdict; cbn; by rewrite lookup_empty. }
  split.
  - cbn [fmap list_fmap disjoint_commands]. unfold ReserveStock_Execute. cbn [rsc_OrderID rsc_Lines].
    rewrite !one_of_canonical by done.
    eapply rtc_l; [apply (pool_thread store_step warehouse_step 0 _ (Find "o1")); [reflexivity|];
      split; [reflexivity|]; exists no_faults; symmetry; by apply (sample_find_nothing order)|].
    eapply rtc_l; [apply (pool_thread store_step warehouse_step 1 _ (Find "o1")); [reflexivity|];
      split; [reflexivity|]; exists no_faults; symmetry; by apply (sample_find_nothing order)|].
    eapply rtc_l; [apply (pool_thread store_step warehouse_step 0 _ (claim "o1" (one_of "A")));
      [reflexivity|]; exists no_faults, 7%Z; apply (one_of_claim 7 "A" order); try done|].
    { apply sample_stock_wf. }
    eapply rtc_l; [apply (pool_thread store_step warehouse_step 1 _ (claim "o1" (one_of "B")));
      [reflexivity|]; exists no_faults, 8%Z; apply (one_of_claim 8 "B" order); try done|].
    reflexivity.
  - split; [done|]. cbn [snd]. apply strictly_sorted_unique; [apply held_sorted|repeat constructor|].
    + discriminate.
    + intros [sku q]. rewrite elem_of_held. unfold both_granted, grant, one_of. cbn.
      split.
      * intros (row & Hrow & Hq).
        apply lookup_insert_Some in Hrow as [[[= <-] <-]|[_ Hrow]]; [cbn in Hq; subst; right; by left|].
        apply lookup_insert_Some in Hrow as [[[= <-] <-]|[_ Hrow]]; [cbn in Hq; subst; by left|].
        by rewrite lookup_empty in Hrow.
      * intros [[= -> ->]|[[= -> ->]|[]%elem_of_nil]%elem_of_cons]%elem_of_cons; eexists.
        -- by rewrite lookup_insert_ne, lookup_insert_eq.
        -- by rewrite lookup_insert_eq.
Qed.
