(* ===== verification/InventoryGrpc.v ===== *)
(** * The gRPC API of inventory-service

    The messages of [inventory.v1], and package [grpcapi]: the conversion of a
    request, the table from application errors to statuses, and their details. *)
From S2P Require Import Prelude GoErrors GoStrings External Prog Correlation InventoryErrors ReservationStore ReserveStock.

(** ** Messages and statuses *)

(** The generated messages, as their getters read them. *)
Record protoReservationLine := mkProtoReservationLine { prl_ProductSku : string; prl_Quantity : Z }.
Record protoShortfall := mkProtoShortfall { ps_ProductSku : string; ps_Requested : Z; ps_Available : Z }.
Record ReserveStockRequest := mkReserveStockRequest {
  req_OrderId : string;
  req_Lines : list protoReservationLine;
}.

(** [google.golang.org/grpc/codes]. *)
Inductive code :=
| OK | CodeCanceled | Unknown | InvalidArgument | CodeDeadlineExceeded | NotFound | AlreadyExists
| PermissionDenied | ResourceExhausted | FailedPrecondition | Aborted | OutOfRange | Unimplemented
| Internal | Unavailable | DataLoss | Unauthenticated.
#[export] Instance code_eq_dec : EqDecision code.
Proof. solve_decision. Defined.

(** The messages a status can carry; any other type is [OtherDetail]. *)
Inductive detail :=
| ErrorInfo (Reason Domain : string) (Metadata : list (string * string))
| BadRequest (FieldViolations : list FieldViolation)
| InsufficientStockDetail (Shortfalls : list protoShortfall)
| UnknownProductsDetail (ProductSkus : list string)
| IdempotencyConflictDetail (Held Requested : list protoReservationLine)
| OtherDetail (type_url : string).

Record Status := mkStatus { st_Code : code; st_Message : string; st_Details : list detail }.

(** [Status.WithDetails] fails on a message that does not marshal. *)
Class StatusLib : Type := { marshals : list detail → bool }.
#[export] Instance sample_statuses : StatusLib := {| marshals _ := true |}.

(** ** Conversions *)

(* @go inventory-service/internal/inventory/adapter/inbound/grpcapi/convert.go insufficientStockDetailFrom *)
Definition insufficientStockDetailFrom (shortfalls : list Shortfall) : detail :=
  InsufficientStockDetail ((λ shortfall,
    mkProtoShortfall (sf_ProductSKU shortfall) (sf_Requested shortfall) (sf_Available shortfall))
    <$> shortfalls).

(* @go inventory-service/internal/inventory/adapter/inbound/grpcapi/convert.go badRequestFrom *)
Definition badRequestFrom (violations : list FieldViolation) (omitted : Z) : detail :=
  BadRequest (violations
    ++ if (0 <? omitted)%Z
       then [mkFieldViolation "lines" (Itoa omitted +:+ " further violations were not reported")]
       else []).

(* @go inventory-service/internal/inventory/adapter/inbound/grpcapi/convert.go reservationLinesFrom *)
Definition reservationLinesFrom (lines : list Line) : list protoReservationLine :=
  (λ line, mkProtoReservationLine (ProductSKU line) (Quantity line)) <$> lines.

(** ** Statuses *)
Section server.
Context {Uuid : UuidLib} {Statuses : StatusLib}.

(* @go inventory-service/internal/inventory/adapter/inbound/grpcapi/errors.go errorDomain *)
Definition errorDomain : string := "inventory.v1".
(* @go inventory-service/internal/inventory/adapter/inbound/grpcapi/errors.go reasonInvalidRequest *)
Definition reasonInvalidRequest : string := "INVALID_REQUEST".
(* @go inventory-service/internal/inventory/adapter/inbound/grpcapi/errors.go reasonInsufficientStock *)
Definition reasonInsufficientStock : string := "INSUFFICIENT_STOCK".
(* @go inventory-service/internal/inventory/adapter/inbound/grpcapi/errors.go reasonUnknownProductSKU *)
Definition reasonUnknownProductSKU : string := "UNKNOWN_PRODUCT_SKU".
(* @go inventory-service/internal/inventory/adapter/inbound/grpcapi/errors.go reasonIdempotencyConflict *)
Definition reasonIdempotencyConflict : string := "IDEMPOTENCY_CONFLICT".
(* @go inventory-service/internal/inventory/adapter/inbound/grpcapi/errors.go reasonInternal *)
Definition reasonInternal : string := "INTERNAL".

(* @go inventory-service/internal/inventory/adapter/inbound/grpcapi/errors.go Server.status *)
Definition status (ctx : correlation.Context) (c : code) (message reason : string)
    (details : list detail) : Status :=
  let requestID := correlation.FromContext ctx in
  let metadata := if bool_decide (requestID = "") then [] else [("request_id", requestID)] in
  let all := ErrorInfo reason errorDomain metadata :: details in
  if marshals all then mkStatus c message all else mkStatus c message [].

(* @go inventory-service/internal/inventory/adapter/inbound/grpcapi/errors.go Server.statusFor *)
Definition statusFor (ctx : correlation.Context) (err : inventory_error) : Status :=
  match errors_As as_InvalidRequest err with
  | Some (violations, omitted) =>
      status ctx InvalidArgument "the request could not be validated" reasonInvalidRequest
        [badRequestFrom violations omitted]
  | None =>
  match errors_As as_InsufficientStock err with
  | Some shortfalls =>
      status ctx FailedPrecondition "insufficient stock" reasonInsufficientStock
        [insufficientStockDetailFrom shortfalls]
  | None =>
  if is_inv err ErrInsufficientStock
  then status ctx FailedPrecondition "insufficient stock" reasonInsufficientStock []
  else
  match errors_As as_UnknownProductSKU err with
  | Some skus =>
      status ctx NotFound "unknown product sku" reasonUnknownProductSKU [UnknownProductsDetail skus]
  | None =>
  if is_inv err ErrUnknownProductSKU
  then status ctx NotFound "unknown product sku" reasonUnknownProductSKU []
  else
  match errors_As as_IdempotencyConflict err with
  | Some (held, requested) =>
      status ctx AlreadyExists "this order id was already used for a different set of lines"
        reasonIdempotencyConflict
        [IdempotencyConflictDetail (reservationLinesFrom held) (reservationLinesFrom requested)]
  | None =>
  if is_inv err Canceled then mkStatus CodeCanceled "the call was cancelled" []
  else if is_inv err DeadlineExceeded then mkStatus CodeDeadlineExceeded "the call ran out of time" []
  else status ctx Internal "an unexpected error occurred" reasonInternal []
  end end end end.

Definition command_of (request : ReserveStockRequest) : ReserveStockCommand :=
  mkReserveStockCommand (req_OrderId request)
    ((λ line, mkLine (prl_ProductSku line) (prl_Quantity line)) <$> req_Lines request).

(** The handler: an empty response, or a status. Its log line is not modelled. *)
(* @go inventory-service/internal/inventory/adapter/inbound/grpcapi/server.go Server.ReserveStock *)
Definition server_ReserveStock (ctx : correlation.Context) (request : ReserveStockRequest)
    : prog storeE (result Status unit) :=
  executed ← ReserveStock_Execute (command_of request);
  match executed with
  | Err err => mret (Err (statusFor ctx err))
  | Ok _ => mret (Ok tt)
  end.
End server.
