(* ===== verification/InventoryClient.v ===== *)
(** * The inventory client of order-service

    Package [inventorygrpc]: the request sent for a basket and the application
    error each status is turned into. *)
From S2P Require Import Prelude GoErrors GoStrings InventoryErrors OrderErrors OrderDomain InventoryGrpc OrderPorts.

(** [int32(line.Quantity)] keeps the low 32 bits. *)
(* @src order-service/internal/order/adapter/outbound/inventorygrpc/reserver.go:53-67 Reserver.Reserve *)
Definition request_of (request : ReservationRequest) : ReserveStockRequest :=
  mkReserveStockRequest (rr_OrderID request)
    ((λ line, mkProtoReservationLine (rl_ProductSKU line) (wrap32 (rl_Quantity line)))
     <$> rr_Lines request).

(** [basket] asks inventory-service for the identifier of [o] and, line by line, for its
    products and quantities, each quantity as the [int32] of the message. *)
Definition basket_of (o : Order) (basket : ReserveStockRequest) : Prop :=
  req_OrderId basket = ord_id o
  ∧ Forall2 (λ item line, prl_ProductSku line = productSKU item
        ∧ prl_Quantity line = wrap32 (quantity item)) (ord_orderItems o) (req_Lines basket).

Lemma request_of_basket o request : asks_for o request → basket_of o (request_of request).
Proof.
  intros [Hid Hlines]. split; [exact Hid|]. cbn. apply Forall2_fmap_r.
  eapply Forall2_impl; [exact Hlines|]. intros item line [E1 E2]. cbn. by rewrite E1, E2.
Qed.

(** The names of the two codes that are printed. *)
Definition code_String (c : code) : string :=
  match c with
  | Unavailable => "Unavailable"
  | CodeDeadlineExceeded => "DeadlineExceeded"
  | _ => ""
  end.

(** The first detail of the right type decides. *)
(* @go order-service/internal/order/adapter/outbound/inventorygrpc/reserver.go shortfallsFrom *)
Fixpoint shortfallsFrom (details : list detail) : list OrderShortfall :=
  match details with
  | [] => []
  | InsufficientStockDetail shortfalls :: _ =>
      (λ shortfall, mkOrderShortfall (ps_ProductSku shortfall) (ps_Requested shortfall)
                      (ps_Available shortfall)) <$> shortfalls
  | _ :: details' => shortfallsFrom details'
  end.

(* @go order-service/internal/order/adapter/outbound/inventorygrpc/reserver.go describeLines *)
Definition client_describeLines (lines : list protoReservationLine) : string :=
  "[" +:+ strings_Join ((λ line, prl_ProductSku line +:+ " x" +:+ Itoa (prl_Quantity line)) <$> lines)
            ", " +:+ "]".

(* @src order-service/internal/order/adapter/outbound/inventorygrpc/reserver.go:141-164 describeRejection *)
Definition describe_detail (d : detail) : option string :=
  match d with
  | UnknownProductsDetail skus => Some ("unknown skus: " +:+ strings_Join skus ", ")
  | IdempotencyConflictDetail held requested =>
      Some ("order id holds " +:+ client_describeLines held +:+ " but this request asked for "
            +:+ client_describeLines requested)
  | BadRequest violations =>
      Some (strings_Join ((λ v, Field v +:+ " " +:+ Description v)
                          <$> violations) "; ")
  | _ => None
  end.

(* @go order-service/internal/order/adapter/outbound/inventorygrpc/reserver.go describeRejection *)
Definition describeRejection (statusValue : Status) : string :=
  strings_Join (st_Message statusValue :: omap describe_detail (st_Details statusValue)) "; ".

Section reserver.
(** The text of a status error, which only appears in an error's text. *)
Variable status_text : Status → string.

(* @go order-service/internal/order/adapter/outbound/inventorygrpc/reserver.go statusError *)
Definition statusError (statusValue : Status) : order_error :=
  match st_Code statusValue with
  | FailedPrecondition =>
      match shortfallsFrom (st_Details statusValue) with
      | [] => app ErrInsufficientStock
      | shortfalls => Leaf (InsufficientStockError shortfalls)
      end
  | NotFound | InvalidArgument | AlreadyExists =>
      Note (sentinel ErrInventoryRejectedRequest) (describeRejection statusValue)
  | Unavailable | CodeDeadlineExceeded =>
      Note (app ErrInventoryUnavailable) (code_String (st_Code statusValue))
  | _ => Wrap "reserve stock" (Opaque (status_text statusValue))
  end.

(** The port over a client that answers [call]; a deadline of its own is one of the
    statuses the client answers. *)
(* @go order-service/internal/order/adapter/outbound/inventorygrpc/reserver.go Reserver.Reserve *)
Definition reserver_Reserve (call : ReserveStockRequest → result Status unit)
    (request : ReservationRequest) : order_result unit :=
  match call (request_of request) with
  | Err statusValue => Err (statusError statusValue)
  | Ok _ => Ok tt
  end.
End reserver.
