(* ===== verification/InventoryContract.v ===== *)
(** * Between the two services

    What order-service learns through [Reserver.Reserve] of what inventory-service
    did: the meaning of each error across the gRPC boundary, and of a success. *)
From S2P Require Import Prelude GoErrors GoStrings External Postgres Prog Correlation OrderErrors OrderPorts.
From S2P Require Import InventoryErrors InventoryCanonical ReservationStore ReserveStock ReservationSpec InventoryService.
From S2P Require Import InventoryGrpc InventoryClient.

Abbreviation order_ErrInsufficientStock := OrderErrors.ErrInsufficientStock.
Abbreviation order_as_InsufficientStock := OrderErrors.as_InsufficientStock.

Section errors.
Context {Statuses : StatusLib}.
Variable status_text : Status → string.

(** The error [Reserve] returns when the use case ended with [err]. *)
Definition order_view (ctx : correlation.Context) (err : inventory_error) : order_error :=
  statusError status_text (statusFor ctx err).

Lemma status_code ctx c message reason details :
  st_Code (status ctx c message reason details) = c.
Proof. unfold status. by destruct (marshals _). Qed.

Lemma statusError_other s :
  st_Code s = CodeCanceled ∨ st_Code s = Internal →
  ∃ text, statusError status_text s = Wrap "reserve stock" (Opaque text).
Proof. unfold statusError. intros [->| ->]; eauto. Qed.

Lemma statusError_rejected s :
  st_Code s = NotFound ∨ st_Code s = InvalidArgument ∨ st_Code s = AlreadyExists →
  statusError status_text s = Note (sentinel ErrInventoryRejectedRequest) (describeRejection s).
Proof. unfold statusError. by intros [->|[->| ->]]. Qed.

Lemma statusError_short s :
  st_Code s = FailedPrecondition →
  is_app (statusError status_text s) order_ErrInsufficientStock = true
  ∧ is_app (statusError status_text s) ErrInventoryUnavailable = false
  ∧ errors_Is (statusError status_text s) ErrInventoryRejectedRequest = false.
Proof. unfold statusError. intros ->. by destruct (shortfallsFrom _). Qed.

Lemma short_is err shortfalls :
  errors_As as_InsufficientStock err = Some shortfalls → is_inv err ErrInsufficientStock = true.
Proof. apply (errors_As_Is (L := inventory_leaf)). intros [] ? H; first [discriminate H | done]. Qed.
Lemma unknown_is err skus :
  errors_As as_UnknownProductSKU err = Some skus → is_inv err ErrUnknownProductSKU = true.
Proof. apply (errors_As_Is (L := inventory_leaf)). intros [] ? H; first [discriminate H | done]. Qed.

(** C31: The meaning of an error survives the boundary. Whatever error the use case ends
    with, order-service sees a lack of stock exactly when inventory reported one (and
    not an invalid request); it sees inventory as unavailable, the one error it
    retries, exactly when the call ran out of time before a verdict; and it sees its
    request rejected exactly when inventory refused the request itself. *)
Theorem error_meaning ctx err :
  let invalid := bool_decide (is_Some (errors_As as_InvalidRequest err)) in
  let short := is_inv err ErrInsufficientStock in
  let unknown := is_inv err ErrUnknownProductSKU in
  let conflict := bool_decide (is_Some (errors_As as_IdempotencyConflict err)) in
  is_app (order_view ctx err) order_ErrInsufficientStock = negb invalid && short
  ∧ errors_Is (order_view ctx err) ErrInventoryRejectedRequest
    = invalid || negb short && (unknown || conflict)
  ∧ is_app (order_view ctx err) ErrInventoryUnavailable
    = negb invalid && negb short && negb unknown && negb conflict
      && negb (is_inv err Canceled) && is_inv err DeadlineExceeded.
Proof.
  cbv zeta. unfold order_view, statusFor.
  destruct (errors_As as_InvalidRequest err) as [[violations omitted]|].
  { rewrite statusError_rejected by (rewrite status_code; auto). by rewrite bool_decide_true. }
  rewrite (bool_decide_false (is_Some None)) by (by intros []).
  destruct (errors_As as_InsufficientStock err) as [shortfalls|] eqn:Hs.
  { rewrite (short_is err shortfalls) by done.
    destruct (statusError_short (status ctx FailedPrecondition "insufficient stock"
      reasonInsufficientStock [insufficientStockDetailFrom shortfalls])) as (-> & -> & ->);
      [apply status_code|done]. }
  destruct (is_inv err ErrInsufficientStock) eqn:Hshort.
  { destruct (statusError_short (status ctx FailedPrecondition "insufficient stock"
      reasonInsufficientStock [])) as (-> & -> & ->); [apply status_code|done]. }
  destruct (errors_As as_UnknownProductSKU err) as [skus|] eqn:Hu.
  { rewrite (unknown_is err skus) by done.
    by rewrite statusError_rejected by (rewrite status_code; auto). }
  destruct (is_inv err ErrUnknownProductSKU).
  { by rewrite statusError_rejected by (rewrite status_code; auto). }
  destruct (errors_As as_IdempotencyConflict err) as [[held requested]|].
  { rewrite statusError_rejected by (rewrite status_code; auto). by rewrite bool_decide_true. }
  rewrite (bool_decide_false (is_Some None)) by (by intros []).
  destruct (is_inv err Canceled); [done|]. destruct (is_inv err DeadlineExceeded); [done|].
  by destruct (statusError_other (status ctx Internal "an unexpected error occurred"
    reasonInternal [])) as [text ->]; [right; apply status_code|].
Qed.

(** C32: The shortfalls of a refusal reach order-service as inventory stated them: the same
    products in the same order with the same two numbers, when there are any and the
    status could carry them; and otherwise the refusal arrives without details. *)
Theorem shortfalls_survive ctx shortfalls :
  errors_As order_as_InsufficientStock (order_view ctx (Leaf (InsufficientStockError shortfalls)))
  = if bool_decide (shortfalls = [])
       || negb (marshals [ErrorInfo reasonInsufficientStock errorDomain
            (if bool_decide (correlation.FromContext ctx = "") then []
             else [("request_id", correlation.FromContext ctx)]);
            insufficientStockDetailFrom shortfalls])
    then None
    else Some ((λ s, mkOrderShortfall (sf_ProductSKU s) (sf_Requested s) (sf_Available s))
                 <$> shortfalls).
Proof.
  unfold order_view, statusFor. cbn [errors_As as_InvalidRequest as_InsufficientStock].
  unfold status. destruct (marshals _); [|by rewrite orb_true_r]. rewrite orb_false_r.
  unfold statusError. cbn. destruct shortfalls as [|s shortfalls]; [done|].
  rewrite bool_decide_false by done. cbn. by rewrite <-list_fmap_compose.
Qed.
End errors.

(** ** What a success means *)
Section success.
Context {Uuid : UuidLib} {Pg : Postgres} {Text : PostgresText Uuid} {Statuses : StatusLib}.

(** The quantity a basket asks of a product, spelled as inventory spells it. *)
Definition basket_total (lines : list ReservationLine) (sku : string) : Z :=
  foldr (λ line sum, rl_Quantity line + sum)%Z 0%Z
    (filter (λ line, TrimSpace (rl_ProductSKU line) = sku) lines).

Lemma request_total request sku :
  Forall (λ line, in_int32 (rl_Quantity line)) (rr_Lines request) →
  line_total (rsc_Lines (command_of (request_of request))) sku = basket_total (rr_Lines request) sku.
Proof.
  unfold line_total, basket_total. cbn. induction 1 as [|line lines Hq _ IH]; [done|].
  cbn [fmap list_fmap]. rewrite !filter_cons. cbn [ProductSKU prl_ProductSku].
  case_decide; [|exact IH]. cbn. by rewrite IH, wrap32_id.
Qed.

Lemma request_names request line :
  line ∈ rr_Lines request →
  names (rsc_Lines (command_of (request_of request))) (TrimSpace (rl_ProductSKU line)).
Proof.
  intros Hl. apply Exists_exists. cbn.
  exists (mkLine (rl_ProductSKU line) (wrap32 (rl_Quantity line))). split; [|done].
  rewrite <-list_fmap_compose. apply list_elem_of_fmap. by exists line.
Qed.

(** A yes stays true. *)
Lemma yes_grows i command db db' :
  reserve_post command (Ok tt) db → grows i db db' → reserve_post command (Ok tt) db'.
Proof.
  intros (id & order & lines & Hc & Hid & Hh) Hg. exists id, order, lines.
  split_and!; [done..|]. by eapply holds_grows.
Qed.

Lemma server_wp i ctx request db :
  wp store_step inventory_wf grows grows i (server_ReserveStock ctx request)
    (λ r db', r = Ok tt → reserve_post (command_of request) (Ok tt) db') db.
Proof.
  apply wp_bind; [apply _|]. eapply wp_mono; [|apply ReserveStock_wp].
  intros [[]|err] db1 Hpost; [|by apply store_wp_ret]. apply store_wp_ret.
  intros db2 Hg _. by eapply yes_grows.
Qed.

(** An order answered yes holds, of every product of the basket, what the basket asks. *)
Definition basket_held (request : ReservationRequest) (db : inventory_db) : Prop :=
  ∃ order, uuid_in (TrimSpace (rr_OrderID request)) = Some order
    ∧ ∀ line, line ∈ rr_Lines request →
        ∃ row, reservations db !! (order, TrimSpace (rl_ProductSKU line)) = Some row
          ∧ rs_quantity row = basket_total (rr_Lines request) (TrimSpace (rl_ProductSKU line)).

Lemma answered_basket request db :
  reserve_post (command_of (request_of request)) (Ok tt) db →
  Forall (λ line, in_int32 (rl_Quantity line)) (rr_Lines request) → basket_held request db.
Proof.
  intros (id & order & lines & Hc & Hid & Hh) Hfit.
  apply Canonicalize_iff in Hc as (Hacc & -> & _ & Hlines).
  exists order. split; [done|]. intros line Hl.
  destruct (Hh (mkLine (TrimSpace (rl_ProductSKU line))
                 (basket_total (rr_Lines request) (TrimSpace (rl_ProductSKU line)))))
    as (row & Hrow & Hq).
  { apply Hlines. split; [by apply request_names|]. by rewrite request_total. }
  by exists row.
Qed.

(** C14: A reservation order-service is told it has is held. However the calls of any
    number of clients interleave in inventory-service, with faults, lost answers and
    deliveries: when [Reserve] is answered without an error for a basket whose
    quantities fit the 32 bits they are sent in, inventory holds for that order, and
    keeps holding, every product of the basket with the sum of the quantities the
    basket asks of it, and for no product more than the warehouse has. *)
Theorem reserved_means_held (calls : list (correlation.Context * ReservationRequest)) db c :
  inventory_wf db →
  rtc (pool_step store_step warehouse_step)
    ((λ call, server_ReserveStock call.1 (request_of call.2)) <$> calls, db) c →
  (∀ sku row, stock_items c.2 !! sku = Some row →
     (reserved_sum sku (reservations c.2) ≤ sk_on_hand row)%Z)
  ∧ ∀ i ctx request answer, calls !! i = Some (ctx, request) → c.1 !! i = Some (Ret answer) →
      reserver_Reserve (λ _, "") (λ _, answer) request = Ok tt →
      Forall (λ line, in_int32 (rl_Quantity line)) (rr_Lines request) →
      ∃ order, uuid_in (TrimSpace (rr_OrderID request)) = Some order
        ∧ ∀ line, line ∈ rr_Lines request →
            ∃ row, reservations c.2 !! (order, TrimSpace (rl_ProductSKU line)) = Some row
              ∧ rs_quantity row = basket_total (rr_Lines request) (TrimSpace (rl_ProductSKU line)).
Proof.
  intros Hwf Hsteps.
  set (post := λ (i : nat) (r : result Status unit) db, ∀ call, calls !! i = Some call →
    r = Ok tt → reserve_post (command_of (request_of call.2)) (Ok tt) db).
  assert (inventory_wf c.2 ∧ ∀ i r, c.1 !! i = Some (Ret r) → post i r c.2) as [Hwf' Hpost].
  { eapply (pool_adequate store_step warehouse_step inventory_wf grows grows); [..|exact Hsteps].
    - done.
    - intros i db1 db2 _ (Hres & _). unfold grows. by rewrite Hres.
    - apply warehouse_wf.
    - split; [done|]. cbn [fst snd]. intros i t Hi.
      apply list_lookup_fmap_Some in Hi as ([ctx request] & -> & Hi).
      eapply wp_mono; [|apply server_wp]. intros r db' Hr call Hi' ->.
      rewrite Hi in Hi'. injection Hi' as <-. by apply Hr. }
  split.
  { intros sku row Hrow. rewrite <-(iw_reserved _ Hwf' _ _ Hrow).
    apply (iw_stock _ Hwf' _ _ Hrow). }
  intros i ctx request answer Hi Hr Hok Hfit.
  assert (answer = Ok tt) as -> by (unfold reserver_Reserve in Hok; by destruct answer as [[]|]).
  exact (answered_basket request c.2 (Hpost i _ Hr _ Hi eq_refl) Hfit).
Qed.
End success.

Definition sample_calls : list (correlation.Context * ReservationRequest) :=
  [(correlation.Background, mkReservationRequest "o1" [mkReservationLine "A" 2; mkReservationLine " A" 1]);
   (correlation.Background, mkReservationRequest "o2" [mkReservationLine "A" 4])].

Lemma reserved_means_held_witness :
  inventory_wf sample_stock
  ∧ ∀ c, rtc (pool_step store_step warehouse_step)
      ((λ call, server_ReserveStock call.1 (request_of call.2)) <$> sample_calls, sample_stock) c →
    (∀ sku row, stock_items c.2 !! sku = Some row →
       (reserved_sum sku (reservations c.2) ≤ sk_on_hand row)%Z)
    ∧ ∀ i ctx request answer, sample_calls !! i = Some (ctx, request) → c.1 !! i = Some (Ret answer) →
        reserver_Reserve (λ _, "") (λ _, answer) request = Ok tt →
        Forall (λ line, in_int32 (rl_Quantity line)) (rr_Lines request) →
        ∃ order, uuid_in (TrimSpace (rr_OrderID request)) = Some order
          ∧ ∀ line, line ∈ rr_Lines request →
              ∃ row, reservations c.2 !! (order, TrimSpace (rl_ProductSKU line)) = Some row
                ∧ rs_quantity row = basket_total (rr_Lines request) (TrimSpace (rl_ProductSKU line)).
Proof.
  split; [exact sample_stock_wf|]. intros c.
  exact (reserved_means_held sample_calls sample_stock c sample_stock_wf).
Defined.
