(* ===== verification/HttpApi.v ===== *)
(** * The HTTP API of order-service

    Package [httpgin]: POST /orders from the header and the body to the use case and
    back, and the table from use-case errors to responses. *)
From S2P Require Import Prelude GoErrors GoStrings External Correlation OrderErrors OrderDomain Prog OrderPorts CreateOrder.

(** ** Requests *)

(* @go order-service/internal/order/adapter/inbound/httpgin/request.go createOrderItemRequest *)
Record createOrderItemRequest := mkItemRequest { cir_ProductSKU : string; cir_Quantity : Z }.
(** [None] stands for a nil slice. *)
(* @go order-service/internal/order/adapter/inbound/httpgin/request.go createOrderRequest *)
Record createOrderRequest := mkOrderRequest {
  cor_CustomerID : string;
  cor_CustomerEmail : string;
  cor_Items : option (list createOrderItemRequest);
}.

(** The decoder and two rules of the validator. *)
Class BindingLib : Type := {
  decode_body : string → option createOrderRequest;
  uuid_rule : string → bool;
  email_rule : string → bool;
}.

(** A field that failed a rule, and the rule. *)
Definition fieldError : Type := string * string.

(* @go order-service/internal/order/adapter/inbound/httpgin/request.go createOrderRequest.toCommand *)
Definition toCommand (request : createOrderRequest) (idempotencyKey : string) : CreateOrderCommand := {|
  coc_IdempotencyKey := idempotencyKey;
  coc_CustomerID := cor_CustomerID request;
  coc_CustomerEmail := cor_CustomerEmail request;
  coc_Items := (λ item, mkCreateOrderItem (cir_ProductSKU item) (cir_Quantity item))
               <$> default [] (cor_Items request);
|}.

(** ** Responses *)

(* @go order-service/internal/order/adapter/inbound/httpgin/errors.go shortfallBody *)
Record shortfallBody := mkShortfallBody { sb_ProductSKU : string; sb_Requested : Z; sb_Available : Z }.
(** What [gin.H] is given as details. *)
Inductive details :=
| product_skus (skus : list string)
| shortfalls (bodies : list shortfallBody).
(* @go order-service/internal/order/adapter/inbound/httpgin/errors.go errorBody *)
Record errorBody := mkErrorBody {
  eb_Code : string;
  eb_Message : string;
  eb_Details : option details;
  eb_RequestID : string;
}.
(* @go order-service/internal/order/adapter/inbound/httpgin/response.go moneyResponse *)
Record moneyResponse := mkMoneyResponse { mr_AmountInCents : Z; mr_Currency : string }.
(* @go order-service/internal/order/adapter/inbound/httpgin/response.go orderItemResponse *)
Record orderItemResponse := mkItemResponse {
  oir_LineNumber : Z;
  oir_ProductSKU : string;
  oir_Quantity : Z;
  oir_UnitPrice : moneyResponse;
}.
(* @go order-service/internal/order/adapter/inbound/httpgin/response.go orderResponse *)
Record orderResponse := mkOrderResponse {
  ors_ID : string;
  ors_CustomerID : string;
  ors_CustomerEmail : string;
  ors_Status : string;
  ors_Items : list orderItemResponse;
  ors_Total : moneyResponse;
  ors_CreatedAt : Z;
  ors_UpdatedAt : Z;
}.
Inductive body := ErrorResponse (b : errorBody) | OrderResponse (r : orderResponse).
Record response := mkResponse { status : Z; content : body }.

(* @src order-service/internal/order/adapter/inbound/httpgin/response.go:33-46 orderResponseFrom *)
Definition itemResponseFrom (index : nat) (orderItem : OrderItem) : orderItemResponse :=
  mkItemResponse (Z.of_nat index + 1) (productSKU orderItem) (quantity orderItem)
    (mkMoneyResponse (AmountInCents (unitPrice orderItem)) (Currency (unitPrice orderItem))).

(* @go order-service/internal/order/adapter/inbound/httpgin/response.go orderResponseFrom *)
Definition orderResponseFrom (order : Order) : orderResponse := {|
  ors_ID := ord_id order;
  ors_CustomerID := ord_customerID order;
  ors_CustomerEmail := ord_customerEmail order;
  ors_Status := ord_status order;
  ors_Items := imap itemResponseFrom (ord_orderItems order);
  ors_Total := mkMoneyResponse (AmountInCents (ord_total order)) (Currency (ord_total order));
  ors_CreatedAt := ord_createdAt order;
  ors_UpdatedAt := ord_updatedAt order;
|}.

(* @go order-service/internal/order/adapter/inbound/httpgin/errors.go shortfallBodiesFrom *)
Definition shortfallBodiesFrom (s : list OrderShortfall) : list shortfallBody :=
  (λ shortfall, mkShortfallBody (osf_ProductSKU shortfall) (osf_Requested shortfall)
                  (osf_Available shortfall)) <$> s.

Section handler.
Context {Mail : MailLib} {Binding : BindingLib} (ctx : correlation.Context).

(* @go order-service/internal/order/adapter/inbound/httpgin/errors.go respondErrorWithDetails *)
Definition respondErrorWithDetails (st : Z) (code message : string) (d : option details) : response :=
  mkResponse st (ErrorResponse (mkErrorBody code message d (correlation.FromContext ctx))).
(* @go order-service/internal/order/adapter/inbound/httpgin/errors.go respondError *)
Definition respondError (st : Z) (code message : string) : response :=
  respondErrorWithDetails st code message None.
(* @go order-service/internal/order/adapter/inbound/httpgin/errors.go respondInternalError *)
Definition respondInternalError : response :=
  respondError 500 "internal_error" "an unexpected error occurred".

(* @go order-service/internal/order/adapter/inbound/httpgin/errors.go respondUseCaseError *)
Definition respondUseCaseError (err : order_error) : response :=
  match errors_As as_ProductNotFound err with
  | Some skus => respondErrorWithDetails 422 "product_not_found"
      "one or more products do not exist" (Some (product_skus skus))
  | None =>
  if is_app err ErrProductNotFound
  then respondError 422 "product_not_found" "one or more products do not exist"
  else if is_app err ErrCatalogUnavailable
  then respondError 503 "catalog_unavailable"
         "the product catalog is temporarily unavailable, retry shortly"
  else
  match errors_As as_InsufficientStock err with
  | Some s => respondErrorWithDetails 409 "insufficient_stock"
      "one or more items are not available in the requested quantity"
      (Some (shortfalls (shortfallBodiesFrom s)))
  | None =>
  if is_app err ErrInsufficientStock
  then respondError 409 "insufficient_stock"
         "one or more items are not available in the requested quantity"
  else if is_app err ErrInventoryUnavailable
  then respondError 503 "inventory_unavailable" "inventory is temporarily unavailable, retry shortly"
  else if is_dom err ErrInvalidOrder || is_dom err ErrInvalidOrderItem || is_dom err ErrInvalidMoney
          || is_dom err ErrInvalidStatusTransition
  then respondError 422 "validation_failed" "the order was rejected by a business rule"
  else respondInternalError
  end end.

(** The name a validation error gives a field: what the router registers takes it from the
    [json] tag, and the library falls back on the field's own name. *)
(* @src order-service/internal/order/adapter/inbound/httpgin/router.go:74-81 useJSONFieldNamesInValidationErrors *)
Definition json_name (tag : string) : string :=
  let '(name, _, _) := strings_Cut tag (Ascii.ascii_of_nat 44) in
  if bool_decide (name = "-") then "" else name.
Definition field_name (field tag : string) : string :=
  if bool_decide (json_name tag = "") then field else json_name tag.

(** The rules of the tags, the first a field fails; the items' in their order. *)
(* @src order-service/internal/order/adapter/inbound/httpgin/request.go:13-16 createOrderItemRequest *)
Definition item_errors (item : createOrderItemRequest) : list fieldError :=
  (if bool_decide (cir_ProductSKU item = "") then [(field_name "ProductSKU" "product_sku", "required")] else [])
  ++ (if (cir_Quantity item =? 0)%Z then [(field_name "Quantity" "quantity", "required")]
      else if (cir_Quantity item <=? 0)%Z then [(field_name "Quantity" "quantity", "gt")] else []).
(* @src order-service/internal/order/adapter/inbound/httpgin/request.go:7-11 createOrderRequest *)
Definition binding_errors (request : createOrderRequest) : list fieldError :=
  (if bool_decide (cor_CustomerID request = "") then [(field_name "CustomerID" "customer_id", "required")]
   else if negb (uuid_rule (cor_CustomerID request)) then [(field_name "CustomerID" "customer_id", "uuid")] else [])
  ++ (if bool_decide (cor_CustomerEmail request = "") then [(field_name "CustomerEmail" "customer_email", "required")]
      else if negb (email_rule (cor_CustomerEmail request)) then [(field_name "CustomerEmail" "customer_email", "email")] else [])
  ++ match cor_Items request with
     | None => [(field_name "Items" "items", "required")]
     | Some [] => [(field_name "Items" "items", "min")]
     | Some items => items ≫= item_errors
     end.

(** [ShouldBindJSON]: the request, or the field errors, [None] when the body does not
    decode. *)
Definition ShouldBindJSON (b : string) : result (option (list fieldError)) createOrderRequest :=
  match decode_body b with
  | None => Err None
  | Some request =>
      match binding_errors request with
      | [] => Ok request
      | errs => Err (Some errs)
      end
  end.

(* @go order-service/internal/order/adapter/inbound/httpgin/errors.go describeBindingError *)
Definition describeBindingError (err : option (list fieldError)) : string :=
  match err with
  | None => "the request body could not be parsed"
  | Some errs => strings_Join ((λ e, e.1 +:+ " failed the " +:+ Quote e.2 +:+ " rule") <$> errs) "; "
  end.

(* @go order-service/internal/order/adapter/inbound/httpgin/order_handler.go OrderHandler.Create *)
Definition OrderHandler_Create (header b : string) : prog orderE response :=
  let idempotencyKey := TrimSpace header in
  if bool_decide (idempotencyKey = "")
  then mret (respondError 400 "invalid_request" "the Idempotency-Key header is required")
  else
  match ShouldBindJSON b with
  | Err err => mret (respondError 400 "invalid_request" (describeBindingError err))
  | Ok request =>
      executed ← Execute (toCommand request idempotencyKey);
      match executed with
      | Err err => mret (respondUseCaseError err)
      | Ok result =>
          let st := if cor_Created result then 201%Z else 200%Z in
          mret (mkResponse st (OrderResponse (orderResponseFrom (cor_Order result))))
      end
  end.

(** ** What a client may conclude *)

(** C36: Each response says one thing about the error: 409 that stock was lacking, 503 that
    the catalogue or inventory could not answer, 422 that a product does not exist or
    a business rule was broken, and 500 everything else, with one fixed text, so that
    no error of the database, the broker or a codec reaches a client. A missing product
    takes precedence over an unavailable catalogue, that over lacking stock, that over
    unavailable inventory. *)
Theorem error_responses err :
  let st := status (respondUseCaseError err) in
  let missing := is_app err ErrProductNotFound in
  let catalog := is_app err ErrCatalogUnavailable in
  let short := is_app err ErrInsufficientStock in
  let inventory := is_app err ErrInventoryUnavailable in
  let broken := is_dom err ErrInvalidOrder || is_dom err ErrInvalidOrderItem
                || is_dom err ErrInvalidMoney || is_dom err ErrInvalidStatusTransition in
  (st = 409%Z ↔ short ∧ ¬ missing ∧ ¬ catalog)
  ∧ (st = 503%Z ↔ ¬ missing ∧ (catalog ∨ ¬ short ∧ inventory))
  ∧ (st = 422%Z ↔ missing ∨ ¬ catalog ∧ ¬ short ∧ ¬ inventory ∧ broken)
  ∧ (st = 500%Z ↔ ¬ missing ∧ ¬ catalog ∧ ¬ short ∧ ¬ inventory ∧ ¬ broken)
  ∧ (st = 500%Z → respondUseCaseError err = respondInternalError).
Proof.
  cbv zeta. unfold respondUseCaseError.
  destruct (errors_As as_ProductNotFound err) as [skus|] eqn:Hp.
  { rewrite (as_ProductNotFound_is _ _ Hp). cbn. naive_solver. }
  destruct (is_app err ErrProductNotFound); [cbn; naive_solver|].
  destruct (is_app err ErrCatalogUnavailable); [cbn; naive_solver|].
  destruct (errors_As as_InsufficientStock err) as [s|] eqn:Hs.
  { rewrite (as_InsufficientStock_is _ _ Hs). cbn. naive_solver. }
  destruct (is_app err ErrInsufficientStock); [cbn; naive_solver|].
  destruct (is_app err ErrInventoryUnavailable); [cbn; naive_solver|].
  destruct (_ || _); cbn; naive_solver.
Qed.

(** What a body must say to be accepted. *)
Definition request_valid (request : createOrderRequest) : Prop :=
  cor_CustomerID request ≠ "" ∧ uuid_rule (cor_CustomerID request) = true
  ∧ cor_CustomerEmail request ≠ "" ∧ email_rule (cor_CustomerEmail request) = true
  ∧ ∃ items, cor_Items request = Some items ∧ items ≠ []
      ∧ Forall (λ item, cir_ProductSKU item ≠ "" ∧ (0 < cir_Quantity item)%Z) items.

Lemma item_errors_none item : item_errors item = [] ↔ cir_ProductSKU item ≠ "" ∧ (0 < cir_Quantity item)%Z.
Proof.
  unfold item_errors. case_bool_decide as Hsku; [split; [done|by intros [? _]]|].
  destruct (_ =? _)%Z eqn:H1; [|destruct (_ <=? _)%Z eqn:H2]; reflect_bools;
    (split; [intros H; first [discriminate H|split; [done|lia]]|intros [_ ?]; first [done|exfalso; lia]]).
Qed.

Lemma items_errors_none items :
  items ≫= item_errors = [] ↔ Forall (λ item, cir_ProductSKU item ≠ "" ∧ (0 < cir_Quantity item)%Z) items.
Proof.
  induction items as [|item items IH]; [done|].
  rewrite bind_cons, Forall_cons, <-item_errors_none, <-IH. split; [apply app_nil|]. by intros [-> ->].
Qed.

Lemma binding_errors_none request : binding_errors request = [] ↔ request_valid request.
Proof.
  unfold binding_errors, request_valid.
  destruct (bool_decide (cor_CustomerID request = "")) eqn:H1; reflect_bools; [naive_solver|].
  destruct (uuid_rule _); [|naive_solver].
  destruct (bool_decide (cor_CustomerEmail request = "")) eqn:H2; reflect_bools; [naive_solver|].
  destruct (email_rule _); [|naive_solver]. cbn [negb]. rewrite !app_nil_l.
  destruct (cor_Items request) as [[|item items]|]; [naive_solver| |naive_solver].
  rewrite items_errors_none. split; [intros H; split_and!; eauto|by intros (_ & _ & _ & _ & ? & [= <-] & _ & ?)].
Qed.

Lemma ShouldBindJSON_ok b request :
  ShouldBindJSON b = Ok request ↔ decode_body b = Some request ∧ request_valid request.
Proof.
  unfold ShouldBindJSON. destruct (decode_body b) as [r|]; [|naive_solver].
  destruct (binding_errors r) eqn:Hb.
  - apply binding_errors_none in Hb. naive_solver.
  - split; [done|]. intros [[= ->] Hv%binding_errors_none]. congruence.
Qed.

(** The command for [request] under [key]. *)
Definition commands (request : createOrderRequest) (key : string) (command : CreateOrderCommand) : Prop :=
  coc_IdempotencyKey command = key ∧ coc_CustomerID command = cor_CustomerID request
  ∧ coc_CustomerEmail command = cor_CustomerEmail request
  ∧ Forall2 (λ asked item, coi_ProductSKU item = cir_ProductSKU asked
        ∧ coi_Quantity item = cir_Quantity asked) (default [] (cor_Items request)) (coc_Items command).

Lemma toCommand_commands request key : commands request key (toCommand request key).
Proof. unfold commands. split_and!; [done..|]. cbn. apply Forall2_fmap_r, Forall_Forall2_diag, Forall_true. done. Qed.

(** [shown] is [order] as a client sees it, its lines numbered from 1. *)
Definition shows (order : Order) (shown : orderResponse) : Prop :=
  ors_ID shown = ord_id order ∧ ors_CustomerID shown = ord_customerID order
  ∧ ors_CustomerEmail shown = ord_customerEmail order ∧ ors_Status shown = ord_status order
  ∧ mr_AmountInCents (ors_Total shown) = AmountInCents (ord_total order)
  ∧ mr_Currency (ors_Total shown) = Currency (ord_total order)
  ∧ ors_CreatedAt shown = ord_createdAt order ∧ ors_UpdatedAt shown = ord_updatedAt order
  ∧ length (ors_Items shown) = length (ord_orderItems order)
  ∧ ∀ i item, ord_orderItems order !! i = Some item →
      ors_Items shown !! i = Some (mkItemResponse (Z.of_nat i + 1) (productSKU item) (quantity item)
        (mkMoneyResponse (AmountInCents (unitPrice item)) (Currency (unitPrice item)))).

Lemma orderResponseFrom_shows order : shows order (orderResponseFrom order).
Proof.
  unfold shows. split_and!; [done..| |]; cbn; [by rewrite length_imap|].
  intros i item Hi. by rewrite list_lookup_imap, Hi.
Qed.

(** The status and the code of the answer to an error of the use case. *)
Definition error_table (err : order_error) : Z * string :=
  if is_app err ErrProductNotFound then (422, "product_not_found")%Z
  else if is_app err ErrCatalogUnavailable then (503, "catalog_unavailable")%Z
  else if is_app err ErrInsufficientStock then (409, "insufficient_stock")%Z
  else if is_app err ErrInventoryUnavailable then (503, "inventory_unavailable")%Z
  else if is_dom err ErrInvalidOrder || is_dom err ErrInvalidOrderItem || is_dom err ErrInvalidMoney
          || is_dom err ErrInvalidStatusTransition then (422, "validation_failed")%Z
  else (500, "internal_error")%Z.

(** [answer] reports [err]: by the table, with the request's id; the one text of an
    internal error says nothing about it. *)
Definition reports (err : order_error) (answer : response) : Prop :=
  status answer = (error_table err).1
  ∧ ∃ shown, content answer = ErrorResponse shown ∧ eb_Code shown = (error_table err).2
      ∧ eb_RequestID shown = correlation.FromContext ctx
      ∧ ((error_table err).1 = 500%Z →
         eb_Message shown = "an unexpected error occurred" ∧ eb_Details shown = None).

Lemma respondUseCaseError_reports err : reports err (respondUseCaseError err).
Proof.
  unfold reports, error_table, respondUseCaseError.
  destruct (errors_As as_ProductNotFound err) as [skus|] eqn:Hp.
  { rewrite (as_ProductNotFound_is _ _ Hp). split; [done|]. by eexists. }
  destruct (is_app err ErrProductNotFound); [split; [done|by eexists]|].
  destruct (is_app err ErrCatalogUnavailable); [split; [done|by eexists]|].
  destruct (errors_As as_InsufficientStock err) as [s|] eqn:Hs.
  { rewrite (as_InsufficientStock_is _ _ Hs). split; [done|]. by eexists. }
  destruct (is_app err ErrInsufficientStock); [split; [done|by eexists]|].
  destruct (is_app err ErrInventoryUnavailable); [split; [done|by eexists]|].
  destruct (_ || _); (split; [done|by eexists]).
Qed.

(** C37: A request without an idempotency key, or with a body that does not decode or
    breaks a rule of its tags, is refused with 400 before any call is made. Any other
    request makes the calls of one run of the use case, for the command with the key and
    the fields of the body, under the use case's discipline. What the run returns is what
    the client is told: a result shows its order, one past pending that the repository
    holds, with 201 when this request stored it and 200 otherwise; an error is reported with
    the status and code of the table, an internal one with one fixed text. *)
Theorem Create_handler header b h resp :
  runs (OrderHandler_Create header b) h resp →
  (h = [] ∧ status resp = 400%Z
   ∧ (TrimSpace header = "" ∨ ∀ request, decode_body b = Some request → ¬ request_valid request))
  ∨ ∃ request command r, TrimSpace header ≠ "" ∧ decode_body b = Some request ∧ request_valid request
      ∧ commands request (TrimSpace header) command
      ∧ runs (Execute command) h r ∧ disciplined (create_order_rule command) h
      ∧ match r with
        | Ok result => create_order_post command h r
            ∧ status resp = (if cor_Created result then 201 else 200)%Z
            ∧ ∃ shown, content resp = OrderResponse shown ∧ shows (cor_Order result) shown
        | Err err => reports err resp
        end.
Proof.
  unfold OrderHandler_Create. cbv zeta. case_bool_decide as Hkey.
  { intros [-> ->]%runs_inv. left. auto. }
  destruct (ShouldBindJSON b) as [request|errs] eqn:Hbind.
  2:{ intros [-> ->]%runs_inv. left. split_and!; [done..|]. right. intros request Hd Hv.
      rewrite (proj2 (ShouldBindJSON_ok b request)) in Hbind by done. discriminate Hbind. }
  intros (h1 & h2 & r & -> & Hrun & Hrest)%runs_bind_inv. right.
  apply ShouldBindJSON_ok in Hbind as [Hdec Hvalid].
  destruct (respects_sound _ _ [] _ _ _ (disciplined_nil _)
    (Execute_respects (toCommand request (TrimSpace header))) Hrun) as [Hd Hpost].
  exists request, (toCommand request (TrimSpace header)), r.
  destruct r as [result|err]; apply runs_inv in Hrest as [-> ->]; rewrite app_nil_r;
    do 3 (split; [done|]); (split; [apply toCommand_commands|]); do 2 (split; [done|]).
  - split_and!; [done..|]. eexists. split; [done|]. apply orderResponseFrom_shows.
  - apply respondUseCaseError_reports.
Qed.

End handler.

(** A body that decodes and passes the rules. *)
Definition sample_binding : BindingLib := {|
  decode_body b := Some (mkOrderRequest "c-1" "a@b.example"
    (Some [mkItemRequest "SKU-A" 2; mkItemRequest "SKU-B" 1]));
  uuid_rule s := true;
  email_rule s := true;
|}.

(** The order is pending and the client gives up. *)
Lemma Create_handler_witness :
  let ctx := correlation.Background in
  let h := [Call (FindByIdempotencyKey "key-1") (Ok sample_order); Call CtxErr (Some Canceled)] in
  ∃ resp, runs (OrderHandler_Create (Binding := sample_binding) ctx " key-1" "{}") h resp
  ∧ status resp = 500%Z
  ∧ ∃ command r, coc_CustomerID command = "c-1" ∧ runs (Execute command) h r
      ∧ disciplined (create_order_rule command) h
      ∧ match r with Ok _ => False | Err err => reports ctx err resp end.
Proof.
  assert (∃ resp, runs (OrderHandler_Create (Binding := sample_binding)
    correlation.Background " key-1" "{}")
    [Call (FindByIdempotencyKey "key-1") (Ok sample_order); Call CtxErr (Some Canceled)] resp
    ∧ status resp = 500%Z) as (resp & Hrun & H500).
  { eexists. split; [do 2 refine (runs_vis _ _ _ _ _ _); exact (runs_ret _)|reflexivity]. }
  exists resp. split; [exact Hrun|]. split; [exact H500|].
  destruct (Create_handler (Binding := sample_binding) _ _ _ _ _ Hrun)
    as [(Hh & _)|(request & command & r & _ & Hdec & _ & (_ & Hid & _) & Hr & Hd & Hpost)];
    [discriminate Hh|]. injection Hdec as <-.
  exists command, r. do 3 (split; [done|]). destruct r as [result|err]; [|exact Hpost].
  destruct Hpost as (_ & Hst & _). rewrite H500 in Hst. by destruct (cor_Created result).
Defined.
