(* ===== verification/Router.v ===== *)
(** * The HTTP edge of order-service

    [httpgin.NewRouter] and its middleware: the chain that gives a request its id, logs
    it and turns a panic into a response, around the two endpoints and the two answers
    for requests that match neither. Matching a request to a route is gin's. *)
From S2P Require Import Prelude GoErrors GoStrings External Correlation OrderErrors OrderDomain Prog OrderPorts CreateOrder HttpApi.

(** ** Panics *)

(** The code behind a port may panic: [Crash] answers whether the next call does. *)
Inductive crashE : Type → Type := Crash : crashE bool.
Abbreviation httpE := (sumE orderE crashE).

(** A program any call of which may panic, which unwinds it: [None]. *)
Fixpoint crashing {A} (p : prog orderE A) : prog httpE (option A) :=
  match p with
  | Ret a => Ret (Some a)
  | Vis e k => Vis (inrE Crash) (λ crashed : bool,
      if crashed then Ret None else Vis (inlE e) (λ r, crashing (k r)))
  end.

(** ** Routes *)

(* @go order-service/internal/order/adapter/inbound/httpgin/router.go healthPath *)
Definition healthPath : string := "/healthz".
(* @go order-service/internal/order/adapter/inbound/httpgin/router.go ordersPath *)
Definition ordersPath : string := "/orders".
(* @src order-service/internal/order/adapter/inbound/httpgin/router.go:55-60 NewRouter *)
Definition routes : list (string * string) := [("GET", healthPath); ("POST", ordersPath)].

(** What gin finds for a method and a path. It answers a redirect itself, before any
    middleware, for a path that differs from a route's by a slash at its end. *)
Inductive routed := Route (method path : string) | NoRoute | NoMethod | Redirect (status : Z).
Class GinLib : Type := {
  gin_dispatch : list (string * string) → bool → string → string → routed;
}.
(** For routes without parameters and [HandleMethodNotAllowed] as given. *)
Class GinLaws (G : GinLib) : Prop := {
  dispatch_route : ∀ rs flag m p m' p',
    gin_dispatch rs flag m p = Route m' p' ↔ (m, p) ∈ rs ∧ m' = m ∧ p' = p;
  dispatch_no_method : ∀ rs m p,
    gin_dispatch rs true m p = NoMethod ↔ ((m, p) ∉ rs) ∧ p ∈ rs.*2;
}.

Record request := mkRequest {
  rq_Method : string;
  rq_Path : string;
  rq_RequestID : string;
  rq_IdempotencyKey : string;
  rq_Body : string;
}.
Inductive http_body := ApiBody (b : body) | HealthBody | LibraryBody.
Abbreviation answer := (Z * http_body)%type.
Definition of_response (r : response) : answer := (status r, ApiBody (content r)).

(** ** Middleware *)

Inductive level := InfoLevel | WarnLevel | ErrorLevel.
(** The fields of a log line that are not measured. *)
Record log_line := mkLogLine {
  ll_level : level;
  ll_request_id : string;
  ll_http_method : string;
  ll_http_route : string;
  ll_http_status : Z;
}.
(** The status and body, the request id header, and the line logged. *)
Record served := mkServed {
  sv_answer : answer;
  sv_request_id : option string;
  sv_log : option log_line;
}.

Section edge.
Context {Mail : MailLib} {Binding : BindingLib} {Gin : GinLib}.

(** A panic of the rest of the chain is answered by [respond]. *)
(* @go order-service/internal/order/adapter/inbound/httpgin/middleware/recovery.go Recovery *)
Definition Recovery {E} (respond : correlation.Context → answer)
    (next : correlation.Context → prog E (option answer)) (ctx : correlation.Context) : prog E answer :=
  outcome ← next ctx;
  mret (match outcome with Some a => a | None => respond ctx end).

(* @src order-service/internal/order/adapter/inbound/httpgin/middleware/logging.go:37-45 Logging *)
Definition log_level (st : Z) : level :=
  if (500 <=? st)%Z then ErrorLevel else if (400 <=? st)%Z then WarnLevel else InfoLevel.

(** [fullPath] is the route's, empty when none matched. *)
(* @go order-service/internal/order/adapter/inbound/httpgin/middleware/logging.go Logging *)
Definition Logging {E} (quietPaths : list string) (rq : request) (fullPath : string)
    (next : correlation.Context → prog E answer) (ctx : correlation.Context)
    : prog E (answer * option log_line) :=
  a ← next ctx;
  if bool_decide (rq_Path rq ∈ quietPaths) then mret (a, None)
  else mret (a, Some (mkLogLine (log_level a.1) (correlation.FromContext ctx) (rq_Method rq) fullPath a.1)).

(** The handler of what gin found; [None] is a panic. *)
(* @src order-service/internal/order/adapter/inbound/httpgin/router.go:41-60 NewRouter *)
Definition endpoint (rq : request) (found : routed) (ctx : correlation.Context)
    : prog httpE (option answer) :=
  match found with
  | Route _ path =>
      if bool_decide (path = healthPath) then Ret (Some (200%Z, HealthBody))
      else
      created ← crashing (OrderHandler_Create ctx (rq_IdempotencyKey rq) (rq_Body rq));
      Ret (option_map of_response created)
  | NoMethod => Ret (Some (of_response
      (respondError ctx 405 "invalid_request" "method not allowed for this endpoint")))
  | NoRoute | Redirect _ => Ret (Some (of_response
      (respondError ctx 404 "invalid_request" "no such endpoint")))
  end.

(** A request served; [buffer] is what the random source fills. *)
(* @go order-service/internal/order/adapter/inbound/httpgin/router.go NewRouter *)
Definition serve (buffer : list N) (rq : request) : prog httpE served :=
  match gin_dispatch routes true (rq_Method rq) (rq_Path rq) with
  | Redirect st => mret (mkServed (st, LibraryBody) None None)
  | found =>
      let fullPath := match found with Route _ path => path | _ => "" end in
      let '(requestID, ctx) := middleware.RequestID buffer (rq_RequestID rq) in
      logged ← Logging [healthPath] rq fullPath
        (Recovery (λ ctx, of_response (respondInternalError ctx)) (endpoint rq found)) ctx;
      mret (mkServed logged.1 (Some requestID) logged.2)
  end.

(** ** What a caller and an operator can rely on *)

(** The calls of the ports, and whether one panicked. *)
Definition port_call (c : call httpE) : option (call orderE) :=
  match c with
  | @Call _ R e r => match e in sumE _ _ R return R → option (call orderE) with
                     | inlE e => λ r, Some (Call e r) | inrE _ => λ _, None end r
  end.
Definition port_calls (h : list (call httpE)) : list (call orderE) := omap port_call h.
Definition panicked (h : list (call httpE)) : Prop := Call (inrE Crash) true ∈ h.

Lemma port_calls_app h h' : port_calls (h ++ h') = port_calls h ++ port_calls h'.
Proof. apply omap_app. Qed.

(** A panicking program keeps the discipline of its calls up to the panic. *)
Lemma crashing_runs {A} allowed (p : prog orderE A) h0 Q h r :
  disciplined allowed h0 → respects allowed p h0 Q → runs (crashing p) h r →
  disciplined allowed (h0 ++ port_calls h)
  ∧ match r with
    | Some a => Q (h0 ++ port_calls h) a ∧ runs p (port_calls h) a ∧ ¬ panicked h
    | None => panicked h
    end.
Proof.
  unfold panicked. intros Hd Hr Hruns. revert h0 h Hd Hr Hruns.
  induction p as [a|R e k IH]; cbn [crashing]; intros h0 h Hd Hr Hruns.
  { apply runs_inv in Hruns as [-> ->]. rewrite app_nil_r. split_and!; [done..|constructor|by apply not_elem_of_nil]. }
  apply runs_inv in Hruns as ([] & h1 & -> & Hruns).
  { apply runs_inv in Hruns as [-> ->]. rewrite app_nil_r. split; [done|]. by left. }
  apply runs_inv in Hruns as (v & h2 & -> & Hruns). cbn in Hr. destruct Hr as [Ha Hk].
  destruct (IH v (h0 ++ [Call e v]) h2) as [Hd' Hpost];
    [by apply disciplined_snoc|apply Hk|done|].
  rewrite <-app_assoc in Hd', Hpost. split; [exact Hd'|].
  assert (∀ c : call httpE, c = Call (inrE Crash) true →
    c ∈ Call (inrE Crash) false :: Call (inlE e) v :: h2 → c ∈ h2) as Hin.
  { intros c -> [Heq|[Heq|Hc]%elem_of_cons]%elem_of_cons; [| |done].
    - exfalso. apply (f_equal (λ c : call httpE, match c with
        | @Call _ R e r => match e in sumE _ _ R return R → bool with
                           | inlE _ => λ _, false
                           | inrE c => match c in crashE R return R → bool with Crash => λ b, b end
                           end r end)) in Heq. discriminate Heq.
    - exfalso. apply (f_equal port_call) in Heq. discriminate Heq. }
  destruct r as [a|].
  - destruct Hpost as (HQ & Hp & Hno). split_and!; [done|by constructor|]. intros Hc. by apply Hno, Hin.
  - by do 2 right.
Qed.
Arguments OrderHandler_Create : simpl never.

(** What the handler keeps: a call is made only for a valid body, within the discipline of
    the use case for the command of the body and the key. *)
Definition handler_rule (key b : string) (h : list (call orderE)) R (e : orderE R) : Prop :=
  ∃ request command, decode_body b = Some request ∧ request_valid request
    ∧ commands request (TrimSpace key) command ∧ create_order_rule command h R e.

(** The level a line is logged at. *)
Definition level_for (st : Z) (l : level) : Prop :=
  ((500 ≤ st)%Z ∧ l = ErrorLevel) ∨ ((400 ≤ st < 500)%Z ∧ l = WarnLevel) ∨ ((st < 400)%Z ∧ l = InfoLevel).

(** An error answered without details. *)
Definition answers_error (id : string) (st : Z) (code message : string) (a : answer) : Prop :=
  a = (st, ApiBody (ErrorResponse (mkErrorBody code message None id))).

Lemma log_level_for st : level_for st (log_level st).
Proof.
  unfold level_for, log_level. destruct (_ <=? _)%Z eqn:H1; [|destruct (400 <=? st)%Z eqn:H2];
    reflect_bools; intuition lia.
Qed.
Definition carries_id (id : string) (b : body) : Prop :=
  ∀ err, b = ErrorResponse err → eb_RequestID err = id.

Lemma error_carries_id ctx err :
  carries_id (correlation.FromContext ctx) (content (respondUseCaseError ctx err)).
Proof.
  unfold respondUseCaseError, carries_id.
  repeat case_match; intros ? [= <-]; done.
Qed.

Lemma handler_respects ctx key b :
  respects (handler_rule key b) (OrderHandler_Create ctx key b) []
    (λ _ resp, carries_id (correlation.FromContext ctx) (content resp)).
Proof.
  unfold OrderHandler_Create. cbv zeta.
  case_bool_decide; [by intros ? [= <-]|].
  destruct (ShouldBindJSON b) as [request|errs] eqn:Hbind; [|by intros ? [= <-]].
  apply ShouldBindJSON_ok in Hbind as [Hdec Hvalid].
  apply respects_bind. eapply respects_weaken; [|eapply respects_mono; [|apply Execute_respects]].
  { intros h R e He. exists request, (toCommand request (TrimSpace key)).
    split_and!; [done..|apply toCommand_commands|done]. }
  intros h [result|err] _; [done|]. apply error_carries_id.
Qed.

Lemma RequestID_spec buffer header :
  length buffer = middleware.generatedRequestIDBytes →
  let id := (middleware.RequestID buffer header).1 in
  (middleware.RequestID buffer header).2 = correlation.mkContext (Some id)
  ∧ id ≠ "" ∧ correlation.Acceptable id = id
  ∧ (correlation.Acceptable header = header → header ≠ "" → id = header).
Proof.
  intros Hlen. destruct (generateRequestID_acceptable buffer Hlen) as [Hg Hne].
  unfold middleware.RequestID. cbn. split; [done|]. case_bool_decide as He.
  - split_and!; [done|done|]. congruence.
  - split_and!; [done| |done]. apply Acceptable_idemp.
Qed.

(** The answer to a request for an endpoint, from the calls made. *)
Definition endpoint_post (rq : request) (ctx : correlation.Context) (h : list (call httpE)) (a : answer)
    : Prop :=
  let id := correlation.FromContext ctx in
  if decide ((rq_Method rq, rq_Path rq) = ("POST", "/orders")) then
    disciplined (handler_rule (rq_IdempotencyKey rq) (rq_Body rq)) (port_calls h)
    ∧ (panicked h ∧ answers_error id 500 "internal_error" "an unexpected error occurred" a
       ∨ ¬ panicked h ∧ ∃ resp, a = (status resp, ApiBody (content resp))
           ∧ runs (OrderHandler_Create ctx (rq_IdempotencyKey rq) (rq_Body rq)) (port_calls h) resp)
  else h = [] ∧
    (if decide ((rq_Method rq, rq_Path rq) = ("GET", "/healthz")) then a = (200%Z, HealthBody)
     else if decide (rq_Path rq ∈ ["/healthz"; "/orders"])
     then answers_error id 405 "invalid_request" "method not allowed for this endpoint" a
     else answers_error id 404 "invalid_request" "no such endpoint" a).

Lemma endpoint_runs {GinL : GinLaws Gin} rq found ctx h a :
  gin_dispatch routes true (rq_Method rq) (rq_Path rq) = found → (∀ st, found ≠ Redirect st) →
  runs (Recovery (λ ctx, of_response (respondInternalError ctx)) (endpoint rq found) ctx) h a →
  endpoint_post rq ctx h a
  ∧ ∀ b, a.2 = ApiBody b → carries_id (correlation.FromContext ctx) b.
Proof.
  intros Hd Hnr (h1 & h2 & r & -> & Hrun & [-> ->]%runs_inv)%runs_bind_inv. rewrite app_nil_r.
  unfold endpoint_post. destruct found as [m p| | |st]; [|..|by destruct (Hnr st)].
  - apply dispatch_route in Hd as (Hin & -> & ->). cbn [endpoint] in Hrun.
    unfold routes in Hin. rewrite !elem_of_cons, elem_of_nil in Hin.
    destruct Hin as [Heq|[Heq|[]]]; injection Heq as Hm Hp; rewrite Hm, Hp in *.
    + rewrite bool_decide_true in Hrun by done. apply runs_inv in Hrun as [-> ->]. by split.
    + rewrite bool_decide_false in Hrun by done.
      apply runs_bind_inv in Hrun as (k & k' & created & -> & Hc & [-> ->]%runs_inv). rewrite app_nil_r.
      destruct (crashing_runs _ _ [] _ _ _ (disciplined_nil _) (handler_respects _ _ _) Hc) as [Hdis Hpost].
      rewrite decide_True by done. destruct created as [resp|]; cbn.
      * destruct Hpost as (Hid & Hr & Hno). split; [|by intros b [= <-]].
        split; [done|]. right. split; [done|]. by exists resp.
      * split; [split; [done|by left]|]. by intros b [= <-] ? [= <-].
  - apply runs_inv in Hrun as [-> ->].
    assert (∀ m' p', (rq_Method rq, rq_Path rq) = (m', p') → (m', p') ∉ routes) as Hno.
    { intros m' p' [= <- <-] Hin.
      assert (gin_dispatch routes true (rq_Method rq) (rq_Path rq) = Route (rq_Method rq) (rq_Path rq))
        by by apply dispatch_route. congruence. }
    split; [|by intros b [= <-] ? [= <-]].
    rewrite !decide_False by (intros Heq; apply (Hno _ _ Heq); unfold routes; set_solver).
    split; [done|]. cbn. rewrite decide_False; [done|]. intros Hin.
    assert (gin_dispatch routes true (rq_Method rq) (rq_Path rq) = NoMethod)
      by (apply dispatch_no_method; split; [by apply Hno|done]). congruence.
  - apply runs_inv in Hrun as [-> ->]. apply dispatch_no_method in Hd as [Hno Hin].
    split; [|by intros b [= <-] ? [= <-]].
    rewrite !decide_False by (intros Heq; apply Hno; rewrite Heq; unfold routes; set_solver).
    split; [done|]. cbn. by rewrite decide_True.
Qed.

(** The calls on the ports keep the rule of the handler, whatever was asked. *)
Lemma serve_disciplined {GinL : GinLaws Gin} buffer rq h s :
  runs (serve buffer rq) h s →
  disciplined (handler_rule (rq_IdempotencyKey rq) (rq_Body rq)) (port_calls h).
Proof.
  intros Hruns. unfold serve in Hruns.
  destruct (gin_dispatch routes true (rq_Method rq) (rq_Path rq)) as [m p| | |st] eqn:Hd;
    [..|apply runs_inv in Hruns as [-> ->]; apply disciplined_nil];
    destruct (middleware.RequestID buffer (rq_RequestID rq)) as [id ctx];
    apply runs_bind_inv in Hruns as (h1 & h2 & [a line] & -> & Hlog & [-> ->]%runs_inv);
    apply runs_bind_inv in Hlog as (h3 & h4 & a' & -> & Hrec & Hlog);
    (apply (endpoint_runs _ _ _ _ _ Hd) in Hrec as [Hpost _]; [|done]);
    (assert (h4 = []) as -> by (case_bool_decide; by apply runs_inv in Hlog as [-> _]));
    rewrite !app_nil_r; unfold endpoint_post in Hpost; case_decide;
    first [apply Hpost | destruct Hpost as [-> _]; apply disciplined_nil].
Qed.

(** C22: Every request is answered and, unless gin redirects it before the middleware runs,
    traceable. It has an id, the caller's if that is acceptable, in the response header, in
    the body of an error and in the one line logged for it, with its method, its route and
    its status, as an error from 500, a warning from 400 and information below; only the
    health check's path is not logged. POST /orders makes the calls of the use case, and if
    any of them panics, the calls before keep the use case's discipline and the answer is
    the fixed internal error. No other request makes a call: GET /healthz is answered 200,
    another method on these paths 405 and another path 404. *)
Theorem every_request_answered {GinL : GinLaws Gin} buffer rq h s :
  length buffer = middleware.generatedRequestIDBytes → runs (serve buffer rq) h s →
  let found := gin_dispatch [("GET", "/healthz"); ("POST", "/orders")] true (rq_Method rq) (rq_Path rq) in
  match found with
  | Redirect st => h = [] ∧ s = mkServed (st, LibraryBody) None None
  | _ =>
      ∃ id, sv_request_id s = Some id ∧ id ≠ "" ∧ correlation.Acceptable id = id
      ∧ (correlation.Acceptable (rq_RequestID rq) = rq_RequestID rq → rq_RequestID rq ≠ "" →
         id = rq_RequestID rq)
      ∧ (∀ b, (sv_answer s).2 = ApiBody b → carries_id id b)
      ∧ (if decide (rq_Path rq = "/healthz") then sv_log s = None
         else ∃ line, sv_log s = Some line ∧ ll_request_id line = id
                ∧ ll_http_method line = rq_Method rq
                ∧ ll_http_route line = match found with Route _ path => path | _ => "" end
                ∧ ll_http_status line = (sv_answer s).1
                ∧ level_for (sv_answer s).1 (ll_level line))
      ∧ endpoint_post rq (correlation.mkContext (Some id)) h (sv_answer s)
  end.
Proof.
  intros Hlen Hruns. cbv zeta. change [("GET", "/healthz"); ("POST", "/orders")] with routes.
  pose proof (RequestID_spec buffer (rq_RequestID rq) Hlen) as (Hctx & Hne & Hacc & Hsame).
  unfold serve in Hruns.
  destruct (gin_dispatch routes true (rq_Method rq) (rq_Path rq)) as [m p| | |st] eqn:Hd;
    [..|apply runs_inv in Hruns as [-> ->]; done];
    destruct (middleware.RequestID buffer (rq_RequestID rq)) as [id ctx]; cbn [fst snd] in *; subst ctx;
    apply runs_bind_inv in Hruns as (h1 & h2 & [a line] & -> & Hlog & [-> ->]%runs_inv);
    apply runs_bind_inv in Hlog as (h3 & h4 & a' & -> & Hrec & Hlog);
    (apply (endpoint_runs _ _ _ _ _ Hd) in Hrec as [Hpost Hid]; [|done]);
    exists id; rewrite bool_decide_decide in Hlog;
    destruct (decide (rq_Path rq ∈ [healthPath])) as [Hq|Hq];
    apply runs_inv in Hlog as [-> [= -> ->]]; rewrite !app_nil_r; cbn -[log_level];
    (do 5 (split; [done|])); (split; [|exact Hpost]);
    rewrite list_elem_of_singleton in Hq;
    first [rewrite decide_True by done; done
          | rewrite decide_False by done; eexists; do 5 (split; [done|]); apply log_level_for].
Qed.
End edge.

(** ** Witness *)

#[export] Instance sample_gin : GinLib := {|
  gin_dispatch rs flag m p :=
    if decide ((m, p) ∈ rs) then Route m p
    else if flag && bool_decide (p ∈ rs.*2) then NoMethod else NoRoute
|}.
#[export] Instance sample_gin_laws : GinLaws sample_gin.
Proof.
  split.
  - intros rs flag m p m' p'. cbn. destruct (decide ((m, p) ∈ rs)).
    + split; [by intros [= -> ->]|by intros (_ & -> & ->)].
    + split; [by destruct (flag && _)|by intros (? & _)].
  - intros rs m p. cbn. destruct (decide ((m, p) ∈ rs)); [by split; [|intros [? _]]|].
    case_bool_decide; [done|]. split; [done|by intros [_ ?]].
Qed.

(** The repository panics on the first call of a request. *)
Definition sample_request : request := mkRequest "POST" "/orders" "r-1" "key-1" "{}".
Lemma every_request_answered_witness :
  ∃ s, runs (serve (Binding := sample_binding) (replicate 16 171%N) sample_request) [Call (inrE Crash) true] s
  ∧ gin_dispatch routes true (rq_Method sample_request) (rq_Path sample_request) = Route "POST" "/orders"
  ∧ (sv_answer s).1 = 500%Z ∧ sv_request_id s = Some "r-1"
  ∧ (∃ line, sv_log s = Some line ∧ ll_level line = ErrorLevel)
  ∧ endpoint_post (Binding := sample_binding) sample_request (correlation.mkContext (Some "r-1"))
      [Call (inrE Crash) true] (sv_answer s).
Proof.
  assert (∃ a l, runs (serve (Binding := sample_binding) (replicate 16 171%N) sample_request)
    [Call (inrE Crash) true] (mkServed a (Some "r-1") l) ∧ a.1 = 500%Z) as (a & l & Hr & Ha).
  { do 2 eexists. split; [refine (runs_vis _ _ _ _ _ _); refine (runs_ret _)|reflexivity]. }
  exists (mkServed a (Some "r-1") l). split; [exact Hr|]. split; [reflexivity|].
  split; [exact Ha|]. split; [reflexivity|].
  destruct (every_request_answered (replicate 16 171%N) sample_request _ _ eq_refl Hr)
    as (id & Hid & _ & _ & _ & _ & Hlog & Hpost). injection Hid as <-. split; [|exact Hpost].
  destruct Hlog as (line & Hline & _ & _ & _ & _ & Hlevel). exists line. split; [exact Hline|].
  cbn [sv_answer] in Hlevel. rewrite Ha in Hlevel.
  by destruct Hlevel as [[_ H]|[[[_ H] _]|[H _]]]; [exact H|..].
Defined.
