(* ===== verification/OrderApi.v ===== *)
(** * Requests over HTTP, concurrently

    A request served by the router while others and the outbox worker use the same
    database: any call may panic and the chain answers for it, and a client that is
    answered an order is answered the stored one of its key. *)
From S2P Require Import Prelude GoErrors GoStrings External Postgres Correlation OrderErrors OrderDomain Prog OrderPorts CreateOrder OrderStore OrderStoreSpec Outbox EventWorker OrderSystem HttpApi Router.

Section order_api.
Context {Mail : MailLib} {Uuid : UuidLib} {Pg : Postgres} {Json : Codec orderAcceptedPayload}.
Context {UuidL : UuidLaws Uuid} {PgL : PostgresLaws Pg} {JsonL : CodecLaws Json payload_utf8}.
Context {Binding : BindingLib} {Gin : GinLib}.
Hypothesis jsonb_value : ∀ b b', jsonb b = Some b' → Unmarshal (Codec := Json) b' = Unmarshal b.

(** A panic leaves the database as it is: a transaction that was open is rolled back. *)
Definition crash_step (i : nat) R (e : crashE R) (w : world) (r : R) (w' : world) : Prop := w' = w.
Definition http_step : nat → ∀ R, httpE R → world → R → world → Prop := sum_handler request_step crash_step.
Abbreviation http_wp := (wp http_step sound Rely Guar).

Lemma crashing_wp {A} i (p : prog orderE A) Q w :
  wp request_step sound Rely Guar i p Q w →
  http_wp i (crashing p) (λ r w', if r is Some a then Q a w' else True) w.
Proof.
  revert w. induction p as [a|R e k IH]; intros w Hp; [exact Hp|].
  intros w1 Hr Hs crashed w2 ->. split_and!; [done|apply Guar_refl|].
  destruct crashed; [by intros w3 _ _|]. intros w3 Hr3 Hs3 r w4 Hstep.
  destruct (Hp w3 ltac:(by etransitivity) Hs3 r w4 Hstep) as (Hs4 & Hg & Hk). split_and!; [done..|by apply IH].
Qed.

(** An order in a response is the stored one of the client's key. *)
Definition order_answered (key : string) (st : Z) (b : body) (w : world) : Prop :=
  ∀ shown, b = OrderResponse shown →
    (st = 200%Z ∨ st = 201%Z) ∧ ∃ o, settled (TrimSpace key) o w ∧ shown = orderResponseFrom o.
Definition served_order (key : string) (a : answer) (w : world) : Prop :=
  ∀ b, a.2 = ApiBody b → order_answered key a.1 b w.

Lemma order_answered_grows i key st b w w' : order_answered key st b w → Rely i w w' → order_answered key st b w'.
Proof.
  intros Ha Hr shown Hb. destruct (Ha shown Hb) as (Hst & o & Ho & Hs). split; [done|].
  exists o. split; [|done]. eapply settled_keeps; [done|]. by apply grows_keeps, (Rely_grows i).
Qed.
Lemma served_order_grows i key a w w' : served_order key a w → Rely i w w' → served_order key a w'.
Proof. intros Ha Hr b Hb. eapply order_answered_grows; [by apply Ha|done]. Qed.

Lemma Create_wp i ctx key b w :
  wp request_step sound Rely Guar i (OrderHandler_Create ctx key b)
    (λ resp w', order_answered key (status resp) (content resp) w') w.
Proof.
  assert (∀ (resp : response) w1, (∀ shown, content resp ≠ OrderResponse shown) →
    wp request_step sound Rely Guar i (Ret resp) (λ resp w', order_answered key (status resp) (content resp) w') w1)
    as Hno by (intros resp w1 Hn w2 _ _ shown Hs; by apply Hn in Hs).
  unfold OrderHandler_Create. cbv zeta. case_bool_decide; [by apply Hno|].
  destruct (ShouldBindJSON b) as [request|errs]; [|by apply Hno].
  apply wp_bind; [apply _|]. eapply wp_mono; [|by apply Execute_wp].
  intros [result|err] w1 Hres.
  - apply wp_ret. intros w2 Hr _ shown [= <-]. cbn in Hres |- *. split; [destruct (cor_Created result); tauto|].
    exists (cor_Order result). split; [|done]. eapply settled_keeps; [exact Hres|]. by apply grows_keeps, (Rely_grows i).
  - apply Hno. intros shown. unfold respondUseCaseError. by repeat case_match.
Qed.

Lemma endpoint_wp i rq found ctx w :
  http_wp i (Recovery (λ ctx, of_response (respondInternalError ctx)) (endpoint rq found) ctx)
    (served_order (rq_IdempotencyKey rq)) w.
Proof.
  assert (∀ (a : answer) w1, (∀ shown, a.2 ≠ ApiBody (OrderResponse shown)) →
    http_wp i (Ret a) (served_order (rq_IdempotencyKey rq)) w1) as Hno
    by (intros a w1 Hn w2 _ _ b Hb shown ->; by apply Hn in Hb).
  apply wp_bind; [apply _|]. destruct found; try (apply wp_ret; intros w1 _ _; by apply Hno).
  cbn [endpoint]. case_bool_decide; [apply wp_ret; intros w1 _ _; by apply Hno|].
  apply wp_bind; [apply _|]. eapply wp_mono; [|apply crashing_wp, Create_wp].
  intros [resp|] w1 Hresp; apply wp_ret; intros w2 Hr _; [|by apply Hno].
  apply wp_ret. intros w3 Hr3 _ b [= <-]. eapply order_answered_grows; [exact Hresp|by etransitivity].
Qed.

Lemma serve_wp i buffer rq w :
  http_wp i (serve buffer rq) (λ s, served_order (rq_IdempotencyKey rq) (sv_answer s)) w.
Proof.
  unfold serve. destruct (gin_dispatch _ _ _ _) as [m p| | |st]; [..|by intros w1 _ _ b];
    destruct (middleware.RequestID _ _) as [id ctx]; do 2 (apply wp_bind; [apply _|]);
    (eapply wp_mono; [|apply endpoint_wp]); intros a w1 Ha; case_bool_decide;
    apply wp_ret; intros w2 Hr _; apply wp_ret; intros w3 Hr3 _;
    (eapply served_order_grows; [exact Ha|by etransitivity]).
Qed.

(** Two answers for one key show one order. *)
Lemma served_same key key' a a' shown shown' w :
  orders_sound w → TrimSpace key' = TrimSpace key →
  served_order key a w → a.2 = ApiBody (OrderResponse shown) →
  served_order key' a' w → a'.2 = ApiBody (OrderResponse shown') →
  ors_ID shown' = ors_ID shown ∧ ors_Status shown' = ors_Status shown
  ∧ ors_Items shown' = ors_Items shown ∧ ors_Total shown' = ors_Total shown.
Proof.
  intros Hs Hkey Ha Hb Ha' Hb'. destruct (Ha _ Hb _ eq_refl) as (_ & o & Ho & ->).
  destruct (Ha' _ Hb' _ eq_refl) as (_ & o' & Ho' & ->). rewrite Hkey in Ho'.
  destruct (settled_unique _ _ _ _ Hs Ho Ho') as [(E1 & _ & _ & E2 & E3 & _) E4]. cbn. by rewrite E1, E2, E3, E4.
Qed.
End order_api.
