(* ===== verification/StoreLiveness.v ===== *)
(** * The order repository, when nothing fails

    What the operations of [OrderStore] answer when the connection has no fault: a valid
    order that is new is stored, a transition of a stored order is written, with its event
    when it is accepted. *)
From S2P Require Import Prelude GoErrors GoStrings External Postgres OrderErrors OrderDomain Prog OrderPorts OrderStore OrderStoreSpec Outbox.

Section store_liveness.
Context {Mail : MailLib} {Uuid : UuidLib} {Pg : Postgres} {Json : Codec orderAcceptedPayload}.
Context {UuidL : UuidLaws Uuid} {PgL : PostgresLaws Pg} {JsonL : CodecLaws Json payload_utf8}.
Hypothesis jsonb_value : ∀ b b', jsonb b = Some b' → Unmarshal (Codec := Json) b' = Unmarshal b.

(** [json.Marshal] fails for a time it cannot write only, past [latest]; and a JSONB column
    takes every document whose texts the server takes. *)
Variable latest : Z.
Hypothesis json_marshals : ∀ p, payload_utf8 p → (0 ≤ pay_OccurredAt p ≤ latest)%Z →
  is_ok (Marshal (Codec := Json) p) = true.
Definition payload_texts (p : orderAcceptedPayload) : Prop :=
  Forall (λ s, text_ok s = true) ([pay_CustomerEmail p; pay_Currency p]
    ++ mjoin ((λ l, [pl_ProductSKU l; pl_Currency l]) <$> pay_Lines p)).
Hypothesis jsonb_takes : ∀ p b, payload_texts p → Marshal (Codec := Json) p = Ok b → is_Some (jsonb b).

(** ** Changing a stored order *)

Lemma loaded_check row items o : domainFromRows row items = Ok o → orders_check row = None.
Proof.
  intros Hd. pose proof Hd as (Hv & _ & Hst & Hk & _ & _ & Hem & _)%domainFromRows_fields.
  assert (ord_total o = mkMoney (or_totalAmountInCents row) (or_currency row)) as Ht.
  { unfold domainFromRows in Hd. ok_inv. by apply Reconstitute_ok in Hd as [-> _]. }
  destruct (order_valid_total _ Hv) as (Hc & Ha & _).
  apply validateOrder_spec in Hv as (_ & _ & Hmail & Hkey & Hs & _).
  unfold orders_check. rewrite <-Hst, Hs, <-Hem, <-Hk. cbn. rewrite Ht in Hc, Ha. cbn in Hc, Ha.
  rewrite TrimSpace_not_blank; [|intros He; unfold isEmailValid in Hmail; rewrite He in Hmail; by repeat case_bool_decide].
  rewrite (TrimSpace_not_blank _ Hkey), Hc. cbn. by rewrite (proj2 (Z.ltb_ge _ _)).
Qed.

Lemma found_by_key db id o :
  db_wf db → view db id = Some o → text_ok (ord_idempotencyKey o) = true →
  repository_FindByIdempotencyKey no_faults (ord_idempotencyKey o) db db = Ok o.
Proof.
  intros Hwf Hv Ht. destruct (view_key_row _ _ _ Hwf Hv) as (row & Hrow & Hk & _).
  unfold repository_FindByIdempotencyKey. cbn. rewrite Ht. cbn.
  pose proof (selectByKey_spec (ord_idempotencyKey o) db) as Hsel.
  destruct (selectByKey _ db) as [row'|]; cbn.
  - destruct Hsel as (id' & Hrow' & Hk').
    assert (id' = id) as -> by (apply (wf_unique _ Hwf _ _ _ _ Hrow' Hrow); congruence).
    apply view_row in Hv as (row0 & Hrow0 & Hload); [|done].
    assert (row' = row0) as -> by congruence. unfold loadOrder. cbn. by rewrite (wf_key _ Hwf _ _ Hrow0).
  - by destruct (Hsel _ _ Hrow).
Qed.

(** A transition of the stored order [cur], to be written. *)
Record change (db : database) (id cid : uuid) (cur o : Order) : Prop := {
  ch_stored : view db id = Some cur;
  ch_pending : ord_status cur = StatusPending;
  ch_pre : update_pre db o;
  ch_id : uuid_Parse (ord_id o) = Some id;
  ch_customer : uuid_Parse (ord_customerID o) = Some cid;
  ch_status : text_ok (ord_status o) = true;
}.

Lemma change_written db id cid cur o :
  db_wf db → change db id cid cur o →
  ∃ db1, updateOrder (ord_status o) (ord_updatedAt o) id StatusPending db = Ok (1%Z, db1)
    ∧ db_wf db1 ∧ moved db id o StatusPending db1 ∧ db_outbox db1 = db_outbox db.
Proof.
  intros Hwf [Hv Hp Hpre Hid _ Ht].
  assert (∃ n db1, updateOrder (ord_status o) (ord_updatedAt o) id StatusPending db = Ok (n, db1)) as (n & db1 & Hu).
  { pose proof Hv as (row & Hrow & Hload)%view_row; [|done]. unfold updateOrder. rewrite Ht, Hrow. cbn.
    case_bool_decide; cbn; [|by eexists _, _].
    destruct Hpre as ((Hval & _ & _ & Hmu) & Hc). rewrite timestamptz_microseconds by done.
    pose proof (order_valid_status _ Hval) as Hvs. pose proof (Hc _ _ Hid Hv) as Hcr.
    apply validateOrder_spec in Hval as (_ & _ & _ & _ & _ & _ & Hnz & Hle & _). rewrite <-Hcr in Hle.
    pose proof (domainFromRows_state _ _ _ _ _ Hload Hvs Hnz Hle) as Hload'.
    rewrite (loaded_check _ _ _ Hload'). by eexists _, _. }
  exists db1. destruct (update_tables _ _ _ _ _ _ Hwf Hpre Hid Hu) as [(_ & _ & Hc)|(-> & Hwf1 & Hmv & Hob)]; [|done].
  by destruct (Hc _ _ Hid Hv).
Qed.

Lemma rows_of o id cid :
  uuid_Parse (ord_id o) = Some id → uuid_Parse (ord_customerID o) = Some cid →
  ∃ row items, rowsFromDomain o = Ok (row, items) ∧ or_id row = id
    ∧ or_status row = ord_status o ∧ or_updatedAt row = ord_updatedAt o.
Proof. intros Hi Hc. unfold rowsFromDomain, parse_uuid. rewrite Hi, Hc. cbn. by eexists _, _. Qed.

Lemma update_succeeds db id cid cur o r db' :
  db_wf db → change db id cid cur o →
  repository_Update no_faults o StatusPending db = (r, db') →
  r = Ok tt ∧ moved db id o StatusPending db' ∧ db_outbox db' = db_outbox db.
Proof.
  intros Hwf Hch. destruct (change_written _ _ _ _ _ Hwf Hch) as (db1 & Hu & _ & Hmv & Hob).
  destruct (rows_of _ _ _ (ch_id _ _ _ _ _ Hch) (ch_customer _ _ _ _ _ Hch)) as (row & items & Hrows & <- & Hst & Hat).
  unfold repository_Update, exec_write. rewrite Hrows, Hst, Hat, Hu. cbn. by intros [= <- <-].
Qed.

(** The event of a stored order is written. *)
Lemma event_texts o eventID :
  order_valid o → order_encodable o → payload_texts (payload_of_event (newOrderAcceptedEvent eventID o)).
Proof.
  intros Hv [[He _] Hs]. pose proof (order_valid_items _ Hv) as Hi.
  destruct (order_valid_total _ Hv) as (Hc & _). unfold payload_texts. cbn.
  repeat (apply Forall_cons; split); cbn; [done|by apply supported_text|].
  apply Forall_forall. intros t (l & Hin & Hl)%list_elem_of_join.
  rewrite !list_elem_of_fmap in Hl. destruct Hl as (pl & -> & (line & -> & (i & -> & Hini)%list_elem_of_fmap)%list_elem_of_fmap).
  rewrite Forall_forall in Hs, Hi. destruct (Hs _ Hini) as [Hsku _].
  destruct (Hi _ Hini) as [(_ & _ & _ & Hcur)%validateItem_spec _]. cbn in Hin.
  rewrite !elem_of_cons, elem_of_nil in Hin. destruct Hin as [-> |[-> |[]]]; [done|by apply supported_text].
Qed.
Lemma event_taken o eventID :
  order_valid o → order_encodable o → (0 ≤ ord_updatedAt o ≤ latest)%Z →
  ∃ b doc, payloadFromEvent (newOrderAcceptedEvent eventID o) = Ok b ∧ jsonb b = Some doc.
Proof.
  intros Hv Henc Ht. destruct (order_event_ok o eventID Hv Henc) as [_ Hu].
  pose proof (json_marshals _ Hu Ht) as Hm. unfold payloadFromEvent.
  destruct (Marshal _) as [b|] eqn:Hb; [|done].
  destruct (jsonb_takes _ _ (event_texts _ _ Hv Henc) Hb) as [doc Hd]. by exists b, doc.
Qed.

Lemma record_succeeds now corr db id cid eid cur o r db' :
  db_wf db → change db id cid cur o → order_encodable o → (0 ≤ ord_updatedAt o ≤ latest)%Z →
  text_ok corr = true → db_outbox db !! eid = None →
  (∀ eid' row, db_outbox db !! eid' = Some row → ob_order_id row ≠ id) →
  repository_UpdateAndRecordEvent no_faults now corr o StatusPending
    (newOrderAcceptedEvent (uuid_String eid) o) db = (r, db') →
  r = Ok tt ∧ moved db id o StatusPending db'
  ∧ event_added db id (newOrderAcceptedEvent (uuid_String eid) o) db'
  ∧ ∃ row, db_outbox db' = <[eid := row]> (db_outbox db) ∧ ob_order_id row = id ∧ is_due now row = true.
Proof.
  intros Hwf Hch Henc Ht Hcorr Hfresh Hone Hr.
  destruct (change_written _ _ _ _ _ Hwf Hch) as (db1 & Hu & Hwf1 & Hmv & Hob).
  pose proof (proj1 (proj1 (ch_pre _ _ _ _ _ Hch))) as Hv.
  destruct (rows_of _ _ _ (ch_id _ _ _ _ _ Hch) (ch_customer _ _ _ _ _ Hch)) as (row & items & Hrows & <- & Hst & Hat).
  destruct (event_taken o (uuid_String eid) Hv Henc Ht) as (b & doc & Hb & Hdoc).
  assert (∃ db2, insertOutboxEvent now eid eventTypeOrderAccepted (or_id row) b corr db1 = Ok db2) as [db2 Hins].
  { unfold insertOutboxEvent. rewrite Hdoc, Hcorr, Hob, Hfresh.
    change (text_ok eventTypeOrderAccepted) with true. cbn.
    rewrite bool_decide_eq_true_2 by done. cbn.
    rewrite bool_decide_eq_false_2 by (intros (e & x & Hl & Heq & _)%map_Exists_lookup; by destruct (Hone _ _ Hl)).
    rewrite bool_decide_eq_false_2; [by eexists|]. intros Hn%view_None; [|done].
    destruct Hmv as (? & _ & _ & Hview). by rewrite Hview, decide_True in Hn. }
  unfold repository_UpdateAndRecordEvent, parse_uuid in Hr. cbn [oae_EventID newOrderAcceptedEvent] in Hr.
  rewrite Hrows, uuid_Parse_String, Hb, Hst, Hat in Hr. cbn in Hr. rewrite Hu in Hr. cbn in Hr.
  rewrite Hins in Hr. cbn in Hr. injection Hr as <- <-. split; [done|].
  destruct (record_tables jsonb_value now corr o (or_id row) eid StatusPending
    (newOrderAcceptedEvent (uuid_String eid) o) b db db1 db2 Hwf Hwf1 Hmv Hob Hv Henc eq_refl
    (uuid_Parse_String eid) Hb Hins) as (_ & Hmv2 & Hadd). split_and!; [done..|].
  apply insertOutboxEvent_ok in Hins as (doc' & _ & _ & _ & ->); [|by intros e x Hl; apply (wf_outbox _ Hwf1 e x)].
  eexists. cbn. rewrite Hob. split; [done|]. split; [done|]. unfold is_due. cbn. apply Z.leb_refl.
Qed.

(** ** Storing a new order *)

(** The key of no stored order. *)
Definition new_key (db : database) (key : string) : Prop :=
  ∀ id o, view db id = Some o → ord_idempotencyKey o ≠ key.

Lemma stored_key db id row : db_wf db → db_orders db !! id = Some row →
  ∃ o, view db id = Some o ∧ ord_idempotencyKey o = or_idempotencyKey row.
Proof.
  intros Hwf Hrow. destruct (wf_load _ Hwf _ _ Hrow) as (o & Hload & _). exists o.
  split; [apply view_row; eauto|]. by apply domainFromRows_fields in Hload as (_ & _ & _ & -> & _).
Qed.

Lemma not_found_by_key db key :
  db_wf db → new_key db key → text_ok key = true →
  repository_FindByIdempotencyKey no_faults key db db = Err (app ErrOrderNotFound).
Proof.
  intros Hwf Hnew Ht. unfold repository_FindByIdempotencyKey. cbn. rewrite Ht. cbn.
  pose proof (selectByKey_spec key db) as Hsel. destruct (selectByKey key db) as [row|]; [|done].
  destruct Hsel as (id & Hrow & <-). destruct (stored_key _ _ _ Hwf Hrow) as (o & Hv & Hk).
  by destruct (Hnew _ _ Hv).
Qed.

(** A line the table takes. *)
Definition line_taken (id : uuid) (item : orderItemRow) : Prop :=
  oi_orderID item = id ∧ int4_ok (oi_lineNumber item) = true ∧ int4_ok (oi_quantity item) = true
  ∧ text_ok (oi_productSKU item) = true ∧ order_items_check item = None.

Lemma lines_inserted n id items db :
  Forall (line_taken id) items → NoDup (oi_lineNumber <$> items) → is_Some (db_orders db !! id) →
  Forall (λ other, oi_orderID other = id → oi_lineNumber other ∉ oi_lineNumber <$> items) (db_items db) →
  is_ok (insertOrderItems no_faults n items db) = true.
Proof.
  revert n db. induction items as [|item items IH]; intros n db Hl Hnd Ho Hdb; [done|].
  apply Forall_cons in Hl as [(Hid & H1 & H2 & Ht & Hc) Hl]. cbn in Hnd. apply NoDup_cons in Hnd as [Hnew Hnd].
  cbn. unfold insertOrderItem. rewrite H1, H2, Ht, Hc. cbn.
  rewrite bool_decide_eq_false_2.
  2:{ intros (other & Hin & Heq & Hline)%Exists_exists. rewrite Forall_forall in Hdb.
      apply (Hdb _ Hin); [congruence|]. rewrite Hline. by left. }
  rewrite bool_decide_eq_false_2 by (rewrite Hid; by apply not_eq_None_Some).
  apply IH; [done|done|done|]. cbn. apply Forall_app. split.
  - eapply Forall_impl; [exact Hdb|]. cbn. intros other Hno Hoid Hin. apply (Hno Hoid). by right.
  - apply Forall_singleton. intros _. exact Hnew.
Qed.

Lemma item_line_taken id n items :
  Forall item_valid items → Forall (λ i, text_ok (productSKU i) = true ∧ in_int32 (quantity i)) items →
  (Z.of_nat (n + length items) ≤ MaxInt32)%Z → Forall (line_taken id) (itemRows id n items).
Proof.
  revert n. induction items as [|i items IH]; intros n; [constructor|]. cbn [itemRows length].
  intros [Hi Hv]%Forall_cons [[Ht Hq] He]%Forall_cons Hn.
  apply validateItem_spec in Hi as (Hsku & Hpos & Hamount & _). constructor; [|apply IH; [done..|lia]].
  split_and!; cbn; [done| |by apply int4_ok_spec|done|].
  - apply int4_ok_spec. int_unfold. unfold MaxInt32 in Hn. lia.
  - unfold order_items_check. cbn [oi_lineNumber oi_productSKU oi_quantity oi_unitAmountInCents].
    rewrite (TrimSpace_not_blank _ Hsku), !(proj2 (Z.leb_gt _ _)) by lia. cbn [negb].
    by rewrite (proj2 (Z.ltb_ge _ _)).
Qed.

(** The row of an order whose identifiers are canonical. *)
Definition row_of (id cid : uuid) (o : Order) : orderRow :=
  mkOrderRow id cid (ord_customerEmail o) (ord_status o) (ord_idempotencyKey o)
    (AmountInCents (ord_total o)) (Currency (ord_total o)) (ord_createdAt o) (ord_updatedAt o).
Lemma rows_canonical o id cid :
  ord_id o = uuid_String id → ord_customerID o = uuid_String cid →
  rowsFromDomain o = Ok (row_of id cid o, itemRows id 0 (ord_orderItems o)) ∧ canonical id cid o = o.
Proof.
  intros Hid Hcid. unfold rowsFromDomain, parse_uuid. rewrite Hid, Hcid, !uuid_Parse_String. split; [done|].
  unfold canonical. rewrite <-Hid, <-Hcid. by destruct o.
Qed.

Lemma status_text_ok st : isValidStatus st = true → text_ok st = true.
Proof.
  unfold isValidStatus. intros Hs%bool_decide_eq_true. rewrite !elem_of_cons, elem_of_nil in Hs.
  by destruct Hs as [->|[->|[->|[->|[->|[]]]]]].
Qed.
Lemma row_inserted id cid o db :
  db_wf db → order_storable o → order_encodable o → isValidStatus (ord_status o) = true →
  ord_id o = uuid_String id → ord_customerID o = uuid_String cid →
  db_orders db !! id = None → new_key db (ord_idempotencyKey o) →
  insertOrder (row_of id cid o) db = Ok (set_orders db (<[id := row_of id cid o]> (db_orders db))).
Proof.
  intros Hwf Hst [[Hte Htk] _] Hs Hid Hcid Hfresh Hkey.
  destruct (rows_canonical _ _ _ Hid Hcid) as [Hrows _].
  destruct (rows_load _ _ _ Hst Hrows) as (_ & _ & Hload).
  destruct Hst as (Hval & _ & Hc & Hu). destruct (order_valid_total _ Hval) as (Hcur & _).
  apply insertOrder_ok. split_and!.
  - unfold order_texts_ok. cbn. rewrite Hte, Htk, (supported_text _ Hcur).
    by rewrite (status_text_ok _ Hs).
  - by eapply loaded_check.
  - done.
  - intros id' row' Hl Heq. destruct (stored_key _ _ _ Hwf Hl) as (o' & Hv & Hk).
    destruct (Hkey _ _ Hv). by rewrite Hk.
  - cbn. by rewrite !timestamptz_microseconds.
Qed.

Lemma create_succeeds o id cid db r db' :
  db_wf db → order_storable o → order_encodable o → ord_id o = uuid_String id →
  ord_customerID o = uuid_String cid → (Z.of_nat (length (ord_orderItems o)) ≤ MaxInt32)%Z →
  db_orders db !! id = None → new_key db (ord_idempotencyKey o) →
  repository_Create no_faults o db = (r, db') →
  r = Ok tt ∧ (∀ id', view db' id' = if decide (id' = id) then Some o else view db id')
  ∧ db_outbox db' = db_outbox db.
Proof.
  intros Hwf Hst Henc Hid Hcid Hlen Hfresh Hkey Hr.
  destruct (rows_canonical _ _ _ Hid Hcid) as [Hrows Hcan]. pose proof (proj1 Hst) as Hval.
  pose proof (order_valid_status _ Hval) as Hs. destruct (order_valid_total _ Hval) as (_ & _ & _ & Hvalid).
  unfold repository_Create in Hr. rewrite Hrows in Hr. cbn [flt_begin no_faults exec_stmt flt_stmt] in Hr.
  pose proof (row_inserted id cid o db Hwf Hst Henc Hs Hid Hcid Hfresh Hkey) as Hins. rewrite Hins in Hr.
  set (db1 := set_orders _ _) in *.
  assert (is_ok (insertOrderItems no_faults 1 (itemRows id 0 (ord_orderItems o)) db1) = true) as Hlines.
  { destruct (itemRows_spec id 0 (ord_orderItems o)) as (_ & _ & Hnd & _).
    apply (lines_inserted _ id); [by apply item_line_taken; [|apply Henc|]|done|by cbn; rewrite lookup_insert_eq|].
    eapply Forall_impl; [apply Hwf|]. cbn. intros other Hs' Hoid. rewrite Hoid, Hfresh in Hs'. by destruct Hs'. }
  destruct (insertOrderItems _ _ _ _) as [db2|] eqn:Hit; [|done]. cbn in Hr. injection Hr as <- <-.
  destruct (create_tables no_faults o (row_of id cid o) _ db db1 db2 Hwf Hst Hrows Hins Hit) as [_ Hcr].
  cbn in Hcr. rewrite Hcan in Hcr. destruct Hcr as (_ & _ & Hview & Hob & _). done.
Qed.
End store_liveness.
