(* ===== verification/OrderLiveness.v ===== *)
(** * What becomes of an order request, when nothing fails

    A request to place an order is served while databases and the catalogue answer: it is
    new, or it repeats one that died after it stored its order and left it pending. The
    order is concluded, accepted with its event or rejected, whatever was left behind
    before, and the client is told which; only when inventory cannot be reached, or answers
    something other than yes or a lack of stock, does the order stay pending, for the next
    request to take up. *)
From S2P Require Import Prelude GoErrors GoStrings External Postgres Correlation OrderErrors OrderDomain Prog OrderPorts CreateOrder OrderStore OrderStoreSpec Outbox StoreLiveness EventWorker OrderSystem InventoryGrpc InventoryClient HttpApi Router OrderApi.

Section order_liveness.
Context {Mail : MailLib} {Uuid : UuidLib} {Pg : Postgres} {Json : Codec orderAcceptedPayload}.
Context {UuidL : UuidLaws Uuid} {PgL : PostgresLaws Pg} {JsonL : CodecLaws Json payload_utf8}.
Hypothesis jsonb_value : ∀ b b', jsonb b = Some b' → Unmarshal (Codec := Json) b' = Unmarshal b.

(** As in [StoreLiveness]; and the generator of identifiers does not run out: of [supply] of
    them not all are taken. *)
Variable latest : Z.
Hypothesis json_marshals : ∀ p, payload_utf8 p → (0 ≤ pay_OccurredAt p ≤ latest)%Z →
  is_ok (Marshal (Codec := Json) p) = true.
Hypothesis jsonb_takes : ∀ p b, payload_texts p → Marshal (Codec := Json) p = Ok b → is_Some (jsonb b).
Variable supply : nat.
Hypothesis uuids_last : ∀ X : gset uuid, (size X < supply)%nat → ∃ u, (u ∉ X).

(** What the catalogue answers; with which statuses inventory may refuse a basket; and by
    when the statements were executed. *)
Variable catalogue : list string → order_result (gmap string Money).
Variable refusals : InventoryGrpc.ReserveStockRequest → InventoryGrpc.Status → Prop.
Variable now : Z.
Variable status_text : InventoryGrpc.Status → string.

(** The clock has not run out, and shows what the store keeps. *)
Hypothesis clock_runs : (0 < latest)%Z ∧ (latest `mod` Microsecond = 0)%Z.

(** ** When nothing fails *)

(** What the use case makes of a no, of silence and of any other status. *)
Definition not_mine (err : order_error) : Prop :=
  is_app err ErrProductNotFound = false ∧ is_app err ErrCatalogUnavailable = false.
Definition refusal (err : order_error) : Prop :=
  not_mine err ∧ is_app err ErrInsufficientStock = true ∧ is_app err ErrInventoryUnavailable = false.
Definition outage (err : order_error) : Prop :=
  not_mine err ∧ is_app err ErrInsufficientStock = false ∧ is_app err ErrInventoryUnavailable = true.
Definition misfit (err : order_error) : Prop :=
  not_mine err ∧ is_app err ErrInsufficientStock = false ∧ is_app err ErrInventoryUnavailable = false
  ∧ is_dom err ErrInvalidOrder = false ∧ is_dom err ErrInvalidOrderItem = false
  ∧ is_dom err ErrInvalidMoney = false ∧ is_dom err ErrInvalidStatusTransition = false.
Definition means (st : InventoryGrpc.Status) (err : order_error) : Prop :=
  (st_Code st = FailedPrecondition ∧ refusal err)
  ∨ (st_Code st ∈ [Unavailable; CodeDeadlineExceeded] ∧ outage err)
  ∨ ((st_Code st ∉ [FailedPrecondition; Unavailable; CodeDeadlineExceeded]) ∧ misfit err).
Lemma statusError_means st : means st (statusError status_text st).
Proof.
  unfold means, statusError. rewrite !not_elem_of_cons, !elem_of_cons, elem_of_nil.
  destruct (st_Code st); try (right; right; split; [split_and!; [discriminate..|intros []]|by repeat split]);
    first [by right; left; split; [auto|repeat split] | left].
  split; [done|]. by case_match; repeat split.
Qed.

(** The outcome of a reservation: the last answer of inventory, which it may give. *)
Definition heard (request : ReservationRequest) (r : order_result unit) : Prop :=
  r = Ok tt ∨ ∃ st err, refusals (request_of request) st ∧ r = Err err ∧ means st err.
Definition may_answer (request : ReservationRequest) (answer : result InventoryGrpc.Status unit) : Prop :=
  ∀ st, answer = Err st → refusals (request_of request) st.
Lemma answer_heard answer request :
  may_answer request answer → heard request (reserver_Reserve status_text (λ _, answer) request).
Proof.
  intros Hv. unfold reserver_Reserve. destruct answer as [[]|st]; [by left|right].
  exists st, (statusError status_text st). split; [by apply Hv|]. split; [done|apply statusError_means].
Qed.

(** No stored order was last changed after [t]; and the identifiers in use. *)
Definition not_behind (db : database) (t : Z) : Prop :=
  ∀ id o, view db id = Some o → (ord_updatedAt o ≤ t)%Z.
Definition not_behindb (db : database) (t : Z) : bool :=
  bool_decide (map_Forall (λ id _, (if view db id is Some o then ord_updatedAt o <=? t else true)%Z = true) (db_orders db)).
Lemma not_behindb_spec db t : not_behindb db t = true → not_behind db t.
Proof.
  intros Hall%bool_decide_eq_true id o Hv. assert (∃ row, db_orders db !! id = Some row) as [row Hrow].
  { unfold view in Hv. destruct (db_orders db !! id) as [row|]; [by exists row|done]. }
  specialize (Hall _ _ Hrow). cbn in Hall. rewrite Hv in Hall. by apply Z.leb_le.
Qed.
Definition taken (w : world) : gset uuid :=
  stdpp.base.dom (w_owner w) ∪ stdpp.base.dom (db_orders (w_db w)).

Definition fault_free_call {R} (e : orderE R) (db : database) (r : R) (db' : database) : Prop :=
  match e in orderE R return R → Prop with
  | Prices skus => λ r, r = catalogue skus
  | NewID => λ r, ∀ u, r = uuid_String u → db_orders db !! u = None
  | Reserve request => λ r, ∃ answer, may_answer request answer
      ∧ r = reserver_Reserve status_text (λ _, answer) request
  | Clock => λ r, (0 < r ≤ latest)%Z ∧ not_behind db r
  | CtxErr | TimerOrDone _ => λ r, r = None
  | e => λ r, ∃ at_ corr, (at_ ≤ now)%Z ∧ text_ok corr = true ∧ repository_step no_faults at_ corr db e r db'
  end r.
Definition calm_order (i : nat) R (e : orderE R) (w : world) (r : R) (w' : world) : Prop :=
  request_step i R e w r w' ∧ fault_free_call e (w_db w) r (w_db w').

(** A request that does not panic. *)
Definition calm_http (i : nat) R (e : httpE R) (w : world) (r : R) (w' : world) : Prop :=
  match e in sumE _ _ R return R → Prop with
  | inlE e => λ r, calm_order i _ e w r w'
  | inrE c => match c in crashE R return R → Prop with Crash => λ r, r = false ∧ w' = w end
  end r.
Abbreviation calm i := (must (calm_order i)).

Definition with_store (db : database) (events : gmap uuid uuid) (w : world) : world :=
  mkWorld db (w_reserved w) (w_published w) events (w_owner w) (w_tokens w).

Definition answerable {R} (e : orderE R) (w : world) : Prop :=
  match e with
  | NewID => (size (taken w) < supply)%nat
  | Clock => not_behind (w_db w) latest
  | _ => True
  end.
Lemma request_answered i {R} (e : orderE R) w : answerable e w → ∃ r w', calm_order i R e w r w'.
Proof.
  intros Ha. set (db := w_db w).
  assert (∀ (r : R) db', touches_store e = true → repository_step no_faults now "" db e r db' →
    ∃ r w', calm_order i R e w r w') as Hgo.
  { intros r db' He Hr.
    exists r, (with_store db' (if e is UpdateAndRecordEvent _ _ _ then w_events w ∪ (ob_order_id <$> db_outbox db')
                          else w_events w) w).
    destruct e; try discriminate He; (split; [|by exists now, ""]);
      (do 2 (split; [done|])); (split; [done|]); (split; [by exists no_faults, now, ""|done]). }
  destruct e.
  - by eapply (Hgo _ db).
  - by eapply (Hgo _ db).
  - destruct (repository_Create no_faults order db) as [r db'] eqn:Hr. by eapply (Hgo r db').
  - destruct (repository_Update no_faults order expectedStatus db) as [r db'] eqn:Hr. by eapply (Hgo r db').
  - destruct (repository_UpdateAndRecordEvent no_faults now "" order expectedStatus event db) as [r db'] eqn:Hr.
    by eapply (Hgo r db').
  - exists (catalogue productSKUs), w. split; [|done]. do 2 (split; [done|]). split; [done|].
    split; [by exists no_faults, now, ""|done].
  - exists (Ok tt), (mkWorld db (request :: w_reserved w) (w_published w) (w_events w) (w_owner w) (w_tokens w)).
    split; [|by exists (Ok tt)]. do 2 (split; [done|]).
    split_and!; [done|by apply list_subseteq_cons|intros _; by left|done|done].
  - exists latest, w. destruct clock_runs. split; [|by cbn; split; [lia|]]. do 2 (split; [done|]). by split.
  - destruct (uuids_last _ Ha) as [u [Hu%not_elem_of_dom Ho%not_elem_of_dom]%not_elem_of_union].
    exists (uuid_String u), (mkWorld db (w_reserved w) (w_published w) (w_events w) (<[u := i]> (w_owner w)) (w_tokens w)).
    split; [|by intros u' ->%(inj uuid_String)]. do 2 (split; [done|]). by exists (Ok u), u.
  - exists None, w. split; [|done]. do 2 (split; [done|]). split; [done|].
    split; [by exists no_faults, now, ""|done].
  - exists None, w. split; [|done]. do 2 (split; [done|]). split; [done|].
    split; [by exists no_faults, now, ""|done].
Qed.

(** A call that changes nothing is answered and leaves the world as it is. *)
Lemma calm_silent {A R} i (e : orderE R) (k : R → prog orderE A) Q w :
  silent e = true → answerable e w → (∀ r, calm_order i R e w r w → calm i (k r) Q w) →
  calm i (trigger e ≫= k) Q w.
Proof.
  intros He Ha Hk. apply must_trigger; [by apply request_answered|].
  intros r w' Hs. pose proof (silent_step _ _ _ _ _ He (proj1 Hs)) as ->. by apply Hk.
Qed.

(** An order that is not stored, or not accepted, has no event. *)
Lemma unannounced w id :
  orders_sound w → (∀ o, view (w_db w) id = Some o → ord_status o ≠ StatusAccepted) →
  ∀ eid row, db_outbox (w_db w) !! eid = Some row → ob_order_id row ≠ id.
Proof.
  intros Hs Hno eid row Hl <-. destruct (wf_events _ (snd_wf _ Hs) _ _ Hl) as [ev Hev].
  destruct (snd_event _ Hs (ob_order_id row) ev) as (o & Hv & Ha & _); [by exists eid, row|].
  by destruct (Hno _ Hv).
Qed.
Lemma pending_unannounced w id o :
  orders_sound w → view (w_db w) id = Some o → ord_status o = StatusPending →
  ∀ eid row, db_outbox (w_db w) !! eid = Some row → ob_order_id row ≠ id.
Proof. intros Hs Hv Hp. apply unannounced; [done|]. intros o'. rewrite Hv. intros [= <-]. by rewrite Hp. Qed.

(** An identifier nobody has drawn is that of no event. *)
Lemma unowned_unused w u : sound w → w_owner w !! u = None → db_outbox (w_db w) !! u = None.
Proof.
  intros [_ Hb] Hu. destruct (db_outbox (w_db w) !! u) as [row|] eqn:Hl; [|done].
  apply (os_events _ Hb) in Hl. destruct (os_owned _ Hb u) as [j Hj]; [by eexists|]. congruence.
Qed.

(** ** Reserving *)

(** Only a reservation may have been added since [w]. *)
Definition only_reserved (w w' : world) : Prop :=
  w_db w' = w_db w ∧ w_owner w' = w_owner w ∧ w_reserved w ⊆ w_reserved w'.

(** A verdict ends the retries, and so does the last attempt. *)
Lemma reserve_loop_calm i remaining attempt lastErr request w w1 :
  (remaining + attempt = inventoryReservationAttempts)%nat → (0 < remaining)%nat → only_reserved w w1 →
  calm i (reserveInventory_loop remaining attempt lastErr request) (λ r w', only_reserved w w'
    ∧ heard request r ∧ (r = Ok tt → request ∈ w_reserved w')) w1.
Proof.
  revert attempt lastErr w1. induction remaining as [|remaining IH]; intros attempt lastErr w1 Hn Hpos Hw; [lia|].
  cbn [reserveInventory_loop]. apply calm_silent; [done|done|]. intros r [_ ->].
  apply must_trigger; [by apply request_answered|].
  intros r w2 [(_ & _ & Hdb & Hr & Hok & _ & Ho) (answer & Hv & Hans)].
  assert (heard request r) as Hheard by (rewrite Hans; by apply answer_heard). clear Hans.
  assert (only_reserved w w2) as Hw2.
  { destruct Hw as (E1 & E2 & E3). split_and!; [congruence|congruence|by etransitivity]. }
  destruct r as [[]|err]; [by split_and!; auto|].
  destruct (negb _ || _) eqn:Hstop; [done|]. apply orb_false_iff in Hstop as [_ Hlast].
  apply bool_decide_eq_false in Hlast. unfold inventoryReservationAttempts in *.
  apply calm_silent; [done|done|]. intros stopped [_ ->]. apply IH; [lia|lia|done].
Qed.

(** ** What becomes of the order *)

Lemma is_due_later t t' row : (t ≤ t')%Z → is_due t row = true → is_due t' row = true.
Proof. unfold is_due. intros Ht [Hp Hat]%andb_true_iff. rewrite Hp. cbn. apply Z.leb_le in Hat. apply Z.leb_le. lia. Qed.

(** The event of the accepted order [o] is the only one added to the outbox, and due. *)
Definition event_waits (outbox : gmap uuid outboxRow) (id : uuid) (o : Order) (db' : database) : Prop :=
  ∃ eid row, db_outbox db' = <[eid := row]> outbox ∧ ob_order_id row = id ∧ is_due now row = true
    ∧ recorded db' id (newOrderAcceptedEvent (uuid_String eid) o).

(** The order as it was stored and as it is left, with what the use case answers. *)
Definition order_concluded (outbox : gmap uuid outboxRow) (id : uuid) (o : Order) (created : bool)
    (r : order_result CreateOrderResult) (w' : world) : Prop :=
  ∃ o', view (w_db w') id = Some o' ∧ same_order o o'
    ∧ ((ord_status o' = StatusAccepted ∧ r = Ok (mkCreateOrderResult o' created)
          ∧ reservationRequestFor o ∈ w_reserved w' ∧ event_waits outbox id o' (w_db w'))
       ∨ (db_outbox (w_db w') = outbox
          ∧ ∃ st err, refusals (request_of (reservationRequestFor o)) st ∧ r = Err err ∧ means st err
              ∧ (if decide (st_Code st = FailedPrecondition) then ord_status o' = StatusRejected else o' = o))).

Lemma pending_becomes o st t :
  ord_status o = StatusPending → st = StatusAccepted ∨ st = StatusRejected →
  (ord_updatedAt o ≤ t)%Z → (0 < t)%Z → transitionTo o st t = Ok (with_state o st t).
Proof.
  intros Hp Hst Ho Ht. apply transitionTo_ok. rewrite Hp.
  split_and!; [by destruct Hst as [->| ->]|lia|lia|done].
Qed.
Lemma stored_customer db id o : db_wf db → view db id = Some o → ∃ cid, uuid_Parse (ord_customerID o) = Some cid.
Proof.
  intros Hwf (row & _ & Hload)%view_row; [|done]. exists (or_customerID row).
  unfold domainFromRows in Hload. ok_inv. apply Reconstitute_ok in Hload as [-> _]. apply uuid_Parse_String.
Qed.
Lemma pending_change w w1 id o st t :
  sound w → w_db w1 = w_db w → view (w_db w) id = Some o → ord_status o = StatusPending →
  st = StatusAccepted ∨ st = StatusRejected →
  (ord_updatedAt o ≤ t)%Z → (0 < t)%Z → (t `mod` Microsecond = 0)%Z →
  order_encodable o ∧ ord_id o = uuid_String id
  ∧ ∃ cid, change (w_db w1) id cid o (with_state o st t).
Proof.
  intros [Hs _] -> Hv Hp Hst Ho Ht Hmod.
  destruct (found_copy _ _ _ Hs Hv) as (Hsto & Henc & id' & cur & Hid & Hcan & Hcur & _).
  pose proof (pending_becomes o st t Hp Hst Ho Ht) as Htr.
  destruct (transition_copy w o st t _ (found_copy _ _ _ Hs Hv) Htr Hmod) as (_ & Hpre & _).
  pose proof Hv as (row & Hrow & Hload)%view_row; [|apply (snd_wf _ Hs)].
  destruct (domainFromRows_fields _ _ _ Hload) as (_ & Hoid & _).
  rewrite (wf_key _ (snd_wf _ Hs) _ _ Hrow) in Hoid.
  split; [done|]. split; [done|]. destruct (stored_customer _ _ _ (snd_wf _ Hs) Hv) as [cid Hcid].
  exists cid. split; [done|done|done|by cbn; rewrite Hoid, uuid_Parse_String|done|].
  by destruct Hst as [->| ->].
Qed.

Lemma moved_shows db id o st t db' :
  view db id = Some o → moved db id (with_state o st t) StatusPending db' →
  view db' id = Some (with_state o st t).
Proof. intros Hv (cur & Hcur & _ & Hview). rewrite Hview, decide_True by done. by rewrite Hv in Hcur; injection Hcur as <-. Qed.

(** An order stored and pending, at a time the clock has reached. *)
Record waiting (w : world) (id : uuid) (o : Order) : Prop := {
  wt_sound : sound w;
  wt_stored : view (w_db w) id = Some o;
  wt_pending : ord_status o = StatusPending;
  wt_time : not_behind (w_db w) latest;
}.

Lemma reject_calm i o id created st cause w w1 :
  waiting w id o → only_reserved w w1 → refusals (request_of (reservationRequestFor o)) st →
  st_Code st = FailedPrecondition → means st cause →
  calm i (reject o created cause) (order_concluded (db_outbox (w_db w)) id o created) w1.
Proof.
  intros [Hs Hv Hp Hnb] (Hdb & _) Hst Hcode Hmeans. apply calm_silent; [done|by cbn; rewrite Hdb|].
  intros t [(_ & _ & _ & Hmod) [Ht Hpast]]. rewrite Hdb in Hpast. specialize (Hpast _ _ Hv).
  unfold Reject. rewrite (pending_becomes o StatusRejected t) by (auto; lia).
  destruct (pending_change w w1 id o StatusRejected t) as (_ & _ & cid & Hch); [by auto..|lia|done|].
  apply must_trigger; [by apply request_answered|]. intros r w2 [_ (at_ & corr & _ & _ & Hr)].
  assert (db_wf (w_db w1)) as Hwf by (rewrite Hdb; apply Hs).
  destruct (update_succeeds _ _ _ _ _ _ _ Hwf Hch Hr) as (-> & Hmv & Hob).
  exists (with_state o StatusRejected t). split; [by apply (moved_shows (w_db w1)); [rewrite Hdb|]|].
  split; [done|]. right. split; [by rewrite Hob, Hdb|]. exists st, cause. by rewrite decide_True.
Qed.

Lemma reserve_calm i request w :
  calm i (reserveInventory request) (λ r w', only_reserved w w'
    ∧ heard request r ∧ (r = Ok tt → request ∈ w_reserved w')) w.
Proof. apply reserve_loop_calm; [done|unfold inventoryReservationAttempts; lia|by split_and!]. Qed.

(** The acceptance is stored with its event. *)
Lemma accept_calm i o o' id cid created t w w1 (Q : order_result CreateOrderResult → world → Prop) :
  waiting w id o → w_db w1 = w_db w → w_owner w1 = w_owner w → (size (taken w) < supply)%nat →
  o' = with_state o StatusAccepted t → (0 < t ≤ latest)%Z → change (w_db w1) id cid o o' →
  order_encodable o → ord_id o = uuid_String id →
  (∀ w', view (w_db w') id = Some o' → w_reserved w' = w_reserved w1 →
     event_waits (db_outbox (w_db w)) id o' (w_db w') → Q (Ok (mkCreateOrderResult o' created)) w') →
  calm i (eventID ← trigger NewID;
    updated ← trigger (UpdateAndRecordEvent o' StatusPending (newOrderAcceptedEvent eventID o'));
    match updated with
    | Err err =>
        if is_app err ErrOrderStateConflict then resultAfterConflict (ord_id o') created
        else Ret (Err (Wrap "persist accepted order" err))
    | Ok _ => Ret (Ok (mkCreateOrderResult o' created))
    end) Q w1.
Proof.
  intros [Hs Hv Hp _] Hdb Hown Hsize Ho' Ht Hch Henc Hid HQ.
  apply must_trigger; [apply request_answered; cbn; unfold taken; by rewrite Hdb, Hown|].
  intros eventID w2 [(_ & _ & v7 & v4 & -> & Hnew & ->) _]. rewrite newIDGenerator_drawn in *.
  set (u := drawn v7 v4) in *. apply must_trigger; [by apply request_answered|].
  intros r w3 [(_ & _ & Hr3 & _) (at_ & corr & Hat & Hcorr & Hr)]. cbn in Hr3, Hr. rewrite Hown in Hnew.
  assert (db_wf (w_db w1)) as Hwf by (rewrite Hdb; apply Hs).
  destruct (record_succeeds jsonb_value latest json_marshals jsonb_takes at_ corr (w_db w1) id cid u o o' r (w_db w3)
    Hwf Hch) as (-> & Hmv & Hadd & row' & Hins & Hoid & Hdue);
    [by subst o'|subst o'; cbn; lia|done|rewrite Hdb; by apply unowned_unused
    |rewrite Hdb; by apply (pending_unannounced w id o (proj1 Hs))|done|].
  apply HQ; [subst o'; by apply (moved_shows (w_db w1)); [rewrite Hdb|]|done|].
  destruct Hadd as (eid & row & Heid & _ & _ & _ & _ & _ & _ & _ & Hrec).
  cbn in Heid. rewrite uuid_Parse_String in Heid. injection Heid as <-.
  exists u, row'. split; [by rewrite Hins, Hdb|]. split; [done|]. split; [by eapply is_due_later|].
  apply Hrec. right. split; [done|]. subst o'. unfold newOrderAcceptedEvent. cbn. by rewrite Hid.
Qed.

Lemma pending_calm i o id created w :
  waiting w id o → (size (taken w) < supply)%nat →
  calm i (processPending o created) (order_concluded (db_outbox (w_db w)) id o created) w.
Proof.
  intros Hw Hsize. apply must_bind. eapply must_mono; [|apply reserve_calm].
  intros r w1 (Hw1 & [->|(st & err & Hst & -> & Hmeans)] & Hres).
  - destruct Hw as [Hs Hv Hp Hnb]. pose proof Hw1 as (Hdb & Hown & _). specialize (Hres eq_refl).
    cbv beta iota. apply calm_silent; [done|by cbn; rewrite Hdb|].
    intros t [(_ & _ & _ & Hmod) [Ht Hpast]]. rewrite Hdb in Hpast. specialize (Hpast _ _ Hv).
    unfold Accept. rewrite (pending_becomes o StatusAccepted t) by (auto; lia).
    destruct (pending_change w w1 id o StatusAccepted t) as (Henc & Hid & cid & Hch); [by auto..|lia|done|].
    eapply (accept_calm i o _ id cid created t w); try done.
    intros w' Hv' Hr' Hwaits. eexists. split; [exact Hv'|]. split; [done|]. left.
    split; [done|]. split; [done|]. split; [by rewrite Hr'|done].
  - cbv beta iota. pose proof Hmeans as [[Hcode [_ [Hi _]]]|Hmeans'].
    { rewrite Hi. by apply (reject_calm i o id created st). }
    assert (is_app err ErrInsufficientStock = false ∧ st_Code st ≠ FailedPrecondition) as [-> Hcode].
    { destruct Hmeans' as [[Hc (_ & Hi & _)]|[Hc (_ & Hi & _)]]; (split; [done|]); intros Heq; rewrite Heq in Hc;
        [by repeat apply elem_of_cons in Hc as [?|Hc]; try apply elem_of_nil in Hc|apply Hc; by left]. }
    destruct Hw1 as (Hdb & _). exists o. rewrite Hdb. split; [apply Hw|]. split; [done|]. right. split; [done|].
    exists st, (Wrap "reserve inventory" err). rewrite decide_False by done. split; [done|]. split; [done|].
    by split.
Qed.

(** ** A repeated request *)

Lemma repeated_calm i command o id w :
  waiting w id o → coc_IdempotencyKey command = ord_idempotencyKey o → (size (taken w) < supply)%nat →
  calm i (Execute command) (order_concluded (db_outbox (w_db w)) id o false) w.
Proof.
  intros Hw Hk Hsize. pose proof Hw as [Hs Hv Hp _].
  apply calm_silent; [done|done|]. intros r [_ (at_ & corr & _ & _ & _ & ->)].
  pose proof (found_copy _ _ _ (proj1 Hs) Hv) as (_ & [[_ Hkey] _] & _).
  rewrite Hk, (found_by_key _ _ _ (snd_wf _ (proj1 Hs)) Hv Hkey). unfold processPersisted.
  rewrite Hp. case_bool_decide as Hpast; [by apply past_pending in Hpast|]. by apply pending_calm.
Qed.

(** ** A new request *)

(** A command that can be ordered: its customer and email are proper, the catalogue prices
    its products, and the order's items and texts are what the tables hold. *)
Record orderable (command : CreateOrderCommand) (items : list OrderItem) : Prop := {
  ob_customer : ∃ cid, coc_CustomerID command = uuid_String cid;
  ob_email : isEmailValid (TrimSpace (coc_CustomerEmail command)) = true;
  ob_key : TrimSpace (coc_IdempotencyKey command) ≠ "";
  ob_prices : ∃ prices, catalogue (productSKUs (coc_Items command)) = Ok prices
    ∧ Forall2 (λ item line, ∃ price, prices !! TrimSpace (coi_ProductSKU item) = Some price
        ∧ NewOrderItem (TrimSpace (coi_ProductSKU item)) (coi_Quantity item) price = Ok line)
        (coc_Items command) items;
  ob_total : is_ok (calculateTotal items) = true;
  ob_texts : text_ok (TrimSpace (coc_CustomerEmail command)) = true ∧ text_ok (coc_IdempotencyKey command) = true;
  ob_lines : Forall (λ i, text_ok (productSKU i) = true ∧ in_int32 (quantity i)) items;
  ob_length : (Z.of_nat (length items) ≤ MaxInt32)%Z;
}.
(** [o] is the order of the command. *)
Definition placed (command : CreateOrderCommand) (items : list OrderItem) (o : Order) : Prop :=
  ord_status o = StatusPending ∧ ord_idempotencyKey o = coc_IdempotencyKey command
  ∧ ord_customerID o = coc_CustomerID command
  ∧ ord_customerEmail o = TrimSpace (coc_CustomerEmail command) ∧ ord_orderItems o = items.

Lemma placed_order command items u t :
  orderable command items → (0 < t)%Z → (t `mod` Microsecond = 0)%Z →
  ∃ o, NewOrder (uuid_String u) (coc_CustomerID command) (coc_CustomerEmail command)
         (coc_IdempotencyKey command) items t = Ok o
    ∧ placed command items o ∧ ord_id o = uuid_String u ∧ ord_updatedAt o = t
    ∧ order_storable o ∧ order_encodable o.
Proof.
  intros [[cid Hcid] He Hk (prices & _ & Hp) Ht [Hte Htk] Hl Hn] Hpos Hmod.
  destruct (calculateTotal items) as [total|] eqn:Htotal; [|done].
  set (o := mkOrder (uuid_String u) (coc_CustomerID command) (TrimSpace (coc_CustomerEmail command)) StatusPending
    (coc_IdempotencyKey command) items total t t).
  assert (order_valid o) as Hval.
  { apply validateOrder_spec. cbn. rewrite Hcid, !uuid_String_trimmed.
    split_and!; try apply uuid_String_nonempty; done || lia. }
  exists o. split_and!; try done.
  - apply NewOrder_ok. exists total. rewrite Hcid, !uuid_String_trimmed.
    split_and!; try apply uuid_String_nonempty; try done; [lia|]. unfold o. by rewrite Hcid.
  - split; [done|]. split; [|done]. unfold o. cbn. clear -Hp.
    induction Hp as [|c x l k (price & _ & Hx) _ IH]; constructor; [|done].
    unfold NewOrderItem in Hx. destruct (validateItem _); [|done]. injection Hx as <-. cbn. by rewrite TrimSpace_idemp.
Qed.

Lemma none_missing (command_items : list CreateOrderItem) (items : list OrderItem) (prices : gmap string Money) :
  Forall2 (λ item line, ∃ price, prices !! TrimSpace (coi_ProductSKU item) = Some price
    ∧ NewOrderItem (TrimSpace (coi_ProductSKU item)) (coi_Quantity item) price = Ok line) command_items items →
  filter (λ sku, prices !! sku = None) (productSKUs command_items) = [].
Proof.
  induction 1 as [|c x l k (price & Hprice & _) _ IH]; [done|]. unfold productSKUs in *. cbn.
  rewrite decide_False by by rewrite Hprice. exact IH.
Qed.
Lemma lines_priced (command_items : list CreateOrderItem) (items : list OrderItem) (prices : gmap string Money) :
  Forall2 (λ item line, ∃ price, prices !! TrimSpace (coi_ProductSKU item) = Some price
    ∧ NewOrderItem (TrimSpace (coi_ProductSKU item)) (coi_Quantity item) price = Ok line) command_items items →
  mapM_result (λ item, NewOrderItem (TrimSpace (coi_ProductSKU item)) (coi_Quantity item)
    (default (mkMoney 0 "") (prices !! TrimSpace (coi_ProductSKU item)))) command_items
  = Ok items.
Proof.
  intros Hp. apply mapM_result_Forall2. eapply Forall2_impl; [exact Hp|].
  intros c x (price & Hprice & Hx). by rewrite Hprice.
Qed.

(** The order is priced, identified and stamped. *)
Lemma build_calm i command items w :
  sound w → orderable command items → not_behind (w_db w) latest → (size (taken w) < supply)%nat →
  calm i (buildOrder command) (λ r w', ∃ o u, r = Ok o ∧ placed command items o ∧ ord_id o = uuid_String u
    ∧ order_storable o ∧ order_encodable o ∧ (ord_updatedAt o ≤ latest)%Z
    ∧ sound w' ∧ w_db w' = w_db w ∧ w_owner w' = <[u := i]> (w_owner w) ∧ db_orders (w_db w) !! u = None) w.
Proof.
  intros Hs Hob Hnb Hsize. pose proof Hob as [_ _ _ (prices & Hc & Hp) _ _ _ _].
  apply calm_silent; [done|done|]. intros r [_ Hr]. cbn in Hr. subst r. rewrite Hc. cbv zeta.
  rewrite (none_missing _ _ _ Hp), (lines_priced _ _ _ Hp). cbn.
  apply must_trigger; [by apply request_answered|]. intros r w1 [Hstep Hnew].
  destruct (new_id_step jsonb_value _ _ _ _ Hs Hstep) as (Hs1 & _ & u & -> & _ & _ & Hdb & Hown).
  cbn in Hnew. specialize (Hnew u eq_refl).
  apply calm_silent; [done|by cbn; rewrite Hdb|]. intros t [(_ & _ & _ & Hmod) [Ht _]].
  destruct (placed_order command items u t Hob) as (o & -> & Hplaced & Hid & Hat & Hsto & Henc); [lia|done|].
  exists o, u. split_and!; try done. rewrite Hat. lia.
Qed.

(** One identifier is taken by the order and for it. *)
Lemma taken_one_more u i w w' o :
  db_wf (w_db w) → db_wf (w_db w') → w_owner w' = <[u := i]> (w_owner w) →
  (∀ id, view (w_db w') id = if decide (id = u) then Some o else view (w_db w) id) →
  (size (taken w') ≤ S (size (taken w)))%nat.
Proof.
  intros Hwf Hwf' Hown Hview. transitivity (size ({[ u ]} ∪ taken w)).
  - apply subseteq_size. unfold taken. rewrite Hown, dom_insert_L. intros v.
    rewrite !elem_of_union, elem_of_singleton. intros [[->|Hv]|Hv]; [by left|by right; left|].
    destruct (decide (v = u)) as [->|Hne]; [by left|]. right; right. apply elem_of_dom.
    destruct (db_orders (w_db w) !! v) eqn:Hl; [done|]. apply view_None in Hl; [|done].
    pose proof (Hview v) as Hv'. rewrite decide_False, Hl in Hv' by done. apply view_None in Hv'; [|done].
    apply elem_of_dom in Hv as [x Hx]. congruence.
  - rewrite size_union_alt, size_singleton. pose proof (subseteq_size (taken w ∖ {[ u ]}) (taken w)). set_solver by lia.
Qed.

(** The stored order is taken up at once. *)
Lemma new_calm i command items w :
  sound w → orderable command items → new_key (w_db w) (coc_IdempotencyKey command) →
  not_behind (w_db w) latest → (S (size (taken w)) < supply)%nat →
  calm i (Execute command) (λ r w', ∃ id o, view (w_db w) id = None ∧ placed command items o
    ∧ order_concluded (db_outbox (w_db w)) id o true r w') w.
Proof.
  intros Hs Hob Hkey Hnb Hsize.
  apply calm_silent; [done|done|]. intros r [_ (at_ & corr & _ & _ & _ & ->)].
  rewrite (not_found_by_key _ _ (snd_wf _ (proj1 Hs)) Hkey) by apply Hob. cbn [is_app negb].
  apply must_bind. eapply must_mono; [|by eapply build_calm; [..|lia]].
  intros built w1 (o & u & -> & Hplaced & Hid & Hsto & Henc & Hat & Hs1 & Hdb & Hown & Hfresh).
  pose proof Hplaced as (Hp & Hk & Hcust & _ & Hitems). destruct (ob_customer _ _ Hob) as [cid Hcid].
  apply must_trigger; [by apply request_answered|]. intros r w2 [Hstep (at2 & corr2 & _ & _ & Hr)]. cbn in Hr.
  destruct (create_step jsonb_value _ _ _ _ _ Hs1 Hsto Hp (ex_intro _ u Hid) Hstep) as (Hs2 & _ & _).
  destruct (create_succeeds o u cid (w_db w1) r (w_db w2)) as (-> & Hview & Hob2);
    [apply Hs1|done|done|done|congruence|rewrite Hitems; apply Hob|by rewrite Hdb|by rewrite Hdb, Hk|done|].
  rewrite Hdb in Hview, Hob2. unfold processPersisted. rewrite Hp.
  case_bool_decide as Hpast; [by apply past_pending in Hpast|].
  eapply must_mono; [|apply (pending_calm i o u true w2)].
  - intros r w3 Hend. exists u, o. rewrite <-Hob2. split; [by apply view_None; [apply Hs|]|done].
  - split; [done|by rewrite Hview, decide_True|done|]. intros id' o'. rewrite Hview.
    case_decide; [by intros [= <-]|apply Hnb].
  - destruct Hstep as (_ & _ & _ & _ & _ & Hown2).
    assert (w_owner w2 = <[u := i]> (w_owner w)) as Hown2' by congruence.
    pose proof (taken_one_more u i w w2 o (snd_wf _ (proj1 Hs)) (snd_wf _ (proj1 Hs2)) Hown2' Hview). lia.
Qed.

(** ** Both *)

(** A state from which a request can be served to its end: one identifier is left for its
    order, one for the event. *)
Record can_serve (w : world) : Prop := {
  rd_sound : sound w;
  rd_time : not_behind (w_db w) latest;
  rd_supply : (S (size (taken w)) < supply)%nat;
}.

(** Whether [w] is one, told from its tables. *)
Definition can_serveb (w : world) : bool :=
  not_behindb (w_db w) latest && bool_decide (S (size (taken w)) < supply)%nat.
Lemma can_serveb_spec w : sound w → can_serveb w = true → can_serve w.
Proof. intros Hs [Ht Hn%bool_decide_eq_true]%andb_true_iff. split; [done|by apply not_behindb_spec|done]. Qed.

(** A command orders under a new key, or comes with the key of an order left pending. *)
Definition demand (w : world) (command : CreateOrderCommand) (items : list OrderItem) : Prop :=
  (orderable command items ∧ new_key (w_db w) (coc_IdempotencyKey command))
  ∨ ∃ id o, view (w_db w) id = Some o ∧ ord_status o = StatusPending
      ∧ coc_IdempotencyKey command = ord_idempotencyKey o.
(** The order it is about, as it is first stored or as it was left. *)
Definition subject (w : world) (command : CreateOrderCommand) (items : list OrderItem) (created : bool)
    (id : uuid) (o : Order) : Prop :=
  if created then new_key (w_db w) (coc_IdempotencyKey command) ∧ view (w_db w) id = None ∧ placed command items o
  else view (w_db w) id = Some o ∧ ord_status o = StatusPending
    ∧ coc_IdempotencyKey command = ord_idempotencyKey o.

Lemma Execute_calm_any i command items w :
  can_serve w → demand w command items →
  calm i (Execute command) (λ r w', ∃ created id o, subject w command items created id o
    ∧ order_concluded (db_outbox (w_db w)) id o created r w') w.
Proof.
  intros [Hs Ht Hn] [[Hob Hkey]|(id & o & Hv & Hp & Hk)].
  - eapply must_mono; [|by eapply new_calm]. intros r w' (id & o & Hnone & Hplaced & Hend). by exists true, id, o.
  - eapply must_mono; [|apply (repeated_calm i command o id); [done|done|lia]].
    intros r w' Hend. by exists false, id, o.
Qed.

(** ** Over HTTP *)

Lemma crashing_calm {A} i (p : prog orderE A) Q w :
  calm i p Q w → must (calm_http i) (crashing p) (λ r w', if r is Some a then Q a w' else False) w.
Proof.
  revert w. induction p as [a|R e k IH]; cbn; intros w Hp; [done|]. destruct Hp as [(r & w' & Hs) Hall].
  split; [by exists false, w|]. intros crashed w0 [-> ->]. cbn. split; [by exists r, w'|]. eauto.
Qed.

(** What the client is answered. *)
Definition client_told (outbox : gmap uuid outboxRow) (id : uuid) (o : Order) (created : bool)
    (a : answer) (w' : world) : Prop :=
  ∃ o', view (w_db w') id = Some o' ∧ same_order o o'
    ∧ ((ord_status o' = StatusAccepted
          ∧ a = (if created then 201%Z else 200%Z, ApiBody (OrderResponse (orderResponseFrom o')))
          ∧ reservationRequestFor o ∈ w_reserved w' ∧ event_waits outbox id o' (w_db w'))
       ∨ (db_outbox (w_db w') = outbox ∧ ∃ basket st, basket_of o basket ∧ refusals basket st
          ∧ ((st_Code st = FailedPrecondition ∧ ord_status o' = StatusRejected ∧ a.1 = 409%Z)
             ∨ (st_Code st ∈ [Unavailable; CodeDeadlineExceeded] ∧ o' = o ∧ a.1 = 503%Z)
             ∨ ((st_Code st ∉ [FailedPrecondition; Unavailable; CodeDeadlineExceeded]) ∧ o' = o ∧ a.1 = 500%Z)))).

Context {Binding : BindingLib} {Gin : GinLib} {GinL : GinLaws Gin}.

(** The answers to the three kinds of errors, by the table. *)
Lemma refusal_conflict ctx err : refusal err → status (respondUseCaseError ctx err) = 409%Z.
Proof.
  intros ((Hp & Hc) & Hi & _). destruct (respondUseCaseError_reports ctx err) as [-> _].
  unfold error_table. by rewrite Hp, Hc, Hi.
Qed.
Lemma outage_unavailable ctx err : outage err → status (respondUseCaseError ctx err) = 503%Z.
Proof.
  intros ((Hp & Hc) & Hi & Hu). destruct (respondUseCaseError_reports ctx err) as [-> _].
  unfold error_table. by rewrite Hp, Hc, Hi, Hu.
Qed.
Lemma misfit_internal ctx err : misfit err → status (respondUseCaseError ctx err) = 500%Z.
Proof.
  intros ((Hp & Hc) & Hi & Hu & H1 & H2 & H3 & H4). destruct (respondUseCaseError_reports ctx err) as [-> _].
  unfold error_table. by rewrite Hp, Hc, Hi, Hu, H1, H2, H3, H4.
Qed.

(** The request [rq] to place an order, and its command. *)
Definition places (rq : request) (command : CreateOrderCommand) : Prop :=
  (rq_Method rq, rq_Path rq) = ("POST", ordersPath) ∧ TrimSpace (rq_IdempotencyKey rq) ≠ ""
  ∧ ∃ body, ShouldBindJSON (rq_Body rq) = Ok body ∧ command = toCommand body (TrimSpace (rq_IdempotencyKey rq)).

Lemma Create_calm i ctx key b body items w :
  TrimSpace key ≠ "" → ShouldBindJSON b = Ok body → can_serve w → demand w (toCommand body (TrimSpace key)) items →
  calm i (OrderHandler_Create ctx key b) (λ resp w', ∃ created id o,
    subject w (toCommand body (TrimSpace key)) items created id o
    ∧ client_told (db_outbox (w_db w)) id o created (of_response resp) w') w.
Proof.
  intros Hne Hb Hready Hdemand. unfold OrderHandler_Create. cbv zeta.
  rewrite bool_decide_eq_false_2, Hb by done. apply must_bind.
  eapply must_mono; [|by eapply Execute_calm_any].
  intros r w' (created & id & o & Hsub & o' & Hv' & Hsame & Hend).
  destruct Hend as [(Ha & -> & Hres & Hrec)|(Hob & st & err & Hst & -> & Hmeans & Hleft)];
    exists created, id, o; (split; [done|]); exists o'; (split; [done|]); (split; [done|]).
  - left. by destruct created.
  - right. split; [done|]. exists (request_of (reservationRequestFor o)), st.
    split; [by apply request_of_basket, asks_for_iff|]. split; [done|].
    destruct Hmeans as [[Hc Herr]|[[Hc Herr]|[Hc Herr]]]; [left|right; left|right; right].
    + rewrite decide_True in Hleft by done. split_and!; [done..|by apply refusal_conflict].
    + rewrite decide_False in Hleft; [split_and!; [done..|by apply outage_unavailable]|].
      intros Heq. rewrite Heq in Hc. by vm_compute in Hc; repeat apply elem_of_cons in Hc as [?|Hc]; try apply elem_of_nil in Hc.
    + rewrite decide_False in Hleft; [split_and!; [done..|by apply misfit_internal]|].
      intros Heq. apply Hc. rewrite Heq. by left.
Qed.

Lemma serve_calm i buffer rq command items w :
  places rq command → can_serve w → demand w command items →
  must (calm_http i) (serve buffer rq) (λ s w', ∃ created id o, subject w command items created id o
    ∧ client_told (db_outbox (w_db w)) id o created (sv_answer s) w') w.
Proof.
  intros (Hroute & Hk & body & Hb & ->) Hready Hdemand. unfold serve.
  assert (gin_dispatch routes true (rq_Method rq) (rq_Path rq) = Route (rq_Method rq) (rq_Path rq)) as ->.
  { apply dispatch_route. split; [|done]. rewrite Hroute. right. by left. }
  destruct (middleware.RequestID _ _) as [rid ctx]. injection Hroute as _ Hpath. rewrite Hpath.
  do 2 apply must_bind. apply must_bind. cbn [endpoint]. rewrite bool_decide_eq_false_2 by done.
  apply must_bind. eapply must_mono; [|by eapply crashing_calm, (Create_calm i ctx)].
  intros [resp|] w' Ht; [|done]. cbn. rewrite Hpath, bool_decide_eq_false_2 by (by intros Hin%list_elem_of_singleton).
  exact Ht.
Qed.
(** A key names one stored order. *)
Lemma subject_repeated w command items id o created id' o' :
  sound w → view (w_db w) id = Some o → coc_IdempotencyKey command = ord_idempotencyKey o →
  subject w command items created id' o' → created = false ∧ id' = id ∧ o' = o.
Proof.
  intros Hs Hv Hk. destruct created; [by intros (Hnew & _); destruct (Hnew _ _ Hv)|].
  intros (Hv' & _ & Hk'). pose proof (snd_wf _ (proj1 Hs)) as Hwf.
  destruct (view_key_row _ _ _ Hwf Hv) as (row & Hrow & Hkey & _).
  destruct (view_key_row _ _ _ Hwf Hv') as (row' & Hrow' & Hkey' & _).
  assert (id' = id) as -> by (eapply (wf_unique _ Hwf); [done|done|congruence]).
  rewrite Hv in Hv'. by injection Hv'.
Qed.

(** No pending order is stuck. Whatever state an earlier request was abandoned in - before
    or after its stock was reserved - and whatever has happened since: when the client
    repeats the request with the same key, and any body that is well formed, while databases
    answer, the order is concluded and the client is told how. It is accepted, with its
    reservation made and its event recorded, and the answer is 200 with the stored order; or
    it is rejected, inventory having refused the stock, and the answer is 409; or it is as it
    was, and the answer is 503 when inventory could not be reached and 500 when it answered
    anything else. *)
Theorem no_pending_order_is_stuck i buffer rq command w id o :
  places rq command → can_serve w → view (w_db w) id = Some o → ord_status o = StatusPending →
  coc_IdempotencyKey command = ord_idempotencyKey o →
  must (calm_http i) (serve buffer rq)
    (λ s w', sound w' ∧ client_told (db_outbox (w_db w)) id o false (sv_answer s) w') w.
Proof.
  intros Hplaces Hready Hv Hp Hk. pose proof (rd_sound _ Hready) as Hs.
  eapply must_mono; [|eapply (must_wp (calm_http i) http_step sound Rely Guar i _ _ _ w);
    [|exact Hs|by apply serve_wp|by apply (serve_calm i buffer rq command [] w);
       [..|right; exists id, o]]].
  - intros s w' (Hs' & _ & created & id' & o' & Hsub & Ht). split; [done|].
    by destruct (subject_repeated _ _ _ _ _ _ _ _ Hs Hv Hk Hsub) as (-> & -> & ->).
  - intros R [R' e|R' []] w0 r w1 Hstep; apply Hstep.
Qed.
End order_liveness.

(** ** A request abandoned once its stock was reserved *)

Definition abandoned_world : option world :=
  snd <$> exec_pool quiet_service (replicate 7 0) (thread_prog <$> [Request basket_command], sample_world).
Definition repeated_request : request := mkRequest "POST" "/orders" "r-2" "key-1" "{}".

(** What the theorem asks of the state, as a test. *)
Definition left_pending (w : world) (id : sample_uuid_type) : bool :=
  match view (w_db w) id with
  | Some o =>
      bool_decide (ord_status o = StatusPending)
      && bool_decide (TrimSpace (rq_IdempotencyKey repeated_request) = ord_idempotencyKey o)
      && can_serveb Second 3 w && bool_decide (reservationRequestFor o ∈ w_reserved w)
  | None => false
  end.
Lemma abandoned_left_pending :
  match abandoned_world, fresh_text 0 with
  | Some w, Some id => left_pending w id
  | _, _ => false
  end = true.
Proof. vm_compute. reflexivity. Qed.
Lemma abandoned_world_sound w : abandoned_world = Some w → sound w.
Proof.
  unfold abandoned_world. intros (c & Hrun & ->)%fmap_Some.
  apply (exec_pool_steps _ _ env_step _ _ _ quiet_service_step) in Hrun.
  by destruct (service_reaches sample_jsonb_value [Request basket_command] sample_world c sample_world_sound Hrun).
Qed.

Lemma sample_json_marshals (p : orderAcceptedPayload) :
  payload_utf8 p → (0 ≤ pay_OccurredAt p ≤ Second)%Z → is_ok (Marshal (Codec := sample_json) p) = true.
Proof. done. Qed.
Lemma sample_jsonb_takes (p : orderAcceptedPayload) b :
  payload_texts p → Marshal (Codec := sample_json) p = Ok b → is_Some (jsonb (Postgres := sample_postgres) b).
Proof. by intros _ _; eexists. Qed.

(** Nothing fails, inventory included: it refuses only for lack of stock. *)
Definition only_short (_ : InventoryGrpc.ReserveStockRequest) (st : InventoryGrpc.Status) : Prop :=
  st_Code st = FailedPrecondition.
Abbreviation calm_sample := (calm_http Second (λ _, Ok basket_prices) only_short Microsecond (λ _, "")).

Lemma no_pending_order_is_stuck_witness :
  ∃ w id o, abandoned_world = Some w ∧ view (w_db w) id = Some o ∧ ord_status o = StatusPending
  ∧ reservationRequestFor o ∈ w_reserved w
  ∧ ∃ s w', rtc (pool_step calm_sample (λ _ _, False))
      ([serve (Binding := sample_binding) (replicate 16 171%N) repeated_request], w) ([Ret s], w')
    ∧ client_told only_short Microsecond (db_outbox (w_db w)) id o false (sv_answer s) w'.
Proof.
  pose proof abandoned_left_pending as Hw. pose proof abandoned_world_sound as Hs.
  destruct abandoned_world as [w|]; [|discriminate Hw]. destruct (fresh_text 0) as [id|]; [|discriminate Hw].
  specialize (Hs w eq_refl). unfold left_pending in Hw. destruct (view _ id) as [o|] eqn:Hv; [|discriminate Hw].
  rewrite !andb_true_iff, !bool_decide_eq_true in Hw. destruct Hw as [[[Hp Hk] Hready] Hres].
  exists w, id, o. split; [reflexivity|]. split; [exact Hv|]. split; [exact Hp|]. split; [exact Hres|].
  assert ((0 < Second)%Z ∧ (Second `mod` Microsecond = 0)%Z) as Hclock by done.
  destruct (ShouldBindJSON (Binding := sample_binding) (rq_Body repeated_request)) as [body|] eqn:Hb; [|discriminate Hb].
  set (command := toCommand body (TrimSpace (rq_IdempotencyKey repeated_request))).
  assert (places (Binding := sample_binding) repeated_request command) as Hplaces.
  { split; [reflexivity|]. split; [by apply (bool_decide_unpack _); vm_compute|]. by exists body. }
  pose proof (no_pending_order_is_stuck sample_jsonb_value Second sample_json_marshals
    sample_jsonb_takes 3 sample_uuids_last (λ _, Ok basket_prices) only_short Microsecond (λ _, "") Hclock
    (Binding := sample_binding) 0 (replicate 16 171%N) repeated_request command w id o
    Hplaces (can_serveb_spec _ _ _ Hs Hready) Hv Hp Hk) as Hmust.
  destruct (must_pool _ calm_sample (λ _ _, False) 0
    (serve (Binding := sample_binding) (replicate 16 171%N) repeated_request) _
    [serve (Binding := sample_binding) (replicate 16 171%N) repeated_request] w
    (λ R e w r w' H, H) eq_refl Hmust) as (s & w' & Hrun & _ & Htold).
  exists s, w'. split; [exact Hrun|exact Htold].
Defined.
