(* ===== verification/CatalogStub.v ===== *)
(** * The product catalogue

    [catalogstub.Catalog], the in-process implementation of the [ProductCatalog] port. *)
From S2P Require Import Prelude GoErrors GoStrings External OrderErrors OrderDomain OrderPorts Prog CreateOrder.

(* @go order-service/internal/order/adapter/outbound/catalogstub/catalog.go New *)
Definition catalog_prices : gmap string Money :=
  {[ "SKU-A" := mkMoney 1250 "EUR"; "SKU-B" := mkMoney 500 "EUR"; "SKU-SCARCE" := mkMoney 9900 "EUR" ]}.

(** The loop over the requested products. *)
(* @src order-service/internal/order/adapter/outbound/catalogstub/catalog.go:44-53 Catalog.Prices *)
Fixpoint price_loop (catalog : gmap string Money) (productSKUs : list string)
    (prices : gmap string Money) (missing : list string) : gmap string Money * list string :=
  match productSKUs with
  | [] => (prices, missing)
  | productSKU :: productSKUs' =>
      match catalog !! productSKU with
      | None => price_loop catalog productSKUs' prices (missing ++ [productSKU])
      | Some price => price_loop catalog productSKUs' (<[productSKU := price]> prices) missing
      end
  end.

(** [cancelled] is what [ctx.Err()] answers. *)
(* @go order-service/internal/order/adapter/outbound/catalogstub/catalog.go Catalog.Prices *)
Definition catalog_Prices (catalog : gmap string Money) (cancelled : option context_sentinel)
    (productSKUs : list string) : order_result (gmap string Money) :=
  match cancelled with
  | Some err => Err (ctx_err err)
  | None =>
      let '(prices, missing) := price_loop catalog productSKUs ∅ [] in
      if bool_decide (0 < length missing)%nat then Err (Leaf (ProductNotFoundError missing))
      else Ok prices
  end.

Lemma keep_some (p : Money) o : union_with (λ p _, Some p) (Some p) o = Some p.
Proof. by destruct o. Qed.
Lemma keep_none (o : option Money) : union_with (λ p _, Some p) None o = o.
Proof. by destruct o. Qed.

Lemma price_loop_spec catalog skus prices missing :
  (price_loop catalog skus prices missing).2
    = missing ++ filter (λ sku, catalog !! sku = None) skus
  ∧ ∀ sku, (price_loop catalog skus prices missing).1 !! sku
      = if decide (sku ∈ skus) then union_with (λ p _, Some p) (catalog !! sku) (prices !! sku)
        else prices !! sku.
Proof.
  revert prices missing. induction skus as [|s skus IH]; intros prices missing; cbn [price_loop].
  { rewrite app_nil_r. split; [done|]. intros sku. by rewrite decide_False by apply not_elem_of_nil. }
  rewrite filter_cons. destruct (catalog !! s) as [price|] eqn:Hs.
  - rewrite decide_False by done. destruct (IH (<[s:=price]> prices) missing) as [-> Hl].
    split; [done|]. intros sku. rewrite Hl, lookup_insert.
    assert (sku ∈ s :: skus ↔ s = sku ∨ sku ∈ skus) as Hiff by (rewrite elem_of_cons; naive_solver).
    repeat case_decide; subst; try tauto;
      by rewrite ?Hs, ?keep_some, ?keep_none.
  - rewrite decide_True by done. destruct (IH prices (missing ++ [s])) as [-> Hl].
    split; [by rewrite <-app_assoc|]. intros sku. rewrite Hl.
    assert (sku ∈ s :: skus ↔ s = sku ∨ sku ∈ skus) as Hiff by (rewrite elem_of_cons; naive_solver).
    repeat case_decide; try tauto.
    assert (sku = s) as -> by naive_solver. by rewrite Hs, keep_none.
Qed.

Lemma catalog_prices_of catalog skus prices :
  catalog_Prices catalog None skus = Ok prices →
  ∀ sku price, prices !! sku = Some price → catalog !! sku = Some price.
Proof.
  unfold catalog_Prices. pose proof (price_loop_spec catalog skus ∅ []) as [_ Hl].
  destruct (price_loop _ _ _ _) as [found missing]. case_bool_decide; [done|]. intros [= <-] sku price Hsku.
  cbn in Hl. rewrite Hl, lookup_empty in Hsku. case_decide; [|done]. by destruct (catalog !! sku).
Qed.

(** The catalogue prices a basket or names everything it cannot price: with a live
    context it answers every requested product's own price and nothing else, when all
    are known, and otherwise exactly the unknown ones, in the order they were asked;
    the use case's second check for missing prices never finds one. *)
Theorem catalog_contract catalog skus :
  let missing := filter (λ sku, catalog !! sku = None) skus in
  match catalog_Prices catalog None skus with
  | Ok prices => missing = [] ∧ filter (λ sku, prices !! sku = None) skus = []
      ∧ ∀ sku, prices !! sku = if decide (sku ∈ skus) then catalog !! sku else None
  | Err err => missing ≠ [] ∧ err = Leaf (ProductNotFoundError missing)
  end.
Proof.
  cbv zeta. unfold catalog_Prices. destruct (price_loop_spec catalog skus ∅ []) as [Hm Hl].
  destruct (price_loop _ _ _ _) as [prices missing]. cbn [fst snd app] in *. subst missing.
  case_bool_decide as Hlen.
  { split; [|done]. intros Hnil. rewrite Hnil in Hlen. cbn in Hlen. lia. }
  assert (filter (λ sku, catalog !! sku = None) skus = []) as Hnone by (destruct (filter _ _); [done|cbn in *; lia]).
  assert (∀ sku, prices !! sku = if decide (sku ∈ skus) then catalog !! sku else None) as Hprices.
  { intros sku. rewrite Hl, lookup_empty. case_decide; [|done]. by destruct (catalog !! sku). }
  split; [done|]. split; [|done].
  assert (∀ l : list string, (∀ sku, sku ∈ l → prices !! sku = catalog !! sku) →
    filter (λ sku, prices !! sku = None) l = filter (λ sku, catalog !! sku = None) l) as Hfilter.
  { induction l as [|s l IH]; intros Hl'; [done|]. rewrite !filter_cons, Hl' by left.
    rewrite IH by (intros; apply Hl'; by right). done. }
  rewrite Hfilter; [done|]. intros sku Hin. by rewrite Hprices, decide_True.
Qed.
