(* ===== verification/Settings.v ===== *)
(** * Settings

    What [config.Load] of the services is made of: a struct of settings with its tags, the
    reader that fills it from the environment and a file, and the rules its fields are
    checked against. The reader is the library viper, a parameter with its documented
    behaviour; of the standard library, [filepath.Join] and [Duration.String]. *)
From S2P Require Import Prelude GoStrings.

(** ** filepath and time *)

Fixpoint split_on (sep : Ascii.ascii) (s : string) : list string :=
  match s with
  | EmptyString => [""]
  | String a s' =>
      if bool_decide (a = sep) then "" :: split_on sep s'
      else match split_on sep s' with
           | first :: rest => String a first :: rest
           | [] => [String a ""]
           end
  end.
Definition slash : Ascii.ascii := Ascii.ascii_of_nat 47.

(** The elements [filepath.Clean] keeps, the last first. *)
Definition clean_element (rooted : bool) (kept : list string) (e : string) : list string :=
  if bool_decide (e = "" ∨ e = ".") then kept
  else if bool_decide (e = "..") then
    match kept with
    | top :: rest => if bool_decide (top = "..") then e :: kept else rest
    | [] => if rooted then [] else [e]
    end
  else e :: kept.
Definition filepath_Clean (path : string) : string :=
  let rooted := bool_decide (String.get 0 path = Some slash) in
  let kept := foldl (clean_element rooted) [] (split_on slash path) in
  match kept, rooted with
  | [], true => "/"
  | [], false => "."
  | _, true => "/" +:+ strings_Join (rev kept) "/"
  | _, false => strings_Join (rev kept) "/"
  end.
(** [filepath.Join] of two elements that are not empty. *)
Definition filepath_Join (dir file : string) : string := filepath_Clean (dir +:+ "/" +:+ file).

Example Join_examples :
  (filepath_Join "." ".env", filepath_Join "/etc/orders/" ".env", filepath_Join "../a/./b" ".env")
  = (".env", "/etc/orders/.env", "../a/b/.env").
Proof. reflexivity. Qed.

(** The digits of a fraction, [digits] of them, without the zeros at its end. *)
Fixpoint fraction_digits (digits : nat) (v : Z) : string :=
  match digits with
  | O => ""
  | S digits' =>
      if (v =? 0)%Z then ""
      else let unit := (10 ^ Z.of_nat digits')%Z in
           Itoa (v `div` unit) +:+ fraction_digits digits' (v `mod` unit)
  end.
Definition with_fraction (digits : nat) (v : Z) : string :=
  let unit := (10 ^ Z.of_nat digits)%Z in
  let rest := fraction_digits digits (v `mod` unit) in
  Itoa (v `div` unit) +:+ (if bool_decide (rest = "") then "" else "." +:+ rest).
Definition micro_sign : string := String (Ascii.ascii_of_nat 194) (String (Ascii.ascii_of_nat 181) "").

(** [Duration.String]. *)
Definition Duration_String (d : Z) : string :=
  let u := Z.abs d in
  let magnitude :=
    if (u <? Second)%Z then
      if (u =? 0)%Z then "0s"
      else if (u <? Microsecond)%Z then Itoa u +:+ "ns"
      else if (u <? Millisecond)%Z then with_fraction 3 u +:+ micro_sign +:+ "s"
      else with_fraction 6 u +:+ "ms"
    else
      let seconds := with_fraction 9 (u `mod` Minute) +:+ "s" in
      let minutes := (u `div` Minute)%Z in
      if (minutes =? 0)%Z then seconds
      else if (minutes <? 60)%Z then Itoa minutes +:+ "m" +:+ seconds
      else Itoa (minutes `div` 60) +:+ "h" +:+ Itoa (minutes `mod` 60) +:+ "m" +:+ seconds in
  if (d <? 0)%Z then "-" +:+ magnitude else magnitude.

Example Duration_examples :
  map Duration_String [11 * Second; 90 * Minute; 1500 * Millisecond; 0; 1500 * Microsecond; - Minute]%Z
  = ["11s"; "1h30m0s"; "1.5s"; "0s"; "1.5ms"; "-1m0s"].
Proof. reflexivity. Qed.

(** ** Structs of settings *)

Inductive number := Int | Duration.
Inductive kind := KString | KNumber (n : number) | KBoolPtr.
Definition value (k : kind) : Type :=
  match k with KString => string | KNumber _ => Z | KBoolPtr => option bool end.
(** The zero value of the type. *)
Definition zero_value (k : kind) : value k :=
  match k with KString => "" | KNumber _ => 0%Z | KBoolPtr => None end.

(** The rules of a [validate] tag, at the types they are used at. *)
Inductive rule : kind → Type :=
| Required k : rule k
| OneOf (names : list string) : rule KString
| Gt n (bound : Z) : rule (KNumber n)
| Gte n (bound : Z) : rule (KNumber n)
| LtField n (other : string) : rule (KNumber n).

Record field := mkField {
  fd_name : string;
  fd_key : string;
  fd_kind : kind;
  fd_rules : list (rule fd_kind);
}.

(** A value of a struct type, its function of the fields in order, and a numeric field
    of it by name. *)
Fixpoint struct (s : list field) : Type :=
  match s with [] => unit | f :: s' => value (fd_kind f) * struct s' end.
Fixpoint curried (s : list field) (R : Type) : Type :=
  match s with [] => R | f :: s' => value (fd_kind f) → curried s' R end.
Fixpoint uncurry_struct {R} (s : list field) : curried s R → struct s → R :=
  match s with
  | [] => λ r _, r
  | f :: s' => λ g '(a, v), uncurry_struct s' (g a) v
  end.
Definition as_number (k : kind) : value k → option Z :=
  match k with KNumber _ => Some | _ => λ _, None end.
Fixpoint number_named (name : string) (s : list field) : struct s → option Z :=
  match s with
  | [] => λ _, None
  | f :: s' => λ '(a, v), if bool_decide (fd_name f = name) then as_number (fd_kind f) a
                          else number_named name s' v
  end.

(** [validate.Struct]: every rule of every field. *)
Definition is_zero (k : kind) : value k → bool :=
  match k with
  | KString => λ a, bool_decide (a = "")
  | KNumber _ => λ a, (a =? 0)%Z
  | KBoolPtr => λ a, bool_decide (a = None)
  end.
Definition rule_ok (others : string → option Z) {k} (r : rule k) : value k → bool :=
  match r in rule k return value k → bool with
  | Required k => λ a, negb (is_zero k a)
  | OneOf names => λ a, bool_decide (a ∈ names)
  | Gt _ bound => λ a, (bound <? a)%Z
  | Gte _ bound => λ a, (bound <=? a)%Z
  | LtField _ other => λ a, match others other with Some b => (a <? b)%Z | None => false end
  end.
Fixpoint fields_ok (others : string → option Z) (s : list field) : struct s → bool :=
  match s with
  | [] => λ _, true
  | f :: s' => λ '(a, v), forallb (λ r, rule_ok others r a) (fd_rules f) && fields_ok others s' v
  end.
Definition validate_Struct (s : list field) (v : struct s) : bool :=
  fields_ok (λ name, number_named name s v) s v.

(** ** Reading *)

(** The environment and the files of the machine. *)
Inductive file := Absent | Unreadable (err : string) | Contents (text : string).
Record machine := mkMachine {
  mc_env : string → option string;
  mc_file : string → file;
}.

(** What [ReadInConfig] fails with: its text and whether it is [fs.ErrNotExist]. *)
Record read_error := mkReadError { re_text : string; re_not_exist : bool }.

Class Viper := {
  Reader : Type;
  viper_New : Reader;
  SetConfigFile : string → Reader → Reader;
  SetConfigType : string → Reader → Reader;
  AutomaticEnv : Reader → Reader;
  BindEnv : string → Reader → result string Reader;
  ReadInConfig : machine → Reader → result read_error Reader;
  Unmarshal : machine → Reader → ∀ s, result string (struct s);
  validation_text : ∀ s, struct s → string;
}.

(** The value of a setting: a variable that is set to the empty text counts as unset. *)
Definition setting (m : machine) (vs : gmap string string) (key : string) : option string :=
  match mc_env m key with
  | Some v => if bool_decide (v = "") then vs !! key else Some v
  | None => vs !! key
  end.

(** Texts decode by the kind of their field; a field whose key has no value is left zero. *)
Class Decoders := {
  decode_number : number → string → option Z;
  decode_bool : string → option bool;
  parse_dotenv : string → result string (gmap string string);
}.
Section decoding.
Context `{!Decoders}.
Definition decode (k : kind) (text : string) : option (value k) :=
  match k return option (value k) with
  | KString => Some text
  | KNumber n => decode_number n text
  | KBoolPtr => option_map Some (decode_bool text)
  end.
Definition decode_field (find : string → option string) (f : field) : option (value (fd_kind f)) :=
  match find (fd_key f) with
  | None => Some (zero_value (fd_kind f))
  | Some text => decode (fd_kind f) text
  end.
Fixpoint decode_struct (find : string → option string) (s : list field) : option (struct s) :=
  match s with
  | [] => Some tt
  | f :: s' => match decode_field find f, decode_struct find s' with
               | Some a, Some v => Some (a, v)
               | _, _ => None
               end
  end.
End decoding.

(** A reader as its documentation describes it. *)
Record reading := mkReading {
  rg_path : string;
  rg_type : string;
  rg_bound : list string;
  rg_values : gmap string string;
}.
Definition blank_reading : reading := mkReading "" "" [] ∅.

Class ViperLaws `{!Viper, !Decoders} := {
  view : Reader → reading;
  view_New : view viper_New = blank_reading;
  view_SetConfigFile p r : view (SetConfigFile p r) =
    mkReading p (rg_type (view r)) (rg_bound (view r)) (rg_values (view r));
  view_SetConfigType t r : view (SetConfigType t r) =
    mkReading (rg_path (view r)) t (rg_bound (view r)) (rg_values (view r));
  view_AutomaticEnv r : view (AutomaticEnv r) = view r;
  BindEnv_named key r : key ≠ "" → ∃ r', BindEnv key r = Ok r' ∧ view r' =
    mkReading (rg_path (view r)) (rg_type (view r)) (key :: rg_bound (view r)) (rg_values (view r));
  ReadInConfig_env m r : rg_type (view r) = "env" →
    match mc_file m (rg_path (view r)) with
    | Absent => ∃ e, ReadInConfig m r = Err e ∧ re_not_exist e = true
    | Unreadable _ => ∃ e, ReadInConfig m r = Err e ∧ re_not_exist e = false
    | Contents text =>
        match parse_dotenv text with
        | Err _ => ∃ e, ReadInConfig m r = Err e ∧ re_not_exist e = false
        | Ok vs => ∃ r', ReadInConfig m r = Ok r' ∧ view r' =
            mkReading (rg_path (view r)) "env" (rg_bound (view r)) vs
        end
    end;
  Unmarshal_bound m r s :
    NoDup (fd_key <$> s) → (fd_key <$> s) ⊆ rg_bound (view r) →
    match decode_struct (setting m (rg_values (view r))) s with
    | Some v => Unmarshal m r s = Ok v
    | None => is_ok (Unmarshal m r s) = false
    end;
  decode_number_range n text z : decode_number n text = Some z → in_int64 z;
}.

Section load.
Context {V : Viper} {D : Decoders} {L : ViperLaws}.

(* @go order-service/internal/platform/config/config.go bindEnvironment *)
Fixpoint bindEnvironment (s : list field) (reader : Reader) : result string Reader :=
  match s with
  | [] => Ok reader
  | f :: s' =>
      if bool_decide (fd_key f = "" ∨ fd_key f = "-") then bindEnvironment s' reader
      else match BindEnv (fd_key f) reader with
           | Err err => Err (errorf ("bind environment variable " +:+ fd_key f) err)
           | Ok reader' => bindEnvironment s' reader'
           end
  end.

(* @go order-service/internal/platform/config/config.go localEnvironmentFile *)
Definition localEnvironmentFile : string := ".env".

(** [Load] up to the decoded struct. *)
(* @src order-service/internal/platform/config/config.go:44-66 Load *)
Definition load_struct (bind : Reader → result string Reader) (s : list field) (m : machine) (path : string) :
    result string (struct s) :=
  let configPath := TrimSpace path in
  if bool_decide (configPath = "") then Err "config path is required"
  else
    let reader := AutomaticEnv (SetConfigType "env"
      (SetConfigFile (filepath_Join configPath localEnvironmentFile) viper_New)) in
    match bind reader with
    | Err err => Err err
    | Ok reader =>
        match ReadInConfig m reader with
        | Err err =>
            if negb (re_not_exist err) then Err (errorf "read config file" (re_text err))
            else map_err (errorf "decode configuration") (Unmarshal m reader s)
        | Ok reader => map_err (errorf "decode configuration") (Unmarshal m reader s)
        end
    end.

(** ** What is loaded *)

(** The settings of the file beside [path]: none if there is no such file. *)
Definition file_settings (m : machine) (path : string) : option (gmap string string) :=
  match mc_file m (filepath_Join (TrimSpace path) localEnvironmentFile) with
  | Absent => Some ∅
  | Unreadable _ => None
  | Contents text => match parse_dotenv text with Ok vs => Some vs | Err _ => None end
  end.

(** Keys as the services have them. *)
Definition named_keys (s : list field) : Prop :=
  NoDup (fd_key <$> s) ∧ Forall (λ k, k ≠ "" ∧ k ≠ "-") (fd_key <$> s).

Lemma bindEnvironment_view s r :
  Forall (λ k, k ≠ "" ∧ k ≠ "-") (fd_key <$> s) →
  ∃ r', bindEnvironment s r = Ok r' ∧ view r' =
    mkReading (rg_path (view r)) (rg_type (view r)) (reverse (fd_key <$> s) ++ rg_bound (view r))
      (rg_values (view r)).
Proof.
  revert r. induction s as [|f s IH]; intros r Hk; cbn [bindEnvironment].
  { exists r. split; [done|]. by destruct (view r). }
  rewrite fmap_cons in Hk |- *. apply Forall_cons in Hk as [[H1 H2] Hk]. rewrite bool_decide_false by tauto.
  destruct (BindEnv_named (fd_key f) r H1) as (r1 & -> & Hv1).
  destruct (IH r1 Hk) as (r' & -> & Hv'). exists r'. split; [done|]. rewrite Hv', Hv1, reverse_cons. cbn.
  by rewrite <-(assoc_L (++)).
Qed.

Lemma load_struct_exact s m path v :
  named_keys s →
  load_struct (bindEnvironment s) s m path = Ok v ↔
  TrimSpace path ≠ "" ∧ ∃ vs, file_settings m path = Some vs ∧ decode_struct (setting m vs) s = Some v.
Proof.
  intros [Hnd Hk]. unfold load_struct, file_settings. case_bool_decide as Hp; [naive_solver|].
  set (r0 := AutomaticEnv _). destruct (bindEnvironment_view s r0 Hk) as (r1 & -> & Hv1).
  assert (view r0 = mkReading (filepath_Join (TrimSpace path) localEnvironmentFile) "env" [] ∅) as Hv0.
  { unfold r0. by rewrite view_AutomaticEnv, view_SetConfigType, view_SetConfigFile, view_New. }
  rewrite Hv0 in Hv1. cbn in Hv1. rewrite app_nil_r in Hv1.
  assert (∀ r vs, rg_bound (view r) = reverse (fd_key <$> s) → rg_values (view r) = vs →
    map_err (errorf "decode configuration") (Unmarshal m r s) = Ok v ↔
    decode_struct (setting m vs) s = Some v) as Hdec.
  { intros r vs Hb <-. rewrite map_err_ok.
    assert (fd_key <$> s ⊆ rg_bound (view r)) as Hsub by (rewrite Hb; intros x; by rewrite elem_of_reverse).
    pose proof (Unmarshal_bound m r s Hnd Hsub) as Hu.
    destruct (decode_struct _ s) as [v'|]; [rewrite Hu; naive_solver|].
    destruct (Unmarshal m r s); [done|]. naive_solver. }
  pose proof (ReadInConfig_env m r1) as Hread. rewrite Hv1 in Hread. cbn in Hread. specialize (Hread eq_refl).
  destruct (mc_file m _) as [|err|text].
  - destruct Hread as (e & -> & ->). cbn [negb]. rewrite (Hdec r1 ∅) by by rewrite Hv1. naive_solver.
  - destruct Hread as (e & -> & ->). cbn [negb]. naive_solver.
  - destruct (parse_dotenv text) as [vs|err].
    + destruct Hread as (r2 & -> & Hv2). rewrite (Hdec r2 vs) by by rewrite Hv2. naive_solver.
    + destruct Hread as (e & -> & ->). cbn [negb]. naive_solver.
Qed.

(** Numbers are of their machine type. *)
Fixpoint struct_typed (s : list field) : struct s → Prop :=
  match s with
  | [] => λ _, True
  | f :: s' => λ '(a, v), (∀ z, as_number (fd_kind f) a = Some z → in_int64 z) ∧ struct_typed s' v
  end.
Lemma decode_struct_typed find s v : decode_struct find s = Some v → struct_typed s v.
Proof.
  revert v. induction s as [|f s IH]; intros v; cbn; [done|].
  destruct (decode_field find f) as [a|] eqn:Ha; [|done].
  destruct (decode_struct find s) as [w|]; [|done]. intros [= <-]. split; [|by apply IH].
  intros z Hz. unfold decode_field in Ha. destruct f as [name key k rules]. cbn in *.
  destruct k as [|n|]; cbn in *; try done. injection Hz as <-.
  destruct (find key) as [text|]; [by eapply decode_number_range|]. injection Ha as <-. by vm_compute.
Qed.

(** The rules a zero value breaks, whatever the other fields are. *)
Definition refuses_zero {k} (r : rule k) : bool :=
  match r with
  | Required _ => true
  | OneOf names => bool_decide ("" ∉ names)
  | Gt _ bound => (0 <=? bound)%Z
  | Gte _ bound => (0 <? bound)%Z
  | LtField _ _ => false
  end.
Definition refuses_unset (f : field) : bool := existsb refuses_zero (fd_rules f).

Lemma refuses_zero_ok others {k} (r : rule k) : refuses_zero r = true → rule_ok others r (zero_value k) = false.
Proof.
  destruct r as [k|names|n b|n b|n other]; cbn; intros Hr; try done.
  - by destruct k.
  - apply bool_decide_eq_true in Hr. by apply bool_decide_eq_false.
  - reflect_bools. apply Z.ltb_ge. lia.
  - reflect_bools. apply Z.leb_gt. lia.
Qed.
Lemma unset_refused others find s v f :
  decode_struct find s = Some v → f ∈ s → refuses_unset f = true → find (fd_key f) = None →
  fields_ok others s v = false.
Proof.
  intros Hdec Hf Hr Hnone. revert v Hdec. induction s as [|g s IH]; [by apply elem_of_nil in Hf|].
  intros v. cbn. destruct (decode_field find g) as [a|] eqn:Ha; [|done].
  destruct (decode_struct find s) as [w|]; [|done]. intros [= <-].
  apply elem_of_cons in Hf as [<-|Hf].
  - unfold decode_field in Ha. rewrite Hnone in Ha. injection Ha as <-.
    apply andb_false_iff. left. unfold refuses_unset in Hr.
    apply existsb_exists in Hr as (r & Hin & Hr). apply not_true_iff_false. intros Hall.
    rewrite forallb_forall in Hall. specialize (Hall r Hin). by rewrite refuses_zero_ok in Hall.
  - apply andb_false_iff. right. by apply IH.
Qed.
End load.
