(* ===== verification/ServiceConfig.v ===== *)
(** * Configuration

    What [platform/config.Load] of the three services accepts of the settings it has
    decoded: the rules of the tags and the relation between a lease and the work done
    under it. Reading the environment is a library's. *)
From S2P Require Import Prelude GoStrings.

Definition environments : list string := ["development"; "test"; "staging"; "production"].
Definition log_levels : list string :=
  ["trace"; "debug"; "info"; "warn"; "error"; "fatal"; "panic"; "disabled"].

(** [time.Duration]s and [int]s are 64-bit integers; a pointer may be nil. *)
(* @go order-service/internal/platform/config/config.go Config *)
Record OrderConfig := mkOrderConfig {
  oc_Environment : string;
  oc_DatabaseURL : string;
  oc_DBMaxOpenConns : Z;
  oc_DBMaxIdleConns : Z;
  oc_DBConnMaxLifetime : Z;
  oc_HTTPServerAddress : string;
  oc_HTTPReadHeaderTimeout : Z;
  oc_HTTPReadTimeout : Z;
  oc_HTTPWriteTimeout : Z;
  oc_HTTPIdleTimeout : Z;
  oc_LogLevel : string;
  oc_LogCaller : option bool;
  oc_InventoryGRPCAddress : string;
  oc_InventoryGRPCTimeout : Z;
  oc_RabbitMQURL : string;
  oc_RabbitMQPublishTimeout : Z;
  oc_RabbitMQReconnectDelay : Z;
  oc_OutboxPollInterval : Z;
  oc_OutboxClaimLease : Z;
}.

Definition required (s : string) : bool := negb (bool_decide (s = "")).
Definition oneof (l : list string) (s : string) : bool := bool_decide (s ∈ l).
Definition gt0 (z : Z) : bool := (0 <? z)%Z.

(** The rules of the tags of the struct. *)
(* @src order-service/internal/platform/config/config.go:68-71 Load *)
Definition order_tags (c : OrderConfig) : bool :=
  required (oc_Environment c) && oneof environments (oc_Environment c)
  && required (oc_DatabaseURL c) && gt0 (oc_DBMaxOpenConns c) && (0 <=? oc_DBMaxIdleConns c)%Z
  && gt0 (oc_DBConnMaxLifetime c) && required (oc_HTTPServerAddress c)
  && gt0 (oc_HTTPReadHeaderTimeout c) && gt0 (oc_HTTPReadTimeout c)
  && gt0 (oc_HTTPWriteTimeout c) && gt0 (oc_HTTPIdleTimeout c)
  && required (oc_LogLevel c) && oneof log_levels (oc_LogLevel c)
  && bool_decide (is_Some (oc_LogCaller c)) && required (oc_InventoryGRPCAddress c)
  && gt0 (oc_InventoryGRPCTimeout c) && required (oc_RabbitMQURL c)
  && gt0 (oc_RabbitMQPublishTimeout c) && gt0 (oc_RabbitMQReconnectDelay c)
  && gt0 (oc_OutboxPollInterval c) && gt0 (oc_OutboxClaimLease c).

(* @go order-service/internal/platform/config/config.go outboxWriteAllowance *)
Definition outboxWriteAllowance : Z := 5 * Second.

(** Multiplication and addition of durations wrap around. *)
(* @src order-service/internal/platform/config/config.go:76-76 Load *)
Definition slowestAttempt (c : OrderConfig) : Z :=
  wrap64 (wrap64 (3 * oc_RabbitMQPublishTimeout c) + outboxWriteAllowance).

(** [Load] of the settings decoded as [loaded]: whether they are accepted. *)
(* @src order-service/internal/platform/config/config.go:63-86 Load *)
Definition order_Load (loaded : OrderConfig) : option OrderConfig :=
  if negb (order_tags loaded) then None
  else if (oc_OutboxClaimLease loaded <=? slowestAttempt loaded)%Z then None
  else Some loaded.

(* @go notification-service/internal/platform/config/config.go Config *)
Record NotificationConfig := mkNotificationConfig {
  nc_Environment : string;
  nc_DatabaseURL : string;
  nc_DBMaxOpenConns : Z;
  nc_DBMaxIdleConns : Z;
  nc_DBConnMaxLifetime : Z;
  nc_RabbitMQURL : string;
  nc_RabbitMQPrefetchCount : Z;
  nc_RabbitMQReconnectDelay : Z;
  nc_RabbitMQPublishTimeout : Z;
  nc_HandleTimeout : Z;
  nc_SendLease : Z;
  nc_ShutdownTimeout : Z;
  nc_LogLevel : string;
  nc_LogCaller : option bool;
}.
(* @src notification-service/internal/platform/config/config.go:81-91 Load *)
Definition notification_Load (c : NotificationConfig) : option NotificationConfig :=
  if required (nc_Environment c) && oneof environments (nc_Environment c)
     && required (nc_DatabaseURL c) && gt0 (nc_DBMaxOpenConns c) && (0 <=? nc_DBMaxIdleConns c)%Z
     && gt0 (nc_DBConnMaxLifetime c) && required (nc_RabbitMQURL c)
     && gt0 (nc_RabbitMQPrefetchCount c) && gt0 (nc_RabbitMQReconnectDelay c)
     && gt0 (nc_RabbitMQPublishTimeout c)
     && gt0 (nc_HandleTimeout c) && (nc_HandleTimeout c <? nc_SendLease c)%Z
     && gt0 (nc_SendLease c) && gt0 (nc_ShutdownTimeout c)
     && required (nc_LogLevel c) && oneof log_levels (nc_LogLevel c)
     && bool_decide (is_Some (nc_LogCaller c))
  then Some c else None.

(* @go inventory-service/internal/platform/config/config.go Config *)
Record InventoryConfig := mkInventoryConfig {
  ic_Environment : string;
  ic_DatabaseURL : string;
  ic_DBMaxOpenConns : Z;
  ic_DBMaxIdleConns : Z;
  ic_DBConnMaxLifetime : Z;
  ic_GRPCServerAddress : string;
  ic_GRPCShutdownTimeout : Z;
  ic_GRPCMaxConnectionIdle : Z;
  ic_GRPCMaxConnectionAge : Z;
  ic_GRPCMaxConnectionAgeSlop : Z;
  ic_LogLevel : string;
  ic_LogCaller : option bool;
}.
(* @src inventory-service/internal/platform/config/config.go:52-62 Load *)
Definition inventory_Load (c : InventoryConfig) : option InventoryConfig :=
  if required (ic_Environment c) && oneof environments (ic_Environment c)
     && required (ic_DatabaseURL c) && gt0 (ic_DBMaxOpenConns c) && (0 <=? ic_DBMaxIdleConns c)%Z
     && gt0 (ic_DBConnMaxLifetime c) && required (ic_GRPCServerAddress c)
     && gt0 (ic_GRPCShutdownTimeout c) && gt0 (ic_GRPCMaxConnectionIdle c)
     && gt0 (ic_GRPCMaxConnectionAge c) && gt0 (ic_GRPCMaxConnectionAgeSlop c)
     && required (ic_LogLevel c) && oneof log_levels (ic_LogLevel c)
     && bool_decide (is_Some (ic_LogCaller c))
  then Some c else None.

Definition order_durations (c : OrderConfig) : Prop :=
  in_int64 (oc_RabbitMQPublishTimeout c) ∧ in_int64 (oc_OutboxClaimLease c).

Lemma order_Load_lease c :
  order_Load c = Some c →
  (0 < oc_RabbitMQPublishTimeout c)%Z ∧ (slowestAttempt c < oc_OutboxClaimLease c)%Z.
Proof.
  unfold order_Load. destruct (order_tags c) eqn:Ht; [|done]. cbn [negb].
  destruct (_ <=? _)%Z eqn:Hl; [done|]. intros _. unfold order_tags, gt0 in Ht.
  rewrite !andb_true_iff in Ht. reflect_bools. split; [|done]. apply Z.ltb_lt. tauto.
Qed.

Lemma order_lease c :
  order_durations c → (3 * oc_RabbitMQPublishTimeout c + outboxWriteAllowance ≤ MaxInt64)%Z →
  order_Load c = Some c →
  (3 * oc_RabbitMQPublishTimeout c + outboxWriteAllowance < oc_OutboxClaimLease c)%Z.
Proof.
  intros [Ht Hl] Hfit [Hpos Hlease]%order_Load_lease. unfold slowestAttempt in Hlease.
  unfold outboxWriteAllowance, Second in *. int_unfold.
  rewrite (wrap64_id (3 * _)%Z) in Hlease by (int_unfold; lia).
  rewrite wrap64_id in Hlease by (int_unfold; lia). lia.
Qed.
Lemma notification_lease n : notification_Load n = Some n → (0 < nc_HandleTimeout n < nc_SendLease n)%Z.
Proof.
  unfold notification_Load. destruct (_ && _) eqn:H; [|done]. intros _. unfold gt0 in H.
  rewrite !andb_true_iff in H. rewrite !Z.ltb_lt in H. tauto.
Qed.

(** What [Load] lets through of the settings of the logger. *)
Definition loaded_logging (env level : string) (caller : option bool) : Prop :=
  env ∈ environments ∧ level ∈ log_levels ∧ is_Some caller.

Lemma order_Load_logging c :
  order_Load c = Some c → loaded_logging (oc_Environment c) (oc_LogLevel c) (oc_LogCaller c).
Proof.
  unfold order_Load. destruct (order_tags c) eqn:Ht; [|done]. intros _. unfold order_tags, oneof in Ht.
  rewrite !andb_true_iff, !bool_decide_eq_true in Ht. unfold loaded_logging. tauto.
Qed.
Lemma inventory_Load_logging c :
  inventory_Load c = Some c → loaded_logging (ic_Environment c) (ic_LogLevel c) (ic_LogCaller c).
Proof.
  unfold inventory_Load. destruct (_ && _) eqn:Ht; [|done]. intros _. unfold oneof in Ht.
  rewrite !andb_true_iff, !bool_decide_eq_true in Ht. unfold loaded_logging. tauto.
Qed.
Lemma notification_Load_logging c :
  notification_Load c = Some c → loaded_logging (nc_Environment c) (nc_LogLevel c) (nc_LogCaller c).
Proof.
  unfold notification_Load. destruct (_ && _) eqn:Ht; [|done]. intros _. unfold oneof in Ht.
  rewrite !andb_true_iff, !bool_decide_eq_true in Ht. unfold loaded_logging. tauto.
Qed.

(** A lease outlasts a slow attempt: when [Load] accepts settings whose publish timeout
    is under a third of what a duration can hold, about 97 years, the claim lease is
    longer than three publish timeouts and the allowance for recording the outcome,
    computed without wrapping; and notification-service never accepts a handler that
    may outlive its send lease. *)
Theorem lease_outlasts_attempt c n :
  order_durations c → (3 * oc_RabbitMQPublishTimeout c + outboxWriteAllowance ≤ MaxInt64)%Z →
  (order_Load c = Some c →
   3 * oc_RabbitMQPublishTimeout c + outboxWriteAllowance < oc_OutboxClaimLease c)%Z
  ∧ (notification_Load n = Some n → 0 < nc_HandleTimeout n < nc_SendLease n)%Z.
Proof. intros. split; [by apply order_lease|apply notification_lease]. Qed.

Definition sample_order_config : OrderConfig :=
  mkOrderConfig "test" "db" 1 0 1 "a" 1 1 1 1 "info" (Some true) "i" 1 "r" (5 * Second) 1 1 (30 * Second).
Definition sample_notification_config : NotificationConfig :=
  mkNotificationConfig "test" "db" 1 0 1 "r" 1 1 1 5 10 1 "info" (Some true).

Lemma lease_outlasts_attempt_witness :
  order_Load sample_order_config = Some sample_order_config
  ∧ (3 * oc_RabbitMQPublishTimeout sample_order_config + outboxWriteAllowance
     < oc_OutboxClaimLease sample_order_config)%Z
  ∧ (0 < nc_HandleTimeout sample_notification_config < nc_SendLease sample_notification_config)%Z.
Proof.
  split; [reflexivity|].
  destruct (lease_outlasts_attempt sample_order_config sample_notification_config) as [H1 H2].
  - split; by vm_compute.
  - by vm_compute.
  - split; [apply H1; reflexivity|apply H2; reflexivity].
Defined.

(** The check wraps around for longer timeouts: a lease of one second is accepted for
    a timeout of more than a century. *)
Definition century_config : OrderConfig :=
  mkOrderConfig "test" "db" 1 0 1 "a" 1 1 1 1 "info" (Some true) "i" 1 "r" (2 ^ 62) 1 1 Second.
Lemma lease_check_wraps :
  order_durations century_config ∧ order_Load century_config = Some century_config
  ∧ (oc_OutboxClaimLease century_config < oc_RabbitMQPublishTimeout century_config)%Z.
Proof. split_and!; [split; by vm_compute|by vm_compute|by vm_compute]. Qed.
