(* ===== verification/ConfigLoad.v ===== *)
(** * Loading the configuration

    [platform/config.Load] of the three services as a whole: the settings of the struct
    tags, read from the environment and the file beside the configuration path, decoded,
    and accepted as [ServiceConfig] says. *)
From S2P Require Import Prelude GoStrings Settings ServiceConfig.

(** The tags of the three structs. *)
#[local] Open Scope Z_scope.
(* @src order-service/internal/platform/config/config.go:19-37 Config *)
Definition order_fields : list field := [
  mkField "Environment" "ENVIRONMENT" KString [Required _; OneOf environments];
  mkField "DatabaseURL" "DATABASE_URL" KString [Required _];
  mkField "DBMaxOpenConns" "DB_MAX_OPEN_CONNS" (KNumber Int) [Gt _ 0];
  mkField "DBMaxIdleConns" "DB_MAX_IDLE_CONNS" (KNumber Int) [Gte _ 0];
  mkField "DBConnMaxLifetime" "DB_CONN_MAX_LIFETIME" (KNumber Duration) [Gt _ 0];
  mkField "HTTPServerAddress" "HTTP_SERVER_ADDRESS" KString [Required _];
  mkField "HTTPReadHeaderTimeout" "HTTP_READ_HEADER_TIMEOUT" (KNumber Duration) [Gt _ 0];
  mkField "HTTPReadTimeout" "HTTP_READ_TIMEOUT" (KNumber Duration) [Gt _ 0];
  mkField "HTTPWriteTimeout" "HTTP_WRITE_TIMEOUT" (KNumber Duration) [Gt _ 0];
  mkField "HTTPIdleTimeout" "HTTP_IDLE_TIMEOUT" (KNumber Duration) [Gt _ 0];
  mkField "LogLevel" "LOG_LEVEL" KString [Required _; OneOf log_levels];
  mkField "LogCaller" "LOG_CALLER" KBoolPtr [Required _];
  mkField "InventoryGRPCAddress" "INVENTORY_GRPC_ADDRESS" KString [Required _];
  mkField "InventoryGRPCTimeout" "INVENTORY_GRPC_TIMEOUT" (KNumber Duration) [Gt _ 0];
  mkField "RabbitMQURL" "RABBITMQ_URL" KString [Required _];
  mkField "RabbitMQPublishTimeout" "RABBITMQ_PUBLISH_TIMEOUT" (KNumber Duration) [Gt _ 0];
  mkField "RabbitMQReconnectDelay" "RABBITMQ_RECONNECT_DELAY" (KNumber Duration) [Gt _ 0];
  mkField "OutboxPollInterval" "OUTBOX_POLL_INTERVAL" (KNumber Duration) [Gt _ 0];
  mkField "OutboxClaimLease" "OUTBOX_CLAIM_LEASE" (KNumber Duration) [Gt _ 0]].
(* @src inventory-service/internal/platform/config/config.go:19-30 Config *)
Definition inventory_fields : list field := [
  mkField "Environment" "ENVIRONMENT" KString [Required _; OneOf environments];
  mkField "DatabaseURL" "DATABASE_URL" KString [Required _];
  mkField "DBMaxOpenConns" "DB_MAX_OPEN_CONNS" (KNumber Int) [Gt _ 0];
  mkField "DBMaxIdleConns" "DB_MAX_IDLE_CONNS" (KNumber Int) [Gte _ 0];
  mkField "DBConnMaxLifetime" "DB_CONN_MAX_LIFETIME" (KNumber Duration) [Gt _ 0];
  mkField "GRPCServerAddress" "GRPC_SERVER_ADDRESS" KString [Required _];
  mkField "GRPCShutdownTimeout" "GRPC_SHUTDOWN_TIMEOUT" (KNumber Duration) [Gt _ 0];
  mkField "GRPCMaxConnectionIdle" "GRPC_MAX_CONNECTION_IDLE" (KNumber Duration) [Gt _ 0];
  mkField "GRPCMaxConnectionAge" "GRPC_MAX_CONNECTION_AGE" (KNumber Duration) [Gt _ 0];
  mkField "GRPCMaxConnectionAgeSlop" "GRPC_MAX_CONNECTION_AGE_SLOP" (KNumber Duration) [Gt _ 0];
  mkField "LogLevel" "LOG_LEVEL" KString [Required _; OneOf log_levels];
  mkField "LogCaller" "LOG_CALLER" KBoolPtr [Required _]].
(* @src notification-service/internal/platform/config/config.go:22-59 Config *)
Definition notification_fields : list field := [
  mkField "Environment" "ENVIRONMENT" KString [Required _; OneOf environments];
  mkField "DatabaseURL" "DATABASE_URL" KString [Required _];
  mkField "DBMaxOpenConns" "DB_MAX_OPEN_CONNS" (KNumber Int) [Gt _ 0];
  mkField "DBMaxIdleConns" "DB_MAX_IDLE_CONNS" (KNumber Int) [Gte _ 0];
  mkField "DBConnMaxLifetime" "DB_CONN_MAX_LIFETIME" (KNumber Duration) [Gt _ 0];
  mkField "RabbitMQURL" "RABBITMQ_URL" KString [Required _];
  mkField "RabbitMQPrefetchCount" "RABBITMQ_PREFETCH_COUNT" (KNumber Int) [Gt _ 0];
  mkField "RabbitMQReconnectDelay" "RABBITMQ_RECONNECT_DELAY" (KNumber Duration) [Gt _ 0];
  mkField "RabbitMQPublishTimeout" "RABBITMQ_PUBLISH_TIMEOUT" (KNumber Duration) [Gt _ 0];
  mkField "HandleTimeout" "HANDLE_TIMEOUT" (KNumber Duration) [Gt _ 0; LtField _ "SendLease"];
  mkField "SendLease" "SEND_LEASE" (KNumber Duration) [Gt _ 0];
  mkField "ShutdownTimeout" "SHUTDOWN_TIMEOUT" (KNumber Duration) [Gt _ 0];
  mkField "LogLevel" "LOG_LEVEL" KString [Required _; OneOf log_levels];
  mkField "LogCaller" "LOG_CALLER" KBoolPtr [Required _]].
#[local] Close Scope Z_scope.

Section load.
Context {V : Viper}.

(* @go order-service/internal/platform/config/config.go Load *)
Definition order_config_Load (m : machine) (path : string) : result string OrderConfig :=
  match load_struct (bindEnvironment order_fields) order_fields m path with
  | Err err => Err err
  | Ok v =>
      if negb (validate_Struct order_fields v)
      then Err (errorf "validate configuration" (validation_text order_fields v))
      else
        let loaded := uncurry_struct order_fields mkOrderConfig v in
        if (oc_OutboxClaimLease loaded <=? slowestAttempt loaded)%Z
        then Err ("validate configuration: OUTBOX_CLAIM_LEASE must be longer than "
                  +:+ Duration_String (slowestAttempt loaded)
                  +:+ " (three times RABBITMQ_PUBLISH_TIMEOUT plus "
                  +:+ Duration_String outboxWriteAllowance +:+ ")")
        else Ok loaded
  end.

(* @go inventory-service/internal/platform/config/config.go bindEnvironment *)
Definition inventory_bindEnvironment : Reader → result string Reader := bindEnvironment inventory_fields.
(* @go inventory-service/internal/platform/config/config.go Load *)
Definition inventory_config_Load (m : machine) (path : string) : result string InventoryConfig :=
  match load_struct inventory_bindEnvironment inventory_fields m path with
  | Err err => Err err
  | Ok v =>
      if negb (validate_Struct inventory_fields v)
      then Err (errorf "validate configuration" (validation_text inventory_fields v))
      else Ok (uncurry_struct inventory_fields mkInventoryConfig v)
  end.

(* @go notification-service/internal/platform/config/config.go bindEnvironment *)
Definition notification_bindEnvironment : Reader → result string Reader := bindEnvironment notification_fields.
(* @go notification-service/internal/platform/config/config.go Load *)
Definition notification_config_Load (m : machine) (path : string) : result string NotificationConfig :=
  match load_struct notification_bindEnvironment notification_fields m path with
  | Err err => Err err
  | Ok v =>
      if negb (validate_Struct notification_fields v)
      then Err (errorf "validate configuration" (validation_text notification_fields v))
      else Ok (uncurry_struct notification_fields mkNotificationConfig v)
  end.
End load.

(** ** The rules of the tags, said of the structs and of the records *)

Lemma required_spec s : required s = negb (is_zero KString s).
Proof. reflexivity. Qed.
Lemma caller_spec c : bool_decide (is_Some c) = negb (is_zero KBoolPtr c).
Proof. by destruct c. Qed.

Ltac open_struct v :=
  repeat match type of v with struct _ => cbn in v | (_ * _)%type => destruct v as [? v] end.
Ltac same_rules :=
  unfold oneof, gt0; rewrite ?required_spec, ?caller_spec; cbn [forallb]; rewrite ?andb_true_r;
  apply eq_true_iff_eq; rewrite !andb_true_iff; tauto.

Lemma order_tags_struct v :
  order_tags (uncurry_struct order_fields mkOrderConfig v) = validate_Struct order_fields v.
Proof. open_struct v. cbn. unfold order_tags. cbn. same_rules. Qed.
Lemma inventory_Load_struct v (c := uncurry_struct inventory_fields mkInventoryConfig v) :
  inventory_Load c = if validate_Struct inventory_fields v then Some c else None.
Proof.
  subst c. open_struct v. unfold inventory_Load.
  match goal with |- (if ?a then _ else _) = (if ?b then _ else _) => replace a with b; [done|] end.
  cbn. same_rules.
Qed.
Lemma notification_Load_struct v (c := uncurry_struct notification_fields mkNotificationConfig v) :
  notification_Load c = if validate_Struct notification_fields v then Some c else None.
Proof.
  subst c. open_struct v. unfold notification_Load.
  match goal with |- (if ?a then _ else _) = (if ?b then _ else _) => replace a with b; [done|] end.
  cbn. same_rules.
Qed.

(** ** What is loaded *)
Section loaded.
Context {V : Viper} {D : Decoders} {L : ViperLaws}.

(** [c] is what the settings found for [s] decode to. *)
Definition decoded_as {C} (s : list field) (make : curried s C) (m : machine) (path : string) (c : C) : Prop :=
  TrimSpace path ≠ "" ∧ ∃ vs v,
    file_settings m path = Some vs ∧ decode_struct (setting m vs) s = Some v ∧ c = uncurry_struct s make v.

(** Every setting but one has a value, in the environment or in the file. *)
Definition all_given (s : list field) (m : machine) (path : string) : Prop :=
  ∃ vs, file_settings m path = Some vs
    ∧ ∀ f, f ∈ s → fd_key f ≠ "DB_MAX_IDLE_CONNS" → is_Some (setting m vs (fd_key f)).

Definition optional_idle (s : list field) : Prop :=
  Forall (λ f, fd_key f = "DB_MAX_IDLE_CONNS" ∨ refuses_unset f = true) s.

Lemma validated_given s m path v :
  named_keys s → optional_idle s → load_struct (bindEnvironment s) s m path = Ok v →
  validate_Struct s v = true → all_given s m path ∧ struct_typed s v.
Proof.
  intros Hk Hopt (_ & vs & Hvs & Hdec)%load_struct_exact Hval; [|done].
  split; [|by eapply decode_struct_typed]. exists vs. split; [done|]. intros f Hf Hne.
  apply not_eq_None_Some. intros Hnone. unfold optional_idle in Hopt. rewrite Forall_forall in Hopt.
  destruct (Hopt f Hf) as [?|Hr]; [done|].
  unfold validate_Struct in Hval. by rewrite (unset_refused _ _ _ _ _ Hdec Hf Hr Hnone) in Hval.
Qed.

Lemma order_keys : named_keys order_fields ∧ optional_idle order_fields.
Proof. split; [split|]; by apply (bool_decide_unpack _); vm_compute. Qed.
Lemma inventory_keys : named_keys inventory_fields ∧ optional_idle inventory_fields.
Proof. split; [split|]; by apply (bool_decide_unpack _); vm_compute. Qed.
Lemma notification_keys : named_keys notification_fields ∧ optional_idle notification_fields.
Proof. split; [split|]; by apply (bool_decide_unpack _); vm_compute. Qed.

Lemma decoded_exact {C} s (make : curried s C) (accept : C → option C) m path body c :
  named_keys s →
  (∀ v c, body v = Ok c ↔ c = uncurry_struct s make v ∧ accept (uncurry_struct s make v) = Some (uncurry_struct s make v)) →
  match load_struct (bindEnvironment s) s m path with Err err => Err err | Ok v => body v end = Ok c
  ↔ decoded_as s make m path c ∧ accept c = Some c.
Proof.
  intros Hk Hbody. unfold decoded_as. destruct (load_struct _ s m path) as [v|err] eqn:Hl.
  - apply load_struct_exact in Hl as (Hp & vs & Hvs & Hdec); [|done]. rewrite Hbody. split.
    + intros [-> ?]. eauto 10.
    + intros [(_ & vs' & v' & Hvs' & Hdec' & ->) Hacc]. naive_solver.
  - split; [done|]. intros [(Hp & vs & v & Hvs & Hdec & _) _].
    assert (load_struct (bindEnvironment s) s m path = Ok v) as Hok by (apply load_struct_exact; eauto).
    congruence.
Qed.

(** C39: [Load] of each service answers the settings it decoded exactly when they
    are accepted: those of the environment, and of the file where the environment has
    none; a file that is missing is an empty one, a file that cannot be read or a value
    that does not decode is an error, and so is a blank path. *)
Theorem config_Load_exact m path :
  (∀ c, order_config_Load m path = Ok c ↔
     decoded_as order_fields mkOrderConfig m path c ∧ order_Load c = Some c)
  ∧ (∀ c, inventory_config_Load m path = Ok c ↔
     decoded_as inventory_fields mkInventoryConfig m path c ∧ inventory_Load c = Some c)
  ∧ (∀ c, notification_config_Load m path = Ok c ↔
     decoded_as notification_fields mkNotificationConfig m path c ∧ notification_Load c = Some c).
Proof.
  split_and!; intros c; (eapply decoded_exact; [apply order_keys || apply inventory_keys || apply notification_keys|]);
    clear c; intros v c.
  - unfold order_Load. rewrite order_tags_struct. destruct (validate_Struct _ v); cbn [negb]; [|naive_solver].
    destruct (_ <=? _)%Z; naive_solver.
  - rewrite inventory_Load_struct. destruct (validate_Struct _ v); naive_solver.
  - rewrite notification_Load_struct. destruct (validate_Struct _ v); naive_solver.
Qed.

Lemma decoded_given {C} s (make : curried s C) (accept : C → option C) m path c :
  named_keys s ∧ optional_idle s →
  (∀ v, accept (uncurry_struct s make v) = Some (uncurry_struct s make v) → validate_Struct s v = true) →
  decoded_as s make m path c → accept c = Some c →
  all_given s m path ∧ ∃ v, c = uncurry_struct s make v ∧ struct_typed s v.
Proof.
  intros [Hk Hopt] Hval (Hp & vs & v & Hvs & Hdec & ->) Hacc.
  destruct (validated_given s m path v) as [Hg Ht]; [done..|apply load_struct_exact; eauto|by apply Hval|eauto].
Qed.

(** C40: What [Load] answers has the types the struct declares and leaves nothing
    to a default: every integer and duration is in its 64-bit range, every setting but
    DB_MAX_IDLE_CONNS was given a value by the environment or the file, the caller flag
    that is dereferenced later is not nil, and in order-service the claim lease outlasts a
    slow attempt at a publication unless the publish timeout is over a third of the range,
    some 97 years. *)
Theorem loaded_settings m path :
  (∀ c, order_config_Load m path = Ok c →
     all_given order_fields m path
     ∧ (∃ v, c = uncurry_struct order_fields mkOrderConfig v ∧ struct_typed order_fields v)
     ∧ is_Some (oc_LogCaller c)
     ∧ (3 * oc_RabbitMQPublishTimeout c + outboxWriteAllowance ≤ MaxInt64 →
        3 * oc_RabbitMQPublishTimeout c + outboxWriteAllowance < oc_OutboxClaimLease c)%Z)
  ∧ (∀ c, inventory_config_Load m path = Ok c →
     all_given inventory_fields m path
     ∧ (∃ v, c = uncurry_struct inventory_fields mkInventoryConfig v ∧ struct_typed inventory_fields v)
     ∧ is_Some (ic_LogCaller c))
  ∧ (∀ c, notification_config_Load m path = Ok c →
     all_given notification_fields m path
     ∧ (∃ v, c = uncurry_struct notification_fields mkNotificationConfig v ∧ struct_typed notification_fields v)
     ∧ is_Some (nc_LogCaller c)
     ∧ (0 < nc_HandleTimeout c < nc_SendLease c)%Z).
Proof.
  destruct (config_Load_exact m path) as (Ho & Hi & Hn). split_and!; intros c Hc.
  - apply Ho in Hc as [Hdec Hacc].
    destruct (decoded_given order_fields mkOrderConfig order_Load m path c order_keys) as (Hg & v & -> & Ht); [|done..|].
    { intros v. unfold order_Load. rewrite order_tags_struct. by destruct (validate_Struct _ v). }
    split_and!; [done|by exists v|by apply order_Load_logging|]. intros Hfit. apply order_lease; [|done..].
    clear -Ht. open_struct v. cbn in Ht. split; cbn; naive_solver.
  - apply Hi in Hc as [Hdec Hacc].
    destruct (decoded_given inventory_fields mkInventoryConfig inventory_Load m path c inventory_keys) as [Hg Hv]; [|done..|].
    { intros v. rewrite inventory_Load_struct. by destruct (validate_Struct _ v). }
    split_and!; [done..|by apply inventory_Load_logging].
  - apply Hn in Hc as [Hdec Hacc].
    destruct (decoded_given notification_fields mkNotificationConfig notification_Load m path c notification_keys) as [Hg Hv]; [|done..|].
    { intros v. rewrite notification_Load_struct. by destruct (validate_Struct _ v). }
    split_and!; [done..|by apply notification_Load_logging|by apply notification_lease|by apply notification_lease].
Qed.
End loaded.

(** ** A reader, and a configuration it loads *)

Fixpoint digits_of (s : string) (acc : Z) : Z * string :=
  match s with
  | String a s' =>
      let d := (Z.of_N (Ascii.N_of_ascii a) - 48)%Z in
      if ((0 <=? d) && (d <=? 9))%Z then digits_of s' (10 * acc + d) else (acc, s)
  | "" => (acc, "")
  end.
Definition sample_number (n : number) (text : string) : option Z :=
  let '(z, rest) := digits_of text 0 in
  let v := match n, rest with
           | Int, "" => Some z
           | Duration, "s" => Some (z * Second)%Z
           | Duration, "m" => Some (z * Minute)%Z
           | _, _ => None
           end in
  match v with
  | Some v => if decide (in_int64 v) then Some v else None
  | None => None
  end.
Definition newline : Ascii.ascii := Ascii.ascii_of_nat 10.
Fixpoint parse_lines (lines : list string) : result string (gmap string string) :=
  match lines with
  | [] => Ok ∅
  | "" :: rest => parse_lines rest
  | line :: rest =>
      let '(key, v, found) := strings_Cut line (Ascii.ascii_of_nat 61) in
      if found then vs ← parse_lines rest; Ok (<[key := v]> vs) else Err "no equals sign"
  end.
Definition sample_decoders : Decoders := {|
  decode_number := sample_number;
  decode_bool s := match s with "true" => Some true | "false" => Some false | _ => None end;
  parse_dotenv text := parse_lines (split_on newline text);
|}.
#[local] Existing Instance sample_decoders.

Definition sample_read (m : machine) (r : reading) : result read_error reading :=
  match mc_file m (rg_path r) with
  | Absent => Err (mkReadError "no such file" true)
  | Unreadable err => Err (mkReadError err false)
  | Contents text =>
      match parse_dotenv text with
      | Err err => Err (mkReadError err false)
      | Ok vs => Ok (mkReading (rg_path r) "env" (rg_bound r) vs)
      end
  end.
Definition sample_viper : Viper := {|
  Reader := reading;
  viper_New := blank_reading;
  SetConfigFile p r := mkReading p (rg_type r) (rg_bound r) (rg_values r);
  SetConfigType t r := mkReading (rg_path r) t (rg_bound r) (rg_values r);
  AutomaticEnv r := r;
  BindEnv key r := if bool_decide (key = "") then Err "missing key"
                   else Ok (mkReading (rg_path r) (rg_type r) (key :: rg_bound r) (rg_values r));
  ReadInConfig := sample_read;
  Unmarshal m r s := match decode_struct (setting m (rg_values r)) s with
                     | Some v => Ok v | None => Err "decoding failed" end;
  validation_text s v := "validation failed";
|}.
#[local] Existing Instance sample_viper.

#[local] Instance sample_viper_laws : ViperLaws.
Proof.
  refine {| view := id : Reader → reading |}; try done.
  - intros key r Hk. cbn. rewrite bool_decide_false by done. by eexists.
  - intros m r Ht. cbn. unfold sample_read, id. destruct (mc_file _ _) as [| |text]; [by eexists..|].
    cbn. destruct (parse_lines _); by eexists.
  - intros m r s _ _. cbn. unfold id. by destruct (decode_struct _ s).
  - intros n text z. cbn. unfold sample_number. destruct (digits_of text 0) as [y rest].
    repeat case_match; naive_solver.
Qed.

Definition sample_text (lines : list string) : string := strings_Join lines (String newline "").
Definition order_env_file : list string := [
  "ENVIRONMENT=test"; "DATABASE_URL=postgres://orders"; "DB_MAX_OPEN_CONNS=20";
  "DB_CONN_MAX_LIFETIME=30m"; "HTTP_SERVER_ADDRESS=:8080"; "HTTP_READ_HEADER_TIMEOUT=5s";
  "HTTP_READ_TIMEOUT=15s"; "HTTP_WRITE_TIMEOUT=15s"; "HTTP_IDLE_TIMEOUT=60s"; "LOG_LEVEL=info";
  "LOG_CALLER=false"; "INVENTORY_GRPC_ADDRESS=inventory:50051"; "INVENTORY_GRPC_TIMEOUT=3s";
  "RABBITMQ_URL=amqp://orders"; "RABBITMQ_PUBLISH_TIMEOUT=2s"; "RABBITMQ_RECONNECT_DELAY=5s";
  "OUTBOX_POLL_INTERVAL=1s"; "OUTBOX_CLAIM_LEASE=30s"; "ORDER_DB_PORT=5433"].
(** A machine with the file in [.] and two variables set, one of them to the empty text. *)
Definition sample_machine : machine := {|
  mc_env k := match k with "HTTP_SERVER_ADDRESS" => Some ":9191" | "LOG_LEVEL" => Some "" | _ => None end;
  mc_file p := if bool_decide (p = ".env") then Contents (sample_text order_env_file) else Absent;
|}.
Definition sample_loaded : OrderConfig :=
  mkOrderConfig "test" "postgres://orders" 20 0 (30 * Minute) ":9191" (5 * Second) (15 * Second)
    (15 * Second) (60 * Second) "info" (Some false) "inventory:50051" (3 * Second) "amqp://orders"
    (2 * Second) (5 * Second) Second (30 * Second).

(** The environment wins over the file, an empty variable does not, and the setting that
    is missing is zero. *)
Example sample_load : order_config_Load sample_machine " . " = Ok sample_loaded.
Proof. vm_compute. reflexivity. Qed.

Lemma sample_load_here : order_config_Load sample_machine "." = Ok sample_loaded.
Proof. vm_compute. reflexivity. Qed.

(** The other services, from the environment alone. *)
Definition env_machine (vars : list (string * string)) : machine := {|
  mc_env k := option_map (λ found, found.2.2) (list_find (λ v : string * string, v.1 = k) vars);
  mc_file _ := Absent;
|}.
Definition shared_env : list (string * string) := [
  ("ENVIRONMENT", "test"); ("DATABASE_URL", "postgres://db"); ("DB_MAX_OPEN_CONNS", "20");
  ("DB_CONN_MAX_LIFETIME", "30m"); ("LOG_LEVEL", "info"); ("LOG_CALLER", "true")].
Definition inventory_machine : machine := env_machine (shared_env ++ [
  ("GRPC_SERVER_ADDRESS", ":50051"); ("GRPC_SHUTDOWN_TIMEOUT", "10s"); ("GRPC_MAX_CONNECTION_IDLE", "5m");
  ("GRPC_MAX_CONNECTION_AGE", "10m"); ("GRPC_MAX_CONNECTION_AGE_SLOP", "30s")]).
Definition inventory_loaded : InventoryConfig :=
  mkInventoryConfig "test" "postgres://db" 20 0 (30 * Minute) ":50051" (10 * Second) (5 * Minute)
    (10 * Minute) (30 * Second) "info" (Some true).
Lemma inventory_load : inventory_config_Load inventory_machine "." = Ok inventory_loaded.
Proof. vm_compute. reflexivity. Qed.
Definition notification_machine : machine := env_machine (shared_env ++ [
  ("RABBITMQ_URL", "amqp://notifications"); ("RABBITMQ_PREFETCH_COUNT", "10");
  ("RABBITMQ_RECONNECT_DELAY", "5s"); ("RABBITMQ_PUBLISH_TIMEOUT", "5s"); ("HANDLE_TIMEOUT", "30s");
  ("SEND_LEASE", "2m"); ("SHUTDOWN_TIMEOUT", "10s")]).
Definition notification_loaded : NotificationConfig :=
  mkNotificationConfig "test" "postgres://db" 20 0 (30 * Minute) "amqp://notifications" 10 (5 * Second)
    (5 * Second) (30 * Second) (2 * Minute) (10 * Second) "info" (Some true).
Lemma notification_load : notification_config_Load notification_machine "." = Ok notification_loaded.
Proof. vm_compute. reflexivity. Qed.

Definition with_lease (lease : string) : machine := {|
  mc_env k := if bool_decide (k = "OUTBOX_CLAIM_LEASE") then Some lease else mc_env sample_machine k;
  mc_file := mc_file sample_machine;
|}.
Example refused_loads :
  order_config_Load sample_machine "   " = Err "config path is required"
  ∧ order_config_Load sample_machine "elsewhere" = Err "validate configuration: validation failed"
  ∧ order_config_Load (with_lease "soon") "." = Err "decode configuration: decoding failed"
  ∧ order_config_Load (with_lease "11s") "." =
      Err "validate configuration: OUTBOX_CLAIM_LEASE must be longer than 11s (three times RABBITMQ_PUBLISH_TIMEOUT plus 5s)".
Proof. split_and!; vm_compute; reflexivity. Qed.

Lemma config_Load_exact_witness :
  decoded_as order_fields mkOrderConfig sample_machine "." sample_loaded
  ∧ order_Load sample_loaded = Some sample_loaded.
Proof. apply (proj1 (config_Load_exact sample_machine ".")). vm_compute. reflexivity. Defined.

Lemma loaded_settings_witness :
  all_given order_fields sample_machine "."
  ∧ (3 * oc_RabbitMQPublishTimeout sample_loaded + outboxWriteAllowance < oc_OutboxClaimLease sample_loaded)%Z.
Proof.
  destruct (proj1 (loaded_settings sample_machine ".") sample_loaded) as (H & _ & _ & Hlease).
  - vm_compute. reflexivity.
  - split; [exact H|]. apply Hlease. by vm_compute.
Defined.
