(* ===== verification/Observability.v ===== *)
(** * Loggers

    [platform/observability] of the three services, which have the same [NewLogger]: what
    it refuses, and what the logger it makes is like. Zerolog's level names and Unicode's
    case tables are parameters. *)
From Stdlib Require Import Ascii.
From S2P Require Import Prelude GoStrings ServiceConfig.

(** [zerolog.ParseLevel], and [strings.ToLower] of a string with a byte over 127. *)
Class LevelNames := {
  Level : Type;
  ParseLevel : string → result string Level;
  InfoLevel_String : string;
  ToLower_unicode : string → string;
}.
(** What zerolog documents: its level names are understood, among them the one of its
    info level. *)
Class LevelLaws `{LevelNames} : Prop := {
  ParseLevel_names s : s ∈ log_levels → is_ok (ParseLevel s) = true;
  InfoLevel_name : InfoLevel_String = "info";
}.

(* @src order-service/internal/platform/observability/logger.go:13-19 LoggerConfig *)
Record LoggerConfig := mkLoggerConfig {
  lc_ServiceName : string;
  lc_Environment : string;
  lc_Level : string;
  lc_IncludeCaller : bool;
}.

Definition lower_char (a : ascii) : ascii :=
  if (65 <=? byte a)%N && (byte a <=? 90)%N then ascii_of_N (byte a + 32) else a.
Definition is_ascii (s : string) : bool :=
  forallb (λ a, (byte a <? 128)%N) (String.list_ascii_of_string s).

Section NewLogger.
Context `{LevelNames}.

Definition ToLower (s : string) : string :=
  if is_ascii s then String.string_of_list_ascii (lower_char <$> String.list_ascii_of_string s)
  else ToLower_unicode s.

(** The level, whether lines are for a console, the two fields of every line and whether
    they name their caller. *)
Record Logger := mkLogger {
  lg_level : Level;
  lg_console : bool;
  lg_service : string;
  lg_environment : string;
  lg_caller : bool;
}.

(* @src order-service/internal/platform/observability/logger.go:27-30 NewLogger *)
Definition level_name (config : LoggerConfig) : string :=
  let levelName := TrimSpace (lc_Level config) in
  if bool_decide (levelName = "") then InfoLevel_String else levelName.

(* @go order-service/internal/platform/observability/logger.go NewLogger *)
Definition NewLogger (config : LoggerConfig) : result string Logger :=
  if bool_decide (TrimSpace (lc_ServiceName config) = "") then Err "logger service name is required"
  else if bool_decide (TrimSpace (lc_Environment config) = "") then Err "logger environment is required"
  else
    match ParseLevel (ToLower (level_name config)) with
    | Err e => Err ("parse logger level " +:+ Quote (lc_Level config) +:+ ": " +:+ e)
    | Ok level =>
        Ok (mkLogger level (bool_decide (lc_Environment config = "development"))
              (lc_ServiceName config) (lc_Environment config) (lc_IncludeCaller config))
    end.

(** The same code in the other services. *)
(* @go inventory-service/internal/platform/observability/logger.go NewLogger *)
Definition inventory_NewLogger : LoggerConfig → result string Logger := NewLogger.
(* @go notification-service/internal/platform/observability/logger.go NewLogger *)
Definition notification_NewLogger : LoggerConfig → result string Logger := NewLogger.

(** What [bootstrap.Run] asks for. A nil [LogCaller] is refused by [Load]. *)
(* @src order-service/internal/bootstrap/bootstrap.go:28-33 Run *)
Definition order_logger_config (service : string) (c : OrderConfig) : LoggerConfig :=
  mkLoggerConfig service (oc_Environment c) (oc_LogLevel c) (default false (oc_LogCaller c)).
(* @src inventory-service/internal/bootstrap/bootstrap.go:29-34 Run *)
Definition inventory_logger_config (service : string) (c : InventoryConfig) : LoggerConfig :=
  mkLoggerConfig service (ic_Environment c) (ic_LogLevel c) (default false (ic_LogCaller c)).
(* @src notification-service/internal/bootstrap/bootstrap.go:30-35 Run *)
Definition notification_logger_config (service : string) (c : NotificationConfig) : LoggerConfig :=
  mkLoggerConfig service (nc_Environment c) (nc_LogLevel c) (default false (nc_LogCaller c)).

Lemma accepted_level s caller service env `{!LevelLaws} :
  s ∈ log_levels → is_ok (ParseLevel (ToLower (level_name (mkLoggerConfig service env s caller)))) = true.
Proof.
  intros Hs. replace (ToLower _) with s; [by apply ParseLevel_names|].
  unfold level_name. cbn. unfold log_levels in Hs.
  repeat (apply elem_of_cons in Hs as [->|Hs]; [reflexivity|]). by apply elem_of_nil in Hs.
Qed.
Lemma accepted_environment env : env ∈ environments → TrimSpace env ≠ "".
Proof.
  unfold environments. intros Hs.
  repeat (apply elem_of_cons in Hs as [->|Hs]; [by vm_compute|]). by apply elem_of_nil in Hs.
Qed.

Lemma NewLogger_ok `{!LevelLaws} service env level caller :
  TrimSpace service ≠ "" → loaded_logging env level caller →
  ∃ l, NewLogger (mkLoggerConfig service env level (default false caller)) = Ok l
    ∧ lg_service l = service ∧ lg_environment l = env ∧ Some (lg_caller l) = caller
    ∧ (lg_console l = true ↔ env = "development").
Proof.
  intros Hservice (Henv & Hlevel & [b ->]). unfold NewLogger. cbn [lc_ServiceName lc_Environment].
  rewrite bool_decide_false by done. rewrite bool_decide_false by by apply accepted_environment.
  pose proof (accepted_level level b service env Hlevel) as Hok. cbn [default].
  destruct (ParseLevel _) as [l|]; [|done]. eexists. split_and!; [done..|]. cbn. by rewrite bool_decide_eq_true.
Qed.
End NewLogger.

(** Settings [config.Load] accepts never fail [NewLogger], in any of the three
    services: the logger is made, names the service and the environment in every line,
    gives the caller exactly as asked and writes for a console in development alone. *)
Theorem loaded_settings_log `{LevelLaws} service :
  TrimSpace service ≠ "" →
  (∀ c, order_Load c = Some c →
     ∃ l, NewLogger (order_logger_config service c) = Ok l ∧ lg_service l = service
       ∧ lg_environment l = oc_Environment c ∧ Some (lg_caller l) = oc_LogCaller c
       ∧ (lg_console l = true ↔ oc_Environment c = "development"))
  ∧ (∀ c, inventory_Load c = Some c →
     ∃ l, inventory_NewLogger (inventory_logger_config service c) = Ok l ∧ lg_service l = service
       ∧ lg_environment l = ic_Environment c ∧ Some (lg_caller l) = ic_LogCaller c
       ∧ (lg_console l = true ↔ ic_Environment c = "development"))
  ∧ (∀ c, notification_Load c = Some c →
     ∃ l, notification_NewLogger (notification_logger_config service c) = Ok l ∧ lg_service l = service
       ∧ lg_environment l = nc_Environment c ∧ Some (lg_caller l) = nc_LogCaller c
       ∧ (lg_console l = true ↔ nc_Environment c = "development")).
Proof.
  intros Hs. split_and!; intros c Hc.
  - apply NewLogger_ok; [done|by apply order_Load_logging].
  - apply NewLogger_ok; [done|by apply inventory_Load_logging].
  - apply NewLogger_ok; [done|by apply notification_Load_logging].
Qed.

#[local] Instance sample_level_names : LevelNames := {|
  Level := string;
  ParseLevel s := if bool_decide (s ∈ log_levels) then Ok s else Err "Unknown Level String";
  InfoLevel_String := "info";
  ToLower_unicode s := s;
|}.
#[local] Instance sample_level_laws : LevelLaws.
Proof. split; [|done]. intros s Hs. cbn. by rewrite bool_decide_true. Qed.

Lemma loaded_settings_log_witness :
  ∃ l, NewLogger (order_logger_config "order-service" sample_order_config) = Ok l
    ∧ lg_service l = "order-service" ∧ lg_environment l = "test" ∧ Some (lg_caller l) = Some true
    ∧ (lg_console l = true ↔ "test" = "development").
Proof.
  apply (proj1 (loaded_settings_log "order-service" ltac:(by vm_compute)) sample_order_config).
  reflexivity.
Defined.

(** Names in capitals and with blanks around them are understood, an empty one is info. *)
Example level_examples :
  (ToLower (level_name (mkLoggerConfig "s" "test" " DEBUG " true)) = "debug")
  ∧ (ToLower (level_name (mkLoggerConfig "s" "test" "  " true)) = "info").
Proof. by split. Qed.
