(* ===== verification/SentNotifications.v ===== *)
(** * The record of sent notifications

    The ports of notification-service's application, and package [postgres], which
    decides who sends an effect: claims with a lease and a fencing token, the count of
    attempts, and the write that finishes a claim. *)
From S2P Require Import Prelude GoErrors GoStrings External Postgres Prog.

(** ** The application's vocabulary *)

(* @src notification-service/internal/notification/application/errors.go:5-11 var *)
Inductive notification_leaf := ErrClaimLost | ErrInvalidEvent.
#[export] Instance notification_leaf_eq_dec : EqDecision notification_leaf.
Proof. solve_decision. Defined.
#[export] Instance notification_GoError : GoError notification_leaf notification_leaf := {|
  leaf_is l s := bool_decide (l = s);
  leaf_text l := match l with
    | ErrClaimLost => "notification claim no longer held"
    | ErrInvalidEvent => "invalid order accepted event"
    end;
|}.
Abbreviation notification_error := (error notification_leaf).
Abbreviation notification_result := (result notification_error).

(* @go notification-service/internal/notification/application/ports.go EffectKey *)
Record EffectKey := mkEffectKey { SubjectID : string; Kind : string; Channel : string }.
#[export] Instance EffectKey_eq_dec : EqDecision EffectKey.
Proof. solve_decision. Defined.
#[export] Instance EffectKey_countable : Countable EffectKey.
Proof.
  apply (inj_countable' (λ k, (SubjectID k, Kind k, Channel k)) (λ '(s, k, c), mkEffectKey s k c)).
  by intros [].
Defined.

(* @go notification-service/internal/notification/application/ports.go ChannelEmail *)
Definition ChannelEmail : string := "email".
(* @go notification-service/internal/notification/application/ports.go KindOrderConfirmation *)
Definition KindOrderConfirmation : string := "order_confirmation".

(* @src notification-service/internal/notification/application/ports.go:28-34 ClaimState *)
Inductive ClaimState := ClaimGranted | ClaimAlreadySent | ClaimHeldByAnother.
(* @src notification-service/internal/notification/application/ports.go:36-43 Claim *)
Record ClaimHandle := mkClaim { Token : string; Attempts : Z }.
Definition zero_claim : ClaimHandle := mkClaim "" 0.

(* @go notification-service/internal/notification/application/ports.go Email *)
Record Email := mkEmail {
  To : string;
  em_OrderID : string;
  em_TotalAmountInMinorUnits : Z;
  em_Currency : string;
  IdempotencyKey : string;
}.

(** ** The table *)

(* @src notification-service/migrations/000001_create_sent_notifications.up.sql:11-56 sent_notifications *)
Record effectRow := mkEffectRow {
  sn_event_id : string;
  sn_state : string;
  sn_claim_token : string;
  sn_attempts : Z;
  sn_lease_expires_at : Z;
  sn_created_at : Z;
  sn_updated_at : Z;
}.
Abbreviation effects := (gmap EffectKey effectRow).

Definition key_ok (key : EffectKey) : bool :=
  text_ok (SubjectID key) && text_ok (Kind key) && text_ok (Channel key).

(** The rows the conflict branch may take over. *)
(* @src notification-service/internal/notification/adapter/outbound/postgres/sent_notification_store.go:58-60 SentNotificationStore.Claim *)
Definition may_take_over (now : Z) (row : effectRow) : bool :=
  bool_decide (sn_state row = "failed")
  || bool_decide (sn_state row = "sending") && (sn_lease_expires_at row <? now)%Z.

(** [RETURNING attempts]: no row when the conflicting one may not be taken over. *)
(* @src notification-service/internal/notification/adapter/outbound/postgres/sent_notification_store.go:46-61 claimStatement *)
Definition claimStatement (now : Z) (key : EffectKey) (eventID token : string) (lease : Z)
    (tbl : effects) : result pg_error (option Z * effects) :=
  if negb (key_ok key && text_ok eventID && text_ok token) then Err pg_encoding_error
  else match tbl !! key with
  | None =>
      Ok (Some 0%Z, <[key := mkEffectRow eventID "sending" token 0 (now + interval_value lease)
                               now now]> tbl)
  | Some row =>
      if may_take_over now row
      then Ok (Some (sn_attempts row),
               <[key := mkEffectRow eventID "sending" token (sn_attempts row)
                          (now + interval_value lease) (sn_created_at row) now]> tbl)
      else Ok (None, tbl)
  end.

(** The WHERE clause the fenced writes share. *)
(* @src notification-service/internal/notification/adapter/outbound/postgres/sent_notification_store.go:112-116 SentNotificationStore.BeginAttempt *)
Definition holds_effect (token : string) (row : effectRow) : bool :=
  bool_decide (sn_state row = "sending") && bool_decide (sn_claim_token row = token).

(* @src notification-service/internal/notification/adapter/outbound/postgres/sent_notification_store.go:108-117 beginStatement *)
Definition beginStatement (now : Z) (key : EffectKey) (token : string) (tbl : effects)
    : result pg_error (option Z * effects) :=
  if negb (key_ok key && text_ok token) then Err pg_encoding_error
  else match tbl !! key with
  | None => Ok (None, tbl)
  | Some row =>
      if holds_effect token row
      then if negb (int4_ok (sn_attempts row + 1)) then Err (PgError "22003" "")
           else Ok (Some (sn_attempts row + 1)%Z,
             <[key := mkEffectRow (sn_event_id row) (sn_state row) (sn_claim_token row)
                        (sn_attempts row + 1) (sn_lease_expires_at row) (sn_created_at row) now]> tbl)
      else Ok (None, tbl)
  end.

(** The number of rows updated. *)
(* @src notification-service/internal/notification/adapter/outbound/postgres/sent_notification_store.go:165-173 finishStatement *)
Definition finishStatement (now : Z) (key : EffectKey) (token state : string) (tbl : effects)
    : result pg_error (Z * effects) :=
  if negb (key_ok key && text_ok token && text_ok state) then Err pg_encoding_error
  else match tbl !! key with
  | None => Ok (0%Z, tbl)
  | Some row =>
      if holds_effect token row
      then if bool_decide (state ∈ ["sending"; "sent"; "failed"])
           then Ok (1%Z,
             <[key := mkEffectRow (sn_event_id row) state (sn_claim_token row) (sn_attempts row)
                        (sn_lease_expires_at row) (sn_created_at row) now]> tbl)
           else Err (PgError "23514" "sent_notifications_state_known")
      else Ok (0%Z, tbl)
  end.

(* @src notification-service/internal/notification/adapter/outbound/postgres/sent_notification_store.go:204-209 stateQuery *)
Definition stateQuery (key : EffectKey) (tbl : effects) : result pg_error (option string) :=
  if negb (key_ok key) then Err pg_encoding_error else Ok (sn_state <$> tbl !! key).

(** ** The calls of the use case and its store *)

(** Each statement commits on its own. [rand_Read] is the source of tokens, [Send] the
    email provider. *)
Inductive notifyE : Type → Type :=
| rand_Read : notifyE (result string string)
| ClaimStatement (key : EffectKey) (eventID token : string) (lease : Z)
    : notifyE (result pg_error (option Z))
| StateQuery (key : EffectKey) : notifyE (result pg_error (option string))
| BeginStatement (key : EffectKey) (token : string) : notifyE (result pg_error (option Z))
| FinishStatement (key : EffectKey) (token state : string) : notifyE (result pg_error Z)
| Send (email : Email) : notifyE (result string unit).

Section store.
Context {Pg : Postgres}.

Definition notification_pg_err (e : pg_error) : notification_error := Opaque (pg_error_text e).
Definition no_rows : notification_error := Opaque "sql: no rows in result set".

(** The token is the hex of what was read. *)
(* @go notification-service/internal/notification/adapter/outbound/postgres/sent_notification_store.go newClaimToken *)
Definition newClaimToken : prog notifyE (notification_result string) :=
  read ← trigger rand_Read;
  mret (map_err (λ text, Wrap "generate claim token" (Opaque text)) read).

(* @go notification-service/internal/notification/adapter/outbound/postgres/sent_notification_store.go SentNotificationStore.currentState *)
Definition currentState (key : EffectKey) : prog notifyE (notification_result string) :=
  row ← trigger (StateQuery key);
  mret (match row with
        | Err err => Err (Wrap "read notification state" (notification_pg_err err))
        | Ok None => Err (Wrap "read notification state" no_rows)
        | Ok (Some state) => Ok state
        end).

(* @go notification-service/internal/notification/adapter/outbound/postgres/sent_notification_store.go SentNotificationStore.Claim *)
Definition notification_Claim (key : EffectKey) (eventID : string) (lease : Z)
    : prog notifyE (notification_result (ClaimState * ClaimHandle)) :=
  generated ← newClaimToken;
  match generated with
  | Err err => mret (Err err)
  | Ok token =>
  claimed ← trigger (ClaimStatement key eventID token lease);
  match claimed with
  | Ok (Some attempts) => mret (Ok (ClaimGranted, mkClaim token attempts))
  | Err err => mret (Err (Wrap "claim notification" (notification_pg_err err)))
  | Ok None =>
  read ← currentState key;
  match read with
  | Err err => mret (Err err)
  | Ok state =>
      if bool_decide (state = "sent") then mret (Ok (ClaimAlreadySent, zero_claim))
      else mret (Ok (ClaimHeldByAnother, zero_claim))
  end end end.

(* @go notification-service/internal/notification/adapter/outbound/postgres/sent_notification_store.go SentNotificationStore.BeginAttempt *)
Definition BeginAttempt (key : EffectKey) (token : string) : prog notifyE (notification_result Z) :=
  begun ← trigger (BeginStatement key token);
  mret (match begun with
        | Ok None => Err (Leaf ErrClaimLost)
        | Err err => Err (Wrap "begin notification attempt" (notification_pg_err err))
        | Ok (Some attempts) => Ok attempts
        end).

(* @go notification-service/internal/notification/adapter/outbound/postgres/sent_notification_store.go SentNotificationStore.finish *)
Definition finish (key : EffectKey) (token state : string) : prog notifyE (notification_result unit) :=
  updated ← trigger (FinishStatement key token state);
  mret (match updated with
        | Err err => Err (Wrap ("mark notification " +:+ state) (notification_pg_err err))
        | Ok affected => if (affected =? 0)%Z then Err (Leaf ErrClaimLost) else Ok tt
        end).

(* @go notification-service/internal/notification/adapter/outbound/postgres/sent_notification_store.go SentNotificationStore.MarkSent *)
Definition MarkSent (key : EffectKey) (token : string) : prog notifyE (notification_result unit) :=
  finish key token "sent".
(* @go notification-service/internal/notification/adapter/outbound/postgres/sent_notification_store.go SentNotificationStore.MarkFailed *)
Definition MarkFailed (key : EffectKey) (token : string) : prog notifyE (notification_result unit) :=
  finish key token "failed".
End store.
