(* ===== verification/HandleOrderAccepted.v ===== *)
(** * Confirming an accepted order

    [application.HandleOrderAccepted] of notification-service: claim the effect, spend
    one attempt of its budget, send, and record what became of it. *)
From S2P Require Import Prelude GoErrors GoStrings External Postgres Prog SentNotifications.

(* @go notification-service/internal/notification/application/handle_order_accepted.go MaxSendAttempts *)
Definition MaxSendAttempts : Z := 3.

(* @go notification-service/internal/notification/application/handle_order_accepted.go OrderAcceptedCommand *)
Record OrderAcceptedCommand := mkOrderAcceptedCommand {
  oac_EventID : string;
  oac_OrderID : string;
  oac_CustomerEmail : string;
  oac_TotalAmountInMinorUnits : Z;
  oac_Currency : string;
  oac_OccurredAt : Z;
}.

(* @src notification-service/internal/notification/application/outcome.go:8-32 Outcome *)
Inductive Outcome :=
| OutcomeUnknown | OutcomeSent | OutcomeAlreadySent | OutcomeClaimBusy | OutcomeInvalid
| OutcomeTransientFailure | OutcomeStorageFailure | OutcomeExhausted | OutcomeShuttingDown.
#[export] Instance Outcome_eq_dec : EqDecision Outcome.
Proof. solve_decision. Defined.

(* @go notification-service/internal/notification/application/outcome.go Outcome.String *)
Definition Outcome_String (outcome : Outcome) : string :=
  match outcome with
  | OutcomeSent => "sent"
  | OutcomeAlreadySent => "already_sent"
  | OutcomeClaimBusy => "claim_busy"
  | OutcomeInvalid => "invalid"
  | OutcomeTransientFailure => "transient_failure"
  | OutcomeStorageFailure => "storage_failure"
  | OutcomeExhausted => "exhausted"
  | OutcomeShuttingDown => "shutting_down"
  | OutcomeUnknown => "unknown"
  end.

(* @go notification-service/internal/notification/application/outcome.go Result *)
Record Result := mkResult {
  res_Outcome : Outcome;
  res_Attempts : Z;
  res_Err : option notification_error;
}.

(** SHA-256, in hex. *)
Class HashLib : Type := { sha256_hex : string → string }.
Definition nul : string := String (Ascii.ascii_of_nat 0) EmptyString.

Section use_case.
Context {Pg : Postgres} {Hash : HashLib}.

Definition effect_text (key : EffectKey) : string :=
  SubjectID key +:+ nul +:+ Kind key +:+ nul +:+ Channel key.
(* @go notification-service/internal/notification/application/handle_order_accepted.go ProviderIdempotencyKey *)
Definition ProviderIdempotencyKey (key : EffectKey) : string := sha256_hex (effect_text key).

(* @src notification-service/internal/notification/application/handle_order_accepted.go:55-59 HandleOrderAccepted.Execute *)
Definition effect_of (command : OrderAcceptedCommand) : EffectKey :=
  mkEffectKey (oac_OrderID command) KindOrderConfirmation ChannelEmail.

(* @src notification-service/internal/notification/application/handle_order_accepted.go:104-110 HandleOrderAccepted.Execute *)
Definition email_of (command : OrderAcceptedCommand) : Email :=
  mkEmail (oac_CustomerEmail command) (oac_OrderID command) (oac_TotalAmountInMinorUnits command)
    (oac_Currency command) (ProviderIdempotencyKey (effect_of command)).

(** The part after the claim was granted. *)
(* @src notification-service/internal/notification/application/handle_order_accepted.go:82-138 HandleOrderAccepted.Execute *)
Definition send_claimed (command : OrderAcceptedCommand) (claim : ClaimHandle) : prog notifyE Result :=
  let key := effect_of command in
  if (MaxSendAttempts <=? Attempts claim)%Z
  then mret (mkResult OutcomeExhausted (Attempts claim) None)
  else
  begun ← BeginAttempt key (Token claim);
  match begun with
  | Err err =>
      if errors_Is err ErrClaimLost then mret (mkResult OutcomeClaimBusy 0 (Some err))
      else mret (mkResult OutcomeStorageFailure 0 (Some (Wrap "begin attempt" err)))
  | Ok attempts =>
  sent ← trigger (Send (email_of command));
  match sent with
  | Err text =>
      _ ← MarkFailed key (Token claim);
      mret (mkResult OutcomeTransientFailure attempts (Some (Wrap "send email" (Opaque text))))
  | Ok _ =>
  marked ← MarkSent key (Token claim);
  match marked with
  | Err err => mret (mkResult OutcomeStorageFailure attempts
                       (Some (Wrap "record sent notification after sending" err)))
  | Ok _ => mret (mkResult OutcomeSent attempts None)
  end end end.

(* @go notification-service/internal/notification/application/handle_order_accepted.go HandleOrderAccepted.Execute *)
Definition HandleOrderAccepted_Execute (lease : Z) (command : OrderAcceptedCommand)
    : prog notifyE Result :=
  claimed ← notification_Claim (effect_of command) (oac_EventID command) lease;
  match claimed with
  | Err err => mret (mkResult OutcomeStorageFailure 0 (Some (Wrap "claim notification" err)))
  | Ok (ClaimAlreadySent, _) => mret (mkResult OutcomeAlreadySent 0 None)
  | Ok (ClaimHeldByAnother, _) => mret (mkResult OutcomeClaimBusy 0 None)
  | Ok (ClaimGranted, claim) => send_claimed command claim
  end.
End use_case.
