(* ===== verification/EmailLog.v ===== *)
(** * The email sender

    [emaillog]: a sender that writes a line in place of an email, with the address
    redacted. *)
From Stdlib Require Import Ascii.
From Stdlib Require String.
From S2P Require Import Prelude GoStrings SentNotifications HandleOrderAccepted.

Definition at_sign : ascii := ascii_of_nat 64.

(** [local[:1]] is the first byte. *)
(* @go notification-service/internal/notification/adapter/outbound/emaillog/sender.go redactEmail *)
Definition redactEmail (address : string) : string :=
  let '(local, domain, found) := strings_Cut address at_sign in
  if negb found || bool_decide (local = "") then "[redacted]"
  else String.substring 0 1 local +:+ "***@" +:+ domain.

Record email_line := mkEmailLine {
  el_recipient : string;
  el_order_id : string;
  el_total_amount_in_minor_units : Z;
  el_currency : string;
  el_provider_idempotency_key : string;
}.

(** The line written and the error. *)
(* @go notification-service/internal/notification/adapter/outbound/emaillog/sender.go Sender.Send *)
Definition emaillog_Send (email : Email) : email_line * option string :=
  (mkEmailLine (redactEmail (To email)) (em_OrderID email)
     (em_TotalAmountInMinorUnits email) (em_Currency email) (IdempotencyKey email), None).

Definition no_at_sign (s : string) : Prop := at_sign ∉ String.list_ascii_of_string s.
Definition addressed (to : string) (email : Email) : Email :=
  mkEmail to (em_OrderID email) (em_TotalAmountInMinorUnits email) (em_Currency email) (IdempotencyKey email).

Lemma Cut_at local domain :
  no_at_sign local → strings_Cut (local +:+ "@" +:+ domain) at_sign = (local, domain, true).
Proof.
  unfold no_at_sign. induction local as [|a local IH]; cbn -[bool_decide at_sign]; intros Hno; [done|].
  apply not_elem_of_cons in Hno as [Ha Hno]. change (String a local +:+ ?s) with (String a (local +:+ s)).
  cbn [strings_Cut]. rewrite bool_decide_false by done. by rewrite IH.
Qed.
Lemma Cut_without s : no_at_sign s → strings_Cut s at_sign = (s, "", false).
Proof.
  unfold no_at_sign. induction s as [|a s IH]; cbn -[bool_decide at_sign]; intros Hno; [done|].
  apply not_elem_of_cons in Hno as [Ha Hno]. cbn [strings_Cut].
  rewrite bool_decide_false by done. by rewrite IH.
Qed.

Lemma redactEmail_address a local domain :
  no_at_sign (String a local) →
  redactEmail (String a local +:+ "@" +:+ domain) = String a ("***@" +:+ domain).
Proof.
  intros Hno. unfold redactEmail. rewrite (Cut_at (String a local)) by done.
  cbn. by destruct local.
Qed.
Lemma redactEmail_nothing s domain :
  no_at_sign s → redactEmail s = "[redacted]" ∧ redactEmail ("@" +:+ domain) = "[redacted]".
Proof.
  intros Hno. split; unfold redactEmail.
  - by rewrite Cut_without.
  - reflexivity.
Qed.

(** A line of the log names no customer: emails to two addresses with the same domain
    and the same first byte, whatever follows it up to the at sign, are logged alike; the
    other fields are those of the email, sending never fails, and an address without an at
    sign or with nothing before it is not shown at all. *)
Theorem redaction_hides a local1 local2 domain email :
  no_at_sign (String a local1) → no_at_sign (String a local2) →
  emaillog_Send (addressed (String a local1 +:+ "@" +:+ domain) email)
  = emaillog_Send (addressed (String a local2 +:+ "@" +:+ domain) email)
  ∧ emaillog_Send (addressed (String a local1 +:+ "@" +:+ domain) email)
    = (mkEmailLine (String a ("***@" +:+ domain)) (em_OrderID email) (em_TotalAmountInMinorUnits email)
         (em_Currency email) (IdempotencyKey email), None)
  ∧ redactEmail (String a local1) = "[redacted]" ∧ redactEmail ("@" +:+ domain) = "[redacted]".
Proof.
  intros H1 H2. unfold emaillog_Send. cbn [To addressed em_OrderID em_TotalAmountInMinorUnits em_Currency IdempotencyKey].
  rewrite !redactEmail_address by done. split_and!; [done..|by apply (redactEmail_nothing _ domain)|].
  by apply (redactEmail_nothing (String a local1)).
Qed.

Lemma redaction_hides_witness :
  emaillog_Send (mkEmail "alice@example.com" "o-1" 5 "EUR" "k")
  = emaillog_Send (mkEmail "anna@example.com" "o-1" 5 "EUR" "k").
Proof.
  apply (redaction_hides "a" "lice" "nna" "example.com" (mkEmail "" "o-1" 5 "EUR" "k")).
  - unfold no_at_sign. apply (bool_decide_unpack _). by vm_compute.
  - unfold no_at_sign. apply (bool_decide_unpack _). by vm_compute.
Defined.

(** The local part of an address may hold an at sign in quotes, and what follows it is then
    logged. *)
Example quoted_local_is_logged :
  redactEmail (dquote +:+ "a@secret" +:+ dquote +:+ "@example.com")
  = dquote +:+ "***@secret" +:+ dquote +:+ "@example.com".
Proof. reflexivity. Qed.
