(* ===== verification/NotificationService.v ===== *)
(** * Notifications under concurrency

    Deliveries of accepted orders handled by any number of workers over one table and
    one email provider, interleaved at their statements: never more than three calls
    of the provider for an order, and a delivery concluded only for an email sent. *)
From S2P Require Import Prelude GoErrors GoStrings External Postgres Prog SentNotifications HandleOrderAccepted.

(** The table and what the proof watches beside it: which worker drew each token, the
    attempts recorded whose call of the provider has not been made yet, the calls made
    per effect, and the effects the provider accepted an email for. *)
Record nworld := mkNworld {
  nw_effects : effects;
  nw_tokens : gmap string nat;
  nw_begun : gset (EffectKey * string);
  nw_sends : gmap EffectKey Z;
  nw_accepted : gset EffectKey;
}.

Definition with_effects (w : nworld) (tbl : effects) : nworld :=
  mkNworld tbl (nw_tokens w) (nw_begun w) (nw_sends w) (nw_accepted w).

Definition key_of_email (email : Email) : EffectKey :=
  mkEffectKey (em_OrderID email) KindOrderConfirmation ChannelEmail.

Definition sends_of (w : nworld) (key : EffectKey) : Z := default 0%Z (nw_sends w !! key).
Definition attempts_of (w : nworld) (key : EffectKey) : Z :=
  match nw_effects w !! key with Some row => sn_attempts row | None => 0%Z end.
Definition begun_of (w : nworld) (key : EffectKey) : gset (EffectKey * string) :=
  filter (λ kt, kt.1 = key) (nw_begun w).

Section notification_service.
Context {Pg : Postgres} {Hash : HashLib}.

(** One call of worker [i]. Sixteen random bytes do not repeat. *)
Definition notify_step (i : nat) R (e : notifyE R) : nworld → R → nworld → Prop :=
  match e with
  | rand_Read => λ w r w',
      match r with
      | Err _ => w' = w
      | Ok token => nw_tokens w !! token = None
          ∧ w' = mkNworld (nw_effects w) (<[token := i]> (nw_tokens w)) (nw_begun w)
                   (nw_sends w) (nw_accepted w)
      end
  | ClaimStatement key eventID token lease => λ w r w', ∃ f now tbl,
      exec_write f 0 (claimStatement now key eventID token lease (nw_effects w)) (nw_effects w)
        = (r, tbl) ∧ w' = with_effects w tbl
  | StateQuery key => λ w r w', w' = w ∧ ∃ f, r = exec_query f 0 (stateQuery key (nw_effects w))
  | BeginStatement key token => λ w r w', ∃ f now tbl,
      exec_write f 0 (beginStatement now key token (nw_effects w)) (nw_effects w) = (r, tbl)
      ∧ w' = mkNworld tbl (nw_tokens w)
               (match r with Ok (Some _) => {[ (key, token) ]} ∪ nw_begun w | _ => nw_begun w end)
               (nw_sends w) (nw_accepted w)
  | FinishStatement key token state => λ w r w', ∃ f now tbl,
      exec_write f 0 (finishStatement now key token state (nw_effects w)) (nw_effects w) = (r, tbl)
      ∧ w' = with_effects w tbl
  | Send email => λ w r w',
      let key := key_of_email email in
      w' = mkNworld (nw_effects w) (nw_tokens w)
             (filter (λ kt, ¬ (kt.1 = key ∧ nw_tokens w !! kt.2 = Some i)) (nw_begun w))
             (<[key := sends_of w key + 1]> (nw_sends w))%Z
             (match r with Ok _ => {[ key ]} ∪ nw_accepted w | Err _ => nw_accepted w end)
  end.

(** ** The invariant and the interference *)

Definition row_wf (w : nworld) (key : EffectKey) (row : effectRow) : Prop :=
  (0 ≤ sn_attempts row ≤ MaxSendAttempts)%Z
  ∧ sn_state row ∈ ["sending"; "sent"; "failed"]
  ∧ is_Some (nw_tokens w !! sn_claim_token row)
  ∧ (sn_state row = "sent" → key ∈ nw_accepted w).

Record notify_sound (w : nworld) : Prop := {
  ns_rows : ∀ key row, nw_effects w !! key = Some row → row_wf w key row;
  ns_sends : ∀ key, (sends_of w key + Z.of_nat (size (begun_of w key)) ≤ attempts_of w key)%Z;
}.

(** What worker [i] may rely on: nobody draws, uses or spends its tokens; no row goes
    away, loses attempts or leaves the state sent; an accepted email stays accepted. *)
Record undisturbed (i : nat) (w w' : nworld) : Prop := {
  ud_tokens : nw_tokens w ⊆ nw_tokens w';
  ud_mine : ∀ t, nw_tokens w' !! t = Some i → nw_tokens w !! t = Some i;
  ud_rows : ∀ key row', nw_effects w' !! key = Some row' →
    nw_tokens w !! sn_claim_token row' = Some i → nw_effects w !! key = Some row';
  ud_begun : ∀ key t, nw_tokens w !! t = Some i → (key, t) ∈ nw_begun w → (key, t) ∈ nw_begun w';
  ud_grow : ∀ key row, nw_effects w !! key = Some row →
    ∃ row', nw_effects w' !! key = Some row' ∧ (sn_attempts row ≤ sn_attempts row')%Z
            ∧ (sn_state row = "sent" → row' = row);
  ud_accepted : nw_accepted w ⊆ nw_accepted w';
}.
Definition others (i : nat) (w w' : nworld) : Prop := ∀ j, j ≠ i → undisturbed j w w'.

#[export] Instance undisturbed_preorder i : PreOrder (undisturbed i).
Proof.
  split.
  - intros w. split; try done. intros key row Hrow. exists row. by split_and!.
  - intros w1 w2 w3 [T1 M1 R1 B1 G1 A1] [T2 M2 R2 B2 G2 A2]. split.
    + by transitivity (nw_tokens w2).
    + auto.
    + intros key row' Hrow Hmine. apply R1; [|done]. apply R2; [done|]. by eapply lookup_weaken.
    + intros key t Hmine Hin. apply B2; [by eapply lookup_weaken|]. by apply B1.
    + intros key row Hrow. destruct (G1 _ _ Hrow) as (row2 & Hrow2 & Hle & Hs).
      destruct (G2 _ _ Hrow2) as (row3 & Hrow3 & Hle' & Hs'). exists row3.
      split; [done|]. split; [lia|]. intros Hsent. rewrite (Hs Hsent) in Hs'. by apply Hs'.
    + by transitivity (nw_accepted w2).
Qed.

Abbreviation notify_wp := (wp notify_step notify_sound undisturbed others).

(** ** The steps *)

(** Steps that leave the table alone and the ghosts no smaller. *)
Lemma begun_of_spec w key k t : (k, t) ∈ begun_of w key ↔ k = key ∧ (k, t) ∈ nw_begun w.
Proof. unfold begun_of. by rewrite elem_of_filter. Qed.

Lemma rand_step i w r w' :
  notify_sound w → notify_step i _ rand_Read w r w' →
  notify_sound w' ∧ others i w w'
  ∧ ∀ t, r = Ok t → nw_tokens w' !! t = Some i
      ∧ ∀ key row, nw_effects w' !! key = Some row → sn_claim_token row ≠ t.
Proof.
  intros Hs. destruct r as [t|err]; cbn.
  2:{ intros ->. split; [done|]. split; [intros j _; reflexivity|done]. }
  intros [Hfresh ->]. split; [|split].
  - destruct Hs as [Hr Hn]. split; [|done]. intros key row Hrow. cbn in Hrow.
    destruct (Hr _ _ Hrow) as (H1 & H2 & [o H3] & H4).
    split; [done|]. split; [done|]. split; [|done]. cbn. rewrite lookup_insert_ne by congruence. by exists o.
  - intros j Hj. split; cbn; try done.
    + by apply insert_subseteq.
    + intros t'. rewrite lookup_insert_Some. by intros [[_ ?]|[_ ?]].
    + intros key row Hrow. exists row. by split_and!.
  - intros t' [= <-]. cbn. split; [by rewrite lookup_insert_eq|].
    intros key row Hrow Heq. destruct (ns_rows _ Hs _ _ Hrow) as (_ & _ & [o Ho] & _). congruence.
Qed.

(** A write of one row under a token of worker [i]. *)
Lemma effect_row_step i w key row' begun' :
  notify_sound w →
  nw_tokens w !! sn_claim_token row' = Some i →
  row_wf w key row' →
  (attempts_of w key + Z.of_nat (size (filter (λ kt, kt.1 = key) begun') - size (begun_of w key))
   ≤ sn_attempts row')%Z →
  nw_begun w ⊆ begun' → (∀ k t, (k, t) ∈ begun' → (k, t) ∈ nw_begun w ∨ k = key) →
  (∀ row, nw_effects w !! key = Some row →
     sn_state row ≠ "sent" ∧ (sn_attempts row ≤ sn_attempts row')%Z) →
  let w' := mkNworld (<[key := row']> (nw_effects w)) (nw_tokens w) begun' (nw_sends w) (nw_accepted w) in
  notify_sound w' ∧ others i w w'.
Proof.
  intros Hs Hmine Hwf Hatt Hb Hb' Hrow w'. subst w'. split.
  - split.
    + intros k row. cbn. rewrite lookup_insert_Some. intros [[<- <-]|[_ Hk]]; [done|].
      apply (ns_rows _ Hs _ _ Hk).
    + intros k. pose proof (ns_sends _ Hs k) as Hle. unfold sends_of, attempts_of, begun_of in *. cbn.
      destruct (decide (k = key)) as [->|Hne].
      * rewrite lookup_insert_eq. unfold attempts_of, begun_of in Hatt.
        assert (size (filter (λ kt, kt.1 = key) (nw_begun w))
                ≤ size (filter (λ kt, kt.1 = key) begun'))%nat.
        { apply subseteq_size. intros [k' t']. rewrite !elem_of_filter. naive_solver. }
        lia.
      * rewrite lookup_insert_ne by done.
        assert (filter (λ kt, kt.1 = k) begun' = filter (λ kt, kt.1 = k) (nw_begun w)) as ->; [|done].
        apply set_eq. intros [k' t']. rewrite !elem_of_filter. naive_solver.
  - intros j Hj. split; cbn; try done.
    + intros k row. rewrite lookup_insert_Some. intros [[<- <-]|[_ Hk]] Hj'; [congruence|done].
    + intros k t _ Hin. by apply Hb.
    + intros k row Hk. destruct (decide (k = key)) as [->|Hne].
      * exists row'. rewrite lookup_insert_eq. destruct (Hrow _ Hk) as [Hns Hle]. by split_and!.
      * exists row. rewrite lookup_insert_ne by done. by split_and!.
Qed.

(** A write that changed nothing, whatever became of its answer. *)
Lemma unchanged_step i w :
  notify_sound w → notify_sound (with_effects w (nw_effects w))
  ∧ others i w (with_effects w (nw_effects w)).
Proof. intros Hs. destruct w. split; [done|]. intros j _. reflexivity. Qed.

(** ** The statements *)
Lemma claimStatement_cases now key eventID token lease tbl a tbl' :
  claimStatement now key eventID token lease tbl = Ok (a, tbl') →
  (a = None ∧ tbl' = tbl)
  ∨ ∃ row', a = Some (sn_attempts row') ∧ tbl' = <[key := row']> tbl
      ∧ sn_claim_token row' = token ∧ sn_state row' = "sending"
      ∧ sn_attempts row' = (match tbl !! key with Some row => sn_attempts row | None => 0%Z end)
      ∧ (∀ row, tbl !! key = Some row → sn_state row ≠ "sent").
Proof.
  unfold claimStatement. destruct (negb _); [done|]. destruct (tbl !! key) as [row|].
  - destruct (may_take_over now row) eqn:Hm; [|intros [= <- <-]; by left].
    intros [= <- <-]. right. eexists (mkEffectRow _ _ _ _ _ _ _). do 5 (split; [done|]). intros ? [= <-] Hsent.
    unfold may_take_over in Hm. rewrite Hsent in Hm. discriminate Hm.
  - intros [= <- <-]. right. eexists (mkEffectRow _ _ _ _ _ _ _). by do 5 (split; [done|]).
Qed.

Lemma holds_effect_spec token row :
  holds_effect token row = true → sn_state row = "sending" ∧ sn_claim_token row = token.
Proof. unfold holds_effect. intros. by reflect_bools. Qed.

Lemma beginStatement_cases now key token tbl a tbl' :
  beginStatement now key token tbl = Ok (a, tbl') →
  (a = None ∧ tbl' = tbl)
  ∨ ∃ row row', tbl !! key = Some row ∧ holds_effect token row = true
      ∧ a = Some (sn_attempts row') ∧ tbl' = <[key := row']> tbl
      ∧ sn_claim_token row' = token ∧ sn_state row' = "sending"
      ∧ sn_attempts row' = (sn_attempts row + 1)%Z.
Proof.
  unfold beginStatement. destruct (negb _); [done|]. destruct (tbl !! key) as [row|].
  - destruct (holds_effect token row) eqn:Hh; [|intros [= <- <-]; by left].
    destruct (negb _); [done|]. intros [= <- <-]. right. exists row. eexists (mkEffectRow _ _ _ _ _ _ _).
    destruct (holds_effect_spec _ _ Hh). by do 6 (split; [done|]).
  - intros [= <- <-]. by left.
Qed.

Lemma finishStatement_cases now key token state tbl n tbl' :
  finishStatement now key token state tbl = Ok (n, tbl') →
  (n = 0%Z ∧ tbl' = tbl)
  ∨ ∃ row row', tbl !! key = Some row ∧ holds_effect token row = true
      ∧ n = 1%Z ∧ tbl' = <[key := row']> tbl ∧ sn_claim_token row' = token
      ∧ sn_state row' = state ∧ state ∈ ["sending"; "sent"; "failed"]
      ∧ sn_attempts row' = sn_attempts row.
Proof.
  unfold finishStatement. destruct (negb _); [done|]. destruct (tbl !! key) as [row|].
  - destruct (holds_effect token row) eqn:Hh; [|intros [= <- <-]; by left].
    case_bool_decide as Hst; [|done]. intros [= <- <-]. right. exists row. eexists (mkEffectRow _ _ _ _ _ _ _).
    destruct (holds_effect_spec _ _ Hh). by do 7 (split; [done|]).
  - intros [= <- <-]. by left.
Qed.

(** ** What a worker knows of its claim *)
Definition owns (i : nat) (w : nworld) (key : EffectKey) (token : string) (attempts : Z) : Prop :=
  nw_tokens w !! token = Some i
  ∧ ∀ row, nw_effects w !! key = Some row → sn_claim_token row = token → sn_attempts row = attempts.

Lemma owns_undisturbed i w w' key token a :
  owns i w key token a → undisturbed i w w' → owns i w' key token a.
Proof.
  intros [Ht Ha] Hu. split; [eapply lookup_weaken; [done|apply Hu]|].
  intros row Hrow Htok. apply Ha; [|done]. apply (ud_rows _ _ _ Hu); [done|]. by rewrite Htok.
Qed.

Lemma effect_claim_step i w key eventID token lease r w' :
  notify_sound w → nw_tokens w !! token = Some i →
  (∀ k row, nw_effects w !! k = Some row → sn_claim_token row ≠ token) →
  notify_step i _ (ClaimStatement key eventID token lease) w r w' →
  notify_sound w' ∧ others i w w'
  ∧ match r with
    | Ok (Some a) => owns i w' key token a
        ∧ ∃ row, nw_effects w' !! key = Some row ∧ sn_attempts row = a
    | _ => True
    end.
Proof.
  intros Hs Ht Hfresh (f & now & tbl & Hw & ->).
  assert (∀ a tbl', claimStatement now key eventID token lease (nw_effects w) = Ok (a, tbl') →
    notify_sound (with_effects w tbl') ∧ others i w (with_effects w tbl')
    ∧ match a with
      | Some a => owns i (with_effects w tbl') key token a
          ∧ ∃ row, nw_effects (with_effects w tbl') !! key = Some row ∧ sn_attempts row = a
      | None => True
      end) as Hcases.
  { intros a tbl' [[-> ->]|(row' & -> & -> & Htok & Hst & Hatt & Hns)]%claimStatement_cases.
    { split; [by apply (unchanged_step i)|]. split; [by apply unchanged_step|done]. }
    assert (0 ≤ sn_attempts row' ≤ MaxSendAttempts)%Z as Hrange.
    { rewrite Hatt. unfold MaxSendAttempts. destruct (nw_effects w !! key) as [row|] eqn:Hrow; [|lia].
      apply (ns_rows _ Hs _ _ Hrow). }
    destruct (effect_row_step i w key row' (nw_begun w)) as [Hs' Ho].
    - done.
    - by rewrite Htok.
    - split; [done|]. rewrite Hst, Htok, Ht. split; [by left|]. by split.
    - unfold attempts_of, begun_of. rewrite Hatt. lia.
    - done.
    - naive_solver.
    - intros row Hrow. split; [by apply Hns|]. rewrite Hatt, Hrow. lia.
    - split; [exact Hs'|]. split; [exact Ho|]. split.
      + split; [done|]. intros row. cbn. rewrite lookup_insert_eq. by intros [= <-].
      + exists row'. cbn. by rewrite lookup_insert_eq. }
  destruct (exec_write_cases _ _ _ _ _ _ Hw) as [(a & -> & Heq)|(err & -> & [->|[a Heq]])].
  - by apply Hcases.
  - split; [by apply (unchanged_step i)|]. split; [by apply unchanged_step|done].
  - destruct (Hcases _ _ Heq) as (? & ? & _). done.
Qed.

Lemma begin_step i w key token a r w' :
  notify_sound w → owns i w key token a → (0 ≤ a < MaxSendAttempts)%Z →
  notify_step i _ (BeginStatement key token) w r w' →
  notify_sound w' ∧ others i w w'
  ∧ match r with
    | Ok (Some n) => nw_tokens w' !! token = Some i ∧ (key, token) ∈ nw_begun w'
    | _ => True
    end.
Proof.
  intros Hs [Ht Ha] Hbudget (f & now & tbl & Hw & ->).
  assert (∀ row row', nw_effects w !! key = Some row → holds_effect token row = true →
    sn_claim_token row' = token → sn_state row' = "sending" →
    sn_attempts row' = (sn_attempts row + 1)%Z →
    ∀ begun', begun' = nw_begun w ∨ begun' = {[ (key, token) ]} ∪ nw_begun w →
    let w' := mkNworld (<[key := row']> (nw_effects w)) (nw_tokens w) begun' (nw_sends w)
                (nw_accepted w) in
    notify_sound w' ∧ others i w w') as Hwrite.
  { intros row row' Hrow [Hst Htok]%holds_effect_spec Htok' Hst' Hatt begun' Hbegun.
    pose proof (Ha _ Hrow Htok) as Hrow_a. apply effect_row_step; try done.
    - by rewrite Htok'.
    - split; [lia|]. rewrite Hst', Htok', Ht. split; [by left|]. by split.
    - unfold attempts_of, begun_of. rewrite Hrow.
      assert (size (filter (λ kt, kt.1 = key) begun')
              ≤ S (size (filter (λ kt, kt.1 = key) (nw_begun w))))%nat; [|lia].
      destruct Hbegun as [->| ->]; [lia|].
      transitivity (size ({[ (key, token) ]} ∪ filter (λ kt, kt.1 = key) (nw_begun w))).
      { apply subseteq_size. intros kt. rewrite elem_of_filter, !elem_of_union, elem_of_filter.
        naive_solver. }
      rewrite size_union_alt, size_singleton.
      pose proof (subseteq_size (filter (λ kt, kt.1 = key) (nw_begun w) ∖ {[(key, token)]})
        (filter (λ kt, kt.1 = key) (nw_begun w))) as Hsz. specialize (Hsz ltac:(set_solver)). lia.
    - destruct Hbegun as [->| ->]; set_solver.
    - intros k t Hin. destruct Hbegun as [->| ->]; [by left|].
      apply elem_of_union in Hin as [Hin%elem_of_singleton|Hin]; [right; congruence|by left].
    - intros row0 Hrow0. rewrite Hrow in Hrow0. injection Hrow0 as <-. rewrite Hst. split; [done|lia]. }
  destruct (exec_write_cases _ _ _ _ _ _ Hw) as [(a' & -> & Heq)|(err & -> & [->|[a' Heq]])].
  - apply beginStatement_cases in Heq as [[-> ->]|(row & row' & Hrow & Hh & -> & -> & Htok & Hst & Hatt)].
    { split; [by apply (unchanged_step i)|]. split; [by apply unchanged_step|done]. }
    destruct (Hwrite row row' Hrow Hh Htok Hst Hatt _ (or_intror eq_refl)) as [H1 H2].
    split; [exact H1|]. split; [exact H2|]. split; [done|]. cbn. set_solver.
  - split; [by apply (unchanged_step i)|]. split; [by apply unchanged_step|done].
  - apply beginStatement_cases in Heq as [[-> ->]|(row & row' & Hrow & Hh & -> & -> & Htok & Hst & Hatt)].
    { split; [by apply (unchanged_step i)|]. split; [by apply unchanged_step|done]. }
    destruct (Hwrite row row' Hrow Hh Htok Hst Hatt _ (or_introl eq_refl)) as [H1 H2]. done.
Qed.

Lemma send_step i w email token r w' :
  notify_sound w → nw_tokens w !! token = Some i → (key_of_email email, token) ∈ nw_begun w →
  notify_step i _ (Send email) w r w' →
  notify_sound w' ∧ others i w w' ∧ (is_ok r = true → key_of_email email ∈ nw_accepted w').
Proof.
  intros Hs Ht Hin ->. set (key := key_of_email email) in *. split; [|split].
  - split.
    + intros k row Hrow. destruct (ns_rows _ Hs _ _ Hrow) as (H1 & H2 & H3 & H4).
      split; [done|]. split; [done|]. split; [done|]. intros Hsent. cbn. destruct r; set_solver.
    + intros k. pose proof (ns_sends _ Hs k) as Hle. unfold sends_of, attempts_of, begun_of in *. cbn.
      set (rest := filter (λ kt, ¬ (kt.1 = key ∧ nw_tokens w !! kt.2 = Some i)) (nw_begun w)) in *.
      assert (filter (λ kt, kt.1 = k) rest ⊆ filter (λ kt, kt.1 = k) (nw_begun w)) as Hsub by set_solver.
      destruct (decide (k = key)) as [->|Hne].
      * rewrite lookup_insert_eq. cbn.
        assert (filter (λ kt, kt.1 = key) rest ⊂ filter (λ kt, kt.1 = key) (nw_begun w)) as Hlt%subset_size.
        { split; [done|]. intros Hsup. specialize (Hsup (key, token)).
          rewrite !elem_of_filter in Hsup. cbn in Hsup. destruct Hsup as [_ Hrest]; [done|].
          apply elem_of_filter in Hrest as [Hn _]. by apply Hn. }
        lia.
      * rewrite lookup_insert_ne by done. apply subseteq_size in Hsub. lia.
  - intros j Hj. split; cbn; try done.
    + intros k t Hmine Hk. apply elem_of_filter. split; [|done]. cbn. intros [_ Hi]. congruence.
    + intros k row Hrow. exists row. by split_and!.
    + destruct r; set_solver.
  - destruct r; [|done]. intros _. cbn. set_solver.
Qed.

Lemma finish_step i w key token state r w' :
  notify_sound w → nw_tokens w !! token = Some i →
  (state = "sent" → key ∈ nw_accepted w) →
  notify_step i _ (FinishStatement key token state) w r w' →
  notify_sound w' ∧ others i w w'
  ∧ match r with
    | Ok n => (n ≠ 0)%Z → ∃ row, nw_effects w' !! key = Some row ∧ sn_state row = state
    | Err _ => True
    end.
Proof.
  intros Hs Ht Hacc (f & now & tbl & Hw & ->).
  assert (∀ n tbl', finishStatement now key token state (nw_effects w) = Ok (n, tbl') →
    notify_sound (with_effects w tbl') ∧ others i w (with_effects w tbl')
    ∧ ((n ≠ 0)%Z → ∃ row, nw_effects (with_effects w tbl') !! key = Some row ∧ sn_state row = state))
    as Hcases.
  { intros n tbl' [[-> ->]|(row & row' & Hrow & [Hst Htok]%holds_effect_spec & -> & -> & Htok' & Hst'
      & Hin & Hatt)]%finishStatement_cases.
    { split; [by apply (unchanged_step i)|]. split; [by apply unchanged_step|done]. }
    destruct (effect_row_step i w key row' (nw_begun w)) as [Hs' Ho].
    - done.
    - by rewrite Htok'.
    - rewrite <-Hst' in Hin, Hacc. split; [rewrite Hatt; apply (ns_rows _ Hs _ _ Hrow)|].
      rewrite Htok', Ht. by split.
    - unfold attempts_of, begun_of. rewrite Hrow, Hatt. lia.
    - done.
    - naive_solver.
    - intros row0 Hrow0. rewrite Hrow in Hrow0. injection Hrow0 as <-. rewrite Hst. split; [done|lia].
    - split; [exact Hs'|]. split; [exact Ho|]. intros _. exists row'. cbn. by rewrite lookup_insert_eq. }
  destruct (exec_write_cases _ _ _ _ _ _ Hw) as [(n & -> & Heq)|(err & -> & [->|[n Heq]])].
  - by apply Hcases.
  - split; [by apply (unchanged_step i)|]. split; [by apply unchanged_step|done].
  - destruct (Hcases _ _ Heq) as (? & ? & _). done.
Qed.

(** ** The use case *)

(** What a concluded delivery has behind it. *)
Definition notify_post (command : OrderAcceptedCommand) (r : Result) (w : nworld) : Prop :=
  (res_Outcome r ∈ [OutcomeSent; OutcomeAlreadySent] →
     ∃ row, nw_effects w !! effect_of command = Some row ∧ sn_state row = "sent")
  ∧ (res_Outcome r = OutcomeExhausted → attempts_of w (effect_of command) = MaxSendAttempts).

Lemma not_concluded command o attempts err w :
  o ≠ OutcomeSent → o ≠ OutcomeAlreadySent → o ≠ OutcomeExhausted →
  notify_post command (mkResult o attempts err) w.
Proof. intros H1 H2 H3. split; cbn; [|done]. rewrite !elem_of_cons, elem_of_nil. tauto. Qed.

Lemma sent_undisturbed i w w' key :
  (∃ row, nw_effects w !! key = Some row ∧ sn_state row = "sent") → undisturbed i w w' →
  ∃ row, nw_effects w' !! key = Some row ∧ sn_state row = "sent".
Proof.
  intros (row & Hrow & Hst) Hu. destruct (ud_grow _ _ _ Hu _ _ Hrow) as (row' & Hrow' & _ & Hs).
  exists row'. split; [done|]. by rewrite Hs.
Qed.

Lemma notify_wp_ret {A} i (a : A) (Q : A → nworld → Prop) w :
  (∀ w', undisturbed i w w' → notify_sound w' → Q a w') → notify_wp i (mret a) Q w.
Proof. intros HQ. by apply wp_ret. Qed.

Lemma notify_wp_call i {A R} (e : notifyE R) (k : R → prog notifyE A) Q w :
  (∀ w1, undisturbed i w w1 → notify_sound w1 → ∀ r w2, notify_step i R e w1 r w2 →
     notify_sound w2 ∧ others i w1 w2 ∧ notify_wp i (k r) Q w2) →
  notify_wp i (trigger e ≫= k) Q w.
Proof. intros H. by apply wp_vis. Qed.

Lemma finish_wp i key token state w :
  nw_tokens w !! token = Some i → (state = "sent" → key ∈ nw_accepted w) →
  notify_wp i (finish key token state) (λ r w', (r = Ok tt → state = "sent" →
      ∃ row, nw_effects w' !! key = Some row ∧ sn_state row = "sent")) w.
Proof.
  intros Ht Hacc. apply notify_wp_call. intros w1 Hu Hs1 r w2 Hstep.
  destruct (finish_step i w1 key token state r w2) as (Hs2 & Ho & Hdone); [done| | |done|].
  { eapply lookup_weaken; [done|apply Hu]. }
  { intros Hst. apply (ud_accepted _ _ _ Hu). by apply Hacc. }
  split; [done|]. split; [done|]. apply notify_wp_ret. intros w3 Hu3 _ Hok ->.
  eapply sent_undisturbed; [|done]. destruct r as [n|err]; [|done].
  destruct (n =? 0)%Z eqn:Hn; [done|]. reflect_bools. by apply Hdone.
Qed.

Lemma send_claimed_wp i command claim w :
  owns i w (effect_of command) (Token claim) (Attempts claim) → (0 ≤ Attempts claim)%Z →
  (Attempts claim ≤ attempts_of w (effect_of command))%Z →
  is_Some (nw_effects w !! effect_of command) →
  notify_wp i (send_claimed command claim) (notify_post command) w.
Proof.
  intros Hown Hpos Hle [row Hrow]. unfold send_claimed. cbv zeta. destruct (_ <=? _)%Z eqn:Hbudget; reflect_bools.
  { apply notify_wp_ret. intros w1 Hu Hs1. split; cbn; [by intros [|[|[]%elem_of_nil]%elem_of_cons]%elem_of_cons|]. intros _.
    destruct (ud_grow _ _ _ Hu _ _ Hrow) as (row' & Hrow' & Hge & _).
    unfold attempts_of in *. rewrite Hrow in Hle. rewrite Hrow'.
    destruct (ns_rows _ Hs1 _ _ Hrow') as ([_ Hmax] & _). lia. }
  unfold BeginAttempt. apply wp_bind; [apply _|]. apply notify_wp_call.
  intros w1 Hu1 Hs1 begun w2 Hstep. pose proof (owns_undisturbed _ _ _ _ _ _ Hown Hu1) as Hown1.
  destruct (begin_step i w1 _ _ _ _ _ Hs1 Hown1 (conj Hpos Hbudget) Hstep) as (Hs2 & Ho & Hbegun).
  split; [done|]. split; [done|]. apply notify_wp_ret. intros w3 Hu3 Hs3.
  destruct begun as [[n|]|err].
  2:{ apply notify_wp_ret. intros; by apply not_concluded. }
  2:{ apply notify_wp_ret. intros; by apply not_concluded. }
  destruct Hbegun as [Ht2 Hin2]. lazy beta iota. apply notify_wp_call. intros w4 Hu4 Hs4 sent w5 Hsend.
  assert (undisturbed i w2 w4) as Hu24 by by transitivity w3.
  destruct (send_step i w4 (email_of command) (Token claim) sent w5) as (Hs5 & Ho5 & Hacc); [done| | |done|].
  { eapply lookup_weaken; [done|apply Hu24]. }
  { by apply (ud_begun _ _ _ Hu24). }
  assert (nw_tokens w5 !! Token claim = Some i) as Ht5.
  { cbn in Hsend. subst w5. cbn. eapply lookup_weaken; [done|apply Hu24]. }
  split; [done|]. split; [done|]. destruct sent as [[]|text].
  - apply wp_bind; [apply _|]. eapply wp_mono; [|apply finish_wp; [done|intros _; by apply Hacc]].
    intros [[]|err] w6 Hdone; apply notify_wp_ret; intros w7 Hu7 _; [|by apply not_concluded].
    split; cbn; [intros _|done]. eapply sent_undisturbed; [|done]. by apply Hdone.
  - apply wp_bind; [apply _|]. eapply wp_mono; [|by apply finish_wp].
    intros r w6 _. apply notify_wp_ret. intros; by apply not_concluded.
Qed.

(** What the answer of [Claim] says of the table. *)
Definition claim_post (i : nat) (key : EffectKey)
    (r : notification_result (ClaimState * ClaimHandle)) (w : nworld) : Prop :=
  match r with
  | Ok (ClaimGranted, claim) =>
      owns i w key (Token claim) (Attempts claim) ∧ (0 ≤ Attempts claim ≤ attempts_of w key)%Z
      ∧ is_Some (nw_effects w !! key)
  | Ok (ClaimAlreadySent, _) => ∃ row, nw_effects w !! key = Some row ∧ sn_state row = "sent"
  | _ => True
  end.

Lemma claim_post_undisturbed i key r w w' :
  claim_post i key r w → undisturbed i w w' → claim_post i key r w'.
Proof.
  destruct r as [[[] claim]|]; cbn; [|by apply sent_undisturbed|done|done].
  intros (Hown & Hle & [row Hrow]) Hu. split; [by eapply owns_undisturbed|].
  destruct (ud_grow _ _ _ Hu _ _ Hrow) as (row' & Hrow' & Hge & _).
  unfold attempts_of in *. rewrite Hrow in Hle. rewrite Hrow'. split; [lia|done].
Qed.

Lemma notification_Claim_wp i key eventID lease w :
  notify_wp i (notification_Claim key eventID lease) (claim_post i key) w.
Proof.
  unfold notification_Claim. apply wp_bind; [apply _|]. apply notify_wp_call.
  intros w1 Hu1 Hs1 drawn w2 Hdraw. destruct (rand_step i w1 drawn w2 Hs1 Hdraw) as (Hs2 & Ho2 & Hmine).
  split; [done|]. split; [done|]. apply notify_wp_ret. intros w3 Hu3 Hs3.
  destruct drawn as [token|text]; [|by apply notify_wp_ret]. cbn [map_err].
  destruct (Hmine token eq_refl) as [Ht2 Hnone2].
  apply notify_wp_call. intros w4 Hu4 Hs4 claimed w5 Hclaim.
  assert (undisturbed i w2 w4) as Hu24 by by transitivity w3.
  destruct (effect_claim_step i w4 key eventID token lease claimed w5) as (Hs5 & Ho5 & Hgranted); [done| | |done|].
  { eapply lookup_weaken; [done|apply Hu24]. }
  { intros k row Hrow Heq. apply (Hnone2 k row); [|done]. apply (ud_rows _ _ _ Hu24); [done|].
    by rewrite Heq. }
  split; [done|]. split; [done|]. destruct claimed as [[attempts|]|err].
  - destruct Hgranted as (Hown & row & Hrow & Hatt). apply notify_wp_ret. intros w6 Hu6 _.
    apply (claim_post_undisturbed i key _ w5); [|done]. split; [done|]. unfold attempts_of. rewrite Hrow.
    destruct (ns_rows _ Hs5 _ _ Hrow) as (Hrange & _). split; [cbn; lia|done].
  - lazy beta iota. unfold currentState. apply wp_bind; [apply _|]. apply notify_wp_call.
    intros w6 Hu6 Hs6 state w7 [-> [f Hq]]. split; [done|]. split; [intros j _; reflexivity|].
    apply notify_wp_ret. intros w7 Hu7 _. destruct state as [[state|]|err]; try by apply notify_wp_ret.
    case_bool_decide as Hsent; [|by apply notify_wp_ret]. apply notify_wp_ret. intros w8 Hu8 _.
    apply (claim_post_undisturbed i key (Ok (ClaimAlreadySent, zero_claim)) w6); [|by transitivity w7].
    subst state. symmetry in Hq. unfold exec_query, exec_stmt in Hq.
    destruct (flt_stmt f 0) as [[]|]; [done|]. unfold stateQuery in Hq. destruct (negb _); [done|].
    injection Hq as Hq. apply fmap_Some in Hq as (row & Hrow & Heq). by exists row.
  - by apply notify_wp_ret.
Qed.

Lemma HandleOrderAccepted_wp i lease command w :
  notify_wp i (HandleOrderAccepted_Execute lease command) (notify_post command) w.
Proof.
  unfold HandleOrderAccepted_Execute. apply wp_bind; [apply _|].
  eapply wp_mono; [|apply notification_Claim_wp]. intros [[[] claim]|err] w1 Hpost.
  - destruct Hpost as (Hown & Hle & Hsome). by apply send_claimed_wp; try lia.
  - apply notify_wp_ret. intros w2 Hu2 _. split; cbn; [|done]. intros _. by eapply sent_undisturbed.
  - apply notify_wp_ret. intros; by apply not_concluded.
  - apply notify_wp_ret. intros; by apply not_concluded.
Qed.

(** C7: However deliveries of accepted orders are handled - duplicates, redeliveries,
    workers that outlive their lease, lost answers of the database, failures of the
    provider - the provider is called at most three times for an order, and each call
    was counted in the table before it was made. A delivery reported sent, or already
    sent, is for an order the provider accepted an email for; the row stays so for
    good. One reported exhausted has used its three attempts. *)
Theorem notification_service_sound lease (commands : list OrderAcceptedCommand) w c :
  notify_sound w →
  rtc (pool_step notify_step (λ _ _, False)) (HandleOrderAccepted_Execute lease <$> commands, w) c →
  (∀ key, sends_of c.2 key ≤ attempts_of c.2 key ≤ 3)%Z
  ∧ ∀ i command r, commands !! i = Some command → c.1 !! i = Some (Ret r) →
      (res_Outcome r ∈ [OutcomeSent; OutcomeAlreadySent] →
         effect_of command ∈ nw_accepted c.2
         ∧ ∃ row, nw_effects c.2 !! effect_of command = Some row ∧ sn_state row = "sent")
      ∧ (res_Outcome r = OutcomeExhausted → attempts_of c.2 (effect_of command) = 3%Z).
Proof.
  intros Hs Hsteps.
  set (post := λ (i : nat) r w, ∀ command, commands !! i = Some command → notify_post command r w).
  assert (notify_sound c.2 ∧ ∀ i r, c.1 !! i = Some (Ret r) → post i r c.2) as [Hs' Hpost].
  { eapply (pool_adequate notify_step (λ _ _, False) notify_sound undisturbed others); [..|exact Hsteps].
    - intros i j w1 w2 Hne Ho. by apply Ho.
    - done.
    - done.
    - split; [done|]. cbn [fst snd]. intros i t Hi.
      apply list_lookup_fmap_Some in Hi as (command & -> & Hi).
      eapply wp_mono; [|apply HandleOrderAccepted_wp]. intros r w' Hr command' Hi'. congruence. }
  split.
  - intros key. pose proof (ns_sends _ Hs' key) as Hle. split; [lia|].
    unfold attempts_of. destruct (nw_effects c.2 !! key) as [row|] eqn:Hrow; [|lia].
    destruct (ns_rows _ Hs' _ _ Hrow) as ([_ Hmax] & _). exact Hmax.
  - intros i command r Hi Hr. destruct (Hpost i r Hr _ Hi) as [H1 H2]. split; [|done].
    intros Ho. destruct (H1 Ho) as (row & Hrow & Hst). split; [|by exists row].
    destruct (ns_rows _ Hs' _ _ Hrow) as (_ & _ & _ & Hacc). by apply Hacc.
Qed.
End notification_service.

(** Two deliveries of one event and one of another, on an empty table. *)
Definition sample_nworld : nworld := mkNworld ∅ ∅ ∅ ∅ ∅.
Definition sample_hash : HashLib := {| sha256_hex s := s |}.
Definition sample_notifications : list OrderAcceptedCommand :=
  [mkOrderAcceptedCommand "e1" "o1" "a@b.example" 300 "EUR" 10;
   mkOrderAcceptedCommand "e1" "o1" "a@b.example" 300 "EUR" 10;
   mkOrderAcceptedCommand "e2" "o2" "a@b.example" 300 "EUR" 10].

Lemma sample_nworld_sound : notify_sound sample_nworld.
Proof.
  split; [intros key row; cbn; by rewrite lookup_empty|]. intros key.
  unfold sends_of, attempts_of, begun_of. cbn. rewrite !lookup_empty. cbn.
  assert (filter (λ kt : EffectKey * string, kt.1 = key) ∅ =@{gset (EffectKey * string)} ∅) as ->
    by set_solver. by rewrite size_empty.
Qed.

Lemma notification_service_sound_witness :
  let execute := HandleOrderAccepted_Execute (Hash := sample_hash) Minute in
  notify_sound sample_nworld
  ∧ ∀ c, rtc (pool_step notify_step (λ _ _, False)) (execute <$> sample_notifications, sample_nworld) c →
    (∀ key, sends_of c.2 key ≤ attempts_of c.2 key ≤ 3)%Z
    ∧ ∀ i command r, sample_notifications !! i = Some command → c.1 !! i = Some (Ret r) →
        (res_Outcome r ∈ [OutcomeSent; OutcomeAlreadySent] →
           effect_of command ∈ nw_accepted c.2
           ∧ ∃ row, nw_effects c.2 !! effect_of command = Some row ∧ sn_state row = "sent")
        ∧ (res_Outcome r = OutcomeExhausted → attempts_of c.2 (effect_of command) = 3%Z).
Proof.
  intros execute. pose proof sample_nworld_sound as Hs.
  split; [exact Hs|]. intros c.
  exact (notification_service_sound (Hash := sample_hash) Minute sample_notifications sample_nworld c Hs).
Defined.
