(* ===== verification/Topology.v ===== *)
(** * Subscriptions and the queues behind them

    Package [amqpapi] of notification-service: what a subscription names, its
    validation, and the declaration of the exchanges, queues and bindings of the
    working, retry and parked queues. *)
From S2P Require Import Prelude GoErrors GoStrings External Postgres Prog SentNotifications HandleOrderAccepted.

(** ** AMQP values *)

(** An [amqp.Table]: a map from names, here in the order they were set. *)
Fixpoint table_get {V} (t : list (string * V)) (key : string) : option V :=
  match t with
  | [] => None
  | (k, v) :: t' => if bool_decide (k = key) then Some v else table_get t' key
  end.
Fixpoint table_set {V} (t : list (string * V)) (key : string) (value : V) : list (string * V) :=
  match t with
  | [] => [(key, value)]
  | (k, v) :: t' => if bool_decide (k = key) then (k, value) :: t' else (k, v) :: table_set t' key value
  end.

Lemma table_get_set {V} (t : list (string * V)) key value key' :
  table_get (table_set t key value) key' = if bool_decide (key = key') then Some value else table_get t key'.
Proof.
  induction t as [|[k v] t IH]; cbn; [done|].
  destruct (decide (k = key)) as [->|Hk]; rewrite ?(bool_decide_true (key = key)) by done.
  - cbn. by case_bool_decide.
  - rewrite bool_decide_false by done. cbn. rewrite IH.
    destruct (decide (k = key')) as [->|Hk']; [|by rewrite (bool_decide_false (k = key'))].
    by rewrite bool_decide_true, bool_decide_false by congruence.
Qed.

(** The values a queue is declared with. *)
Inductive argument := AString (s : string) | AInt64 (z : Z).
#[export] Instance argument_eq_dec : EqDecision argument.
Proof. solve_decision. Defined.
Abbreviation arguments := (list (string * argument)).

(** ** Subscriptions *)

(* @go notification-service/internal/notification/adapter/inbound/amqpapi/subscription.go queueNamespace *)
Definition queueNamespace : string := "notification".
(* @go notification-service/internal/notification/adapter/inbound/amqpapi/subscription.go ExchangeDeclaration *)
Record SourceDeclaration := mkSource {
  src_Name : string;
  src_Kind : string;
  src_Durable : bool;
  src_AutoDelete : bool;
  src_Internal : bool;
}.
(** Of the [Handle] function, whether it is there; what it does is a call of the
    consumer. *)
(* @go notification-service/internal/notification/adapter/inbound/amqpapi/subscription.go Subscription *)
Record Subscription := mkSubscription {
  sub_Name : string;
  sub_Source : SourceDeclaration;
  sub_RoutingKey : string;
  sub_MessageType : string;
  sub_ContentType : string;
  sub_Handle : bool;
}.

(* @go notification-service/internal/notification/adapter/inbound/amqpapi/subscription.go Subscription.Queue *)
Definition Queue (s : Subscription) : string := queueNamespace +:+ "." +:+ sub_Name s.
(* @go notification-service/internal/notification/adapter/inbound/amqpapi/subscription.go Subscription.RetryQueue *)
Definition RetryQueue (s : Subscription) : string := Queue s +:+ ".retry".
(* @go notification-service/internal/notification/adapter/inbound/amqpapi/subscription.go Subscription.ParkedQueue *)
Definition ParkedQueue (s : Subscription) : string := Queue s +:+ ".parked".
(* @go notification-service/internal/notification/adapter/inbound/amqpapi/subscription.go Subscription.internalRoutingKey *)
Definition internalRoutingKey (s : Subscription) : string := sub_Name s.

(** The source ranges over a map: [map_range] is the order this run visits it in. *)
Section validation.
Variable map_range : list (string * string) → list (string * string).

(* @src notification-service/internal/notification/adapter/inbound/amqpapi/subscription.go:68-85 Subscription.Validate *)
Definition missing_fields (s : Subscription) : list string :=
  (filter (λ fv : string * string, TrimSpace fv.2 = "")
    (map_range [("Name", sub_Name s); ("Source.Name", src_Name (sub_Source s));
     ("Source.Kind", src_Kind (sub_Source s)); ("RoutingKey", sub_RoutingKey s);
     ("MessageType", sub_MessageType s); ("ContentType", sub_ContentType s)])).*1
  ++ (if sub_Handle s then [] else ["Handle"]).
(* @go notification-service/internal/notification/adapter/inbound/amqpapi/subscription.go Subscription.Validate *)
Definition Validate (s : Subscription) : option string :=
  match missing_fields s with
  | [] => None
  | missing => Some ("subscription " +:+ Quote (sub_Name s) +:+ " is missing: "
                     +:+ strings_Join missing ", ")
  end.

(** The loop of [NewConsumer], from the names seen. *)
(* @src notification-service/internal/notification/adapter/inbound/amqpapi/consumer.go:60-70 NewConsumer *)
Fixpoint check_subscriptions (queues : gset string) (subscriptions : list Subscription)
    : option string :=
  match subscriptions with
  | [] => None
  | subscription :: rest =>
      match Validate subscription with
      | Some err => Some err
      | None =>
          if bool_decide (sub_Name subscription ∈ queues)
          then Some ("duplicate subscription name " +:+ Quote (sub_Name subscription))
          else check_subscriptions ({[ sub_Name subscription ]} ∪ queues) rest
      end
  end.
(** The error, or none. *)
(* @go notification-service/internal/notification/adapter/inbound/amqpapi/consumer.go NewConsumer *)
Definition NewConsumer (subscriptions : list Subscription) : option string :=
  if bool_decide (subscriptions = []) then Some "a consumer needs at least one subscription"
  else check_subscriptions ∅ subscriptions.
End validation.

(** ** Declarations *)

(* @go notification-service/internal/notification/adapter/inbound/amqpapi/topology.go ExchangeRetry *)
Definition ExchangeRetry : string := "notification.retry".
(* @go notification-service/internal/notification/adapter/inbound/amqpapi/topology.go ExchangeParked *)
Definition ExchangeParked : string := "notification.parked".

(** Each call answers an error or none. *)
Inductive topologyE : Type → Type :=
| ExchangeDeclare (exchange : SourceDeclaration) : topologyE (option string)
| QueueDeclare (name : string) (durable autoDelete exclusive noWait : bool) (args : arguments)
    : topologyE (option string)
| QueueBind (queue routingKey exchange : string) : topologyE (option string).

(* @go notification-service/internal/notification/adapter/inbound/amqpapi/topology.go quorumArguments *)
Definition quorumArguments : arguments :=
  [("x-queue-type", AString "quorum"); ("x-overflow", AString "reject-publish")].

(* @go notification-service/internal/notification/adapter/inbound/amqpapi/topology.go deadLetterTo *)
Definition deadLetterTo (exchange routingKey : string) : arguments :=
  table_set (table_set (table_set quorumArguments
    "x-dead-letter-exchange" (AString exchange))
    "x-dead-letter-strategy" (AString "at-least-once"))
    "x-dead-letter-routing-key" (AString routingKey).

(* @go notification-service/internal/notification/adapter/inbound/amqpapi/topology.go declareQueue *)
Definition declareQueue (name : string) (args : arguments) : prog topologyE (option string) :=
  err ← trigger (QueueDeclare name true false false false args);
  mret (match err with
        | Some text => Some ("declare queue " +:+ Quote name +:+ ": " +:+ text)
        | None => None
        end).

(** The calls of [declareSubscription], in their order; the first error ends it. *)
Inductive declaration :=
| DExchange (exchange : SourceDeclaration)
| DQueue (name : string) (args : arguments)
| DBind (queue routingKey exchange : string).

Definition declare (d : declaration) : prog topologyE (option string) :=
  match d with
  | DExchange exchange =>
      err ← trigger (ExchangeDeclare exchange);
      mret (match err with
            | Some text => Some ("declare exchange " +:+ Quote (src_Name exchange) +:+ ": " +:+ text)
            | None => None
            end)
  | DQueue name args => declareQueue name args
  | DBind queue routingKey exchange =>
      err ← trigger (QueueBind queue routingKey exchange);
      mret (match err with
            | Some text => Some ("bind queue " +:+ Quote queue +:+ ": " +:+ text)
            | None => None
            end)
  end.

Fixpoint declare_all (ds : list declaration) : prog topologyE (option string) :=
  match ds with
  | [] => mret None
  | d :: ds' =>
      err ← declare d;
      match err with Some text => mret (Some text) | None => declare_all ds' end
  end.

(** [retryDelay] is a [time.Duration]. *)
(* @src notification-service/internal/notification/adapter/inbound/amqpapi/topology.go:53-120 declareSubscription *)
Definition subscription_declarations (retryDelay : Z) (s : Subscription) : list declaration :=
  [DExchange (sub_Source s);
   DQueue (Queue s) (deadLetterTo ExchangeRetry (internalRoutingKey s));
   DBind (Queue s) (sub_RoutingKey s) (src_Name (sub_Source s));
   DQueue (RetryQueue s)
     (table_set (deadLetterTo "" (Queue s)) "x-message-ttl" (AInt64 (Milliseconds retryDelay)));
   DBind (RetryQueue s) (internalRoutingKey s) ExchangeRetry;
   DQueue (ParkedQueue s) quorumArguments;
   DBind (ParkedQueue s) (internalRoutingKey s) ExchangeParked].
(* @go notification-service/internal/notification/adapter/inbound/amqpapi/topology.go declareSubscription *)
Definition declareSubscription (retryDelay : Z) (s : Subscription) : prog topologyE (option string) :=
  declare_all (subscription_declarations retryDelay s).

(* @src notification-service/internal/notification/adapter/inbound/amqpapi/topology.go:39-43 declareTopology *)
Fixpoint declareSubscriptions (retryDelay : Z) (subscriptions : list Subscription)
    : prog topologyE (option string) :=
  match subscriptions with
  | [] => mret None
  | s :: rest =>
      err ← declareSubscription retryDelay s;
      match err with
      | Some text => mret (Some ("declare subscription " +:+ Quote (sub_Name s) +:+ ": " +:+ text))
      | None => declareSubscriptions retryDelay rest
      end
  end.

(* @go notification-service/internal/notification/adapter/inbound/amqpapi/topology.go declareTopology *)
Definition declareTopology (retryDelay : Z) (subscriptions : list Subscription)
    : prog topologyE (option string) :=
  err ← declare_all [DExchange (mkSource ExchangeRetry "direct" true false false);
                     DExchange (mkSource ExchangeParked "direct" true false false)];
  match err with
  | Some text => mret (Some text)
  | None => declareSubscriptions retryDelay subscriptions
  end.

(** ** The broker *)

(** A queue as it was declared. *)
Record declared_queue := mkQueue {
  dq_durable : bool;
  dq_autoDelete : bool;
  dq_exclusive : bool;
  dq_args : arguments;
}.
#[export] Instance declared_queue_eq_dec : EqDecision declared_queue.
Proof. solve_decision. Defined.
(** A queue that survives a restart of the broker and the end of its consumers. *)
Abbreviation lasting := (mkQueue true false false).

(** Exchanges and queues by name, and bindings of a queue by a key to an exchange. A
    declaration that disagrees with an existing one is refused, as is a binding of what
    was not declared. *)
Record broker := mkBroker {
  br_exchanges : gmap string SourceDeclaration;
  br_queues : gmap string declared_queue;
  br_bindings : gset (string * string * string);
}.
#[export] Instance SourceDeclaration_eq_dec : EqDecision SourceDeclaration.
Proof. solve_decision. Defined.

Definition broker_step R (e : topologyE R) : broker → R * broker :=
  match e with
  | ExchangeDeclare exchange => λ b,
      match br_exchanges b !! src_Name exchange with
      | Some other =>
          if bool_decide (other = exchange) then (None, b) else (Some "PRECONDITION_FAILED", b)
      | None => (None, mkBroker (<[src_Name exchange := exchange]> (br_exchanges b)) (br_queues b)
                         (br_bindings b))
      end
  | QueueDeclare name durable autoDelete exclusive _ args => λ b,
      let queue := mkQueue durable autoDelete exclusive args in
      match br_queues b !! name with
      | Some other => if bool_decide (other = queue) then (None, b) else (Some "PRECONDITION_FAILED", b)
      | None => (None, mkBroker (br_exchanges b) (<[name := queue]> (br_queues b)) (br_bindings b))
      end
  | QueueBind queue key exchange => λ b,
      if bool_decide (is_Some (br_queues b !! queue) ∧ is_Some (br_exchanges b !! exchange))
      then (None, mkBroker (br_exchanges b) (br_queues b) ({[ (queue, key, exchange) ]} ∪ br_bindings b))
      else (Some "NOT_FOUND", b)
  end.

(** Where a direct exchange routes a key; the default exchange routes to the queue of
    that name. *)
Definition route (b : broker) (exchange key : string) : gset string :=
  if bool_decide (exchange = "") then
    match br_queues b !! key with Some _ => {[ key ]} | None => ∅ end
  else set_map (λ t : string * string * string, t.1.1)
         (filter (λ t : string * string * string, t.1.2 = key ∧ t.2 = exchange) (br_bindings b)).

(** Where the broker sends what a queue dead-letters. *)
Definition dead_letters (b : broker) (queue : string) : gset string :=
  match declared ← br_queues b !! queue;
        exchange ← table_get (dq_args declared) "x-dead-letter-exchange";
        key ← table_get (dq_args declared) "x-dead-letter-routing-key";
        Some (exchange, key) with
  | Some (AString exchange, AString key) => route b exchange key
  | _ => ∅
  end.

Definition run_topology {A} (p : prog topologyE A) (b : broker) : A * broker := run broker_step p b.

(** What a successful declaration leaves: everything declared, nothing lost, and no
    binding but those of the list. *)
Definition declared (ds : list declaration) (b b' : broker) : Prop :=
  (∀ name args, DQueue name args ∈ ds → br_queues b' !! name = Some (lasting args))
  ∧ br_queues b ⊆ br_queues b'
  ∧ (∀ q k x, (q, k, x) ∈ br_bindings b' ↔ (q, k, x) ∈ br_bindings b ∨ DBind q k x ∈ ds).

Lemma declared_nil b : declared [] b b.
Proof. split; [|split; [done|]]; intros; rewrite ?elem_of_nil in *; tauto. Qed.
Lemma declared_app ds1 ds2 b1 b2 b3 :
  declared ds1 b1 b2 → declared ds2 b2 b3 → declared (ds1 ++ ds2) b1 b3.
Proof.
  intros (Q1 & S1 & B1) (Q2 & S2 & B2). split; [|split].
  - intros name args [H|H]%elem_of_app; [|by apply Q2]. eapply lookup_weaken; [by apply Q1|done].
  - by transitivity (br_queues b2).
  - intros q k x. rewrite B2, B1, elem_of_app. tauto.
Qed.

Lemma declare_success d b b' : run_topology (declare d) b = (None, b') → declared [d] b b'.
Proof.
  destruct d as [exchange|name args|queue key exchange]; cbn.
  - assert (∀ b1, br_queues b1 = br_queues b → br_bindings b1 = br_bindings b →
      declared [DExchange exchange] b b1) as Hd.
    { intros b1 Hq Hb. split; [|split; [by rewrite Hq|]].
      - intros n a Hin. apply list_elem_of_singleton in Hin. discriminate Hin.
      - intros q k x. rewrite Hb, list_elem_of_singleton. split; [by left|]. by intros [?|[=]]. }
    destruct (br_exchanges b !! _); [case_bool_decide|]; cbn; intros [= <-]; by apply Hd.
  - destruct (br_queues b !! name) as [other|] eqn:Hn; [case_bool_decide|]; cbn; intros [= <-]; subst.
    + split; [|split; [done|]].
      * intros n a Hin. apply list_elem_of_singleton in Hin. by injection Hin as -> ->.
      * intros q k x. rewrite list_elem_of_singleton. split; [by left|]. by intros [?|[=]].
    + split; [|split; cbn; [by apply insert_subseteq|]].
      * intros n a Hin. apply list_elem_of_singleton in Hin. injection Hin as -> ->. cbn.
        by rewrite lookup_insert_eq.
      * intros q k x. rewrite list_elem_of_singleton. split; [by left|]. by intros [?|[=]].
  - case_bool_decide; cbn; intros [= <-]. split; [|split; [done|]].
    + intros n a Hin. apply list_elem_of_singleton in Hin. discriminate Hin.
    + intros q k x. cbn. rewrite elem_of_union, elem_of_singleton, list_elem_of_singleton. naive_solver.
Qed.

Lemma declare_all_success ds b b' : run_topology (declare_all ds) b = (None, b') → declared ds b b'.
Proof.
  revert b. induction ds as [|d ds IH]; intros b.
  - intros [= <-]. apply declared_nil.
  - cbn [declare_all]. unfold run_topology in *. rewrite run_bind.
    destruct (run broker_step (declare d) b) as [[text|] b1] eqn:Hd; [done|]. intros Hds.
    apply (declared_app [d] ds b b1); [by apply declare_success|by apply IH].
Qed.

Definition all_declarations (retryDelay : Z) (subscriptions : list Subscription) : list declaration :=
  [DExchange (mkSource ExchangeRetry "direct" true false false);
   DExchange (mkSource ExchangeParked "direct" true false false)]
  ++ (subscriptions ≫= subscription_declarations retryDelay).

Lemma declareSubscriptions_success retryDelay subscriptions b b' :
  run_topology (declareSubscriptions retryDelay subscriptions) b = (None, b') →
  declared (subscriptions ≫= subscription_declarations retryDelay) b b'.
Proof.
  revert b. induction subscriptions as [|s rest IH]; intros b.
  - intros [= <-]. apply declared_nil.
  - cbn [declareSubscriptions]. unfold run_topology in *. rewrite run_bind.
    destruct (run broker_step (declareSubscription retryDelay s) b) as [[text|] b1] eqn:Hs; [done|].
    intros Hrest. apply (declared_app _ _ b b1); [by apply declare_all_success|by apply IH].
Qed.

Lemma declareTopology_success retryDelay subscriptions b b' :
  run_topology (declareTopology retryDelay subscriptions) b = (None, b') →
  declared (all_declarations retryDelay subscriptions) b b'.
Proof.
  unfold declareTopology, run_topology. rewrite run_bind.
  destruct (run broker_step (declare_all _) b) as [[text|] b1] eqn:Hs; [done|].
  intros Hrest. apply (declared_app _ _ b b1); [by apply declare_all_success|].
  by apply declareSubscriptions_success.
Qed.

(** ** The loop the queues form *)

Lemma subscription_bindings retryDelay subscriptions q k x :
  DBind q k x ∈ subscriptions ≫= subscription_declarations retryDelay ↔
  ∃ s, s ∈ subscriptions
    ∧ ((q, k, x) = (Queue s, sub_RoutingKey s, src_Name (sub_Source s))
       ∨ (q, k, x) = (RetryQueue s, internalRoutingKey s, ExchangeRetry)
       ∨ (q, k, x) = (ParkedQueue s, internalRoutingKey s, ExchangeParked)).
Proof.
  rewrite list_elem_of_bind. apply exist_proper. intros s. unfold subscription_declarations.
  rewrite !elem_of_cons, elem_of_nil. naive_solver.
Qed.

(** A direct exchange with one binding for a key. *)
Lemma route_one b exchange key queue :
  exchange ≠ "" → (∀ q, (q, key, exchange) ∈ br_bindings b ↔ q = queue) →
  route b exchange key = {[ queue ]}.
Proof.
  intros Hne Hb. unfold route. rewrite bool_decide_false by done. apply set_eq. intros q.
  rewrite elem_of_map, elem_of_singleton. rewrite <-Hb. split.
  - intros ([[q' k'] x'] & -> & [[Hk Hx] Hin]%elem_of_filter). cbn in *. by subst.
  - intros Hin. exists (q, key, exchange). by rewrite elem_of_filter.
Qed.

Lemma NewConsumer_names map_range subscriptions :
  NewConsumer map_range subscriptions = None → NoDup (sub_Name <$> subscriptions).
Proof.
  unfold NewConsumer. case_bool_decide; [done|]. clear H.
  enough (∀ queues, check_subscriptions map_range queues subscriptions = None →
    NoDup (sub_Name <$> subscriptions) ∧ ∀ s, s ∈ subscriptions → sub_Name s ∉ queues) as Hall
    by (intros Hc; by apply (Hall ∅)).
  induction subscriptions as [|s rest IH]; intros queues; cbn.
  { intros _. split; [constructor|]. intros s Hs. by apply elem_of_nil in Hs. }
  destruct (Validate map_range s); [done|]. case_bool_decide as Hin; [done|]. intros [Hnd Hnot]%IH. split.
  - apply NoDup_cons. split; [|done]. intros (s' & Heq & Hs')%list_elem_of_fmap.
    apply (Hnot _ Hs'). rewrite <-Heq. set_solver.
  - intros s' [->|Hs']%elem_of_cons; [done|]. specialize (Hnot _ Hs'). set_solver.
Qed.

Lemma Queue_inj s s' : Queue s = Queue s' → sub_Name s = sub_Name s'.
Proof. unfold Queue. intros H. by repeat apply (inj (String.append _)) in H. Qed.

(** The three queues of a declared subscription. *)
Lemma declared_queues retryDelay subscriptions b b' s :
  declared (all_declarations retryDelay subscriptions) b b' → s ∈ subscriptions →
  br_queues b' !! Queue s = Some (lasting (deadLetterTo ExchangeRetry (internalRoutingKey s)))
  ∧ br_queues b' !! RetryQueue s = Some (lasting (table_set (deadLetterTo "" (Queue s)) "x-message-ttl"
      (AInt64 (Milliseconds retryDelay))))
  ∧ br_queues b' !! ParkedQueue s = Some (lasting quorumArguments).
Proof.
  intros (Hq & _) Hs. split_and!; apply Hq; apply elem_of_app; right; apply list_elem_of_bind;
    exists s; split; try done; unfold subscription_declarations; rewrite !elem_of_cons; tauto.
Qed.
Lemma declared_bindings retryDelay subscriptions b b' q k x :
  declared (all_declarations retryDelay subscriptions) b b' →
  (q, k, x) ∈ br_bindings b' ↔ (q, k, x) ∈ br_bindings b
    ∨ DBind q k x ∈ subscriptions ≫= subscription_declarations retryDelay.
Proof.
  intros (_ & _ & Hbind). rewrite Hbind. unfold all_declarations.
  rewrite elem_of_app, !elem_of_cons, elem_of_nil. naive_solver.
Qed.

(** C34: When a session's declarations all succeed, the queues of every subscription form
    the retry loop: what its working queue rejects goes to its retry queue and nowhere
    else, waits the configured delay, and comes back to its working queue and nowhere
    else; what is parked reaches its parked queue alone, from which nothing leaves; and
    every subscription has queues of its own, durable, not exclusive and not deleted with
    their consumers. This holds on a broker that already has
    any other queues and bindings, as long as nothing else is bound to this service's
    two private exchanges. *)
Theorem retry_loop_closed map_range retryDelay subscriptions b b' s :
  NewConsumer map_range subscriptions = None →
  (∀ q k x, (q, k, x) ∈ br_bindings b → x ≠ ExchangeRetry ∧ x ≠ ExchangeParked) →
  (∀ s, s ∈ subscriptions →
     src_Name (sub_Source s) ≠ ExchangeRetry ∧ src_Name (sub_Source s) ≠ ExchangeParked) →
  run_topology (declareTopology retryDelay subscriptions) b = (None, b') →
  s ∈ subscriptions →
  dead_letters b' (Queue s) = {[ RetryQueue s ]}
  ∧ dead_letters b' (RetryQueue s) = {[ Queue s ]}
  ∧ (∃ queue, br_queues b' !! RetryQueue s = Some queue
       ∧ table_get (dq_args queue) "x-message-ttl" = Some (AInt64 (Milliseconds retryDelay)))
  ∧ route b' ExchangeParked (internalRoutingKey s) = {[ ParkedQueue s ]}
  ∧ dead_letters b' (ParkedQueue s) = ∅
  ∧ (Queue s, sub_RoutingKey s, src_Name (sub_Source s)) ∈ br_bindings b'
  ∧ (∀ s', s' ∈ subscriptions → sub_Name s' ≠ sub_Name s →
      Queue s' ∉ [Queue s; RetryQueue s; ParkedQueue s])
  ∧ ∀ q, q ∈ [Queue s; RetryQueue s; ParkedQueue s] → ∃ queue, br_queues b' !! q = Some queue
      ∧ dq_durable queue = true ∧ dq_autoDelete queue = false ∧ dq_exclusive queue = false.
Proof.
  intros Hnew Hb Hsrc Hrun Hs. apply declareTopology_success in Hrun.
  pose proof (λ s', declared_queues _ _ _ _ s' Hrun) as Hqueues.
  pose proof (λ q k x, declared_bindings _ _ _ _ q k x Hrun) as Hbind'.
  assert (∀ q, (q, internalRoutingKey s, ExchangeRetry) ∈ br_bindings b' ↔ q = RetryQueue s) as Hretry.
  { intros q. rewrite Hbind', subscription_bindings. split; [|naive_solver].
    intros [Hin|(s' & Hs' & [[= _ _ Hx]|[[= -> Hk]|[=]]])].
    - by destruct (Hb _ _ _ Hin).
    - by destruct (Hsrc s' Hs').
    - unfold RetryQueue, Queue, internalRoutingKey in *. by rewrite Hk. }
  assert (∀ q, (q, internalRoutingKey s, ExchangeParked) ∈ br_bindings b' ↔ q = ParkedQueue s) as Hparked.
  { intros q. rewrite Hbind', subscription_bindings. split; [|naive_solver].
    intros [Hin|(s' & Hs' & [[= _ _ Hx]|[[=]|[= -> Hk]]])].
    - by destruct (Hb _ _ _ Hin).
    - by destruct (Hsrc s' Hs').
    - unfold ParkedQueue, Queue, internalRoutingKey in *. by rewrite Hk. }
  destruct (Hqueues s Hs) as (H1 & H2 & H3). unfold dead_letters. rewrite H1, H2, H3.
  split_and!.
  - change (route b' ExchangeRetry (internalRoutingKey s) = {[ RetryQueue s ]}). by apply route_one.
  - change (route b' "" (Queue s) = {[ Queue s ]}). unfold route.
    rewrite bool_decide_true by done. by rewrite H1.
  - eexists. split; [done|]. cbn [dq_args]. rewrite table_get_set. by rewrite bool_decide_true.
  - by apply route_one.
  - done.
  - rewrite Hbind', subscription_bindings. right. exists s. split; [done|]. by left.
  - intros s' Hs' Hne. destruct (Hqueues s' Hs') as (H1' & _ & _).
    rewrite !elem_of_cons, elem_of_nil. intros [Heq|[Heq|[Heq|[]]]].
    + by apply Hne, Queue_inj.
    + rewrite Heq, H2 in H1'.
      apply (f_equal (λ o, a ← o; table_get (dq_args a) "x-message-ttl")) in H1'. discriminate H1'.
    + rewrite Heq, H3 in H1'.
      apply (f_equal (λ o, a ← o; table_get (dq_args a) "x-dead-letter-exchange")) in H1'. discriminate H1'.
  - intros q. rewrite !elem_of_cons, elem_of_nil. intros [->|[->|[->|[]]]]; by eexists.
Qed.

(** A broker nothing was declared on, and two subscriptions. *)
Definition empty_broker : broker := mkBroker ∅ ∅ ∅.
Definition sample_subscriptions : list Subscription :=
  [mkSubscription "order-accepted" (mkSource "orders" "topic" true false false) "order.accepted.v1"
     "order.accepted.v1" "application/protobuf" true;
   mkSubscription "order-shipped" (mkSource "orders" "topic" true false false) "order.shipped.v1"
     "order.shipped.v1" "application/protobuf" true].

Lemma retry_loop_closed_witness :
  ∃ s b', s ∈ sample_subscriptions
    ∧ run_topology (declareTopology Minute sample_subscriptions) empty_broker = (None, b')
    ∧ dead_letters b' (Queue s) = {[ RetryQueue s ]}
    ∧ dead_letters b' (RetryQueue s) = {[ Queue s ]}
    ∧ (∃ queue, br_queues b' !! RetryQueue s = Some queue
         ∧ table_get (dq_args queue) "x-message-ttl" = Some (AInt64 (Milliseconds Minute)))
    ∧ route b' ExchangeParked (internalRoutingKey s) = {[ ParkedQueue s ]}
    ∧ dead_letters b' (ParkedQueue s) = ∅
    ∧ (Queue s, sub_RoutingKey s, src_Name (sub_Source s)) ∈ br_bindings b'
    ∧ (∀ s', s' ∈ sample_subscriptions → sub_Name s' ≠ sub_Name s →
        Queue s' ∉ [Queue s; RetryQueue s; ParkedQueue s])
    ∧ ∀ q, q ∈ [Queue s; RetryQueue s; ParkedQueue s] → ∃ queue, br_queues b' !! q = Some queue
        ∧ dq_durable queue = true ∧ dq_autoDelete queue = false ∧ dq_exclusive queue = false.
Proof.
  eexists (mkSubscription "order-accepted" _ _ _ _ _), _. split; [by left|].
  assert (run_topology (declareTopology Minute sample_subscriptions) empty_broker
    = (None, (run_topology (declareTopology Minute sample_subscriptions) empty_broker).2)) as Hrun
    by (rewrite (surjective_pairing (run_topology _ _)) at 1; f_equal; vm_compute; reflexivity).
  split; [exact Hrun|].
  apply (retry_loop_closed id Minute sample_subscriptions empty_broker).
  - vm_compute. reflexivity.
  - intros q k x Hin. exfalso. revert Hin. apply (not_elem_of_empty (C := gset (string * string * string))).
  - intros s. unfold sample_subscriptions. rewrite !elem_of_cons, elem_of_nil. intros [->|[->|[]]]; split; discriminate.
  - exact Hrun.
  - by left.
Defined.

(** ** Names that collide *)

Definition colliding_subscriptions : list Subscription :=
  [mkSubscription "a" (mkSource "orders" "topic" true false false) "a" "a" "c" true;
   mkSubscription "a.retry" (mkSource "orders" "topic" true false false) "b" "b" "c" true].
(** A name that ends like a retry queue passes the check on duplicates, although its
    working queue is another subscription's retry queue; the broker refuses the second
    declaration, and the consumer never gets a session. *)
Theorem accepted_names_collide :
  NewConsumer id colliding_subscriptions = None
  ∧ (∃ s s', s ∈ colliding_subscriptions ∧ s' ∈ colliding_subscriptions ∧ sub_Name s ≠ sub_Name s'
       ∧ RetryQueue s = Queue s')
  ∧ is_Some (run_topology (declareTopology Minute colliding_subscriptions) empty_broker).1.
Proof.
  split; [by vm_compute|]. split; [|by vm_compute; eexists].
  do 2 eexists. split; [by left|]. split; [right; by left|]. by vm_compute.
Qed.
