(* ===== verification/Consumer.v ===== *)
(** * The consumer of notification-service

    Package [amqpapi]: what becomes of one delivery - the envelope check, the
    subscription's handler, settlement and parking. *)
From S2P Require Import Prelude GoErrors GoStrings External Postgres Prog Correlation SentNotifications HandleOrderAccepted Topology.

(** ** Deliveries *)

(** A header value as the library decodes it; a table inside keeps its entries. *)
Inductive header :=
| HString (s : string)
| HInt64 (z : Z)
| HInt32 (z : Z)
| HInt (z : Z)
| HTable (entries : list (string * header))
| HArray (values : list header)
| HOther (text : string).
Abbreviation headers := (list (string * header)).

(** The fields of [amqp.Delivery] that describe the message. *)
Record Delivery := mkDelivery {
  del_ContentType : string;
  del_Type : string;
  del_MessageId : string;
  del_CorrelationId : string;
  del_Timestamp : Z;
  del_Headers : headers;
  del_ContentEncoding : string;
  del_Priority : N;
  del_ReplyTo : string;
  del_Expiration : string;
  del_UserId : string;
  del_AppId : string;
  del_Body : string;
}.
(** What is published when a delivery is parked. *)
Record Publishing := mkPublishing {
  pbl_Exchange : string;
  pbl_RoutingKey : string;
  pbl_Mandatory : bool;
  pbl_Persistent : bool;
  pbl_ContentType : string;
  pbl_Type : string;
  pbl_MessageId : string;
  pbl_CorrelationId : string;
  pbl_Timestamp : Z;
  pbl_Headers : headers;
  pbl_ContentEncoding : string;
  pbl_Priority : N;
  pbl_ReplyTo : string;
  pbl_Expiration : string;
  pbl_UserId : string;
  pbl_AppId : string;
  pbl_Body : string;
}.

(** [int(count)] of a 64-bit [int] changes nothing. *)
Definition count_of (h : option header) : option Z :=
  match h with
  | Some (HInt64 z) | Some (HInt32 z) | Some (HInt z) => Some z
  | _ => None
  end.
(** A comparison of an interface value with a string. *)
Definition equals_string (h : option header) (s : string) : bool :=
  match h with Some (HString t) => bool_decide (t = s) | _ => false end.

(* @src notification-service/internal/notification/adapter/inbound/amqpapi/xdeath.go:18-39 deathCount *)
Fixpoint first_death (deaths : list header) (queue : string) : Z :=
  match deaths with
  | [] => 0
  | HTable entry :: rest =>
      if negb (equals_string (table_get entry "queue") queue
               && equals_string (table_get entry "reason") "rejected")
      then first_death rest queue
      else match count_of (table_get entry "count") with
           | Some count => count
           | None => first_death rest queue
           end
  | _ :: rest => first_death rest queue
  end.
(* @go notification-service/internal/notification/adapter/inbound/amqpapi/xdeath.go deathCount *)
Definition deathCount (hs : headers) (queue : string) : Z :=
  match table_get hs "x-death" with
  | Some (HArray deaths) => first_death deaths queue
  | _ => 0
  end.

(* @go notification-service/internal/notification/adapter/inbound/amqpapi/consumer.go validateEnvelope *)
Definition validateEnvelope (subscription : Subscription) (delivery : Delivery) : option string :=
  if negb (bool_decide (del_ContentType delivery = sub_ContentType subscription))
  then Some ("content type " +:+ Quote (del_ContentType delivery) +:+ ", want "
             +:+ Quote (sub_ContentType subscription))
  else if negb (bool_decide (del_Type delivery = sub_MessageType subscription))
  then Some ("message type " +:+ Quote (del_Type delivery) +:+ ", want "
             +:+ Quote (sub_MessageType subscription))
  else None.

(** ** The calls on one delivery *)

(** What a non-blocking receive from the channel of returns finds: nothing, a return,
    or that the channel is closed, where a receive gives a zero return. *)
Inductive polled := NothingReturned | AReturn (ReplyText : string) | ChannelClosed.

Inductive deliveryE : Type → Type :=
| Cancelled : deliveryE bool
| Handle (requestID messageID body : string) : deliveryE Result
| FormattedNow : deliveryE string
| PollReturns : deliveryE polled
| PublishParked (message : Publishing) : deliveryE (result string nat)
| WaitParked (confirmation : nat) : deliveryE (result string bool)
| Ack (multiple : bool) : deliveryE (option string)
| Nack (multiple requeue : bool) : deliveryE (option string).

(** The error of a settlement is only logged. *)
(* @go notification-service/internal/notification/adapter/inbound/amqpapi/consumer.go acknowledge *)
Definition acknowledge : prog deliveryE unit := _ ← trigger (Ack false); mret tt.
(* @go notification-service/internal/notification/adapter/inbound/amqpapi/consumer.go reject *)
Definition consumer_reject : prog deliveryE unit := _ ← trigger (Nack false false); mret tt.

(** A receive from a closed channel is always ready, so the loop goes round again;
    [None] when the fuel runs out. *)
(* @go notification-service/internal/notification/adapter/inbound/amqpapi/consumer.go drainReturns *)
Fixpoint drainReturns (fuel : nat) : prog deliveryE (option unit) :=
  match fuel with
  | O => mret None
  | S fuel' =>
      polled ← trigger PollReturns;
      match polled with
      | AReturn _ | ChannelClosed => drainReturns fuel'
      | NothingReturned => mret (Some tt)
      end
  end.

(* @src notification-service/internal/notification/adapter/inbound/amqpapi/consumer.go:376-409 Consumer.park *)
Definition parked_message (subscription : Subscription) (delivery : Delivery) (reason now : string)
    : Publishing := {|
  pbl_Exchange := ExchangeParked;
  pbl_RoutingKey := internalRoutingKey subscription;
  pbl_Mandatory := true;
  pbl_Persistent := true;
  pbl_ContentType := del_ContentType delivery;
  pbl_Type := del_Type delivery;
  pbl_MessageId := del_MessageId delivery;
  pbl_CorrelationId := del_CorrelationId delivery;
  pbl_Timestamp := del_Timestamp delivery;
  pbl_Headers := table_set (table_set (table_set (del_Headers delivery)
      "x-parked-reason" (HString reason)) "x-parked-at" (HString now))
      "x-parked-from-queue" (HString (Queue subscription));
  (* the literal leaves these at their zero values *)
  pbl_ContentEncoding := "";
  pbl_Priority := 0;
  pbl_ReplyTo := "";
  pbl_Expiration := "";
  pbl_UserId := "";
  pbl_AppId := "";
  pbl_Body := del_Body delivery;
|}.

(* @go notification-service/internal/notification/adapter/inbound/amqpapi/consumer.go Consumer.park *)
Definition park (fuel : nat) (subscription : Subscription) (delivery : Delivery) (reason : string)
    : prog deliveryE (option unit) :=
  now ← trigger FormattedNow;
  drained ← drainReturns fuel;
  match drained with
  | None => mret None
  | Some _ =>
  published ← trigger (PublishParked (parked_message subscription delivery reason now));
  match published with
  | Err _ => _ ← consumer_reject; mret (Some tt)
  | Ok confirmation =>
  waited ← trigger (WaitParked confirmation);
  match waited with
  | Err _ => _ ← consumer_reject; mret (Some tt)
  | Ok acknowledged =>
  returned ← trigger PollReturns;
  match returned with
  | AReturn _ | ChannelClosed => _ ← consumer_reject; mret (Some tt)
  | NothingReturned =>
      if negb acknowledged then _ ← consumer_reject; mret (Some tt)
      else _ ← acknowledge; mret (Some tt)
  end end end end.

(* @go notification-service/internal/notification/adapter/inbound/amqpapi/consumer.go Consumer.settle *)
Definition consumer_settle (outcome : Outcome) : prog deliveryE unit :=
  match outcome with
  | OutcomeSent | OutcomeAlreadySent => acknowledge
  | OutcomeClaimBusy | OutcomeTransientFailure | OutcomeStorageFailure | OutcomeShuttingDown => consumer_reject
  | OutcomeInvalid | OutcomeExhausted => consumer_reject
  | OutcomeUnknown => consumer_reject
  end.

(** [None]: the drain before a publication did not end within [fuel] receives. *)
(* @go notification-service/internal/notification/adapter/inbound/amqpapi/consumer.go Consumer.handle *)
Definition handle (fuel : nat) (subscription : Subscription) (delivery : Delivery)
    : prog deliveryE (option unit) :=
  match validateEnvelope subscription delivery with
  | Some _ => park fuel subscription delivery "invalid_envelope"
  | None =>
      cancelled ← trigger Cancelled;
      if cancelled : bool then _ ← consumer_settle OutcomeShuttingDown; mret (Some tt)
      else
      (* the request id is in the context the handler is called with *)
      result ← trigger (Handle (service_correlation.notification_Acceptable (del_CorrelationId delivery)) (del_MessageId delivery) (del_Body delivery));
      match res_Outcome result with
      | OutcomeInvalid => park fuel subscription delivery "invalid_event"
      | OutcomeExhausted => park fuel subscription delivery "attempts_exhausted"
      | outcome => _ ← consumer_settle outcome; mret (Some tt)
      end
  end.

(** ** What happens to a delivery *)

(** The calls of a history of each kind. *)
Definition settlement (c : call deliveryE) : option bool :=
  match c with
  | @Call _ R e r => match e with Ack _ => Some true | Nack _ _ => Some false | _ => None end
  end.
Definition settlements (h : list (call deliveryE)) : list bool := omap settlement h.
Lemma settlements_app h h' : settlements (h ++ h') = settlements h ++ settlements h'.
Proof. apply omap_app. Qed.

Section delivery.
Context (subscription : Subscription) (delivery : Delivery).

(** The last handling of the delivery by the subscription. *)
Definition handled (h : list (call deliveryE)) (o : Outcome) : Prop :=
  ∃ r, Call (Handle (service_correlation.notification_Acceptable (del_CorrelationId delivery)) (del_MessageId delivery) (del_Body delivery)) r ∈ h ∧ res_Outcome r = o.

(** Why a delivery may be parked. *)
Definition park_reason (h : list (call deliveryE)) (reason : string) : Prop :=
  (is_Some (validateEnvelope subscription delivery) ∧ reason = "invalid_envelope")
  ∨ (handled h OutcomeInvalid ∧ reason = "invalid_event")
  ∨ (handled h OutcomeExhausted ∧ reason = "attempts_exhausted").

(** [copy] is the delivery for the parked queue: its body, the properties that are copied,
    and its headers with three more; its other properties are not kept. *)
Definition parked_copy (reason now : string) (copy : Publishing) : Prop :=
  pbl_Exchange copy = "notification.parked" ∧ pbl_RoutingKey copy = sub_Name subscription
  ∧ pbl_Mandatory copy = true ∧ pbl_Persistent copy = true
  ∧ pbl_Body copy = del_Body delivery ∧ pbl_ContentType copy = del_ContentType delivery
  ∧ pbl_Type copy = del_Type delivery ∧ pbl_MessageId copy = del_MessageId delivery
  ∧ pbl_CorrelationId copy = del_CorrelationId delivery
  ∧ pbl_Timestamp copy = del_Timestamp delivery
  ∧ table_get (pbl_Headers copy) "x-parked-reason" = Some (HString reason)
  ∧ table_get (pbl_Headers copy) "x-parked-at" = Some (HString now)
  ∧ table_get (pbl_Headers copy) "x-parked-from-queue"
    = Some (HString ("notification." +:+ sub_Name subscription))
  ∧ (∀ key, key ∉ ["x-parked-reason"; "x-parked-at"; "x-parked-from-queue"] →
       table_get (pbl_Headers copy) key = table_get (del_Headers delivery) key)
  ∧ pbl_ContentEncoding copy = "" ∧ pbl_Priority copy = 0%N ∧ pbl_ReplyTo copy = ""
  ∧ pbl_Expiration copy = "" ∧ pbl_UserId copy = "" ∧ pbl_AppId copy = "".

Lemma parked_message_copy reason now : parked_copy reason now (parked_message subscription delivery reason now).
Proof.
  unfold parked_copy. split_and!; try done; cbn [pbl_Headers parked_message].
  - by rewrite !table_get_set.
  - by rewrite !table_get_set.
  - by rewrite !table_get_set.
  - intros key. rewrite !not_elem_of_cons, !table_get_set. intros (H1 & H2 & H3 & _).
    by rewrite !bool_decide_false by done.
Qed.

(** The copy is safely in the parked queue: published mandatory, confirmed, and the
    last look at the returns, after the confirmation, found none. *)
Definition safely_parked (h : list (call deliveryE)) : Prop :=
  ∃ h1 copy reason now conf,
    h = h1 ++ [Call (PublishParked copy) (Ok conf);
               Call (WaitParked conf) (Ok true); Call PollReturns NothingReturned]
    ∧ parked_copy reason now copy ∧ park_reason h1 reason ∧ Call FormattedNow now ∈ h1.

Definition delivery_rule (h : list (call deliveryE)) R (e : deliveryE R) : Prop :=
  settlements h = [] ∧
  match e with
  | Handle requestID id body =>
      requestID = service_correlation.notification_Acceptable (del_CorrelationId delivery) ∧ id = del_MessageId delivery ∧ body = del_Body delivery
      ∧ validateEnvelope subscription delivery = None ∧ h = [Call Cancelled false]
  | PublishParked message => ∃ reason now h1,
      parked_copy reason now message ∧ park_reason h reason ∧ Call FormattedNow now ∈ h
      ∧ h = h1 ++ [Call PollReturns NothingReturned]
  | Ack multiple => multiple = false
      ∧ (handled h OutcomeSent ∨ handled h OutcomeAlreadySent ∨ safely_parked h)
  | Nack multiple requeue => multiple = false ∧ requeue = false
  | _ => True
  end.

(** Looks at the returns that found something to throw away. *)
Definition polls (rs : list polled) : list (call deliveryE) := Call PollReturns <$> rs.

Definition delivery_post (fuel : nat) (h : list (call deliveryE)) (r : option unit) : Prop :=
  match r with
  | Some _ => length (settlements h) = 1
  | None => settlements h = []
      ∧ ∃ h1 rs, h = h1 ++ polls rs ∧ length rs = fuel ∧ NothingReturned ∉ rs
  end.

Lemma park_reason_app h h' reason : park_reason h reason → park_reason (h ++ h') reason.
Proof.
  unfold park_reason, handled. setoid_rewrite elem_of_app. naive_solver.
Qed.

Lemma settle_last h R (e : deliveryE R) (r : R) b :
  settlements h = [] → settlement (Call e r) = Some b → length (settlements (h ++ [Call e r])) = 1.
Proof.
  intros Hs He. rewrite settlements_app, Hs. unfold settlements. cbn [omap list_omap app].
  by rewrite He.
Qed.
Lemma unsettled h R (e : deliveryE R) (r : R) :
  settlements h = [] → settlement (Call e r) = None → settlements (h ++ [Call e r]) = [].
Proof. intros Hs He. rewrite settlements_app, Hs. unfold settlements. cbn [omap list_omap app]. by rewrite He. Qed.

Lemma consumer_reject_respects fuel h :
  settlements h = [] →
  respects delivery_rule (_ ← consumer_reject; mret (Some tt)) h (delivery_post fuel).
Proof.
  intros Hs. cbn. split; [done|]. intros r. by eapply settle_last.
Qed.
Lemma acknowledge_respects fuel h :
  settlements h = [] → handled h OutcomeSent ∨ handled h OutcomeAlreadySent ∨ safely_parked h →
  respects delivery_rule (_ ← acknowledge; mret (Some tt)) h (delivery_post fuel).
Proof.
  intros Hs Hwhy. cbn. split; [done|]. intros r. by eapply settle_last.
Qed.

Lemma settlements_polls rs : settlements (polls rs) = [].
Proof. induction rs as [|r rs IH]; [done|exact IH]. Qed.

Lemma drainReturns_respects fuel h Q :
  settlements h = [] →
  (∀ rs, length rs = fuel → NothingReturned ∉ rs → Q (h ++ polls rs) None) →
  (∀ rs, NothingReturned ∉ rs → Q (h ++ polls (rs ++ [NothingReturned])) (Some tt)) →
  respects delivery_rule (drainReturns fuel) h Q.
Proof.
  revert h. induction fuel as [|fuel IH]; intros h Hs Hnone Hsome.
  { cbn. specialize (Hnone []). rewrite app_nil_r in Hnone. apply Hnone; [done|]. set_solver. }
  cbn [drainReturns]. apply respects_trigger; [done|].
  assert (∀ r, r ≠ NothingReturned →
    respects delivery_rule (drainReturns fuel) (h ++ [Call PollReturns r]) Q) as Hloop.
  { intros r Hr. apply IH; [by apply unsettled|..].
    - intros rs Hlen Hrs. rewrite <-app_assoc. apply (Hnone (r :: rs)); [cbn; lia|set_solver].
    - intros rs Hrs. rewrite <-app_assoc. apply (Hsome (r :: rs)). set_solver. }
  intros [|text|]; [|by apply Hloop..]. apply (Hsome []). set_solver.
Qed.

Lemma park_respects fuel reason h :
  settlements h = [] → park_reason h reason →
  respects delivery_rule (park fuel subscription delivery reason) h (delivery_post fuel).
Proof.
  intros Hs Hwhy. unfold park. apply respects_trigger; [done|]. intros now.
  assert (settlements (h ++ [Call FormattedNow now]) = []) as Hs0 by by apply unsettled.
  apply respects_bind. apply drainReturns_respects; [done|..].
  { intros rs Hlen Hrs. split; [by rewrite settlements_app, Hs0, settlements_polls|]. by eexists _, rs. }
  intros rs Hrs. unfold polls. rewrite fmap_app. cbn [fmap list_fmap].
  rewrite <-app_assoc. remember ([Call FormattedNow now] ++ polls rs) as k eqn:Hk.
  assert ([Call FormattedNow now] ++ (Call PollReturns <$> rs) ++ [Call PollReturns NothingReturned]
    = k ++ [Call PollReturns NothingReturned]) as -> by (by rewrite Hk, app_assoc).
  assert (settlements (h ++ k ++ [Call PollReturns NothingReturned]) = []) as Hs'.
  { rewrite !settlements_app, Hs, Hk, settlements_app, settlements_polls. done. }
  assert (Call FormattedNow now ∈ h ++ k) as Hnow.
  { subst k. rewrite !elem_of_app. right. left. by left. }
  assert (park_reason (h ++ k ++ [Call PollReturns NothingReturned]) reason) as Hwhy'
    by by apply park_reason_app.
  apply respects_trigger.
  { split; [done|]. exists reason, now, (h ++ k). rewrite <-app_assoc.
    split_and!; [apply parked_message_copy|done| |done].
    rewrite app_assoc. apply elem_of_app. by left. }
  intros [conf|err]; [|by apply consumer_reject_respects, unsettled].
  apply respects_trigger; [by split; [apply unsettled|]|].
  intros [acked|err]; [|by apply consumer_reject_respects; do 2 (apply unsettled; [|done])].
  apply respects_trigger; [by split; [do 2 (apply unsettled; [|done])|]|].
  intros polled. assert (settlements ((((h ++ k ++ [Call PollReturns NothingReturned]) ++
      [Call (PublishParked (parked_message subscription delivery reason now)) (Ok conf)]) ++
      [Call (WaitParked conf) (Ok acked)]) ++ [Call PollReturns polled]) = []) as Hs3
    by (do 3 (apply unsettled; [|done]); done).
  destruct polled as [|text|]; [|by apply consumer_reject_respects..].
  destruct acked; [|by apply consumer_reject_respects].
  apply acknowledge_respects; [done|]. right; right.
  exists (h ++ k ++ [Call PollReturns NothingReturned]),
    (parked_message subscription delivery reason now), reason, now, conf.
  split; [by rewrite <-!app_assoc|]. split; [apply parked_message_copy|]. split; [done|].
  rewrite (app_assoc h). apply elem_of_app. by left.
Qed.

Lemma handle_respects fuel :
  respects delivery_rule (handle fuel subscription delivery) [] (delivery_post fuel).
Proof.
  unfold handle. destruct (validateEnvelope subscription delivery) as [text|] eqn:Henv.
  { apply park_respects; [done|]. left. by rewrite Henv. }
  apply respects_trigger; [done|]. intros [].
  { by apply consumer_reject_respects. }
  apply respects_trigger; [done|]. intros result. cbn [app].
  assert (handled ([Call Cancelled false]
    ++ [Call (Handle (service_correlation.notification_Acceptable (del_CorrelationId delivery)) (del_MessageId delivery) (del_Body delivery)) result]) (res_Outcome result)) as Hh.
  { exists result. split; [right; by left|done]. }
  destruct (res_Outcome result); first
    [ by apply consumer_reject_respects
    | by apply acknowledge_respects; auto
    | apply park_respects; [done|]; right; by auto ].
Qed.
End delivery.

(** ** The consumer's contract for one delivery *)

(** C12: Whatever the broker and the handler answer, one delivery is settled exactly
    once: it is handed to the handler at most once, under its own id and only with the
    envelope of its subscription; it is acknowledged only if the email was or had been
    sent, or if a copy was published for the parked queue, mandatory and persistent,
    confirmed and not returned; the copy has the body of the delivery, its content type,
    type, message id, correlation id and timestamp, and its headers with the reason, the
    time and the queue it came from, and none of its other properties; it is parked only for a wrong envelope, an invalid event or
    a spent budget; and it is never put back at the head of its queue. Only a drain
    that keeps finding returns leaves it unsettled. *)
Theorem handle_settles fuel subscription delivery h r :
  runs (handle fuel subscription delivery) h r →
  disciplined (delivery_rule subscription delivery) h ∧ delivery_post fuel h r.
Proof.
  intros Hr. eapply (respects_sound _ _ []); [apply disciplined_nil|apply handle_respects|exact Hr].
Qed.

Definition sample_subscription : Subscription :=
  mkSubscription "order-accepted" (mkSource "order.events" "topic" true false false)
    "order.accepted.v1" "order.v1.OrderAccepted" "application/x-protobuf" true.
Definition sample_delivery : Delivery :=
  mkDelivery "application/x-protobuf" "order.v1.OrderAccepted" "e1" "r1" 10 [] "" 0 "" "" "" "" "body".
Definition sample_spent : Result := mkResult OutcomeExhausted 3 None.
Definition sample_parked : Publishing :=
  parked_message sample_subscription sample_delivery "attempts_exhausted" "now".
Definition sample_handling : list (call deliveryE) :=
  [Call Cancelled false; Call (Handle "r1" "e1" "body") sample_spent; Call FormattedNow "now";
   Call PollReturns NothingReturned; Call (PublishParked sample_parked) (Ok 0);
   Call (WaitParked 0) (Ok true); Call PollReturns NothingReturned; Call (Ack false) None].

Lemma handle_settles_witness :
  runs (handle 1 sample_subscription sample_delivery) sample_handling (Some tt)
  ∧ disciplined (delivery_rule sample_subscription sample_delivery) sample_handling
  ∧ length (settlements sample_handling) = 1.
Proof.
  assert (runs (handle 1 sample_subscription sample_delivery) sample_handling (Some tt)) as Hr.
  { unfold sample_handling. repeat (refine (runs_vis _ _ _ _ _ _); cbn). apply runs_ret. }
  split; [exact Hr|]. exact (handle_settles _ _ _ _ _ Hr).
Defined.

(** ** Throwing away returns *)

Lemma drainReturns_runs fuel h r :
  runs (drainReturns fuel) h r →
  ∃ rs, (NothingReturned ∉ rs)
    ∧ ((r = None ∧ h = polls rs ∧ length rs = fuel)
       ∨ (r = Some tt ∧ h = polls (rs ++ [NothingReturned]) ∧ length rs < fuel)).
Proof.
  revert h. induction fuel as [|fuel IH]; intros h Hr.
  { apply runs_inv in Hr as [-> ->]. exists []. split; [set_solver|by left]. }
  apply runs_trigger in Hr as (polled & h' & -> & Hr).
  assert (polled = NothingReturned ∨ polled ≠ NothingReturned) as [->|Hp]
    by (destruct polled; auto).
  { apply runs_inv in Hr as [-> ->]. exists []. split; [set_solver|]. right. cbn. by split_and!; [..|lia]. }
  assert (runs (drainReturns fuel) h' r) as (rs & Hrs & Hcases)%IH by by destruct polled.
  exists (polled :: rs). split; [set_solver|].
  destruct Hcases as [(-> & -> & Hlen)|(-> & -> & Hlen)]; [left|right]; cbn; split_and!; auto; lia.
Qed.

Definition poll_of (c : call deliveryE) : option polled :=
  match c with
  | @Call _ R e r => match e in deliveryE R return R → option polled with
                     | PollReturns => Some | _ => λ _, None end r
  end.
Lemma poll_inj r r' : Call PollReturns r = Call PollReturns r' → r = r'.
Proof. intros Heq%(f_equal poll_of). by injection Heq. Qed.

(** C38: Throwing away the returns before a publication ends exactly when a look finds
    none: after [n] waiting returns, [n + 1] looks suffice. When the library has closed
    the channel of returns, as it does with the AMQP channel, every look finds a zero
    return and no number of looks ends the loop. *)
Theorem drainReturns_end (fuel : nat) :
  (∀ texts, length texts < fuel →
     runs (drainReturns fuel) (polls ((AReturn <$> texts) ++ [NothingReturned])) (Some tt))
  ∧ (∀ h r, runs (drainReturns fuel) h r →
      (r = Some tt ↔ Call PollReturns NothingReturned ∈ h)
      ∧ (Forall (λ c, c = Call PollReturns ChannelClosed) h → r = None ∧ length h = fuel)).
Proof.
  split.
  - induction fuel as [|fuel IH]; intros texts Hlen; [lia|].
    destruct texts as [|text texts]; cbn [polls fmap list_fmap app].
    + refine (runs_vis _ _ _ _ _ _). apply runs_ret.
    + refine (runs_vis _ _ _ _ _ _). apply IH. cbn in Hlen. lia.
  - intros h r (rs & Hrs & Hcases)%drainReturns_runs.
    assert (Call PollReturns NothingReturned ∉ polls rs) as Hno.
    { unfold polls. intros (x & Heq & Hx)%list_elem_of_fmap. by apply poll_inj in Heq as <-. }
    destruct Hcases as [(-> & -> & Hlen)|(-> & -> & Hlen)].
    + split; [by split|]. intros _. unfold polls. by rewrite length_fmap.
    + unfold polls. rewrite fmap_app. split.
      * split; [|done]. intros _. apply elem_of_app. right. by left.
      * intros Hall. apply Forall_app in Hall as [_ Hall]. inversion Hall as [|? ? Heq _]. by apply poll_inj in Heq.
Qed.
