(* ===== verification/NotificationEvents.v ===== *)
(** * Decoding the events notification-service consumes

    [amqpapi]'s [convert.go] and [order_accepted.go]: the command of an accepted order
    from the bytes of a delivery, and the subscription that names the producer's topic.
    What a decoded event satisfies is stated as [event_valid], and decoding succeeds for
    exactly those. *)
From S2P Require Import Prelude GoErrors GoStrings External Postgres Prog OrderErrors OrderDomain OrderPorts OrderEvents SentNotifications HandleOrderAccepted Topology.

(* @go notification-service/internal/notification/adapter/inbound/amqpapi/convert.go supportedCurrencies *)
Definition supportedCurrencies (currency : string) : bool := bool_decide (currency ∈ ["EUR"; "USD"]).

Definition invalid (suffix : string) : notification_error := Note (Leaf ErrInvalidEvent) suffix.
(* @go notification-service/internal/notification/adapter/inbound/amqpapi/convert.go missing *)
Definition missing (field : string) : notification_error := invalid (field +:+ " is required").

Definition line_error (index : nat) (text : string) : notification_result unit :=
  Err (invalid ("line " +:+ Itoa (Z.of_nat index) +:+ text)).
(* @go notification-service/internal/notification/adapter/inbound/amqpapi/convert.go validateLine *)
Definition validateLine (index : nat) (line : option protoLine) : notification_result unit :=
  match line with
  | None => line_error index " is empty"
  | Some line =>
      if bool_decide (TrimSpace (pln_ProductSku line) = "") then line_error index " has no product_sku"
      else if (pln_Quantity line <=? 0)%Z
      then line_error index (" has quantity " +:+ Itoa (pln_Quantity line) +:+ ", want greater than zero")
      else match pln_UnitPrice line with
      | None => line_error index " has no unit_price"
      | Some unitPrice =>
          if negb (supportedCurrencies (pm_Currency unitPrice))
          then line_error index (" has unsupported currency " +:+ Quote (pm_Currency unitPrice))
          else if (pm_AmountInMinorUnits unitPrice <? 0)%Z
          then line_error index " has a negative unit_price"
          else Ok tt
      end
  end.
(* @src notification-service/internal/notification/adapter/inbound/amqpapi/convert.go:124-128 commandFrom *)
Fixpoint validateLines (index : nat) (lines : list (option protoLine)) : notification_result unit :=
  match lines with
  | [] => Ok tt
  | line :: rest =>
      match validateLine index line with
      | Err err => Err err
      | Ok _ => validateLines (S index) rest
      end
  end.

Section decoding.
Context {Mail : MailLib} {Times : TimestampLib} {Wire : Codec protoOrderAccepted}.
(** The text of [mail.ParseAddress]'s error. *)
Variable ParseAddress_error : string → string.

(* @go notification-service/internal/notification/adapter/inbound/amqpapi/convert.go commandFrom *)
Definition commandFrom (event : protoOrderAccepted) : notification_result OrderAcceptedCommand :=
  if bool_decide (TrimSpace (poa_EventId event) = "") then Err (missing "event_id")
  else if bool_decide (TrimSpace (poa_OrderId event) = "") then Err (missing "order_id")
  else
  let email := TrimSpace (poa_CustomerEmail event) in
  match ParseAddress email with
  | None => Err (Join (invalid "customer_email is not a valid address")
                      (Opaque (ParseAddress_error email)))
  | Some _ =>
  match poa_TotalAmount event with
  | None => Err (missing "total_amount")
  | Some total =>
  if negb (supportedCurrencies (pm_Currency total))
  then Err (invalid ("unsupported currency " +:+ Quote (pm_Currency total)))
  else if (pm_AmountInMinorUnits total <? 0)%Z then Err (invalid "total_amount is negative")
  else
  match poa_OccurredAt event with
  | None => Err (missing "occurred_at")
  | Some at_ =>
  let occurredAt := AsTime at_ in
  if IsZero occurredAt then Err (missing "occurred_at")
  else if bool_decide (poa_Lines event = []) then Err (missing "lines")
  else
  match validateLines 0 (poa_Lines event) with
  | Err err => Err err
  | Ok _ => Ok (mkOrderAcceptedCommand (poa_EventId event) (poa_OrderId event) email
                  (pm_AmountInMinorUnits total) (pm_Currency total) occurredAt)
  end end end end.

(* @go notification-service/internal/notification/adapter/inbound/amqpapi/convert.go decodeOrderAccepted *)
Definition decodeOrderAccepted (messageID body : string) : notification_result OrderAcceptedCommand :=
  match Unmarshal body with
  | Err text => Err (Join (Leaf ErrInvalidEvent) (Wrap "unmarshal" (Opaque text)))
  | Ok event =>
      match commandFrom event with
      | Err err => Err err
      | Ok command =>
          if negb (bool_decide (messageID = "")) && negb (bool_decide (messageID = oac_EventID command))
          then Err (invalid ("message id " +:+ Quote messageID +:+ " does not match event id "
                             +:+ Quote (oac_EventID command)))
          else Ok command
      end
  end.

(* @src notification-service/internal/notification/adapter/inbound/amqpapi/order_accepted.go:18-29 OrderAcceptedSubscription *)
Definition OrderAcceptedSubscription : Subscription := {|
  sub_Name := "order-accepted";
  sub_Source := mkSource ExchangeOrders ExchangeOrdersKind ExchangeOrdersDurable
                  ExchangeOrdersAutoDelete ExchangeOrdersInternal;
  sub_RoutingKey := RoutingKeyOrderAccepted;
  sub_MessageType := MessageTypeOrderAccepted;
  sub_ContentType := ContentTypeProtobuf;
  sub_Handle := true;
|}.

(** What its [Handle] calls the use case with, if it does. *)
(* @src notification-service/internal/notification/adapter/inbound/amqpapi/order_accepted.go:31-45 OrderAcceptedSubscription *)
Definition OrderAccepted_Handle {E} (Execute : OrderAcceptedCommand → prog E Result)
    (messageID body : string) : prog E Result :=
  match decodeOrderAccepted messageID body with
  | Err err => mret (mkResult OutcomeInvalid 0 (Some err))
  | Ok command => Execute command
  end.

(** The consumer the service is wired with, or why it could not be built. *)
(* @go notification-service/internal/notification/wiring/wiring.go New *)
Definition notification_wiring_New (map_range : list (string * string) → list (string * string))
    : result string (list Subscription) :=
  let subscriptions := [OrderAcceptedSubscription] in
  match NewConsumer map_range subscriptions with
  | Some err => Err ("build the consumer: " +:+ err)
  | None => Ok subscriptions
  end.

(** The check of the subscriptions never stops the service from starting. *)
Lemma notification_wiring_succeeds map_range :
  (∀ fields, map_range fields ≡ₚ fields) →
  notification_wiring_New map_range = Ok [OrderAcceptedSubscription].
Proof.
  intros Hperm. unfold notification_wiring_New, NewConsumer. cbn [check_subscriptions bool_decide].
  assert (Validate map_range OrderAcceptedSubscription = None) as Hv; [|by cbn; rewrite Hv].
  unfold Validate, missing_fields. cbn [sub_Handle OrderAcceptedSubscription]. rewrite app_nil_r.
  match goal with |- context [filter ?P (map_range ?fields)] =>
    assert (filter P (map_range fields) = []) as ->; [|done];
    apply Permutation_nil; rewrite (Hperm fields); vm_compute; constructor end.
Qed.

(** ** What is accepted *)

Definition line_valid (line : protoLine) : Prop :=
  TrimSpace (pln_ProductSku line) ≠ "" ∧ (0 < pln_Quantity line)%Z
  ∧ ∃ price, pln_UnitPrice line = Some price ∧ supportedCurrencies (pm_Currency price) = true
      ∧ (0 ≤ pm_AmountInMinorUnits price)%Z.

(** The required fields of the contract, and the command they make. *)
Definition event_valid (event : protoOrderAccepted) (command : OrderAcceptedCommand) : Prop :=
  TrimSpace (poa_EventId event) ≠ "" ∧ TrimSpace (poa_OrderId event) ≠ ""
  ∧ is_Some (ParseAddress (TrimSpace (poa_CustomerEmail event)))
  ∧ poa_Lines event ≠ []
  ∧ Forall (λ line, ∃ l, line = Some l ∧ line_valid l) (poa_Lines event)
  ∧ ∃ total at_, poa_TotalAmount event = Some total ∧ poa_OccurredAt event = Some at_
      ∧ supportedCurrencies (pm_Currency total) = true ∧ (0 ≤ pm_AmountInMinorUnits total)%Z
      ∧ AsTime at_ ≠ 0%Z
      ∧ command = mkOrderAcceptedCommand (poa_EventId event) (poa_OrderId event)
          (TrimSpace (poa_CustomerEmail event)) (pm_AmountInMinorUnits total) (pm_Currency total)
          (AsTime at_).

Lemma validateLine_cases index line :
  (validateLine index line = Ok tt ∧ ∃ l, line = Some l ∧ line_valid l)
  ∨ (∃ suffix, validateLine index line = Err (invalid suffix)) ∧ ¬ ∃ l, line = Some l ∧ line_valid l.
Proof.
  unfold validateLine, line_error, line_valid. destruct line as [line|]; [|right; naive_solver].
  case_bool_decide; [right; naive_solver|].
  destruct (pln_Quantity line <=? 0)%Z eqn:Hq; reflect_bools;
    [right; split; [by eexists|]; intros (l & [= <-] & _ & Hpos & _); lia|].
  destruct (pln_UnitPrice line) as [price|] eqn:Hp; [|right; naive_solver].
  destruct (supportedCurrencies _) eqn:Hc; cbn [negb];
    [|right; split; [by eexists|]; intros (l & [= <-] & _ & _ & price' & Hp' & Hs & _); congruence].
  destruct (_ <? 0)%Z eqn:Hz; reflect_bools; [right; split; [by eexists|]|left; by eauto 10].
  intros (l & [= <-] & _ & _ & price' & Hp' & _ & Hn). assert (price' = price) as -> by congruence. lia.
Qed.

Lemma validateLines_cases index lines :
  (validateLines index lines = Ok tt ∧ Forall (λ line, ∃ l, line = Some l ∧ line_valid l) lines)
  ∨ (∃ suffix, validateLines index lines = Err (invalid suffix))
    ∧ ¬ Forall (λ line, ∃ l, line = Some l ∧ line_valid l) lines.
Proof.
  revert index. induction lines as [|line lines IH]; intros index; cbn; [by left; split|].
  rewrite Forall_cons.
  destruct (validateLine_cases index line) as [[-> Hl]|[[suffix ->] Hl]]; [|right; naive_solver].
  destruct (IH (S index)) as [[-> Hls]|[[suffix ->] Hls]]; [left|right]; naive_solver.
Qed.

Lemma commandFrom_cases event :
  (∃ command, commandFrom event = Ok command ∧ event_valid event command)
  ∨ (∃ err, commandFrom event = Err err ∧ errors_Is err ErrInvalidEvent = true)
    ∧ ∀ command, ¬ event_valid event command.
Proof.
  unfold commandFrom, event_valid.
  case_bool_decide; [right; naive_solver|]. case_bool_decide; [right; naive_solver|].
  destruct (ParseAddress _); [|right; split; [by eexists|]; by intros ? (_ & _ & [? [=]] & _)].
  destruct (poa_TotalAmount event) as [total|]; [|right; naive_solver].
  destruct (supportedCurrencies (pm_Currency total)) eqn:Hc; cbn [negb];
    [|right; split; [by eexists|]; intros ? (_ & _ & _ & _ & _ & t & ? & [= <-] & _ & Hs & _); congruence].
  destruct (_ <? 0)%Z eqn:Hz; reflect_bools; [right; split; [by eexists|]|].
  { intros ? (_ & _ & _ & _ & _ & t & ? & [= <-] & _ & _ & ? & _). lia. }
  destruct (poa_OccurredAt event) as [at_|]; [|right; naive_solver].
  unfold IsZero. case_bool_decide; [right; naive_solver|].
  case_bool_decide; [right; naive_solver|].
  destruct (validateLines_cases 0 (poa_Lines event)) as [[-> Hls]|[[suffix ->] Hls]]; [left|right].
  - eexists. split; [done|]. split_and!; [done..|]. by exists total, at_.
  - split; [by eexists|]. intros ? (_ & _ & _ & _ & ? & _). done.
Qed.

(** C35: A body becomes a command exactly when it is a message with every required field
    present and meaningful, and the delivery's id is empty or the event's; the command
    then repeats the message. Every other body is an invalid event, which the
    subscription answers without running the use case. *)
Theorem decode_exact {E} (Execute : OrderAcceptedCommand → prog E Result) messageID body :
  (∃ event command, Unmarshal body = Ok event ∧ event_valid event command
     ∧ (messageID = "" ∨ messageID = poa_EventId event)
     ∧ decodeOrderAccepted messageID body = Ok command
     ∧ OrderAccepted_Handle Execute messageID body = Execute command)
  ∨ ((∀ event command, Unmarshal body = Ok event → event_valid event command →
        messageID ≠ "" ∧ messageID ≠ poa_EventId event)
     ∧ ∃ err, decodeOrderAccepted messageID body = Err err ∧ errors_Is err ErrInvalidEvent = true
         ∧ OrderAccepted_Handle Execute messageID body = Ret (mkResult OutcomeInvalid 0 (Some err))).
Proof.
  unfold OrderAccepted_Handle, decodeOrderAccepted.
  destruct (Unmarshal body) as [event|text]; [|right; split; [done|]; by eexists].
  destruct (commandFrom_cases event) as [(command & -> & Hv)|[(err & -> & Hi) Hno]].
  2:{ right. split; [|by eexists]. intros ? ? [= <-] ?. by edestruct Hno. }
  assert (oac_EventID command = poa_EventId event) as Hid.
  { by destruct Hv as (_ & _ & _ & _ & _ & ? & ? & _ & _ & _ & _ & _ & ->). }
  rewrite Hid. do 2 case_bool_decide; cbn [negb andb].
  1-3: left; exists event, command; by split_and!; auto.
  right. split; [by intros ? ? [= <-]|]. by eexists.
Qed.
End decoding.
