(* ===== verification/EndToEnd.v ===== *)
(** * From an accepted order to its confirmation

    The two ends of the topic together: what order-service publishes for an accepted
    order, and what notification-service makes of the delivery. *)
From S2P Require Import Prelude GoErrors GoStrings External Postgres Prog OrderErrors OrderDomain OrderPorts CreateOrder OrderStore OrderStoreSpec Outbox EventWorker OrderEvents OrderSystem.
From S2P Require Import SentNotifications HandleOrderAccepted Topology Consumer NotificationEvents.

(** What the wire carries exactly: lines that are there, with quantities of 32 bits. *)
Definition proto_wf {Times : TimestampLib} (event : protoOrderAccepted) : Prop :=
  Forall (λ line, ∃ l, line = Some l ∧ in_int32 (pln_Quantity l)) (poa_Lines event).

(** A delivery of a published message: the broker keeps its properties and body. *)
Definition carries (m : Message) (d : Delivery) : Prop :=
  del_ContentType d = msg_ContentType m ∧ del_Type d = msg_Type m
  ∧ del_MessageId d = msg_MessageID m ∧ del_CorrelationId d = msg_CorrelationID m
  ∧ del_Body d = msg_Body m.
(** A copy parked and published again under the same name carries what it carried. *)
Definition delivered_again (p : Publishing) (d : Delivery) : Prop :=
  del_ContentType d = pbl_ContentType p ∧ del_Type d = pbl_Type p
  ∧ del_MessageId d = pbl_MessageId p ∧ del_CorrelationId d = pbl_CorrelationId p
  ∧ del_Body d = pbl_Body p.

Lemma carries_again m d d' s reason now :
  carries m d → delivered_again (parked_message s d reason now) d' → carries m d'.
Proof. unfold carries, delivered_again. cbn. intuition congruence. Qed.

Section end_to_end.
Context {Mail : MailLib} {Uuid : UuidLib} {Pg : Postgres} {Json : Codec orderAcceptedPayload}.
Context {UuidL : UuidLaws Uuid} {PgL : PostgresLaws Pg} {JsonL : CodecLaws Json payload_utf8}.
Context {Times : TimestampLib} {TimesL : TimestampLaws Times}.
Context {Wire : Codec protoOrderAccepted} {WireL : CodecLaws Wire proto_wf}.
Variable ParseAddress_error : string → string.

(** The command of an accepted order. *)
Definition command_of (eventID : string) (o : Order) : OrderAcceptedCommand :=
  mkOrderAcceptedCommand eventID (ord_id o) (ord_customerEmail o) (AmountInCents (ord_total o))
    (Currency (ord_total o)) (ord_updatedAt o).

Lemma supported_agree c : supportedCurrencies c = isCurrencySupported c.
Proof.
  unfold supportedCurrencies, isCurrencySupported. rewrite <-bool_decide_or.
  apply bool_decide_ext. rewrite !elem_of_cons, elem_of_nil. tauto.
Qed.

Lemma isEmailValid_ok email :
  isEmailValid email = true → TrimSpace email = email ∧ is_Some (ParseAddress email).
Proof.
  unfold isEmailValid. case_bool_decide; cbn; [|done]. case_bool_decide; [done|].
  by destruct (ParseAddress email).
Qed.

Lemma order_event_valid eventID o :
  order_valid o → order_encodable o → TrimSpace eventID ≠ "" →
  proto_wf (protoOrderAccepted_of (newOrderAcceptedEvent eventID o))
  ∧ event_valid (protoOrderAccepted_of (newOrderAcceptedEvent eventID o)) (command_of eventID o).
Proof.
  intros Hv [_ Henc] He. destruct (order_valid_total _ Hv) as (Hc & Ha & Hne & Hitems).
  apply validateOrder_spec in Hv as (Hid & _ & Hem & _ & _ & _ & Hnz & _ & _).
  apply isEmailValid_ok in Hem as [Htrim Hp]. split.
  { unfold proto_wf. cbn. rewrite !Forall_fmap. eapply Forall_impl; [exact Henc|].
    intros i [_ Hi]. eexists. split; [done|]. apply wrap32_range. }
  split_and!; cbn; rewrite ?Htrim; [done..| | |].
  - by destruct (ord_orderItems o).
  - rewrite !Forall_fmap. apply Forall_forall. intros i Hin.
    rewrite Forall_forall in Henc, Hitems. destruct (Henc _ Hin) as [_ Hq].
    apply Hitems in Hin as (? & ? & ? & ?)%validateItem_spec. eexists. split; [done|].
    split_and!; cbn; [done|by rewrite wrap32_id|]. eexists. by rewrite supported_agree.
  - eexists _, _. rewrite supported_agree, AsTime_New. done.
Qed.

(** Any delivery of the message of a stored order decodes to the command of that order. *)
Lemma delivery_decodes o eventID correlationID m d :
  order_valid o → order_encodable o → TrimSpace eventID ≠ "" →
  message_of (newOrderAcceptedEvent eventID o) correlationID = Ok m → carries m d →
  validateEnvelope OrderAcceptedSubscription d = None
  ∧ decodeOrderAccepted ParseAddress_error (del_MessageId d) (del_Body d) = Ok (command_of eventID o).
Proof.
  intros Hv Henc He Hm (Ht & Hty & Hid & _ & Hb). destruct (order_event_valid _ _ Hv Henc He) as [Hwf Hev].
  unfold message_of in Hm. destruct (Marshal _) as [body|] eqn:Hbody; [|done]. injection Hm as <-.
  cbn in *. split.
  { unfold validateEnvelope. rewrite Ht, Hty. by rewrite !bool_decide_eq_true_2. }
  unfold decodeOrderAccepted. rewrite Hb. erewrite Unmarshal_Marshal by done.
  destruct (commandFrom_cases ParseAddress_error (protoOrderAccepted_of (newOrderAcceptedEvent eventID o)))
    as [(command & -> & Hc)|[_ Hno]]; [|by destruct (Hno _ Hev)].
  assert (command = command_of eventID o) as ->.
  { destruct Hc as (_ & _ & _ & _ & _ & t & a & Et & Ea & _ & _ & _ & ->).
    destruct Hev as (_ & _ & _ & _ & _ & t' & a' & Et' & Ea' & _ & _ & _ & ->). congruence. }
  cbn. by rewrite Hid, (bool_decide_eq_true_2 (eventID = eventID)), andb_false_r.
Qed.

(** C8: What order-service publishes for a stored order, notification-service takes: the
    message goes to the exchange and under the key its subscription binds; any delivery
    that carries it, also one of a copy that was parked and published again, passes the
    envelope check and decodes to the email of that order: its address, its total and
    its time, under the effect key of the order's id, so that redelivery and
    republication are about one email. *)
Theorem accepted_order_is_confirmed o eventID correlationID m :
  order_valid o → order_encodable o → TrimSpace eventID ≠ "" →
  message_of (newOrderAcceptedEvent eventID o) correlationID = Ok m →
  let s := OrderAcceptedSubscription in
  msg_Exchange m = src_Name (sub_Source s) ∧ msg_RoutingKey m = sub_RoutingKey s
  ∧ (∀ d, carries m d →
       validateEnvelope s d = None
       ∧ decodeOrderAccepted ParseAddress_error (del_MessageId d) (del_Body d)
         = Ok (command_of eventID o))
  ∧ effect_of (command_of eventID o) = mkEffectKey (ord_id o) "order_confirmation" "email"
  ∧ (∀ d d' reason now, carries m d → delivered_again (parked_message s d reason now) d' →
       carries m d').
Proof.
  intros Hv Henc He Hm. split_and!; [| |intros d Hd; by eapply delivery_decodes|done|by eauto using carries_again];
    unfold message_of in Hm; destruct (Marshal _); by simplify_eq.
Qed.

(** What a loaded order satisfies. *)
Lemma stored_order_is_proper db id o :
  db_wf db → view db id = Some o →
  order_valid o ∧ order_encodable o ∧ ord_id o = uuid_String id
  ∧ Forall (λ item, TrimSpace (productSKU item) = productSKU item) (ord_orderItems o).
Proof.
  intros Hwf (row & Hrow & Hload)%view_row; [|done].
  destruct (wf_load _ Hwf _ _ Hrow) as (o' & Hload' & _ & Henc).
  rewrite Hload in Hload'. injection Hload' as <-.
  apply domainFromRows_fields in Hload as (Hval & Hid & _ & _ & _ & _ & _ & Htrim).
  by rewrite (wf_key _ Hwf _ _ Hrow) in Hid.
Qed.

(** In a sound store this covers every event of the outbox. *)
Lemma stored_event_is_understood w id ev :
  orders_sound w → recorded (w_db w) id ev →
  ∃ o, view (w_db w) id = Some o ∧ ord_status o = StatusAccepted
    ∧ ev = newOrderAcceptedEvent (oae_EventID ev) o
    ∧ order_valid o ∧ order_encodable o ∧ ∃ eid, oae_EventID ev = uuid_String eid.
Proof.
  intros [Hwf _ Hevent] Hrec. destruct (Hevent _ _ Hrec) as (o & Hview & Hst & Hev).
  destruct (stored_order_is_proper _ _ _ Hwf Hview) as (Hval & Henc & _).
  exists o. split_and!; try done. destruct Hrec as (eid & row & _ & _ & Hpay). exists eid.
  unfold eventFromPayload in Hpay. repeat case_match; try done. by injection Hpay as <-.
Qed.
End end_to_end.

(** ** Witness *)

#[export] Instance protoMoney_eq_dec : EqDecision protoMoney.
Proof. solve_decision. Defined.
#[export] Instance protoMoney_countable : Countable protoMoney.
Proof.
  apply (inj_countable' (λ m, (pm_AmountInMinorUnits m, pm_Currency m)) (λ '(a, c), mkProtoMoney a c)).
  by intros [].
Defined.
#[export] Instance protoLine_eq_dec : EqDecision protoLine.
Proof. solve_decision. Defined.
#[export] Instance protoLine_countable : Countable protoLine.
Proof.
  apply (inj_countable' (λ l, (pln_ProductSku l, pln_Quantity l, pln_UnitPrice l))
    (λ '(s, q, p), mkProtoLine s q p)). by intros [].
Defined.
Definition proto_parts (p : protoOrderAccepted (Times := sample_timestamps)) :=
  (poa_EventId p, poa_OrderId p, poa_OccurredAt p : option Z, poa_CustomerEmail p, poa_TotalAmount p,
   poa_Lines p).
#[export] Instance proto_eq_dec : EqDecision (protoOrderAccepted (Times := sample_timestamps)).
Proof.
  refine (λ p q, cast_if (decide (proto_parts p = proto_parts q))).
  - destruct p, q. unfold proto_parts in *. cbn in *. congruence.
  - congruence.
Defined.
#[export] Instance proto_countable : Countable (protoOrderAccepted (Times := sample_timestamps)).
Proof.
  apply (inj_countable' proto_parts
    (λ '(e, o, t, c, m, l), mkProtoOrderAccepted (Times := sample_timestamps) e o t c m l)).
  by intros [].
Defined.
#[export] Instance sample_wire : Codec (protoOrderAccepted (Times := sample_timestamps)) :=
  countable_codec _.
#[export] Instance sample_wire_laws : CodecLaws sample_wire proto_wf := countable_codec_laws _ _.

Definition sample_accepted_order : Order :=
  mkOrder "o-1" "c-1" "a@b.example" StatusAccepted "key-1" sample_items (mkMoney 3000 "EUR") 10000 20000.

Lemma accepted_order_is_confirmed_witness :
  ∃ m, message_of (newOrderAcceptedEvent "e-1" sample_accepted_order) "r-1" = Ok m
  ∧ decodeOrderAccepted (λ _, "") "e-1" (msg_Body m)
    = Ok (mkOrderAcceptedCommand "e-1" "o-1" "a@b.example" 3000 "EUR" 20000).
Proof.
  destruct (message_of (newOrderAcceptedEvent "e-1" sample_accepted_order) "r-1") as [m|] eqn:Hm;
    [|discriminate Hm].
  exists m. split; [done|].
  destruct (accepted_order_is_confirmed (λ _, "") sample_accepted_order "e-1" "r-1" m) as (_ & _ & Hd & _);
    [reflexivity|by repeat constructor|discriminate|exact Hm|].
  assert (msg_MessageID m = "e-1") as Hid
    by (unfold message_of in Hm; destruct (Marshal _); [by injection Hm as <-|discriminate Hm]).
  destruct (Hd (mkDelivery (msg_ContentType m) (msg_Type m) (msg_MessageID m)
    (msg_CorrelationID m) 0 [] "" 0 "" "" "" "" (msg_Body m))) as [_ Hdec]; [by split_and!|].
  cbn [del_MessageId del_Body] in Hdec. by rewrite Hid in Hdec.
Defined.
