(* ===== verification/WholeSystem.v ===== *)
(** * The whole system

    The three services with the broker between two of them: HTTP requests and outbox workers
    over order-service's database, reservation calls over inventory-service's, deliveries
    handled over notification-service's, interleaved at their calls. What
    inventory-service answered is kept, and a client is told yes only when it answered
    yes to that request; the broker keeps the messages it routed and delivers each any
    number of times; an email, an acknowledgement and a parked copy are recorded when
    they happen. *)
From S2P Require Import Prelude GoErrors GoStrings External Postgres Prog Correlation InventoryErrors InventoryCanonical ReservationStore ReserveStock ReservationSpec InventoryService InventoryGrpc InventoryClient InventoryContract.
From S2P Require Import OrderErrors OrderDomain OrderPorts CreateOrder OrderStore OrderStoreSpec Outbox EventWorker OutboxDrain OrderEvents OrderSystem HttpApi Router OrderApi.
From S2P Require Import SentNotifications HandleOrderAccepted NotificationService Topology Consumer NotificationEvents EndToEnd.

(** What became of the last copy a consumer published: routed to the parked queue, not
    routable with the return still to come or there, or lost with its channel. *)
Inductive publication := Routed | Unroutable | Returned | Lost.

Inductive systemE : Type → Type :=
| OfRequest {R} (e : orderE R) : systemE R
| Panics : systemE bool
| OfWorker {R} (e : workerE R) : systemE R
| OfStore {R} (e : storeE R) : systemE R
| Reply (request : ReserveStockRequest) (answer : result InventoryGrpc.Status unit) : systemE unit
| TakeDelivery : systemE Delivery
| OfDelivery (d : Delivery) {R} (e : deliveryE R) : systemE R
| OfNotify {R} (e : notifyE R) : systemE R.

Section system.
Context {Uuid : UuidLib}.
Record system := mkSystem {
  sy_world : world;
  sy_stock : inventory_db;
  sy_answers : list (ReserveStockRequest * result InventoryGrpc.Status unit);
  sy_routed : list Message;
  sy_notify : nworld;
  sy_emails : list Email;
  sy_parked : list Publishing;
  sy_publication : gmap nat publication;
  sy_acked : list Delivery;
}.
Definition with_orders w routed s :=
  mkSystem w (sy_stock s) (sy_answers s) routed (sy_notify s) (sy_emails s) (sy_parked s)
    (sy_publication s) (sy_acked s).
Definition with_stock stock answers s :=
  mkSystem (sy_world s) stock answers (sy_routed s) (sy_notify s) (sy_emails s) (sy_parked s)
    (sy_publication s) (sy_acked s).
Definition with_notify n emails s :=
  mkSystem (sy_world s) (sy_stock s) (sy_answers s) (sy_routed s) n emails (sy_parked s)
    (sy_publication s) (sy_acked s).
Definition with_parked parked publications s :=
  mkSystem (sy_world s) (sy_stock s) (sy_answers s) (sy_routed s) (sy_notify s) (sy_emails s) parked
    publications (sy_acked s).
Definition with_acked acked s :=
  mkSystem (sy_world s) (sy_stock s) (sy_answers s) (sy_routed s) (sy_notify s) (sy_emails s)
    (sy_parked s) (sy_publication s) acked.
End system.

Section whole_system.
Context {Mail : MailLib} {Uuid : UuidLib} {Pg : Postgres} {Json : Codec orderAcceptedPayload}.
Context {UuidL : UuidLaws Uuid} {PgL : PostgresLaws Pg} {JsonL : CodecLaws Json payload_utf8}.
Context {Times : TimestampLib} {TimesL : TimestampLaws Times} {Hash : HashLib}.
Context {Wire : Codec protoOrderAccepted} {WireL : CodecLaws Wire proto_wf}.
Context {Text : PostgresText Uuid} {TextL : PostgresTextLaws Text} {Statuses : StatusLib}.
Context {Binding : BindingLib} {Gin : GinLib}.
Hypothesis jsonb_value : ∀ b b', jsonb b = Some b' → Unmarshal (Codec := Json) b' = Unmarshal b.
Variable ParseAddress_error : string → string.
Variable status_text : InventoryGrpc.Status → string.

(** What order-service learns of a reservation: a client gets a yes only when
    inventory-service answered yes to what was sent, and any status otherwise. *)
Definition told {R} (e : orderE R) (r : R) (answers : list (ReserveStockRequest * result InventoryGrpc.Status unit))
    (w w' : world) : Prop :=
  match e in orderE R return R → Prop with
  | Reserve request => λ r,
      (∃ client, r = reserver_Reserve status_text client request
         ∧ ∀ sent, client sent = Ok tt → (sent, Ok tt) ∈ answers)
      ∧ w_reserved w' = if r is Ok _ then request :: w_reserved w else w_reserved w
  | _ => λ _, True
  end r.

(** What a call of the worker adds to the broker. *)
Definition broker_routes {R} (e : workerE R) (r : R) (w w' : world) (routed routed' : list Message) : Prop :=
  match e in workerE R return R → Prop with
  | PublishOrderAccepted event correlationID => λ r,
      (routed' = routed ∧ w_published w' = w_published w ∧ r ≠ Ok tt)
      ∨ ∃ m, message_of event correlationID = Ok m ∧ routed' = m :: routed
  | _ => λ _, routed' = routed
  end r.

(** A copy that cannot be routed is returned before it is confirmed, and one that is lost
    is never confirmed; a return is received once. *)
Definition delivery_step (i : nat) (d : Delivery) {R} (e : deliveryE R) (s : system) (r : R) (s' : system) : Prop :=
  match e in deliveryE R return R → Prop with
  | Cancelled | Handle _ _ _ | FormattedNow | Nack _ _ => λ _, s' = s
  | PublishParked message => λ _, ∃ p,
      s' = with_parked (if p is Routed then message :: sy_parked s else sy_parked s)
             (<[i := p]> (sy_publication s)) s
  | WaitParked _ => λ r, (r = Ok true → sy_publication s !! i ≠ Some Lost)
      ∧ s' = with_parked (sy_parked s)
               (if sy_publication s !! i is Some Unroutable then <[i := Returned]> (sy_publication s)
                else sy_publication s) s
  | PollReturns => λ r, (r = NothingReturned → sy_publication s !! i ≠ Some Returned)
      ∧ s' = with_parked (sy_parked s)
               (if r is AReturn _ then delete i (sy_publication s) else sy_publication s) s
  | Ack _ => λ _, s' = with_acked (d :: sy_acked s) s
  end r.

Definition sys_step (i : nat) R (e : systemE R) (s : system) (r : R) (s' : system) : Prop :=
  match e in systemE R return R → Prop with
  | OfRequest e => λ r, ∃ w', request_step i _ e (sy_world s) r w'
      ∧ told e r (sy_answers s) (sy_world s) w' ∧ s' = with_orders w' (sy_routed s) s
  | Panics => λ _, s' = s
  | OfWorker e => λ r, ∃ w' routed', worker_step i _ e (sy_world s) r w'
      ∧ broker_routes e r (sy_world s) w' (sy_routed s) routed' ∧ s' = with_orders w' routed' s
  | OfStore e => λ r, ∃ db', InventoryService.store_step i _ e (sy_stock s) r db' ∧ s' = with_stock db' (sy_answers s) s
  | Reply request answer => λ _, s' = with_stock (sy_stock s) ((request, answer) :: sy_answers s) s
  | TakeDelivery => λ d, s' = s ∧ ∃ m, m ∈ sy_routed s ∧ carries m d
  | OfDelivery d e => λ r, delivery_step i d e s r s'
  | OfNotify e => λ r, ∃ n', notify_step i _ e (sy_notify s) r n'
      ∧ s' = with_notify n' (if e is Send email then email :: sy_emails s else sy_emails s) s
  end r.

(** An operator's redrive of an event, and what the warehouse does. *)
Definition sys_env (s s' : system) : Prop :=
  (∃ w', env_step (sy_world s) w' ∧ w_reserved w' = w_reserved (sy_world s)
     ∧ s' = with_orders w' (sy_routed s) s)
  ∨ ∃ db', warehouse_step (sy_stock s) db' ∧ s' = with_stock db' (sy_answers s) s.

(** ** The threads *)

(** What the subscription of order-accepted events answers a delivery with. *)
(* @src notification-service/internal/notification/wiring/wiring.go:40-50 New *)
Definition answer_delivery (lease : Z) (d : Delivery) R (e : deliveryE R) : prog systemE R :=
  match e in deliveryE R return prog systemE R with
  | Handle _ messageID body =>
      embed (@OfNotify) (OrderAccepted_Handle ParseAddress_error (HandleOrderAccepted_Execute lease) messageID body)
  | e => trigger (OfDelivery d e)
  end.

Definition handle_delivery (lease : Z) (looks : nat) (d : Delivery)
    : prog systemE (option served) :=
  interp (answer_delivery lease d) (_ ← handle looks OrderAcceptedSubscription d; Ret None).

Inductive participant :=
| APIRequest (buffer : list N) (rq : request)
| OutboxWorker (lease pollInterval : Z) (rounds : nat)
| AReservation (ctx : correlation.Context) (request : ReserveStockRequest)
| ADelivery (lease : Z) (looks : nat).

(** The calls of a request that is served, each of which may panic instead. *)
Definition of_http R (e : httpE R) : systemE R :=
  match e in sumE _ _ R return systemE R with
  | inlE e => OfRequest e
  | inrE c => match c in crashE R return systemE R with Crash => Panics end
  end.

(** A request ends with its answer. *)
Definition participant_prog (p : participant) : prog systemE (option served) :=
  match p with
  | APIRequest buffer rq => embed of_http (s ← serve buffer rq; Ret (Some s))
  | OutboxWorker lease pollInterval rounds =>
      embed (@OfWorker) (_ ← Run rounds (NewPublishOrderEvents lease pollInterval); Ret None)
  | AReservation ctx request =>
      answer ← embed (@OfStore) (server_ReserveStock ctx request);
      _ ← trigger (Reply request answer); Ret None
  | ADelivery lease looks =>
      d ← trigger TakeDelivery; handle_delivery lease looks d
  end.

Definition kept (p : participant) (answer : option served) (s : system) : Prop :=
  match p, answer with
  | APIRequest _ rq, Some r => served_order (rq_IdempotencyKey rq) (sv_answer r) (sy_world s)
  | _, _ => True
  end.

(** ** The invariant *)

(** A stored accepted order, and the message of its event. *)
Definition accepted_order (w : world) (o : Order) : Prop :=
  ∃ id, view (w_db w) id = Some o ∧ ord_status o = StatusAccepted
    ∧ order_valid o ∧ order_encodable o ∧ ord_id o = uuid_String id.
Definition announces (m : Message) (eventID : string) (o : Order) : Prop :=
  (∃ eid, eventID = uuid_String eid)
  ∧ ∃ correlationID, message_of (newOrderAcceptedEvent eventID o) correlationID = Ok m.

(** The units an order asks of a product, the stock it holds in inventory-service's
    tables, and stock that covers every accepted order at once. *)
Definition ordered (o : Order) (sku : string) : Z :=
  foldr (λ item sum, quantity item + sum)%Z 0%Z
    (filter (λ item, productSKU item = sku) (ord_orderItems o)).
Definition holds_stock (id : uuid) (o : Order) (db : inventory_db) : Prop :=
  ∀ item, item ∈ ord_orderItems o →
    ∃ row, reservations db !! (id, productSKU item) = Some row
      ∧ rs_quantity row = ordered o (productSKU item).
Definition covered (w : world) (db : inventory_db) : Prop :=
  ∀ sku row os, stock_items db !! sku = Some row →
    NoDup (ord_id <$> os) → Forall (accepted_order w) os →
    (foldr (λ o sum, ordered o sku + sum)%Z 0%Z os ≤ sk_on_hand row)%Z.

(** The email of the order was accepted by the provider, or the delivery was parked. *)
Definition concluded (s : system) (d : Delivery) (o : Order) : Prop :=
  (∃ eventID, effect_of (command_of eventID o) ∈ nw_accepted (sy_notify s))
  ∨ ∃ reason now, parked_message OrderAcceptedSubscription d reason now ∈ sy_parked s.

Definition emails_about (s : system) (key : EffectKey) : list Email :=
  filter (λ email, key_of_email email = key) (sy_emails s).

Record sys_ok (s : system) : Prop := {
  so_orders : sound (sy_world s);
  so_notify : notify_sound (sy_notify s);
  so_routed : ∀ m, m ∈ sy_routed s → ∃ o eventID, accepted_order (sy_world s) o ∧ announces m eventID o;
  so_published : ∀ id, id ∈ w_published (sy_world s) →
    ∃ o eventID m, accepted_order (sy_world s) o ∧ ord_id o = uuid_String id
      ∧ announces m eventID o ∧ m ∈ sy_routed s;
  so_emails : ∀ email, email ∈ sy_emails s →
    ∃ o eventID, accepted_order (sy_world s) o ∧ email = email_of (command_of eventID o);
  so_sends : ∀ key, sends_of (sy_notify s) key = Z.of_nat (length (emails_about s key));
  so_acked : ∀ d, d ∈ sy_acked s → ∃ o eventID m, accepted_order (sy_world s) o
    ∧ announces m eventID o ∧ carries m d ∧ concluded s d o;
  so_stock : inventory_wf (sy_stock s);
  so_answers : ∀ sent, (sent, Ok tt) ∈ sy_answers s →
    InventoryService.reserve_post (InventoryGrpc.command_of sent) (Ok tt) (sy_stock s);
  so_reserved : ∀ request, request ∈ w_reserved (sy_world s) →
    (request_of request, Ok tt) ∈ sy_answers s;
  so_sent : ∀ key, key ∈ nw_accepted (sy_notify s) →
    ∃ email, email ∈ sy_emails s ∧ key_of_email email = key;
}.

Record sys_rely (i : nat) (s s' : system) : Prop := {
  sr_orders : Rely i (sy_world s) (sy_world s');
  sr_notify : undisturbed i (sy_notify s) (sy_notify s');
  sr_routed : sy_routed s ⊆ sy_routed s';
  sr_parked : sy_parked s ⊆ sy_parked s';
  sr_publication : sy_publication s' !! i = sy_publication s !! i;
  sr_stock : InventoryService.grows i (sy_stock s) (sy_stock s');
}.
Definition sys_guar (i : nat) (s s' : system) : Prop := ∀ j, j ≠ i → sys_rely j s s'.

#[export] Instance sys_rely_preorder i : PreOrder (sys_rely i).
Proof.
  split.
  - intros s. by split.
  - intros s1 s2 s3 [A1 A2 A3 A4 A5 A6] [B1 B2 B3 B4 B5 B6].
    split; [by etransitivity..|congruence|by etransitivity].
Qed.

Lemma accepted_grows w w' o : accepted_order w o → keeps_orders w w' → accepted_order w' o.
Proof.
  intros (id & Hv & Hst & Hval & Henc & Hid) [Hk _]. destruct (Hk _ _ Hv) as (o' & Hv' & _ & [->|Hp]).
  - by exists id.
  - by rewrite Hst in Hp.
Qed.
Lemma accepted_rely i s s' o :
  accepted_order (sy_world s) o → sys_rely i s s' → accepted_order (sy_world s') o.
Proof. intros Ho [Hr _ _ _ _ _]. eapply accepted_grows; [done|]. by apply grows_keeps, (Rely_grows i). Qed.

Lemma accepted_stable i s s' o :
  accepted_order (sy_world s) o → sys_rely i s s' ∨ sys_guar i s s' → accepted_order (sy_world s') o.
Proof.
  intros Ho [Hr|Hg]; [by eapply accepted_rely|]. eapply (accepted_rely (S i)); [done|]. apply Hg. lia.
Qed.

(** ** Steps of each part *)

Lemma orders_frame i s w' routed' :
  sys_ok s → sound w' → Guar i (sy_world s) w' → sy_routed s ⊆ routed' →
  (∀ m, m ∈ routed' → m ∈ sy_routed s ∨ ∃ o eventID, accepted_order (sy_world s) o ∧ announces m eventID o) →
  (∀ id, id ∈ w_published w' → id ∈ w_published (sy_world s)
     ∨ ∃ o eventID m, accepted_order (sy_world s) o ∧ ord_id o = uuid_String id
         ∧ announces m eventID o ∧ m ∈ routed') →
  (∀ request, request ∈ w_reserved w' → request ∈ w_reserved (sy_world s)
     ∨ (request_of request, Ok tt) ∈ sy_answers s) →
  sys_ok (with_orders w' routed' s) ∧ sys_guar i s (with_orders w' routed' s).
Proof.
  intros [H1 H2 H3 H4 H5 H6 H7 H8 H9 H10 H11] Hs HG Hsub Hm Hp Hres.
  pose proof (grows_keeps _ _ (proj1 HG)) as Hk. split.
  - split; cbn; try done.
    + intros m [Hin|(o & eid & Ho & Ha)]%Hm; [destruct (H3 _ Hin) as (o & eid & Ho & Ha)|];
        exists o, eid; by split; [eapply accepted_grows|].
    + intros id [Hin|(o & eid & m & Ho & Hr)]%Hp.
      * destruct (H4 _ Hin) as (o & eid & m & Ho & Hid & Ha & Hin'). exists o, eid, m.
        split_and!; [by eapply accepted_grows|done..|by apply Hsub].
      * exists o, eid, m. by split; [eapply accepted_grows|].
    + intros email (o & eid & Ho & He)%H5. exists o, eid. by split; [eapply accepted_grows|].
    + intros d (o & eid & m & Ho & Hr)%H7. exists o, eid, m. by split; [eapply accepted_grows|].
    + intros request [Hin|Hin]%Hres; [by apply H10|done].
  - intros j Hj. split; cbn; try done. by apply (Guar_Rely j i).
Qed.

Lemma request_frame i {R} (e : orderE R) s r s' w' :
  sys_ok s → request_step i R e (sy_world s) r w' → told e r (sy_answers s) (sy_world s) w' →
  s' = with_orders w' (sy_routed s) s →
  sound w' → Guar i (sy_world s) w' → sys_ok s' ∧ sys_guar i s s'.
Proof.
  intros Hok (Hp & _ & Hstep) Htold -> Hs HG. apply orders_frame; [done..|by left|rewrite Hp; by left|].
  destruct e; cbn in Hstep, Htold; try (destruct_and?; intros; left; congruence).
  - destruct Htold as [(client & -> & Hclient) ->]. unfold reserver_Reserve in *.
    destruct (client (request_of request)) as [[]|] eqn:Hc; [|by left].
    intros request' [->|Hin]%elem_of_cons; [right; by apply Hclient|by left].
  - destruct Hstep as (v7 & v4 & _ & _ & ->). by left.
Qed.

(** What a worker publishes must be the event of an accepted order. *)
Definition genuine_event (event : OrderAcceptedEvent) (s : system) : Prop :=
  ∃ o eid, accepted_order (sy_world s) o ∧ event = newOrderAcceptedEvent (uuid_String eid) o.
Definition worker_pre R (e : workerE R) (s : system) : Prop :=
  match e with PublishOrderAccepted event _ => genuine_event event s | _ => True end.

Lemma worker_frame i {R} (e : workerE R) s r s' w' routed' :
  sys_ok s → worker_pre R e s → worker_step i R e (sy_world s) r w' →
  broker_routes e r (sy_world s) w' (sy_routed s) routed' → s' = with_orders w' routed' s →
  sound w' → Guar i (sy_world s) w' → sys_ok s' ∧ sys_guar i s s'.
Proof.
  intros Hok Hpre (Er & _ & _ & Hstep) Hroutes -> Hs HG.
  assert (∀ request, request ∈ w_reserved w' → request ∈ w_reserved (sy_world s)
     ∨ (request_of request, Ok tt) ∈ sy_answers s) as Hres by (rewrite Er; by left).
  destruct e; cbn in Hroutes, Hpre;
    try (subst routed'; apply orders_frame; [done..|by left|destruct Hstep as [-> _]; by left|done]).
  destruct Hpre as (o & eid & Ho & ->). pose proof Ho as (id & _ & _ & _ & _ & Hid).
  destruct Hstep as (_ & _ & Hpub).
  destruct Hroutes as [(-> & Hp & _)|(m & Hm & ->)].
  { apply orders_frame; [done..|by left|rewrite Hp; by left|done]. }
  assert (announces m (uuid_String eid) o) as Ha by (split; eauto).
  apply orders_frame; [done..|set_solver| | |done].
  - intros m' [->|Hin]%elem_of_cons; [right; by exists o, (uuid_String eid)|by left].
  - intros id' Hid'. destruct Hpub as [[Hpub _]|(oid & Hoid & Hpub)]; [left; congruence|].
    rewrite Hpub in Hid'. apply elem_of_union in Hid' as [->%elem_of_singleton|Hin]; [|by left].
    right. exists o, (uuid_String eid), m. cbn in Hoid. rewrite Hid, uuid_Parse_String in Hoid. injection Hoid as <-.
    split_and!; [done..|by left].
Qed.

(** What a handler sends must be the email of an accepted order. *)
Definition notify_pre R (e : notifyE R) (s : system) : Prop :=
  match e with
  | Send email => ∃ o eventID, accepted_order (sy_world s) o ∧ email = email_of (command_of eventID o)
  | _ => True
  end.

Lemma notify_frame i {R} (e : notifyE R) s r s' n' :
  sys_ok s → notify_pre R e s → notify_step i R e (sy_notify s) r n' →
  s' = with_notify n' (if e is Send email then email :: sy_emails s else sy_emails s) s →
  notify_sound n' → others i (sy_notify s) n' → sys_ok s' ∧ sys_guar i s s'.
Proof.
  intros [H1 H2 H3 H4 H5 H6 H7 H8 H9 H10 H11] Hpre Hstep -> Hn Ho. split.
  - split; cbn; try done.
    + destruct e; try exact H5. intros email' [->|Hin]%elem_of_cons; [done|by apply H5].
    + intros key. specialize (H6 key). unfold emails_about, sends_of in *. cbn -[filter].
      destruct e; cbn in Hstep;
        try (destruct r; destruct_and?; subst n'; exact H6);
        try (destruct Hstep as (f & now & tbl & _ & ->); exact H6).
      subst n'. cbn -[filter]. rewrite filter_cons. destruct (decide (key = key_of_email email)) as [->|Hne].
      * rewrite decide_True by done. rewrite lookup_insert_eq. cbn. unfold sends_of. rewrite H6. lia.
      * rewrite decide_False by done. by rewrite lookup_insert_ne.
    + intros d (o & eid & m & Hor & Ha & Hc & Hcon)%H7. exists o, eid, m. split_and!; [done..|].
      destruct Hcon as [[eid' Hacc]|Hparked]; [left; exists eid'|by right].
      apply (ud_accepted (S i) _ _ (Ho (S i) ltac:(lia))), Hacc.
    + intros key. specialize (H11 key). destruct e; cbn in Hstep;
        try (destruct r; destruct_and?; subst n'; exact H11);
        try (destruct Hstep as (f & now & tbl & _ & ->); exact H11).
      subst n'. assert (key ∈ ({[ key_of_email email ]} ∪ nw_accepted (sy_notify s) : gset EffectKey) →
        ∃ email', email' ∈ email :: sy_emails s ∧ key_of_email email' = key) as Hsent.
      { intros [->%elem_of_singleton|(email' & Hin & <-)%H11]%elem_of_union; [exists email|exists email'];
          (split; [|done]); [by left|by right]. }
      destruct r; cbn; [exact Hsent|]. intros Hin. apply Hsent. set_solver.
  - intros j Hj. split; cbn; try done. by apply Ho.
Qed.

(** *** From a part to the system *)
Section lift.
Context {E : Type → Type} {W : Type} (H : nat → ∀ R, E R → W → R → W → Prop) (Inv : W → Prop).
Context (Rl Gr : nat → relation W) (proj : system → W) (φ : ∀ R, E R → systemE R).
Context (pre : ∀ R, E R → system → Prop).
Hypothesis lift_rely : ∀ i s s', sys_rely i s s' → Rl i (proj s) (proj s').
Hypothesis lift_inv : ∀ s, sys_ok s → Inv (proj s).
Hypothesis lift_step : ∀ i R (e : E R) s r s', sys_ok s → pre R e s → sys_step i R (φ R e) s r s' →
  H i R e (proj s) r (proj s')
  ∧ (Inv (proj s') → Gr i (proj s) (proj s') → sys_ok s' ∧ sys_guar i s s').

(** Each call of the program may be made when it is. *)
Fixpoint permits {A} (i : nat) (p : prog E A) (s : system) : Prop :=
  match p with
  | Ret _ => True
  | Vis e k => ∀ s1, sys_rely i s s1 → sys_ok s1 →
      pre _ e s1 ∧ ∀ r s2, sys_step i _ (φ _ e) s1 r s2 → sys_ok s2 → permits i (k r) s2
  end.

Lemma lift_wp {A} i (p : prog E A) Q (P : system → Prop) s :
  (∀ j s s', P s → sys_rely j s s' → P s') →
  wp H Inv Rl Gr i p Q (proj s) → permits i p s → P s →
  wp sys_step sys_ok sys_rely sys_guar i (embed φ p) (λ a s', Q a (proj s') ∧ P s') s.
Proof.
  intros HP. revert s. induction p as [a|R e k IH]; cbn; intros s Hwp Hper HPs s1 Hr Hok;
    pose proof (HP _ _ _ HPs Hr) as HP1; [split; [by apply Hwp; [apply lift_rely|apply lift_inv]|done]|].
  intros r s2 Hstep. destruct (Hper s1 Hr Hok) as [Hpre Hk].
  destruct (lift_step _ _ _ _ _ _ Hok Hpre Hstep) as [Hh Hback].
  destruct (Hwp _ (lift_rely _ _ _ Hr) (lift_inv _ Hok) _ _ Hh) as (Hi & Hg & Hwp').
  destruct (Hback Hi Hg) as [Hok' Hg']. split_and!; [done..|]. apply IH; [done|by apply Hk|].
  apply (HP (S i) s1); [done|]. apply Hg'. lia.
Qed.

Lemma lift_done {A} i (p : prog E A) s :
  wp H Inv Rl Gr i p (λ _ _, True) (proj s) → permits i p s →
  wp sys_step sys_ok sys_rely sys_guar i (embed φ p) (λ _ _, True) s.
Proof.
  intros Hwp Hper. eapply wp_mono; [|by apply (lift_wp i p (λ _ _, True) (λ _, True))]. done.
Qed.

Lemma permits_bind {A B} i (p : prog E A) (f : A → prog E B) s :
  permits i p s → (∀ a s', permits i (f a) s') → permits i (p ≫= f) s.
Proof.
  intros Hp Hf. unfold mbind, prog_bind. revert s Hp. induction p as [a|R e k IH]; cbn; [done|].
  intros s Hp s1 Hr Hok. destruct (Hp s1 Hr Hok) as [Hpre Hk]. split; [done|]. eauto.
Qed.

(** A program whose calls are fine as long as [P] holds, which nothing undoes. *)
Lemma permits_static {A} (P : system → Prop) (fine : ∀ R, E R → Prop) i (p : prog E A) h Q s :
  (∀ s s', P s → sys_rely i s s' → P s') →
  (∀ R (e : E R) s r s', P s → fine R e → sys_ok s → sys_step i R (φ R e) s r s' → P s') →
  (∀ R (e : E R) s, fine R e → P s → pre R e s) →
  respects (λ _ R e, fine R e) p h Q → P s → permits i p s.
Proof.
  intros Hrely Hown Hpre. revert h s. induction p as [a|R e k IH]; cbn; [done|].
  intros h s [Hf Hk] HP s1 Hr Hok. pose proof (Hrely _ _ HP Hr) as HP1. split; [by apply Hpre|].
  intros r s2 Hstep _. eapply IH; [apply Hk|]. by eapply Hown.
Qed.
End lift.

(** ** The threads keep the invariant *)

Abbreviation sys_wp := (wp sys_step sys_ok sys_rely sys_guar).

Lemma sys_done {A} i (a : A) s : sys_wp i (Ret a) (λ _ _, True) s.
Proof. by apply wp_ret. Qed.

Lemma api_request_wp i buffer rq s :
  sys_wp i (participant_prog (APIRequest buffer rq)) (kept (APIRequest buffer rq)) s.
Proof.
  eapply wp_mono; [|apply (lift_wp http_step sound Rely Guar sy_world of_http (λ _ _ _, True)
    ltac:(by intros ??? []) ltac:(by intros ? [])) with (P := λ _, True)
    (Q := λ r w, if r is Some s then served_order (rq_IdempotencyKey rq) (sv_answer s) w else True)].
  - by intros [r|] s1 [Hkept _].
  - intros j R [R1 e|R1 []] s1 r s2 Hok _; cbn.
    + intros (w' & Hstep & Htold & ->). split; [exact Hstep|]. intros. by eapply request_frame.
    + intros ->. split; [done|]. intros _ _. split; [done|]. by intros k _.
  - done.
  - apply wp_bind; [apply _|]. eapply wp_mono; [|by apply serve_wp]. intros a w Ha.
    apply wp_ret. intros w1 Hr _. eapply served_order_grows; [exact Ha|exact Hr].
  - eapply (permits_static _ _ (λ _, True) (λ _ _, True) _ _ [] (λ _ _, True)); try done.
    eapply respects_mono; [|apply respects_runs]. done.
  - done.
Qed.

(** *** The worker *)

Lemma genuine_rely i event s s' : genuine_event event s → sys_rely i s s' → genuine_event event s'.
Proof. intros (o & eid & Ho & Hr) Hs. exists o, eid. by split; [eapply accepted_rely|]. Qed.

Definition worker_quiet R (e : workerE R) : Prop :=
  match e with PublishOrderAccepted _ _ => False | _ => True end.
Abbreviation worker_permits i p s := (permits (@OfWorker) worker_pre i p s).

Lemma quiet_permits {A} i (p : prog workerE A) h s :
  respects (λ _ R e, worker_quiet R e) p h (λ _ _, True) → worker_permits i p s.
Proof.
  intros Hq. eapply (permits_static _ _ (λ _, True) worker_quiet); [done|done| |exact Hq|done].
  intros R e s' Hfine _. destruct e; done.
Qed.

Lemma settle_quiet u entry published h :
  respects (λ _ R e, worker_quiet R e) (settle u entry published) h (λ _ _, True).
Proof.
  unfold settle. destruct published as [[]|err]; [done|].
  destruct (is_app err ErrPublisherUnavailable); [done|].
  destruct (is_app err ErrEventUnpublishable); [done|]. by destruct (_ <=? _)%Z.
Qed.
Lemma delete_quiet u h :
  respects (λ _ R e, worker_quiet R e) (deleteOldPublishedEvents u) h (λ _ _, True).
Proof.
  apply respects_trigger; [done|]. intros now. destruct (_ && _); [done|].
  apply respects_trigger; [done|]. by intros [n|err].
Qed.

Lemma claimed_event_genuine s entry eid row :
  sys_ok s → db_outbox (w_db (sy_world s)) !! eid = Some row →
  eventFromPayload (uuid_String (ob_event_id row)) (uuid_String (ob_order_id row)) (ob_payload row)
    = Ok (oe_Event entry) →
  genuine_event (oe_Event entry) s.
Proof.
  intros Hok Hl Hd. pose proof (proj1 (so_orders _ Hok)) as Ho. pose proof (snd_wf _ Ho) as Hwf.
  destruct (wf_outbox _ Hwf _ _ Hl) as [Hid _]. rewrite Hid in Hd.
  destruct (stored_event_is_understood (sy_world s) (ob_order_id row) (oe_Event entry) Ho) as
    (o & Hv & Hst & Hev & Hval & Henc & eid' & Heid); [by exists eid, row|].
  exists o, eid'. rewrite <-Heid. split; [|done]. exists (ob_order_id row).
  by destruct (stored_order_is_proper _ _ _ Hwf Hv) as (_ & _ & Hoid & _).
Qed.

Lemma permits_call {A R} i (e : workerE R) (k : R → prog workerE A) s :
  worker_quiet R e → (∀ r s2, sys_ok s2 → (∃ s1, sys_step i R (OfWorker e) s1 r s2) → worker_permits i (k r) s2) →
  worker_permits i (trigger e ≫= k) s.
Proof. intros Hq Hk s1 _ _. split; [by destruct e|]. intros r s2 Hstep Hok. eauto. Qed.

Lemma publishNext_permits i u s : worker_permits i (publishNext u) s.
Proof.
  apply permits_call; [done|]. intros [entry [err|]] s2 Hok [s1 Hstep].
  - destruct (is_app err ErrOutboxEmpty); [|destruct (is_app err ErrEventUnpublishable)].
    + apply permits_bind; [apply (quiet_permits _ _ []), delete_quiet|intros; exact I].
    + by apply (quiet_permits _ _ []).
    + by apply (quiet_permits _ _ []).
  - destruct Hstep as (w' & routed & Hstep & _ & ->).
    destruct Hstep as (_ & _ & _ & _ & f & now & token & locked & choice & _ & Hc & _).
    apply claim_event in Hc as (eid & row & Hl & Hd).
    intros s3 Hr3 Hok3. split; [|intros r s4 _ _; apply (quiet_permits _ _ []), settle_quiet].
    eapply genuine_rely; [|done]. by eapply claimed_event_genuine.
Qed.

Lemma Run_permits i rounds u s : worker_permits i (Run rounds u) s.
Proof.
  revert u s. induction rounds as [|rounds IH]; intros u s; [exact I|].
  apply permits_call; [done|]. intros [c|] s1 _ _; [exact I|].
  apply permits_bind; [apply publishNext_permits|]. intros [u' pause] s2.
  case_bool_decide; [apply IH|]. apply permits_call; [done|]. intros [c|] s3 _ _; [exact I|apply IH].
Qed.

Lemma outbox_worker_wp i lease pollInterval rounds s :
  sys_wp i (participant_prog (OutboxWorker lease pollInterval rounds)) (λ _ _, True) s.
Proof.
  apply (lift_done worker_step sound Rely Guar sy_world (@OfWorker) worker_pre
    ltac:(by intros ??? []) ltac:(by intros ? [])).
  - intros j R e s1 r s2 Hok Hpre (w' & routed & Hstep & Hroutes & ->). split; [exact Hstep|].
    intros. by eapply worker_frame.
  - apply wp_bind; [apply _|]. eapply wp_mono; [|apply (Run_wp jsonb_value)]. intros a w' _. apply wwp_done.
  - apply permits_bind; [apply Run_permits|intros; exact I].
Qed.

(** *** A reservation *)

Lemma stock_frame i s db' answers' :
  sys_ok s → inventory_wf db' → InventoryService.grows i (sy_stock s) db' → sy_answers s ⊆ answers' →
  (∀ sent, (sent, Ok tt) ∈ answers' → (sent, Ok tt) ∈ sy_answers s
     ∨ InventoryService.reserve_post (InventoryGrpc.command_of sent) (Ok tt) db') →
  sys_ok (with_stock db' answers' s) ∧ sys_guar i s (with_stock db' answers' s).
Proof.
  intros [H1 H2 H3 H4 H5 H6 H7 H8 H9 H10 H11] Hwf Hg Hsub Hnew. split; [|by intros j Hj; split].
  split; cbn; try done.
  - intros sent [Hin|Hpost]%Hnew; [|done]. exact (yes_grows i _ _ _ (H9 _ Hin) Hg).
  - intros request Hin%H10. by apply Hsub.
Qed.

Lemma a_reservation_wp i ctx request s :
  sys_wp i (participant_prog (AReservation ctx request)) (λ _ _, True) s.
Proof.
  apply wp_bind; [apply _|]. eapply wp_mono; [|apply (lift_wp InventoryService.store_step inventory_wf
    InventoryService.grows InventoryService.grows sy_stock (@OfStore) (λ _ _ _, True)
    ltac:(by intros ??? []) ltac:(by intros ? [])) with (P := λ _, True); [..|apply server_wp| |done]].
  - intros answer s1 [Hyes _] s2 Hr2 Hok2 [] s3 ->.
    destruct (stock_frame i s2 (sy_stock s2) ((request, answer) :: sy_answers s2)) as [Hok3 Hg3];
      [done|apply Hok2|done|set_solver| |].
    { intros sent [[= <- <-]|Hin]%elem_of_cons; [right|by left]. eapply yes_grows; [by apply Hyes|apply Hr2]. }
    split_and!; [done..|]. apply sys_done.
  - intros j R e s1 r s2 Hok _ (db' & Hstep & ->). split; [exact Hstep|]. intros Hwf Hg.
    apply stock_frame; [done..|]. by left.
  - done.
  - eapply (permits_static _ _ (λ _, True) (λ _ _, True) _ _ [] (λ _ _, True)); try done.
    eapply respects_mono; [|apply respects_runs]. done.
Qed.

(** *** A delivery *)

(** The delivery carries the message of an accepted order. *)
Definition delivers (d : Delivery) (eventID : string) (o : Order) (s : system) : Prop :=
  accepted_order (sy_world s) o ∧ ∃ m, announces m eventID o ∧ carries m d.
Lemma delivers_rely i d eventID o s s' : delivers d eventID o s → sys_rely i s s' → delivers d eventID o s'.
Proof. intros [Ho Hm] Hr. split; [by eapply accepted_rely|done]. Qed.

Lemma parked_frame i s parked publications :
  sys_ok s → sy_parked s ⊆ parked → (∀ j, j ≠ i → publications !! j = sy_publication s !! j) →
  sys_ok (with_parked parked publications s) ∧ sys_guar i s (with_parked parked publications s).
Proof.
  intros [H1 H2 H3 H4 H5 H6 H7 H8 H9 H10 H11] Hp Hpub. split.
  - split; cbn; try done. intros d (o & eid & m & Ho & Ha & Hc & Hcon)%H7. exists o, eid, m.
    split_and!; [done..|]. destruct Hcon as [Hacc|(reason & now & Hin)]; [by left|right].
    exists reason, now. by apply Hp.
  - intros j Hj. split; cbn; try done. by apply Hpub.
Qed.
Lemma acked_frame i s d o eventID :
  sys_ok s → delivers d eventID o s → concluded s d o →
  sys_ok (with_acked (d :: sy_acked s) s) ∧ sys_guar i s (with_acked (d :: sy_acked s) s).
Proof.
  intros [H1 H2 H3 H4 H5 H6 H7 H8 H9 H10 H11] (Ho & m & Ha & Hc) Hcon. split; [|by intros j Hj; split].
  split; cbn; try done. intros d' [->|Hin]%elem_of_cons; [by exists o, eventID, m|by apply H7].
Qed.

(** The only email the use case sends is that of its command. *)
Lemma execute_sends lease command h :
  respects (λ _ R e, match e with Send email => email = email_of command | _ => True end)
    (HandleOrderAccepted_Execute lease command) h (λ _ _, True).
Proof.
  apply respects_bind. apply respects_bind, respects_trigger; [done|]. intros [token|text]; [|exact I].
  apply respects_trigger; [done|]. intros [[attempts|]|err]; [|..|exact I].
  - cbn -[send_claimed]. unfold send_claimed. destruct (_ <=? _)%Z; [exact I|].
    apply respects_bind, respects_trigger; [done|]. intros [[n|]|err].
    + apply respects_trigger; [done|]. intros [[]|text]; (apply respects_bind, respects_trigger; [done|]);
        intros [k|err]; cbn; [by destruct (_ =? _)%Z|exact I..].
    + exact I.
    + cbn. by repeat case_match.
  - apply respects_bind, respects_trigger; [done|]. intros [[state|]|err]; cbn; [|exact I..].
    by destruct (bool_decide _).
Qed.

Section a_delivery.
Context (i : nat) (lease : Z) (d : Delivery) (eventID : string) (o : Order).
Abbreviation on_delivery p Q s := (sys_wp i (interp (answer_delivery lease d) p) Q s).
Abbreviation delivered := (delivers d eventID o).

Lemma on_call {A R} (e : deliveryE R) (k : R → prog deliveryE A) Q s :
  answer_delivery lease d R e = trigger (OfDelivery d e) → delivered s →
  (∀ s1 r s2, sys_rely i s s1 → sys_ok s1 → delivered s1 → delivery_step i d e s1 r s2 →
     sys_ok s2 ∧ sys_guar i s1 s2 ∧ (delivered s2 → on_delivery (k r) Q s2)) →
  on_delivery (trigger e ≫= k) Q s.
Proof.
  intros He Hd Hk. apply wp_interp_call; [apply _|]. rewrite He. intros s1 Hr Hok r s2 Hstep.
  pose proof (delivers_rely _ _ _ _ _ _ Hd Hr) as Hd1.
  destruct (Hk _ _ _ Hr Hok Hd1 Hstep) as (Hok2 & Hg & Hwp). split_and!; [done..|].
  apply wp_ret. intros s3 Hr3 _. eapply wp_rely; [apply _| |exact Hr3]. apply Hwp.
  eapply (delivers_rely (S i)); [exact Hd1|]. apply Hg. lia.
Qed.
(** A call that changes nothing. *)
Lemma on_quiet {A R} (e : deliveryE R) (k : R → prog deliveryE A) Q s :
  answer_delivery lease d R e = trigger (OfDelivery d e) → delivered s →
  (∀ s1 r s2, delivery_step i d e s1 r s2 → s2 = s1) →
  (∀ s1 r, sys_rely i s s1 → delivery_step i d e s1 r s1 → delivered s1 → on_delivery (k r) Q s1) →
  on_delivery (trigger e ≫= k) Q s.
Proof.
  intros He Hd Hsame Hk. apply on_call; [done|done|]. intros s1 r s2 Hr Hok Hd1 Hstep.
  pose proof (Hsame _ _ _ Hstep) as ->. split_and!; [done|by intros ??|by apply Hk].
Qed.

Lemma on_ret {A} (a : A) s : delivered s → on_delivery (Ret a) (λ _, delivered) s.
Proof. intros Hd. apply wp_ret. intros s1 Hr _. by eapply delivers_rely. Qed.

Lemma reject_delivery_wp {A} (a : A) s :
  delivered s → on_delivery (_ ← consumer_reject; Ret a) (λ _, delivered) s.
Proof. intros Hd. apply on_quiet; [done|done|done|]. intros s1 r _ _ Hd1. by apply on_ret. Qed.
Lemma acknowledge_delivery_wp {A} (a : A) s :
  delivered s → (∀ s1, sys_rely i s s1 → sys_ok s1 → concluded s1 d o) →
  on_delivery (_ ← acknowledge; Ret a) (λ _, delivered) s.
Proof.
  intros Hd Hcon. apply on_call; [done|done|]. intros s1 r s2 Hr Hok Hd1 ->.
  destruct (acked_frame i s1 d o eventID) as [Hok2 Hg]; [done|done|by apply Hcon|].
  split_and!; [done..|]. intros Hd2. by apply on_ret.
Qed.

(** A look at the returns: what it receives is not there any more. *)
Lemma on_poll {A} (k : polled → prog deliveryE A) Q s :
  delivered s →
  (∀ s1 r s2, sys_rely i s s1 → (r = NothingReturned → sy_publication s1 !! i ≠ Some Returned ∧ s2 = s1) →
     delivered s2 → on_delivery (k r) Q s2) →
  on_delivery (trigger PollReturns ≫= k) Q s.
Proof.
  intros Hd Hk. apply on_call; [done|done|]. intros s1 r s2 Hr Hok Hd1 [Hnot ->].
  set (pub := if r is AReturn _ then delete i (sy_publication s1) else sy_publication s1).
  destruct (parked_frame i s1 (sy_parked s1) pub) as [Hok2 Hg]; [done|done| |].
  { intros j Hj. subst pub. destruct r; by rewrite ?lookup_delete_ne. }
  split_and!; [done..|]. intros Hd2. eapply Hk; [exact Hr| |done].
  intros ->. split; [by apply Hnot|by destruct s1].
Qed.

Lemma drainReturns_wp looks s : delivered s → on_delivery (drainReturns looks) (λ _, delivered) s.
Proof.
  revert s. induction looks as [|looks IH]; intros s Hd; [by apply on_ret|].
  apply on_poll; [done|]. intros s1 r s2 _ _ Hd2. destruct r; [by apply on_ret|by apply IH..].
Qed.

Lemma park_wp looks reason s :
  delivered s → on_delivery (park looks OrderAcceptedSubscription d reason) (λ _, delivered) s.
Proof.
  intros Hd. apply on_quiet; [done|done|done|]. intros s1 now _ _ Hd1.
  apply wp_interp_bind; [apply _|]. eapply wp_mono; [|by apply drainReturns_wp].
  intros [[]|] s2 Hd2; [|by apply on_ret]. set (copy := parked_message _ _ _ _).
  apply on_call; [done|done|]. intros s3 r s4 Hr3 Hok3 Hd3 [p ->].
  destruct (parked_frame i s3 (if p is Routed then copy :: sy_parked s3 else sy_parked s3)
    (<[i := p]> (sy_publication s3))) as [Hok4 Hg4]; [done| |by intros; rewrite lookup_insert_ne|].
  { destruct p; set_solver. }
  split_and!; [done..|]. intros Hd4. destruct r as [confirmation|text]; [|by apply reject_delivery_wp].
  apply on_call; [done|done|]. intros s5 r s6 Hr5 Hok5 Hd5 [Hconf ->].
  pose proof (sr_publication _ _ _ Hr5) as Hp5. cbn in Hp5. rewrite lookup_insert_eq in Hp5.
  assert (p = Routed → copy ∈ sy_parked s5) as Hin.
  { intros ->. apply (sr_parked _ _ _ Hr5). by left. }
  rewrite Hp5 in Hconf. rewrite Hp5. clear Hok4 Hg4 Hr5.
  set (publications := if p is Unroutable then <[i := Returned]> (sy_publication s5) else sy_publication s5).
  destruct (parked_frame i s5 (sy_parked s5) publications) as [Hok6 Hg6]; [done|done| |].
  { intros j Hj. subst publications. destruct p; rewrite ?lookup_insert_ne; done. }
  split_and!; [destruct p; exact Hok6|destruct p; exact Hg6|]. intros Hd6.
  destruct r as [acknowledged|text]; [|by apply reject_delivery_wp].
  apply on_poll; [done|]. intros s7 r s7' Hr7 Hpoll Hd7.
  destruct r; [|by apply reject_delivery_wp..]. destruct (Hpoll eq_refl) as [Hleft ->]. clear Hpoll.
  destruct acknowledged; [|by apply reject_delivery_wp]. specialize (Hconf eq_refl).
  apply acknowledge_delivery_wp; [done|]. intros s8 Hr8 _. right. exists reason, now.
  apply (sr_parked _ _ _ Hr8), (sr_parked _ _ _ Hr7). cbn. apply Hin.
  pose proof (sr_publication _ _ _ Hr7) as Hp7. cbn in Hp7. rewrite Hp7 in Hleft.
  destruct p; [done|destruct Hleft; apply lookup_insert_eq|by destruct Hleft|by destruct Hconf].
Qed.

Lemma notify_wp_lift (command : OrderAcceptedCommand) s :
  command = command_of eventID o → delivered s →
  sys_wp i (embed (@OfNotify) (HandleOrderAccepted_Execute lease command))
    (λ r s', notify_post command r (sy_notify s') ∧ delivered s') s.
Proof.
  intros -> Hd.
  apply (lift_wp notify_step notify_sound undisturbed others sy_notify (@OfNotify) notify_pre
    ltac:(by intros ??? []) ltac:(by intros ? [])).
  - intros j R e s1 r s2 Hok Hpre (n' & Hstep & ->). split; [exact Hstep|]. intros. by eapply notify_frame.
  - intros j s1 s2. apply delivers_rely.
  - apply HandleOrderAccepted_wp.
  - eapply (permits_static _ _ delivered (λ R e, match e with Send email => email = email_of (command_of eventID o) | _ => True end) _ _ []).
    + apply delivers_rely.
    + intros R e s1 r s2 [Ho Hm] _ _ (n' & _ & ->). by split.
    + intros R e s1 He [Ho _]. destruct e; try done. cbn. by exists o, eventID.
    + apply execute_sends.
    + done.
  - done.
Qed.

Lemma delivers_decodes s :
  delivered s → validateEnvelope OrderAcceptedSubscription d = None
  ∧ decodeOrderAccepted ParseAddress_error (del_MessageId d) (del_Body d) = Ok (command_of eventID o).
Proof.
  intros [(id & _ & _ & Hval & Henc & _) (m & [[eid Heid] [cid Hm]] & Hc)].
  eapply delivery_decodes; [done|done| |done|done].
  rewrite Heid, uuid_String_trimmed. apply uuid_String_nonempty.
Qed.
Lemma handle_delivery_wp looks s :
  delivered s → on_delivery (handle looks OrderAcceptedSubscription d) (λ _, delivered) s.
Proof.
  intros Hd. destruct (delivers_decodes _ Hd) as [Henv Hdec].
  unfold handle. rewrite Henv. apply on_quiet; [done|done|done|]. intros s1 [] _ _ Hd1.
  { by apply reject_delivery_wp. }
  apply wp_interp_call; [apply _|]. cbn [answer_delivery]. unfold OrderAccepted_Handle. rewrite Hdec.
  eapply wp_mono; [|by apply notify_wp_lift]. intros r s2 [[Hsent _] Hd2].
  assert (res_Outcome r ∈ [OutcomeSent; OutcomeAlreadySent] →
    ∀ s3, sys_rely i s2 s3 → sys_ok s3 → concluded s3 d o) as Hcon.
  { intros (row & Hrow & Hst)%Hsent s3 Hr3 Hok3. left. exists eventID.
    destruct (sent_undisturbed i (sy_notify s2) (sy_notify s3) (effect_of (command_of eventID o)))
      as (row' & Hrow' & Hst'); [by exists row|apply Hr3|].
    destruct (ns_rows _ (so_notify _ Hok3) _ _ Hrow') as (_ & _ & _ & Hacc). by apply Hacc. }
  destruct (res_Outcome r); first
    [ by apply reject_delivery_wp
    | apply acknowledge_delivery_wp; [done|]; apply Hcon; set_solver
    | by apply park_wp ].
Qed.
End a_delivery.

Lemma handled_delivery_wp i lease looks d eventID o s :
  delivers d eventID o s → sys_wp i (handle_delivery lease looks d) (λ _ _, True) s.
Proof.
  intros Hd. apply wp_interp_bind; [apply _|].
  eapply wp_mono; [|by apply (handle_delivery_wp i lease d eventID o)]. intros a s' _. apply sys_done.
Qed.
Lemma a_delivery_wp i lease looks s :
  sys_wp i (participant_prog (ADelivery lease looks)) (λ _ _, True) s.
Proof.
  intros s1 Hr Hok d s2 [-> (m & Hin & Hc)]. split_and!; [done|by intros ??|].
  destruct (so_routed _ Hok _ Hin) as (o & eventID & Ho & Ha).
  apply (handled_delivery_wp i lease looks d eventID o). split; [done|by exists m].
Qed.

Lemma participant_wp i p s : sys_wp i (participant_prog p) (kept p) s.
Proof.
  destruct p; [apply api_request_wp| | |]; (apply (wp_mono _ _ _ _ i _ (λ _ _, True)); [done|]);
    [apply outbox_worker_wp|apply a_reservation_wp|apply a_delivery_wp].
Qed.

Lemma sys_env_ok s s' : sys_ok s → sys_env s s' → sys_ok s' ∧ ∀ i, sys_rely i s s'.
Proof.
  intros Hok [(w' & Henv & Er & ->)|(db' & Hw & ->)].
  - destruct (env_sound jsonb_value _ _ (so_orders _ Hok) Henv) as [Hs Hr].
    assert (w_published w' = w_published (sy_world s)) as Hp by apply Henv.
    assert (∀ o, accepted_order (sy_world s) o → accepted_order w' o) as Ho.
    { intros o Ho. eapply accepted_grows; [done|]. by apply grows_keeps, (Rely_grows 0), Hr. }
    destruct Hok as [H1 H2 H3 H4 H5 H6 H7 H8 H9 H10 H11]. split; [|by intros i; split].
    split; cbn; rewrite ?Er, ?Hp; try done.
    + intros m (o & eid & ? & ?)%H3. exists o, eid. auto.
    + intros id (o & eid & m & ? & ?)%H4. exists o, eid, m. auto.
    + intros email (o & eid & ? & ?)%H5. exists o, eid. auto.
    + intros d (o & eid & m & ? & ?)%H7. exists o, eid, m. auto.
  - assert (∀ i, InventoryService.grows i (sy_stock s) db') as Hg
      by (intros i; unfold InventoryService.grows; by rewrite (proj1 Hw)).
    destruct (stock_frame 0 s db' (sy_answers s)) as [Hok' _];
      [done|by eapply warehouse_wf; [apply Hok|]|done|done|by left|].
    split; [done|]. by intros i; split.
Qed.

(** In a state that keeps the invariant an accepted order holds its stock. *)
Lemma ordered_basket o sku :
  Forall (λ item, TrimSpace (productSKU item) = productSKU item) (ord_orderItems o) →
  basket_total (rr_Lines (reservationRequestFor o)) sku = ordered o sku.
Proof.
  unfold basket_total, ordered, reservationRequestFor. cbn [rr_Lines].
  induction 1 as [|item items Htrim _ IH]; [done|]. cbn [fmap list_fmap].
  rewrite !filter_cons. cbn [rl_ProductSKU]. rewrite Htrim. case_decide; cbn; by rewrite IH.
Qed.

Lemma accepted_holds s id o :
  sys_ok s → view (w_db (sy_world s)) id = Some o → ord_status o = StatusAccepted →
  holds_stock id o (sy_stock s).
Proof.
  intros Hok Hv Hst. pose proof (proj1 (so_orders _ Hok)) as Ho.
  destruct (stored_order_is_proper _ _ _ (snd_wf _ Ho) Hv) as (_ & [_ Henc] & Hid & Htrim).
  destruct (answered_basket (reservationRequestFor o) (sy_stock s)) as (order & Horder & Hbasket).
  - by apply (so_answers _ Hok), (so_reserved _ Hok), (snd_accepted _ Ho _ _ Hv Hst).
  - apply Forall_fmap. eapply Forall_impl; [exact Henc|]. by intros item [_ Hq].
  - cbn [rr_OrderID reservationRequestFor] in Horder.
    rewrite Hid, uuid_String_trimmed, uuid_in_String in Horder. injection Horder as <-.
    intros item Hin. specialize (Hbasket (mkReservationLine (productSKU item) (quantity item))).
    rewrite (ordered_basket o) in Hbasket by done. cbn [rl_ProductSKU] in Hbasket.
    rewrite (proj1 (Forall_forall _ _) Htrim item Hin) in Hbasket. apply Hbasket.
    apply list_elem_of_fmap. by exists item.
Qed.

(** An accepted order and what it holds of a product, which may be nothing. *)
Lemma accepted_part s sku o :
  sys_ok s → accepted_order (sy_world s) o →
  ∃ id, uuid_String id = ord_id o
    ∧ (ordered o sku = 0%Z
       ∨ ∃ row, reservations (sy_stock s) !! (id, sku) = Some row ∧ rs_quantity row = ordered o sku).
Proof.
  intros Hok (id & Hv & Hst & _ & _ & Hid). exists id. split; [done|].
  pose proof (accepted_holds _ _ _ Hok Hv Hst) as Hholds. unfold ordered.
  destruct (filter (λ item, productSKU item = sku) (ord_orderItems o)) as [|item items] eqn:Hf; [by left|right].
  assert (item ∈ filter (λ item, productSKU item = sku) (ord_orderItems o)) as [Hsku Hin]%list_elem_of_filter
    by (rewrite Hf; by left).
  destruct (Hholds item Hin) as (row & Hrow & Hq). rewrite Hsku in *. exists row. split; [done|].
  by rewrite Hq, <-Hf.
Qed.

Lemma accepted_covered s : sys_ok s → covered (sy_world s) (sy_stock s).
Proof.
  intros Hok sku row os Hrow Hnd Hos. pose proof (so_stock _ Hok) as Hwf.
  assert (∃ ids, uuid_String <$> ids = ord_id <$> os
    ∧ Forall (λ part, part.2 = 0%Z ∨ ∃ row, reservations (sy_stock s) !! (part.1, sku) = Some row
        ∧ rs_quantity row = part.2) (zip ids ((λ o, ordered o sku) <$> os))) as (ids & Hids & Hparts).
  { clear Hnd. induction Hos as [|o os Ho _ (ids & Hids & Hparts)]; [by exists []|].
    destruct (accepted_part s sku o Hok Ho) as (id & Hid & Hpart). exists (id :: ids). cbn.
    split; [by rewrite Hid, Hids|by constructor]. }
  assert (length ids = length os) as Hlen.
  { apply (f_equal length) in Hids. by rewrite !length_fmap in Hids. }
  transitivity (reserved_sum sku (reservations (sy_stock s)));
    [|rewrite <-(iw_reserved _ Hwf _ _ Hrow); apply (iw_stock _ Hwf _ _ Hrow)].
  transitivity (foldr (λ part sum, part.2 + sum)%Z 0%Z (zip ids ((λ o, ordered o sku) <$> os))).
  { clear -Hlen. revert os Hlen. induction ids as [|id ids IH]; intros [|o os] Hlen; try done.
    cbn. apply Zplus_le_compat_l, IH. by injection Hlen. }
  apply reserved_sum_part; [|rewrite fst_zip by (rewrite length_fmap; lia)|done].
  - intros [order sku'] r Hr. by destruct (iw_rows _ Hwf _ _ _ Hr) as [?%Z.lt_le_incl _].
  - eapply NoDup_fmap_1. by rewrite Hids.
Qed.

(** The order's email was accepted, with what the order says: the one that is about it. *)
Definition emailed (s : system) (o : Order) : Prop :=
  effect_of (command_of "" o) ∈ nw_accepted (sy_notify s) ∧ email_of (command_of "" o) ∈ sy_emails s.
Lemma accepted_emailed s o :
  sys_ok s → accepted_order (sy_world s) o →
  effect_of (command_of "" o) ∈ nw_accepted (sy_notify s) → emailed s o.
Proof.
  intros Hok (id & Hv & _ & _ & _ & Hid) Hacc. split; [done|].
  destruct (so_sent _ Hok _ Hacc) as (email & Hin & Hkey).
  destruct (so_emails _ Hok _ Hin) as (o' & eventID & (id' & Hv' & _ & _ & _ & Hid') & ->).
  assert (id' = id) as ->.
  { injection Hkey as Hoid. cbn in Hoid. apply (inj uuid_String). congruence. }
  assert (o' = o) as -> by congruence. exact Hin.
Qed.

(** Its event waits in the outbox, or its message is with the broker. *)
Lemma published_announced s id o :
  sys_ok s → view (w_db (sy_world s)) id = Some o → id ∈ w_published (sy_world s) →
  ∃ eventID m, announces m eventID o ∧ m ∈ sy_routed s.
Proof.
  intros Hok Hv Hpub. destruct (so_published _ Hok _ Hpub) as (o' & eid & m & Ho & Hid & Ha & Hin).
  destruct Ho as (id' & Hv' & _ & _ & _ & Hid').
  assert (id' = id) as ->.
  { rewrite Hid in Hid'. apply (f_equal uuid_Parse) in Hid'. rewrite !uuid_Parse_String in Hid'. congruence. }
  assert (o' = o) as -> by congruence. by exists eid, m.
Qed.
Lemma accepted_announced s id o :
  sys_ok s → view (w_db (sy_world s)) id = Some o → ord_status o = StatusAccepted →
  (∃ eventID, recorded (w_db (sy_world s)) id (newOrderAcceptedEvent eventID o))
  ∨ ∃ eventID m, announces m eventID o ∧ m ∈ sy_routed s.
Proof.
  intros Hok Hv Hst. destruct (snd_accepted _ (proj1 (so_orders _ Hok)) _ _ Hv Hst) as [_ [Hpub|Hrec]];
    [right; by eapply published_announced|by left].
Qed.
Lemma few_emails s key : sys_ok s → length (emails_about s key) ≤ 3.
Proof.
  intros Hok. pose proof (so_sends _ Hok key) as Hsends. pose proof (ns_sends _ (so_notify _ Hok) key) as Hle.
  assert (attempts_of (sy_notify s) key ≤ 3)%Z as Hmax; [|lia].
  unfold attempts_of. destruct (nw_effects (sy_notify s) !! key) as [row|] eqn:Hrow; [|lia].
  destruct (ns_rows _ (so_notify _ Hok) _ _ Hrow) as ([_ Hmax] & _). exact Hmax.
Qed.

Lemma system_reaches (participants : list participant) s c :
  sys_ok s → rtc (pool_step sys_step sys_env) (participant_prog <$> participants, s) c →
  sys_ok c.2 ∧ ∀ i p answer, participants !! i = Some p → c.1 !! i = Some (Ret answer) → kept p answer c.2.
Proof.
  intros Hs Hsteps.
  enough (sys_ok c.2 ∧ ∀ i answer, c.1 !! i = Some (Ret answer) →
    ∀ p, participants !! i = Some p → kept p answer c.2) as [Hok Hp]; [by split; eauto|].
  eapply (pool_adequate sys_step sys_env sys_ok sys_rely sys_guar)
    with (Q := λ i answer s, ∀ p, participants !! i = Some p → kept p answer s); [..|exact Hsteps].
  - intros i j s1 s2 Hne Hg. by apply Hg.
  - intros i s1 s2 Hok He. by apply (sys_env_ok _ _ Hok He).
  - intros s1 s2 Hok He. by destruct (sys_env_ok _ _ Hok He).
  - split; [done|]. cbn [fst snd]. intros i t Hi. apply list_lookup_fmap_Some in Hi as (p & -> & Hp).
    eapply wp_mono; [|apply participant_wp]. intros answer s' Hk p' Hp'. by simplify_eq.
Qed.

(** C1: The three services together, whatever fails and however their calls interleave, with
    any number of HTTP requests, outbox workers, reservation calls of any clients, and
    deliveries of any message at any time, where any call of a request may panic: a client
    that is shown an order is shown the stored one of its key, in the state it is told, and
    the same one as any other request of that key; an accepted order holds its whole basket in
    inventory-service's tables, the stock on hand covers all accepted orders at once, and
    the order's event waits in the outbox until its message is with the broker; a delivery
    is acknowledged only when the provider has accepted an email for its order, or a copy of
    it is in the parked queue; every email handed to the provider is of an order that is
    stored as accepted, with its address, total and currency; and the provider is called at
    most three times for an order. *)
Theorem whole_system_sound (participants : list participant) s c :
  sys_ok s →
  rtc (pool_step sys_step sys_env) (participant_prog <$> participants, s) c →
  (∀ i buffer rq r shown, participants !! i = Some (APIRequest buffer rq) →
     c.1 !! i = Some (Ret (Some r)) → (sv_answer r).2 = ApiBody (OrderResponse shown) →
     ((sv_answer r).1 = 200%Z ∨ (sv_answer r).1 = 201%Z)
     ∧ ∃ o, settled (TrimSpace (rq_IdempotencyKey rq)) o (sy_world c.2) ∧ shown = orderResponseFrom o)
  ∧ (∀ i buffer rq r shown j buffer' rq' r' shown',
     participants !! i = Some (APIRequest buffer rq) → participants !! j = Some (APIRequest buffer' rq') →
     c.1 !! i = Some (Ret (Some r)) → c.1 !! j = Some (Ret (Some r')) →
     (sv_answer r).2 = ApiBody (OrderResponse shown) → (sv_answer r').2 = ApiBody (OrderResponse shown') →
     TrimSpace (rq_IdempotencyKey rq') = TrimSpace (rq_IdempotencyKey rq) →
     ors_ID shown' = ors_ID shown ∧ ors_Status shown' = ors_Status shown
     ∧ ors_Items shown' = ors_Items shown ∧ ors_Total shown' = ors_Total shown)
  ∧ (∀ id o, view (w_db (sy_world c.2)) id = Some o → ord_status o = StatusAccepted →
     holds_stock id o (sy_stock c.2)
     ∧ ((∃ eventID, recorded (w_db (sy_world c.2)) id (newOrderAcceptedEvent eventID o))
        ∨ ∃ eventID m, announces m eventID o ∧ m ∈ sy_routed c.2))
  ∧ covered (sy_world c.2) (sy_stock c.2)
  ∧ (∀ d, d ∈ sy_acked c.2 → ∃ o eventID m, accepted_order (sy_world c.2) o
       ∧ announces m eventID o ∧ carries m d ∧ concluded c.2 d o)
  ∧ (∀ email, email ∈ sy_emails c.2 → ∃ o eventID, accepted_order (sy_world c.2) o
       ∧ email = mkEmail (ord_customerEmail o) (ord_id o) (AmountInCents (ord_total o))
           (Currency (ord_total o)) (ProviderIdempotencyKey (effect_of (command_of eventID o))))
  ∧ ∀ key, length (emails_about c.2 key) ≤ 3.
Proof.
  intros Hs Hsteps. destruct (system_reaches _ _ _ Hs Hsteps) as [Hok Hkept]. split_and!.
  - intros i buffer rq r shown Hi Hr Hb. exact (Hkept i _ _ Hi Hr _ Hb _ eq_refl).
  - intros i buffer rq r shown j buffer' rq' r' shown' Hi Hj Hr Hr' Hb Hb' Hkey.
    eapply served_same; [apply Hok|exact Hkey|exact (Hkept i _ _ Hi Hr)|exact Hb|exact (Hkept j _ _ Hj Hr')|exact Hb'].
  - intros id o Hv Hst. split; [by apply accepted_holds|by apply accepted_announced].
  - by apply accepted_covered.
  - apply (so_acked _ Hok).
  - apply (so_emails _ Hok).
  - intros key. by apply few_emails.
Qed.
End whole_system.

(** ** A schedule in which nothing fails

    Every call answered by a system without faults, as [quiet_request] and [quiet_worker]
    answer those of order-service. *)
#[export] Instance protoReservationLine_eq_dec : EqDecision protoReservationLine.
Proof. solve_decision. Defined.
#[export] Instance ReserveStockRequest_eq_dec : EqDecision ReserveStockRequest.
Proof. solve_decision. Defined.

Definition yes_to (request : ReservationRequest)
    (answers : list (ReserveStockRequest * result InventoryGrpc.Status unit)) : bool :=
  existsb (λ a, if a is (sent, Ok tt) then bool_decide (sent = request_of request) else false) answers.

Definition quiet_order (i : nat) {R} (e : orderE R) (s : system) : option (R * system) :=
  if (if e is Reserve request then yes_to request (sy_answers s) else true)
  then '(r, w) ← quiet_request i _ e (sy_world s); Some (r, with_orders w (sy_routed s) s)
  else None.
Definition quiet_event (i : nat) {R} (e : workerE R) (s : system) : option (R * system) :=
  '(r, w) ← quiet_worker i _ e (sy_world s);
  match e with
  | PublishOrderAccepted event correlationID =>
      if message_of event correlationID is Ok m then Some (r, with_orders w (m :: sy_routed s) s) else None
  | _ => Some (r, with_orders w (sy_routed s) s)
  end.

Definition quiet_notify (i : nat) {R} (e : notifyE R) (s : system) : option (R * system) :=
  let n := sy_notify s in
  let notify n' := with_notify n' (sy_emails s) s in
  match e in notifyE R return option (R * system) with
  | rand_Read =>
      let token := "token-" +:+ Itoa (Z.of_nat (size (nw_tokens n))) in
      if nw_tokens n !! token is Some _ then None
      else Some (Ok token, notify (mkNworld (nw_effects n) (<[token := i]> (nw_tokens n)) (nw_begun n)
             (nw_sends n) (nw_accepted n)))
  | ClaimStatement key eventID token lease =>
      let '(r, tbl) := exec_write no_faults 0 (claimStatement Microsecond key eventID token lease (nw_effects n))
                         (nw_effects n) in
      Some (r, notify (with_effects n tbl))
  | StateQuery key => Some (exec_query no_faults 0 (stateQuery key (nw_effects n)), notify n)
  | BeginStatement key token =>
      let '(r, tbl) := exec_write no_faults 0 (beginStatement Microsecond key token (nw_effects n)) (nw_effects n) in
      Some (r, notify (mkNworld tbl (nw_tokens n)
        (match r with Ok (Some _) => {[ (key, token) ]} ∪ nw_begun n | _ => nw_begun n end)
        (nw_sends n) (nw_accepted n)))
  | FinishStatement key token state =>
      let '(r, tbl) := exec_write no_faults 0 (finishStatement Microsecond key token state (nw_effects n))
                         (nw_effects n) in
      Some (r, notify (with_effects n tbl))
  | Send email =>
      let key := key_of_email email in
      Some (Ok tt, with_notify (mkNworld (nw_effects n) (nw_tokens n)
        (filter (λ kt, ¬ (kt.1 = key ∧ nw_tokens n !! kt.2 = Some i)) (nw_begun n))
        (<[key := sends_of n key + 1]> (nw_sends n))%Z ({[ key ]} ∪ nw_accepted n)) (email :: sy_emails s) s)
  end.

Definition delivery_of (m : Message) : Delivery :=
  mkDelivery (msg_ContentType m) (msg_Type m) (msg_MessageID m) (msg_CorrelationID m) 0 [] "" 0 "" "" "" "" (msg_Body m).

Definition quiet (i : nat) R (e : systemE R) (s : system) : option (R * system) :=
  match e in systemE R return option (R * system) with
  | OfRequest e => quiet_order i e s
  | Panics => Some (false, s)
  | OfWorker e => quiet_event i e s
  | OfStore e => let '(r, db) := quiet_store Microsecond _ e (sy_stock s) in
                 Some (r, with_stock db (sy_answers s) s)
  | Reply request answer => Some (tt, with_stock (sy_stock s) ((request, answer) :: sy_answers s) s)
  | TakeDelivery => if sy_routed s is m :: _ then Some (delivery_of m, s) else None
  | OfDelivery d e =>
      match e in deliveryE R return option (R * system) with
      | Cancelled => Some (false, s)
      | FormattedNow => Some ("now", s)
      | Ack _ => Some (None, with_acked (d :: sy_acked s) s)
      | Nack _ _ => Some (None, s)
      | _ => None
      end
  | OfNotify e => quiet_notify i e s
  end.
Lemma yes_to_in request answers : yes_to request answers = true → (request_of request, Ok tt) ∈ answers.
Proof.
  intros ([sent [[]|]] & Hin & Hs)%existsb_exists; [|done]. apply bool_decide_eq_true in Hs as <-.
  by apply list_elem_of_In.
Qed.

Lemma quiet_order_step i R (e : orderE R) s r s' :
  quiet_order i e s = Some (r, s') → sys_step (λ _, "") i _ (OfRequest e) s r s'.
Proof.
  unfold quiet_order. intros Hq. destruct (if e is Reserve _ then _ else _) eqn:Hyes; [|done].
  apply bind_Some in Hq as ([r0 w] & Hq & [= <- <-]). exists w.
  split; [by apply quiet_request_step|]. split; [|done]. destruct e; try done. cbn in Hq. injection Hq as <- <-.
  split; [|done].
  exists (λ sent, if bool_decide (sent = request_of request) then Ok tt else Err (mkStatus Unavailable "" [])).
  unfold reserver_Reserve. rewrite bool_decide_true by done. split; [done|].
  intros sent. case_bool_decide; [intros _; subst; by apply yes_to_in|done].
Qed.

Lemma quiet_event_step i R (e : workerE R) s r s' :
  quiet_event i e s = Some (r, s') → sys_step (λ _, "") i _ (OfWorker e) s r s'.
Proof.
  unfold quiet_event. intros ([r0 w] & Hq & Hs)%bind_Some. pose proof (quiet_worker_step _ _ _ _ _ _ Hq) as Hstep.
  destruct e; try (injection Hs as <- <-; exists w, (sy_routed s); by split_and!).
  destruct (message_of event correlationID) as [m|] eqn:Hm; [|done]. injection Hs as <- <-.
  exists w, (m :: sy_routed s). split_and!; [done| |done]. right. by exists m.
Qed.

Lemma quiet_notify_step i R (e : notifyE R) s r s' :
  quiet_notify i e s = Some (r, s') → sys_step (λ _, "") i _ (OfNotify e) s r s'.
Proof.
  destruct e; cbn -[exec_write exec_query]; intros Hq; quiet_case;
    (eexists; split; [|reflexivity]); cbn -[exec_write exec_query];
    first [by repeat split | by exists no_faults, Microsecond; eexists | split; [done|by exists no_faults]].

Qed.

Lemma quiet_sound i R (e : systemE R) s r s' :
  quiet i R e s = Some (r, s') → sys_step (λ _, "") i R e s r s'.
Proof.
  destruct e as [R e| |R e|R e|request answer| |d R e|R e];
    [apply quiet_order_step|by intros [= _ <-]|apply quiet_event_step| | | | |apply quiet_notify_step]; cbn; intros Hq.
  - destruct (quiet_store _ _ e (sy_stock s)) as [r0 db] eqn:Hs. injection Hq as <- <-.
    exists db. split; [|done]. destruct e; cbn in Hs |- *;
      [|exists no_faults, Microsecond; exact Hs|]; injection Hs as <- <-; (split; [done|by exists no_faults]).
  - by injection Hq as _ <-.
  - destruct (sy_routed s) as [|m ms] eqn:Hm; [done|]. injection Hq as <- <-. split; [done|].
    exists m. split; [by left|done].
  - destruct e; try done; by injection Hq as <- <-.
Qed.

(** No orders yet and some stock: a request for some of it with the reservation it calls for,
    a client that asks for more than there is, a worker and two deliveries. *)
Definition sample_system : system := mkSystem sample_world sample_stock [] [] sample_nworld [] [] ∅ [].
Definition basket_request : ReserveStockRequest :=
  mkReserveStockRequest "id-0" [mkProtoReservationLine "A" 2; mkProtoReservationLine "B" 1].
#[export] Instance basket_binding : BindingLib := {|
  decode_body b := Some (mkOrderRequest "c-1" "a@b.example" (Some [mkItemRequest "A" 2; mkItemRequest "B" 1]));
  uuid_rule s := true;
  email_rule s := true;
|}.
Definition sample_participants : list participant :=
  [APIRequest (replicate 16 171%N) sample_request; OutboxWorker Minute Second 5; AReservation correlation.Background basket_request;
   AReservation correlation.Background (mkReserveStockRequest "o2" [mkProtoReservationLine "A" 4]);
   ADelivery Minute 2; ADelivery Minute 2].

(** The request is told of its reservation, the worker runs a round, and the message is
    delivered twice. *)
Definition sample_schedule : list nat :=
  replicate 12 0 ++ replicate 6 2 ++ replicate 20 0 ++ replicate 4 3 ++ replicate 5 1
  ++ replicate 10 4 ++ replicate 10 5.
Definition sample_run :=
  exec_pool quiet sample_schedule
    (participant_prog (Hash := sample_hash) (λ _, "") <$> sample_participants, sample_system).

(** The order is accepted and shown to the client, one email is sent, and both deliveries
    are acknowledged. *)
Definition shown_to (p : prog systemE (option served)) : option (Z * orderResponse) :=
  match p with
  | Ret (Some (mkServed (st, ApiBody (OrderResponse shown)) _ _)) => Some (st, shown)
  | _ => None
  end.
Lemma sample_run_reaches :
  ∃ c id o shown, sample_run = Some c ∧ view (w_db (sy_world c.2)) id = Some o
    ∧ ord_status o = StatusAccepted ∧ length (sy_emails c.2) = 1 ∧ length (sy_acked c.2) = 2
    ∧ c.1 !! 0 ≫= shown_to = Some (201%Z, shown) ∧ ors_ID shown = ord_id o.
Proof.
  assert ((if sample_run is Some c then
    if fresh_text 0 is Some id then
      if view (w_db (sy_world c.2)) id is Some o then
      if c.1 !! 0 ≫= shown_to is Some (st, shown) then
        bool_decide (ord_status o = StatusAccepted ∧ length (sy_emails c.2) = 1 ∧ length (sy_acked c.2) = 2
          ∧ st = 201%Z ∧ ors_ID shown = ord_id o)
      else false else false else false else false) = true) as Hrun by (vm_compute; reflexivity).
  destruct sample_run as [c|]; [|done]. destruct (fresh_text 0) as [id|]; [|done].
  destruct (view _ id) as [o|] eqn:Hv; [|done]. destruct (_ ≫= shown_to) as [[st shown]|] eqn:Hshown; [|done].
  apply bool_decide_eq_true in Hrun as (? & ? & ? & -> & ?). by exists c, id, o, shown.
Qed.
Lemma sample_run_steps c :
  sample_run = Some c →
  rtc (pool_step (sys_step (λ _, "")) sys_env)
    (participant_prog (Hash := sample_hash) (λ _, "") <$> sample_participants, sample_system) c.
Proof. unfold sample_run. apply exec_pool_steps, quiet_sound. Qed.
Lemma shown_ret p st shown :
  shown_to p = Some (st, shown) → ∃ r, p = Ret (Some r) ∧ sv_answer r = (st, ApiBody (OrderResponse shown)).
Proof.
  destruct p as [[[[st' [[]| |]] id line]|]|]; cbn; try done. intros [= -> ->]. by eexists.
Qed.

Lemma sample_system_ok : sys_ok (Hash := sample_hash) sample_system.
Proof.
  split; cbn; try by (intros ? ?%elem_of_nil || set_solver).
  - apply sample_world_sound.
  - apply sample_nworld_sound.
  - apply sample_stock_wf.
Qed.

Lemma whole_system_sound_witness :
  sys_ok (Hash := sample_hash) sample_system
  ∧ ∃ c id o shown, rtc (pool_step (sys_step (λ _, "")) sys_env)
      (participant_prog (Hash := sample_hash) (λ _, "") <$> sample_participants, sample_system) c
    ∧ view (w_db (sy_world c.2)) id = Some o ∧ ord_status o = StatusAccepted
    ∧ length (sy_emails c.2) = 1 ∧ length (sy_acked c.2) = 2
    ∧ holds_stock id o (sy_stock c.2) ∧ covered (sy_world c.2) (sy_stock c.2)
    ∧ ors_ID shown = ord_id o ∧ ∃ o', settled (TrimSpace (rq_IdempotencyKey sample_request)) o' (sy_world c.2) ∧ shown = orderResponseFrom o'.
Proof.
  pose proof sample_system_ok as Hs. split; [exact Hs|].
  destruct sample_run_reaches as (c & id & o & shown & Hrun & Hv & Hst & He & Ha & Hshown & Hid).
  pose proof (sample_run_steps c Hrun) as Hc. exists c, id, o, shown.
  destruct (whole_system_sound (Hash := sample_hash) sample_jsonb_value (λ _, "") (λ _, "")
    sample_participants sample_system c Hs Hc) as (Hclient & _ & Haccepted & Hcov & _).
  destruct (Haccepted id o Hv Hst) as [Hholds _].
  apply bind_Some in Hshown as (p & Hp & (r & -> & Hr)%shown_ret).
  assert ((sv_answer r).2 = ApiBody (OrderResponse shown)) as Hbody by by rewrite Hr.
  pose proof (Hclient 0 (replicate 16 171%N) sample_request r shown eq_refl Hp Hbody) as [_ Hstored].
  exact (conj Hc (conj Hv (conj Hst (conj He (conj Ha (conj Hholds (conj Hcov (conj Hid Hstored)))))))).
Defined.
