(* ===== verification/WholeLiveness.v ===== *)
(** * No accepted order is stuck

    The system of [WholeSystem] when, for a while, nothing fails: databases, the broker and
    the email provider answer, and the time is past the leases of workers that are gone.
    The outbox worker then brings every due event to the broker, and a delivery of an
    order's message ends with its email accepted or, when its budget is spent, with a copy
    of it in the parked queue; whatever the order in which due rows are claimed and whatever
    was left behind before. *)
From S2P Require Import Prelude GoErrors GoStrings External Postgres Prog Correlation InventoryErrors InventoryCanonical ReservationStore ReserveStock ReservationSpec InventoryService InventoryGrpc InventoryClient InventoryContract.
From S2P Require Import OrderErrors OrderDomain OrderPorts CreateOrder OrderStore OrderStoreSpec Outbox EventWorker OutboxDrain OrderEvents OrderSystem HttpApi Router OrderApi OrderLiveness.
From S2P Require Import SentNotifications HandleOrderAccepted NotificationService Topology Consumer NotificationEvents EndToEnd WholeSystem.

(** The texts protobuf refuses when they are not UTF-8. *)
Definition money_texts (m : option protoMoney) : list string := if m is Some m then [pm_Currency m] else [].
Definition line_texts (l : option protoLine) : list string :=
  if l is Some l then pln_ProductSku l :: money_texts (pln_UnitPrice l) else [].
Definition proto_utf8 {Times : TimestampLib} (p : protoOrderAccepted) : Prop :=
  Forall (λ s, utf8_ValidString s = true)
    ([poa_EventId p; poa_OrderId p; poa_CustomerEmail p]
     ++ money_texts (poa_TotalAmount p) ++ mjoin (line_texts <$> poa_Lines p)).

Section liveness.
Context {Mail : MailLib} {Uuid : UuidLib} {Pg : Postgres} {Json : Codec orderAcceptedPayload}.
Context {UuidL : UuidLaws Uuid} {PgL : PostgresLaws Pg} {JsonL : CodecLaws Json payload_utf8}.
Context {Times : TimestampLib} {TimesL : TimestampLaws Times} {Hash : HashLib}.
Context {Wire : Codec protoOrderAccepted} {WireL : CodecLaws Wire proto_wf}.
Context {Text : PostgresText Uuid} {TextL : PostgresTextLaws Text} {Statuses : StatusLib}.
Context {Binding : BindingLib} {Gin : GinLib}.
Hypothesis jsonb_value : ∀ b b', jsonb b = Some b' → Unmarshal (Codec := Json) b' = Unmarshal b.
Variable ParseAddress_error : string → string.
Variable status_text : InventoryGrpc.Status → string.

(** [proto.Marshal] fails for a text that is not UTF-8 only; the text of an identifier is
    its hexadecimal digits; and the generators do not run out: of [supply] identifiers and
    tokens not all are taken. *)
Hypothesis proto_marshals : ∀ p, proto_utf8 p → is_ok (Marshal (Codec := Wire) p) = true.
Hypothesis uuid_text : ∀ u, text_ok (uuid_String u) = true.
Variable supply : nat.
Hypothesis uuids_last : ∀ X : gset uuid, (size X < supply)%nat → ∃ u, (u ∉ X).
Hypothesis tokens_last : ∀ X : gset string, (size X < supply)%nat → ∃ t, (t ∉ X) ∧ text_ok t = true.

(** ** When nothing fails *)

(** The instant of every statement of the worker and of notification-service, and of the
    last of a request, whose clock stops at [latest]; what the catalogue answers, and with
    which statuses inventory may refuse a basket. *)
Variable now : Z.
Variable latest : Z.
Variable catalogue : list string → order_result (gmap string Money).
Variable refusals : InventoryGrpc.ReserveStockRequest → InventoryGrpc.Status → Prop.

Definition fault_free_event {R} (e : workerE R) (db : database) (r : R) (db' : database) : Prop :=
  match e in workerE R return R → Prop with
  | ClaimNext lease => λ r, ∃ token choice, claim_choice ∅ now db choice
      ∧ outbox_ClaimNext no_faults now token choice lease db = (r, db')
  | MarkPublished eventID => λ r, outbox_MarkPublished no_faults now eventID db = (r, db')
  | Release entry delay => λ r, outbox_Release no_faults now entry delay db = (r, db')
  | ScheduleRetry entry delay reason => λ r,
      outbox_ScheduleRetry no_faults now entry delay reason db = (r, db')
  | MarkNeedsAttention entry count reason => λ r,
      outbox_MarkNeedsAttention no_faults now entry count reason db = (r, db')
  | DeletePublished olderThan limit => λ r, ∃ victims, delete_choice now olderThan limit db victims
      ∧ outbox_DeletePublished no_faults victims db = (r, db')
  | PublishOrderAccepted event correlationID => λ r,
      r = match message_of event correlationID with Ok _ => Ok tt | Err err => Err err end
  | WorkerCtxErr | WorkerTimerOrDone _ => λ r, r = None
  | random _ | WorkerClock => λ _, True
  end r.

Definition fault_free_notify {R} (e : notifyE R) (tbl : effects) (r : R) (tbl' : effects) : Prop :=
  match e in notifyE R return R → Prop with
  | rand_Read => λ r, ∃ token, r = Ok token ∧ text_ok token = true
  | ClaimStatement key eventID token lease => λ r,
      exec_write no_faults 0 (claimStatement now key eventID token lease tbl) tbl = (r, tbl')
  | StateQuery key => λ r, r = exec_query no_faults 0 (stateQuery key tbl)
  | BeginStatement key token => λ r, exec_write no_faults 0 (beginStatement now key token tbl) tbl = (r, tbl')
  | FinishStatement key token state => λ r,
      exec_write no_faults 0 (finishStatement now key token state tbl) tbl = (r, tbl')
  | Send email => λ r, r = Ok tt
  end r.

(** The broker routes and confirms a parked copy; a return that is there from before is
    received. *)
Definition fault_free_delivery (i : nat) {R} (e : deliveryE R) (s : system) (r : R) (s' : system) : Prop :=
  match e in deliveryE R return R → Prop with
  | Cancelled => λ r, r = false
  | PollReturns => λ r,
      r = match sy_publication s !! i with Some Returned => AReturn "" | _ => NothingReturned end
  | PublishParked message => λ r, (∃ confirmation, r = Ok confirmation) ∧ sy_publication s' !! i = Some Routed
  | WaitParked _ => λ r, r = Ok true
  | Handle _ _ _ | FormattedNow | Ack _ | Nack _ _ => λ _, True
  end r.

Definition calm_step (i : nat) R (e : systemE R) (s : system) (r : R) (s' : system) : Prop :=
  sys_step status_text i R e s r s'
  ∧ match e in systemE R return R → Prop with
    | OfRequest e => λ r, fault_free_call latest catalogue refusals now status_text e
        (w_db (sy_world s)) r (w_db (sy_world s'))
    | Panics => λ r, r = false
    | OfWorker e => λ r, fault_free_event e (w_db (sy_world s)) r (w_db (sy_world s'))
    | OfNotify e => λ r, fault_free_notify e (nw_effects (sy_notify s)) r (nw_effects (sy_notify s'))
    | OfDelivery d e => λ r, fault_free_delivery i e s r s'
    | _ => λ _, True
    end r.
Abbreviation calm i := (must (calm_step i)).

(** *** There is such an answer *)

Definition wrote (db : database) (w : world) : world :=
  mkWorld db (w_reserved w) (w_published w) (w_events w) (w_owner w) (w_tokens w).

Lemma some_delete_choice olderThan limit db : ∃ victims, delete_choice now olderThan limit db victims.
Proof.
  set (old := (filter (λ kv, old_published now olderThan kv.2 = true) (db_outbox db))).
  set (l := (map_to_list old).*1).
  assert (NoDup l) as Hnd by apply NoDup_fst_map_to_list.
  assert (∀ eid, eid ∈ l ↔ ∃ row, db_outbox db !! eid = Some row ∧ old_published now olderThan row = true) as Hl.
  { intros eid. subst l. rewrite list_elem_of_fmap. split.
    - intros ([eid' row] & -> & [Hrow Hold]%elem_of_map_to_list%map_lookup_filter_Some). by exists row.
    - intros (row & Hrow & Hold). exists (eid, row). split; [done|].
      by apply elem_of_map_to_list, map_lookup_filter_Some. }
  set (n := Z.to_nat limit). exists (list_to_set (take n l)).
  assert (size (list_to_set (take n l) : gset uuid) = length (take n l)) as Hsize.
  { apply size_list_to_set. eapply sublist_NoDup; [done|]. apply sublist_take. }
  rewrite length_take in Hsize. split_and!.
  - intros eid Hin%elem_of_list_to_set. apply Hl. rewrite <-(take_drop n l). apply elem_of_app. by left.
  - rewrite Hsize. lia.
  - rewrite Hsize. intros Hlt eid row Hrow Hold. apply elem_of_list_to_set.
    rewrite take_ge by lia. apply Hl. by exists row.
Qed.

(** A write of the store answers; [go] turns its answer into a step. *)
Ltac still_writes go w s call :=
  let r := fresh "r" in let db' := fresh "db'" in let Hc := fresh in
  destruct call as [r db'] eqn:Hc; apply (go r (wrote db' w) (sy_routed s));
    [repeat (split; [done|]); by exists no_faults, now|done|done].

Lemma calm_answer i {R} (e : workerE R) s :
  (if e is ClaimNext _ then size (stdpp.base.dom (D := gset uuid) (w_tokens (sy_world s))) < supply else True)%nat →
  (if e is PublishOrderAccepted event _ then is_Some (uuid_Parse (oae_OrderID event)) else True) →
  ∃ r s', calm_step i _ (OfWorker e) s r s'.
Proof.
  intros Hsupply Hid. set (w := sy_world s) in *. set (db := w_db w) in *.
  assert (∀ (r : R) (w' : world) routed', worker_step i R e w r w' →
    broker_routes e r w w' (sy_routed s) routed' → fault_free_event e db r (w_db w') →
    ∃ r s', calm_step i _ (OfWorker e) s r s') as Hgo.
  { intros r w' routed' Hw Hb Hf. exists r, (with_orders w' routed' s). split; [|exact Hf].
    by exists w', routed'. }
  destruct e.
  - destruct (uuids_last _ Hsupply) as [token Hnew%not_elem_of_dom].
    destruct (outbox_ClaimNext no_faults now token (first_due now db) lease db) as [r db'] eqn:Hc.
    apply (Hgo r (mkWorld db' (w_reserved w) (w_published w) (w_events w) (w_owner w)
      (<[token := i]> (w_tokens w))) (sy_routed s)); [|done|].
    + repeat (split; [done|]). exists no_faults, now, token, ∅, (first_due now db).
      split; [apply first_due_choice|done].
    + exists token, (first_due now db). split; [apply first_due_choice|done].
  - still_writes Hgo w s (outbox_MarkPublished no_faults now eventID db).
  - still_writes Hgo w s (outbox_Release no_faults now entry delay db).
  - still_writes Hgo w s (outbox_ScheduleRetry no_faults now entry delay reason db).
  - still_writes Hgo w s (outbox_MarkNeedsAttention no_faults now entry countAttempt reason db).
  - destruct (some_delete_choice olderThan limit db) as [victims Hv].
    destruct (outbox_DeletePublished no_faults victims db) as [r db'] eqn:Hc.
    apply (Hgo r (wrote db' w) (sy_routed s)); [|done|by exists victims].
    repeat (split; [done|]). by exists no_faults, now, victims.
  - destruct Hid as [oid Hid]. destruct (message_of event correlationID) as [m|err] eqn:Hm.
    + apply (Hgo (Ok tt) (mkWorld db (w_reserved w) ({[ oid ]} ∪ w_published w) (w_events w) (w_owner w)
        (w_tokens w)) (m :: sy_routed s)); [| |by cbn; rewrite Hm].
      * repeat (split; [done|]). right. by exists oid.
      * right. by exists m.
    + apply (Hgo (Err err) w (sy_routed s)); [| |by cbn; rewrite Hm].
      * repeat (split; [done|]). by left.
      * by left.
  - by apply (Hgo 0%Z w (sy_routed s)).
  - by apply (Hgo 0%Z w (sy_routed s)).
  - by apply (Hgo None w (sy_routed s)).
  - by apply (Hgo None w (sy_routed s)).
Qed.
(** ** The worker *)

(** Every event that can be read has a message, and is under its own identifier. *)
Definition drainable (outbox : gmap uuid outboxRow) : Prop :=
  ∀ eid row, outbox !! eid = Some row → ob_event_id row = eid
    ∧ ∀ event correlationID,
        eventFromPayload (uuid_String eid) (uuid_String (ob_order_id row)) (ob_payload row) = Ok event →
        is_ok (message_of event correlationID) = true.

(** A write of the row [eid] that does not make it due again. *)
Definition touched (eid : uuid) (db db' : database) : Prop :=
  db' = db ∨ ∃ row row', db_outbox db !! eid = Some row ∧ same_event row row' ∧ is_due now row' = false
    ∧ db' = set_outbox db (<[eid := row']> (db_outbox db)).

Lemma touched_drainable eid db db' :
  touched eid db db' → drainable (db_outbox db) → drainable (db_outbox db').
Proof.
  intros [->|(row & row' & Hrow & (E1 & _ & E3 & E4) & _ & ->)] Hd; [done|].
  intros e r. cbn. intros [[<- <-]|[_ He]]%lookup_insert_Some; [|by apply Hd].
  rewrite E1, E3, E4. by apply Hd.
Qed.
Lemma touched_due eid db db' due :
  touched eid db db' → due_rows now db = delete eid due → due_rows now db' = delete eid due.
Proof.
  intros [->|(row & row' & _ & _ & Hno & ->)]; [done|]. rewrite rewritten_due by done.
  intros ->. by rewrite delete_delete_eq.
Qed.

Lemma not_due_status row : ob_status row ≠ "pending" → is_due now row = false.
Proof. intros Hst. unfold is_due. by rewrite bool_decide_eq_false_2. Qed.

Lemma mark_touches eid db r db' :
  outbox_MarkPublished no_faults now (uuid_String eid) db = (r, db') → touched eid db db'.
Proof.
  unfold outbox_MarkPublished. destruct (exec_write _ _ _ _) as [a db1] eqn:Hw.
  intros Hr. assert (db' = db1) as -> by (destruct a; by simplify_eq). clear Hr.
  apply exec_write_cases in Hw as [(n & _ & Hq)|(err & _ & [->|[n Hq]])]; [|by left|];
    unfold with_uuid in Hq; rewrite uuid_Parse_String in Hq; injection Hq as Hq;
    (apply update_row_cases in Hq as [(_ & -> & _)|(_ & row & Hl & _ & ->)]; [by left|right]);
    (eexists row, _; split; [done|]; split; [|split; [|reflexivity]]; done).
Qed.
Lemma attention_touches eid entry count reason db r db' :
  oe_EventID entry = uuid_String eid →
  outbox_MarkNeedsAttention no_faults now entry count reason db = (r, db') → touched eid db db'.
Proof.
  intros He Hw. apply (fenced_cases no_faults now entry (WAttention count reason)) in Hw
    as [->|(e & token & row & row' & Hid & _ & Hl & _ & -> & Hsame & _ & _ & Hst)]; [by left|right].
  rewrite He, uuid_Parse_String in Hid. injection Hid as <-. exists row, row'.
  split_and!; [done..| |done]. apply not_due_status. by rewrite Hst.
Qed.

(** What a claim answers. *)
Definition claimed_event (row : outboxRow) (entry : OutboxEntry) (err : option order_error) : Prop :=
  oe_EventID entry = uuid_String (ob_event_id row)
  ∧ match eventFromPayload (uuid_String (ob_event_id row)) (uuid_String (ob_order_id row)) (ob_payload row) with
    | Ok event => err = None ∧ oe_Event entry = event
    | Err _ => ∃ e, err = Some e ∧ is_app e ErrEventUnpublishable = true ∧ is_app e ErrOutboxEmpty = false
    end.
Lemma calm_claim token choice lease db entry err db' :
  (0 < interval_value lease)%Z → claim_choice ∅ now db choice →
  outbox_ClaimNext no_faults now token choice lease db = ((entry, err), db') →
  (due_rows now db = ∅ ∧ err = Some (app ErrOutboxEmpty) ∧ db' = db)
  ∨ ∃ eid row, due_rows now db !! eid = Some row ∧ claimed_event row entry err
      ∧ touched eid db db' ∧ due_rows now db' = delete eid (due_rows now db).
Proof.
  intros Hlease Hch. unfold outbox_ClaimNext, exec_write. cbn [flt_stmt no_faults]. destruct choice as [eid|].
  - destruct Hch as (row & Hl & Hdue & _ & _). cbn [claimOutboxEvent]. rewrite Hl.
    set (row' := mkOutboxRow _ _ _ _ _ _ _ _ _ _ _ _ _). intros Hc. right. exists eid, row.
    assert (is_due now row' = false) as Hno.
    { unfold is_due. subst row'. cbn. apply andb_false_iff. right. apply Z.leb_gt. lia. }
    assert (db' = set_outbox db (<[eid := row']> (db_outbox db))) as ->
      by (destruct (eventFromPayload _ _ _) in Hc; by injection Hc).
    split; [by apply due_rows_lookup|]. split; [|split; [by right; exists row, row'|by apply rewritten_due]].
    unfold claimed_event. subst row'. cbn [ob_event_id ob_order_id ob_payload] in Hc.
    destruct (eventFromPayload _ _ _) as [event|e] eqn:Hev; injection Hc as <- <-; [done|]. split; [done|].
    eexists. split; [done|]. unfold eventFromPayload in Hev. repeat case_match; try done; by simplify_eq.
  - intros [= <- <- <-]. left. split; [|done]. apply map_empty. intros eid.
    destruct (due_rows now db !! eid) as [row|] eqn:Hrow; [|done].
    apply due_rows_lookup in Hrow as [Hl Hd]. by specialize (Hch _ _ Hl Hd).
Qed.
Lemma cleanup_keeps victims db r db' :
  outbox_DeletePublished no_faults victims db = (r, db') →
  db_orders db' = db_orders db ∧ db_items db' = db_items db
  ∧ ∀ eid row, db_outbox db' !! eid = Some row → db_outbox db !! eid = Some row.
Proof.
  unfold outbox_DeletePublished, deletePublishedOutboxEvents, exec_write. cbn. intros [= _ <-].
  split_and!; [done..|]. intros eid row [Hl _]%map_lookup_filter_Some. done.
Qed.
Lemma event_ids eid oid payload event :
  eventFromPayload eid oid payload = Ok event → oae_OrderID event = oid.
Proof. unfold eventFromPayload. intros. repeat case_match; try done. by simplify_eq. Qed.

(** What the worker has made of the system [s0]: these rows are still due. *)
Record worked (s0 : system) (due : gmap uuid outboxRow) (n : nat) (s : system) := {
  wk_due : due_rows now (w_db (sy_world s)) = due;
  wk_orders : db_orders (w_db (sy_world s)) = db_orders (w_db (sy_world s0));
  wk_items : db_items (w_db (sy_world s)) = db_items (w_db (sy_world s0));
  wk_published : w_published (sy_world s0) ⊆ w_published (sy_world s);
  wk_drainable : drainable (db_outbox (w_db (sy_world s)));
  wk_tokens : (size (stdpp.base.dom (D := gset uuid) (w_tokens (sy_world s))) ≤ n)%nat;
  wk_rest : ∃ w routed, s = with_orders w routed s0;
}.

Lemma worker_keeps i {R} (e : workerE R) w r w' :
  worker_step i R e w r w' → w_published w ⊆ w_published w'
  ∧ (size (stdpp.base.dom (D := gset uuid) (w_tokens w'))
     ≤ (if e is ClaimNext _ then 1 else 0) + size (stdpp.base.dom (D := gset uuid) (w_tokens w)))%nat.
Proof.
  destruct e; cbn; intros (_ & _ & _ & Hstep); try (destruct Hstep as (-> & -> & _); by split).
  - destruct Hstep as (-> & f & t & token & locked & choice & _ & _ & Hnew & ->). split; [done|].
    rewrite dom_insert_L, size_union, size_singleton; [done|]. apply disjoint_singleton_l. by apply not_elem_of_dom.
  - destruct Hstep as (_ & -> & [[-> _]|(oid & _ & ->)]); (split; [|done]); set_solver.
Qed.

(** The state after a call of the worker, by what the call did to the outbox. *)
Lemma worked_after i {R} (e : workerE R) s0 due n s r s' due' :
  worked s0 due n s → calm_step i R (OfWorker e) s r s' →
  (∀ db', fault_free_event e (w_db (sy_world s)) r db' → w_db (sy_world s') = db' →
     db_orders db' = db_orders (w_db (sy_world s)) ∧ db_items db' = db_items (w_db (sy_world s))
     ∧ drainable (db_outbox db') ∧ due_rows now db' = due') →
  worked s0 due' ((if e is ClaimNext _ then 1 else 0) + n) s'.
Proof.
  intros [H1 H2 H3 H4 H5 H6 H7] [(w' & routed' & Hstep & _ & ->) Hf] Hdb.
  destruct (Hdb _ Hf eq_refl) as (Ho & Hi & Hd & Hdue). apply worker_keeps in Hstep as [Hp Ht]. cbn in *.
  split; cbn; [done|congruence|congruence|by etransitivity|done|lia|].
  destruct H7 as (w & routed & ->). by exists w', routed'.
Qed.
Definition leaves_store {R} (e : workerE R) : bool :=
  match e with
  | PublishOrderAccepted _ _ | random _ | WorkerClock | WorkerCtxErr | WorkerTimerOrDone _ => true
  | _ => false
  end.
Lemma worked_same i {R} (e : workerE R) s0 due n s r s' :
  leaves_store e = true → worked s0 due n s → calm_step i R (OfWorker e) s r s' → worked s0 due n s'.
Proof.
  intros He Hw Hs. assert (w_db (sy_world s') = w_db (sy_world s)) as Hdb.
  { destruct Hs as [(w' & routed' & (_ & _ & _ & Hstep) & _ & ->) _]. cbn.
    by destruct e; try done; destruct_and?. }
  replace n with ((if e is ClaimNext _ then 1 else 0) + n)%nat by by destruct e.
  eapply worked_after; [done|done|]. intros db' _ <-. rewrite Hdb. split_and!; [done|done|apply Hw|apply Hw].
Qed.
Lemma worked_touched i {R} (e : workerE R) s0 due n s r s' eid :
  worked s0 (delete eid due) n s → calm_step i R (OfWorker e) s r s' →
  (∀ db', fault_free_event e (w_db (sy_world s)) r db' → touched eid (w_db (sy_world s)) db') →
  worked s0 (delete eid due) ((if e is ClaimNext _ then 1 else 0) + n) s'.
Proof.
  intros Hw Hs Ht. eapply worked_after; [done|done|]. intros db' Hf _. specialize (Ht _ Hf).
  split_and!; [| |eapply touched_drainable; [done|apply Hw]|eapply touched_due; [done|apply Hw]];
    by destruct Ht as [->|(? & ? & _ & _ & _ & ->)].
Qed.
(** A program of the worker. *)
Abbreviation worker_calm i := (must (λ R (e : workerE R), calm_step i R (OfWorker e))).

Lemma setAside_calm i s0 due n eid entry count cause s :
  oe_EventID entry = uuid_String eid → worked s0 (delete eid due) n s →
  worker_calm i (setAside entry count cause) (λ _, worked s0 (delete eid due) n) s.
Proof.
  intros He Hw. apply must_trigger; [by apply calm_answer|]. intros r s' Hs.
  eapply (worked_touched i (MarkNeedsAttention entry count (Error cause))); [done|done|].
  intros db' Hf. by eapply attention_touches.
Qed.
Lemma settle_calm i s0 due n u eid entry s :
  oe_EventID entry = uuid_String eid → worked s0 (delete eid due) n s →
  worker_calm i (settle u entry (Ok tt))
    (λ '(u', _) s', poe_lease u' = poe_lease u ∧ worked s0 (delete eid due) n s'
       ∧ w_published (sy_world s) ⊆ w_published (sy_world s')) s.
Proof.
  intros He Hw. unfold settle. cbv beta iota zeta. apply must_bind, must_trigger; [by apply calm_answer|]. intros r s' Hs.
  split; [done|]. split.
  - eapply (worked_touched i (MarkPublished (oe_EventID entry))); [done|done|].
    intros db' Hf. cbn in Hf. rewrite He in Hf. by eapply mark_touches.
  - destruct Hs as [(w' & routed' & Hstep & _ & ->) _]. by apply worker_keeps in Hstep as [? _].
Qed.
Lemma delete_calm i s0 n u s :
  worked s0 ∅ n s →
  worker_calm i (deleteOldPublishedEvents u) (λ u' s', poe_lease u' = poe_lease u ∧ worked s0 ∅ n s') s.
Proof.
  intros Hw. unfold deleteOldPublishedEvents. apply must_trigger; [by apply calm_answer|]. intros t s1 Hs1.
  apply (worked_same i WorkerClock s0 ∅ n) in Hs1; [|done|done]. destruct (_ && _); [done|].
  apply must_trigger; [by apply calm_answer|]. intros r s2 Hs2.
  apply (worked_after i (DeletePublished publishedEventRetention outboxCleanupBatchSize) s0 ∅ n _ _ _ ∅) in Hs2; [|done|].
  2:{ intros db' (victims & _ & Hdel) _. apply cleanup_keeps in Hdel as (Ho & Hi & Hrows).
      split_and!; [done|done|intros eid row Hl; by apply (wk_drainable _ _ _ _ Hs1), Hrows|].
      apply map_empty. intros eid. destruct (due_rows now db' !! eid) as [row|] eqn:Hrow; [|done].
      apply due_rows_lookup in Hrow as [Hl%Hrows Hd].
      assert (due_rows now (w_db (sy_world s1)) !! eid = Some row) as Hx by by apply due_rows_lookup.
      by rewrite (wk_due _ _ _ _ Hs1), lookup_empty in Hx. }
  destruct r as [deleted|err]; [done|].
  apply must_trigger; [by apply calm_answer|]. intros c s3 Hs3. split; [done|].
  by apply (worked_same i WorkerCtxErr s0 ∅ n) in Hs3.
Qed.

(** One round: nothing was due, or a due row is dealt with, and published if it can be. *)
Definition readable_row (eid : uuid) (row : outboxRow) : Prop :=
  is_ok (eventFromPayload (uuid_String eid) (uuid_String (ob_order_id row)) (ob_payload row)) = true.
Definition round (s0 : system) (due : gmap uuid outboxRow) (n : nat) (s : system) : Prop :=
  (due = ∅ ∧ worked s0 ∅ n s)
  ∨ ∃ eid row, due !! eid = Some row ∧ worked s0 (delete eid due) n s
      ∧ (readable_row eid row → ob_order_id row ∈ w_published (sy_world s)).

Lemma publishNext_calm i u s0 due n s :
  (0 < interval_value (poe_lease u))%Z → (n < supply)%nat → worked s0 due n s →
  worker_calm i (publishNext u) (λ '(u', _) s', poe_lease u' = poe_lease u ∧ round s0 due (S n) s') s.
Proof.
  intros Hlease Hn Hw. unfold publishNext. apply must_trigger.
  { apply calm_answer; [pose proof (wk_tokens _ _ _ _ Hw); lia|done]. }
  intros [entry err] s1 Hs1. pose proof Hs1 as [_ (token & choice & Hch & Hclaim)].
  destruct (calm_claim _ _ _ _ _ _ _ Hlease Hch Hclaim) as [(Hno & -> & Hsame)|(eid & row & Hrow & Hev & Ht & Hdue)];
    rewrite (wk_due _ _ _ _ Hw) in *.
  - subst due. assert (worked s0 ∅ (S n) s1) as Hw1.
    { eapply (worked_after i (ClaimNext (poe_lease u))); [exact Hw|done|]. intros db' _ <-. rewrite Hsame.
      split_and!; [done|done|apply Hw|apply Hw]. }
    cbv beta iota. change (is_app (app ErrOutboxEmpty) ErrOutboxEmpty) with true. cbv iota.
    apply must_bind. eapply must_mono; [|by apply delete_calm]. intros u' s2 [Hu Hw2].
    split; [done|by left].
  - assert (worked s0 (delete eid due) (S n) s1) as Hw1.
    { eapply (worked_after i (ClaimNext (poe_lease u))); [exact Hw|done|]. intros db' _ <-.
      split_and!; [| |eapply touched_drainable; [done|apply Hw]|done];
        by destruct Ht as [->|(? & ? & _ & _ & _ & ->)]. }
    rewrite <-(wk_due _ _ _ _ Hw) in Hrow. apply due_rows_lookup in Hrow as [Hl Hd].
    destruct (wk_drainable _ _ _ _ Hw _ _ Hl) as [Hid Hmsg]. destruct Hev as [Heid Hev]. rewrite Hid in *.
    assert (due !! eid = Some row) as Hrow
      by (rewrite <-(wk_due _ _ _ _ Hw); by apply due_rows_lookup).
    destruct (eventFromPayload _ _ _) as [event|e] eqn:Hpay.
    + destruct Hev as [-> Hevent]. cbv beta iota.
      assert (uuid_Parse (oae_OrderID event) = Some (ob_order_id row)) as Hoid
        by (rewrite (event_ids _ _ _ _ Hpay); apply uuid_Parse_String).
      apply must_trigger; [apply calm_answer; [done|]; rewrite Hevent; by eexists|]. intros r s2 Hs2.
      pose proof (worked_same i (PublishOrderAccepted (oe_Event entry) (oe_CorrelationID entry))
        s0 _ _ _ _ _ eq_refl Hw1 Hs2) as Hw2.
      destruct Hs2 as [(w' & routed' & (_ & _ & _ & _ & _ & Hpub) & _ & ->) Hr]. cbn in Hr.
      specialize (Hmsg _ (oe_CorrelationID entry) eq_refl). rewrite Hevent in Hr, Hpub.
      destruct (message_of event _) as [m|]; [|done]. subst r.
      eapply must_mono; [|by apply settle_calm]. intros [u' pause] s3 (Hu & Hw3 & Hsub). split; [done|].
      right. exists eid, row. split_and!; [done..|]. intros _. apply Hsub. cbn.
      destruct Hpub as [[_ Hne]|(oid & Hoid' & ->)]; [done|]. set_solver.
    + destruct Hev as (err' & -> & Hun & Hnot). cbv beta iota. rewrite Hnot, Hun.
      apply must_bind. eapply must_mono; [|by apply setAside_calm]. intros [] s2 Hw2. split; [done|].
      right. exists eid, row. split_and!; [done..|]. unfold readable_row. by rewrite Hpay.
Qed.
Lemma worked_base s0 due n s : worked s0 due n s → worked s due n s.
Proof. intros [H1 H2 H3 H4 H5 H6 H7]. split; try done. exists (sy_world s), (sy_routed s). by destruct s. Qed.
Lemma worked_trans s0 due n s due' n' s' : worked s0 due n s → worked s due' n' s' → worked s0 due' n' s'.
Proof.
  intros [_ A2 A3 A4 _ _ (w & routed & ->)] [B1 B2 B3 B4 B5 B6 (w' & routed' & ->)].
  split; cbn in *; [done|congruence|congruence|by etransitivity|done|done|by exists w', routed'].
Qed.

(** As many rounds as there are due rows. *)
Definition drained (s : system) (due : gmap uuid outboxRow) (n : nat) (s' : system) : Prop :=
  worked s ∅ n s'
  ∧ ∀ eid row, due !! eid = Some row → readable_row eid row → ob_order_id row ∈ w_published (sy_world s').
Lemma drained_round s due n s1 n' s' :
  round s due n s1 → (∀ due', worked s due' n s1 → drained s1 due' n' s') → drained s due n' s'.
Proof.
  intros [[-> Hw]|(eid & row & Hrow & Hw & Hpub)] Hrest; destruct (Hrest _ Hw) as [Hw' Hall];
    (split; [by eapply worked_trans|]); [done|].
  intros e r He Hr. destruct (decide (e = eid)) as [->|Hne].
  - assert (r = row) as -> by congruence. apply (wk_published _ _ _ _ Hw'). by apply Hpub.
  - apply (Hall e r); [|done]. by rewrite lookup_delete_ne.
Qed.

Lemma Run_calm i k u due n s :
  (0 < interval_value (poe_lease u))%Z → (n + k ≤ supply)%nat → worked s due n s → (size due ≤ k)%nat →
  worker_calm i (Run k u) (λ _ s', drained s due (n + k) s') s.
Proof.
  revert u due n s. induction k as [|k IH]; intros u due n s Hlease Hn Hw Hk.
  { assert (due = ∅) as -> by (apply map_size_empty_iff; lia). rewrite Nat.add_0_r. by split. }
  apply must_trigger; [by apply calm_answer|]. intros c s0 Hs0. pose proof Hs0 as [_ Hc]. cbn in Hc. subst c.
  apply (worked_same i WorkerCtxErr s due n) in Hs0; [|done|done]. apply must_bind.
  eapply must_mono; [|apply (publishNext_calm i u s0 due n s0); [done|lia|by eapply worked_base]].
  intros [u' pause] s1 [Hu Hround]. rewrite <-Hu in Hlease. rewrite <-Nat.add_succ_comm.
  assert (∀ s2 s', worked s1 (due_rows now (w_db (sy_world s1))) (S n) s2 →
    drained s2 (due_rows now (w_db (sy_world s1))) (S n + k) s' → drained s due (S n + k) s') as Hfin.
  { intros s2 s' Hw2 [Hw' Hall].
    assert (drained s0 due (S n + k) s') as [Hd1 Hd2].
    { eapply drained_round; [exact Hround|]. intros due' Hw1. rewrite <-(wk_due _ _ _ _ Hw1).
      split; [|done]. by eapply worked_trans. }
    split; [|done]. by eapply worked_trans. }
  assert (worked s1 (due_rows now (w_db (sy_world s1))) (S n) s1
    ∧ (size (due_rows now (w_db (sy_world s1))) ≤ k)%nat) as [Hw1 Hk1].
  { destruct Hround as [[-> Hw1]|(eid & row & Hrow & Hw1 & Hp)];
      rewrite (wk_due _ _ _ _ Hw1); (split; [by eapply worked_base|]).
    - rewrite map_size_empty. lia.
    - rewrite map_size_delete_Some by by exists row. lia. }
  case_bool_decide.
  - eapply must_mono; [|eapply (IH u' _ (S n)); [done|lia|exact Hw1|done]]. intros a s'. by apply Hfin.
  - apply must_trigger; [by apply calm_answer|]. intros c s2 Hs2. pose proof Hs2 as [_ Hc]. cbn in Hc. subst c.
    apply (worked_same i (WorkerTimerOrDone pause) _ _ _ _ _ _ eq_refl Hw1) in Hs2.
    eapply must_mono; [|eapply (IH u' _ (S n)); [done|lia|by eapply worked_base|done]]. intros a s'. by apply Hfin.
Qed.
(** Every stored event that can be read is that of an accepted order, whose texts the wire
    carries. *)
Lemma order_marshals eid o id :
  order_valid o → order_encodable o → ord_id o = uuid_String id →
  is_ok (Marshal (Codec := Wire) (protoOrderAccepted_of (newOrderAcceptedEvent (uuid_String eid) o))) = true.
Proof.
  intros Hv [[He%text_ok_utf8 _] Hs] Hid. apply proto_marshals. unfold proto_utf8. cbn.
  pose proof (order_valid_items _ Hv) as Hitems.
  destruct (order_valid_total _ Hv) as (Hc & _).
  repeat (apply Forall_cons; split); [by apply text_ok_utf8|rewrite Hid; by apply text_ok_utf8|done|by apply supported_utf8|].
  apply Forall_forall. intros t (l & Ht & Hl)%list_elem_of_join.
  rewrite !list_elem_of_fmap in Hl. destruct Hl as (pl & -> & (line & -> & (item & -> & Hin)%list_elem_of_fmap)%list_elem_of_fmap).
  rewrite Forall_forall in Hitems, Hs. destruct (Hs _ Hin) as [Hsku _].
  destruct (Hitems _ Hin) as [(_ & _ & _ & Hcur)%validateItem_spec _]. cbn in Ht.
  rewrite !elem_of_cons, elem_of_nil in Ht. destruct Ht as [-> |[-> |[]]]; [by apply text_ok_utf8|by apply supported_utf8].
Qed.
Lemma sound_drainable s : sys_ok s → drainable (db_outbox (w_db (sy_world s))).
Proof.
  intros Hok eid row Hl. pose proof (proj1 (so_orders _ Hok)) as Ho. pose proof (snd_wf _ Ho) as Hwf.
  split; [by apply (wf_outbox _ Hwf)|]. intros event correlationID Hev.
  destruct (stored_event_is_understood (sy_world s) (ob_order_id row) event Ho) as
    (o & Hv & _ & Heq & Hval & Henc & eid' & Heid); [by exists eid, row|].
  rewrite Heq, Heid. unfold message_of.
  destruct (stored_order_is_proper _ _ _ Hwf Hv) as (_ & _ & Hid & _).
  pose proof (order_marshals eid' o _ Hval Henc Hid) as Hm. by destruct (Marshal _).
Qed.
(** The worker's rounds leave the message of the order with the broker. *)
Lemma worker_announces i lease pollInterval k s id o :
  (0 < interval_value lease)%Z → (size (due_rows now (w_db (sy_world s))) ≤ k)%nat →
  (size (stdpp.base.dom (D := gset uuid) (w_tokens (sy_world s))) + k ≤ supply)%nat →
  sys_ok s → view (w_db (sy_world s)) id = Some o → ord_status o = StatusAccepted →
  (∀ eid row, db_outbox (w_db (sy_world s)) !! eid = Some row → ob_order_id row = id →
     is_due now row = true ∨ ob_status row = "published") →
  calm i (participant_prog ParseAddress_error (OutboxWorker lease pollInterval k))
    (λ _ s', sys_ok s' ∧ sy_notify s' = sy_notify s ∧ accepted_order (sy_world s') o
       ∧ ∃ eventID m, announces m eventID o ∧ m ∈ sy_routed s') s.
Proof.
  intros Hlease Hk Hn Hok Hv Hst Hrows. set (n := size _) in Hn.
  eapply must_mono; [|apply (must_wp (calm_step i) (sys_step status_text) sys_ok sys_rely sys_guar i _
    (λ _ _, True) (λ _ s', drained s (due_rows now (w_db (sy_world s))) (n + k) s'));
      [by intros ????? []|done|by apply outbox_worker_wp|]].
  - intros a s' (Hok' & _ & [_ Ho Hi Hp _ _ (w & routed & Hs')] & Hpub).
    assert (view (w_db (sy_world s')) id = Some o) as Hv'
      by (unfold view, selectItems; by rewrite Ho, Hi).
    split_and!; [done|by rewrite Hs'| |].
    + pose proof (stored_order_is_proper _ _ _ (snd_wf _ (proj1 (so_orders _ Hok'))) Hv') as (Hval & Henc & Hid & _).
      by exists id.
    + eapply published_announced; [done|done|].
      destruct (snd_accepted _ (proj1 (so_orders _ Hok)) _ _ Hv Hst) as [_ [Hdone|(eid0 & eid & row & Hl & Hid & Hev)]];
        [by apply Hp|]. rewrite <-Hid. destruct (Hrows _ _ Hl Hid) as [Hdue|Hdone].
      * apply (Hpub eid); [by apply due_rows_lookup|]. unfold readable_row. by rewrite Hid, Hev.
      * apply Hp. by apply (os_rows _ (proj2 (so_orders _ Hok)) _ _ Hl).
  - apply must_embed, must_bind. eapply must_mono; [|apply (Run_calm i k (NewPublishOrderEvents lease pollInterval) (due_rows now (w_db (sy_world s))) n s); try done].
    + by intros.
    + split; [done|done|done|done|by apply sound_drainable|done|].
      exists (sy_world s), (sy_routed s). by destruct s.
Qed.
(** ** A delivery *)

(** The statements and the provider on their own. *)
Definition calm_notify (i : nat) R (e : notifyE R) (n : nworld) (r : R) (n' : nworld) : Prop :=
  notify_step i R e n r n' ∧ fault_free_notify e (nw_effects n) r (nw_effects n').

Lemma calm_notify_answers i {R} (e : notifyE R) n :
  (if e is rand_Read then size (stdpp.base.dom (D := gset string) (nw_tokens n)) < supply else True)%nat →
  ∃ r n', calm_notify i R e n r n'.
Proof.
  intros Hn. destruct e.
  - destruct (tokens_last _ Hn) as (token & Hnew%not_elem_of_dom & Hok).
    exists (Ok token). eexists. split; [by split|]. by exists token.
  - destruct (exec_write no_faults 0 (claimStatement now key eventID token lease (nw_effects n)) (nw_effects n))
      as [r tbl] eqn:Hw. exists r, (with_effects n tbl). split; [by exists no_faults, now, tbl|done].
  - eexists _, n. split; [split; [done|]; by exists no_faults|done].
  - destruct (exec_write no_faults 0 (beginStatement now key token (nw_effects n)) (nw_effects n))
      as [r tbl] eqn:Hw. exists r. eexists. split; [by exists no_faults, now, tbl|done].
  - destruct (exec_write no_faults 0 (finishStatement now key token state (nw_effects n)) (nw_effects n))
      as [r tbl] eqn:Hw. exists r, (with_effects n tbl). split; [by exists no_faults, now, tbl|done].
  - exists (Ok tt). by eexists.
Qed.

Lemma must_notify {A} i (p : prog notifyE A) Q s :
  must (calm_notify i) p (λ a n', ∀ emails, Q a (with_notify n' emails s)) (sy_notify s) →
  calm i (embed (@OfNotify) p) Q s.
Proof.
  intros Hm. apply must_embed.
  assert (∀ s1, (∃ emails, s1 = with_notify (sy_notify s1) emails s) →
    must (calm_notify i) p (λ a n', ∀ emails, Q a (with_notify n' emails s)) (sy_notify s1) →
    must (λ R e, calm_step i R (OfNotify e)) p Q s1) as Hgo.
  2:{ apply Hgo; [|done]. exists (sy_emails s). by destruct s. }
  clear Hm. induction p as [a|R e k IH]; cbn; intros s1 [emails Hs1].
  - rewrite Hs1. auto.
  - intros [(r & n' & Hstep & Hf) Hall]. split.
    + exists r. eexists. split; [exists n'; by split|exact Hf].
    + intros r' s2 [(n2 & Hstep2 & ->) Hf2]. apply IH; [|by apply Hall].
      rewrite Hs1. by eexists.
Qed.
(** No worker still holds the effect. *)
Definition unclaimed (key : EffectKey) (n : nworld) : Prop :=
  ∀ row, nw_effects n !! key = Some row → sn_state row = "sending" → (sn_lease_expires_at row < now)%Z.
Definition holds_row (key : EffectKey) (token : string) (attempts : Z) (n : nworld) : Prop :=
  ∃ row, nw_effects n !! key = Some row ∧ holds_effect token row = true ∧ sn_attempts row = attempts.

Lemma unclaimed_takes key eventID token lease n :
  notify_sound n → unclaimed key n → key_ok key = true → text_ok eventID = true → text_ok token = true →
  (∃ row', claimStatement now key eventID token lease (nw_effects n)
     = Ok (Some (attempts_of n key), <[key := row']> (nw_effects n))
     ∧ holds_effect token row' = true ∧ sn_attempts row' = attempts_of n key)
  ∨ (∃ row, nw_effects n !! key = Some row ∧ sn_state row = "sent"
     ∧ claimStatement now key eventID token lease (nw_effects n) = Ok (None, nw_effects n)).
Proof.
  intros Hs Hun Hk He Ht. unfold claimStatement, attempts_of. rewrite Hk, He, Ht. cbn [negb andb].
  assert (∀ e a l c u, holds_effect token (mkEffectRow e "sending" token a l c u) = true) as Hholds
    by (intros; unfold holds_effect; cbn; by rewrite (bool_decide_eq_true_2 (token = token))).
  destruct (nw_effects n !! key) as [row|] eqn:Hrow; [|left; eexists; split; [done|]; by split].
  destruct (ns_rows _ Hs _ _ Hrow) as (_ & Hst & _). rewrite !elem_of_cons, elem_of_nil in Hst.
  destruct Hst as [Hst|[Hst|[Hst|[]]]].
  - left. unfold may_take_over. rewrite Hst. cbn. specialize (Hun _ Hrow Hst).
    rewrite (proj2 (Z.ltb_lt _ _) Hun). eexists. split; [done|]. by split.
  - right. exists row. unfold may_take_over. by rewrite Hst.
  - left. unfold may_take_over. rewrite Hst. eexists. split; [done|]. by split.
Qed.

Lemma claim_calm i key eventID lease n :
  notify_sound n → unclaimed key n → key_ok key = true → text_ok eventID = true →
  (size (stdpp.base.dom (D := gset string) (nw_tokens n)) < supply)%nat →
  must (calm_notify i) (notification_Claim key eventID lease)
    (λ r n', (∃ token, r = Ok (ClaimGranted, mkClaim token (attempts_of n key)) ∧ text_ok token = true
                ∧ holds_row key token (attempts_of n key) n')
             ∨ (r = Ok (ClaimAlreadySent, zero_claim) ∧ key ∈ nw_accepted n')) n.
Proof.
  intros Hs Hun Hk He Hn. unfold notification_Claim, newClaimToken.
  apply must_bind, must_trigger; [by apply calm_notify_answers|].
  intros r n1 [Hrand (token & -> & Ht)]. cbn in Hrand. destruct Hrand as [Hnew ->].
  apply must_trigger; [by apply calm_notify_answers|]. intros r n2 [(f & t & tbl & _ & ->) Hclaim]. cbn in Hclaim.
  unfold exec_write in Hclaim. cbn [flt_stmt no_faults] in Hclaim.
  destruct (unclaimed_takes key eventID token lease n) as [(row' & Hc & Hh & Ha)|(row & Hrow & Hst & Hc)]; [done..| |];
    rewrite Hc in Hclaim; injection Hclaim as <- <-.
  - left. exists token. split_and!; [done..|]. exists row'. cbn. by rewrite lookup_insert_eq.
  - apply must_bind, must_trigger; [by apply calm_notify_answers|]. intros r n3 [[-> _] Hq]. cbn in Hq.
    unfold stateQuery in Hq. rewrite Hk, Hrow in Hq. cbn in Hq. subst r. cbn. rewrite Hst. right. split; [done|].
    destruct (ns_rows _ Hs _ _ Hrow) as (_ & _ & _ & Hacc). by apply Hacc.
Qed.

(** Sent, or its budget was spent before. *)
Definition confirmed (command : OrderAcceptedCommand) (n : nworld) (r : Result) (n' : nworld) : Prop :=
  (res_Outcome r ∈ [OutcomeSent; OutcomeAlreadySent] ∧ effect_of command ∈ nw_accepted n')
  ∨ (res_Outcome r = OutcomeExhausted ∧ (MaxSendAttempts ≤ attempts_of n (effect_of command))%Z).

Lemma send_claimed_calm i command token attempts n n0 :
  key_ok (effect_of command) = true → text_ok token = true → (0 ≤ attempts)%Z →
  attempts_of n0 (effect_of command) = attempts → holds_row (effect_of command) token attempts n →
  must (calm_notify i) (send_claimed command (mkClaim token attempts)) (λ r n', confirmed command n0 r n') n.
Proof.
  intros Hk Ht Hpos Hatt (row & Hrow & Hh & Ha). unfold send_claimed. cbn [Attempts Token].
  destruct (_ <=? _)%Z eqn:Hmax; reflect_bools; [right; cbn; split; [done|lia]|].
  apply must_bind, must_trigger; [by apply calm_notify_answers|]. intros r n1 [(f & t & tbl & _ & ->) Hbegin].
  cbn in Hbegin. unfold exec_write, beginStatement in Hbegin. cbn [flt_stmt no_faults] in Hbegin.
  assert (int4_ok (sn_attempts row + 1) = true) as Hint
    by (apply int4_ok_spec; unfold MaxSendAttempts in Hmax; int_unfold; lia).
  rewrite Hk, Ht, Hrow, Hh, Hint in Hbegin. cbn [negb andb] in Hbegin. injection Hbegin as <- <-.
  apply must_trigger; [by apply calm_notify_answers|]. intros r n2 [-> Hsend]. cbn in Hsend. subst r.
  apply must_bind, must_trigger; [by apply calm_notify_answers|]. intros r n3 [(f' & t' & tbl & _ & ->) Hfin].
  cbn in Hfin. unfold exec_write, finishStatement in Hfin. cbn [flt_stmt no_faults] in Hfin.
  change (text_ok "sent") with true in Hfin. rewrite Hk, Ht, lookup_insert_eq in Hfin. cbn [negb andb] in Hfin.
  apply holds_effect_spec in Hh as [Hst Htok]. unfold holds_effect in Hfin. cbn in Hfin. rewrite Hst, Htok in Hfin.
  rewrite (bool_decide_eq_true_2 (token = token)) in Hfin by done. cbn in Hfin. injection Hfin as <- <-.
  left. cbn. split; [by left|]. set_solver.
Qed.

Lemma Execute_calm i lease command n :
  notify_sound n → unclaimed (effect_of command) n → text_ok (oac_OrderID command) = true →
  text_ok (oac_EventID command) = true →
  (size (stdpp.base.dom (D := gset string) (nw_tokens n)) < supply)%nat →
  must (calm_notify i) (HandleOrderAccepted_Execute lease command) (λ r n', confirmed command n r n') n.
Proof.
  intros Hs Hun Ho He Hn.
  assert (key_ok (effect_of command) = true) as Hk by (unfold key_ok, effect_of; cbn -[text_ok]; by rewrite Ho).
  apply must_bind. eapply must_mono; [|by apply claim_calm].
  intros r n' [(token & -> & Ht & Hrow)|[-> Hacc]]; [|left; cbn; split; [by right; left|done]].
  apply send_claimed_calm; [done|done| |done|done]. unfold attempts_of.
  destruct (nw_effects n !! effect_of command) as [row|] eqn:Hrow'; [|done]. by apply (ns_rows _ Hs _ _ Hrow').
Qed.
(** *** The delivery is settled *)
Section settled.
Context (i : nat) (lease : Z) (d : Delivery).
Abbreviation on_calm p Q s := (calm i (interp (answer_delivery ParseAddress_error lease d) p) Q s).

(** The calls of the consumer and what they leave. *)
Lemma calm_delivery_answers {R} (e : deliveryE R) s :
  (if e is WaitParked _ then sy_publication s !! i ≠ Some Lost else True) →
  ∃ r s', calm_step i R (OfDelivery d e) s r s'.
Proof.
  intros He. destruct e.
  - by exists false, s.
  - by exists (mkResult OutcomeUnknown 0 None), s.
  - by exists "", s.
  - set (r := match sy_publication s !! i with Some Returned => AReturn "" | _ => NothingReturned end).
    exists r. eexists. split; [split; [|reflexivity]|done].
    subst r. intros Hr Hp. by rewrite Hp in Hr.
  - exists (Ok 0). eexists. split; [by exists Routed|]. split; [by eexists|]. cbn. apply lookup_insert_eq.
  - exists (Ok true). eexists. by split.
  - exists None. eexists. by split.
  - by exists None, s.
Qed.

Lemma calm_call {A R} (e : deliveryE R) (k : R → prog deliveryE A) Q s :
  answer_delivery ParseAddress_error lease d R e = trigger (OfDelivery d e) →
  (if e is WaitParked _ then sy_publication s !! i ≠ Some Lost else True) →
  (∀ r s', delivery_step i d e s r s' → fault_free_delivery i e s r s' → on_calm (k r) Q s') →
  on_calm (trigger e ≫= k) Q s.
Proof.
  intros He Hex Hk. apply must_interp_call. rewrite He. split; [by apply calm_delivery_answers|].
  intros r s' [Hstep Hf]. by apply Hk.
Qed.

Lemma acknowledge_calm {A} (a : A) (Q : A → system → Prop) s :
  Q a (with_acked (d :: sy_acked s) s) → on_calm (_ ← acknowledge; Ret a) Q s.
Proof. intros HQ. apply calm_call; [done|done|]. by intros r s' -> _. Qed.

(** A return of an earlier copy is received first, then there is none. *)
Lemma drainReturns_calm {A} (k : option unit → prog deliveryE A) looks Q s :
  (2 ≤ looks)%nat →
  (∀ pub, on_calm (k (Some tt)) Q (with_parked (sy_parked s) pub s)) →
  on_calm (drainReturns looks ≫= k) Q s.
Proof.
  intros Hlooks Hk. destruct looks as [|[|looks]]; [lia|lia|]. apply must_interp_bind.
  apply calm_call; [done|done|]. intros r s1 [_ Hs1] Hr. cbn in Hr.
  destruct (sy_publication s !! i) as [[]|] eqn:Hpub; subst r; try (cbn in Hs1; subst s1; by apply Hk).
  apply calm_call; [done|done|]. intros r s2 [_ Hs2] Hr. cbn in Hr. rewrite Hs1 in Hr. cbn in Hr.
  rewrite lookup_delete_eq in Hr. subst r. cbn in Hs2. subst s2 s1. apply Hk.
Qed.

Lemma park_calm looks reason s (Q : option unit → system → Prop) :
  (2 ≤ looks)%nat →
  (∀ now s', s' = with_acked (d :: sy_acked s)
       (with_parked (parked_message OrderAcceptedSubscription d reason now :: sy_parked s) (sy_publication s') s) →
     Q (Some tt) s') →
  on_calm (park looks OrderAcceptedSubscription d reason) Q s.
Proof.
  intros Hlooks HQ. apply calm_call; [done|done|]. intros t s1 -> _.
  apply drainReturns_calm; [done|]. intros pub. set (copy := parked_message _ _ _ _).
  apply calm_call; [done|done|]. intros r s2 [p Hs2] [[confirmation ->] Hp]. rewrite Hs2 in Hp. cbn in Hp.
  rewrite lookup_insert_eq in Hp. injection Hp as ->.
  assert (sy_publication s2 !! i = Some Routed) as Hp2 by (subst s2; apply lookup_insert_eq).
  apply calm_call; [done|by rewrite Hp2|]. intros r s3 [_ Hs3] Hr. cbn in Hr. subst r. rewrite Hp2 in Hs3.
  assert (sy_publication s3 !! i = Some Routed) as Hp3 by by subst s3.
  apply calm_call; [done|done|]. intros r s4 [_ Hs4] Hr. cbn in Hr. rewrite Hp3 in Hr. subst r.
  apply acknowledge_calm. apply (HQ t). subst s4 s3 s2. reflexivity.
Qed.

Lemma handle_calm looks eventID o s :
  (2 ≤ looks)%nat → (size (stdpp.base.dom (D := gset string) (nw_tokens (sy_notify s))) < supply)%nat →
  sys_ok s → delivers d eventID o s → unclaimed (effect_of (command_of eventID o)) (sy_notify s) →
  on_calm (handle looks OrderAcceptedSubscription d)
    (λ _ s', d ∈ sy_acked s' ∧ concluded s' d o
       ∧ ((attempts_of (sy_notify s) (effect_of (command_of eventID o)) < MaxSendAttempts)%Z →
          effect_of (command_of eventID o) ∈ nw_accepted (sy_notify s'))) s.
Proof.
  intros Hlooks Hn Hok Hd Hun. destruct (delivers_decodes ParseAddress_error d eventID o s Hd) as [Henv Hdec].
  destruct Hd as [(id & _ & _ & _ & _ & Hid) (m & [[eid Heid] _] & _)].
  unfold handle. rewrite Henv. apply calm_call; [done|done|]. intros r s1 -> Hr. cbn in Hr. subst r.
  apply must_interp_call. cbn [answer_delivery]. unfold OrderAccepted_Handle. rewrite Hdec.
  apply must_notify. eapply must_mono; [|apply (Execute_calm i lease (command_of eventID o) (sy_notify s))];
    [|apply Hok|done|by (cbn; rewrite Hid)|by (cbn; rewrite Heid)|done].
  intros r n' [[Hout Hacc]|[Hout Hmax]] emails.
  - rewrite !elem_of_cons, elem_of_nil in Hout.
    destruct Hout as [Hout|[Hout|[]]]; rewrite Hout; apply acknowledge_calm; cbn;
      (split; [by left|]; split; [left; by exists eventID|done]).
  - rewrite Hout. apply park_calm; [done|]. intros t s' ->. cbn. split; [by left|]. split; [|lia].
    right. eexists _, t. by left.
Qed.
End settled.
(** An accepted order is announced by the worker, and its message concludes it. *)
Lemma accepted_calm i j s id o lease pollInterval rounds lease' looks :
  sys_ok s → view (w_db (sy_world s)) id = Some o → ord_status o = StatusAccepted →
  (∀ eid row, db_outbox (w_db (sy_world s)) !! eid = Some row → ob_order_id row = id →
     is_due now row = true ∨ ob_status row = "published") →
  (size (due_rows now (w_db (sy_world s))) ≤ rounds)%nat → (0 < interval_value lease)%Z →
  unclaimed (effect_of (command_of "" o)) (sy_notify s) → (2 ≤ looks)%nat →
  (size (stdpp.base.dom (D := gset uuid) (w_tokens (sy_world s))) + rounds ≤ supply)%nat →
  (size (stdpp.base.dom (D := gset string) (nw_tokens (sy_notify s))) < supply)%nat →
  calm i (participant_prog ParseAddress_error (OutboxWorker lease pollInterval rounds))
    (λ _ s1, sys_ok s1 ∧ (∃ eventID m, announces m eventID o ∧ m ∈ sy_routed s1)
       ∧ ∀ eventID m d, announces m eventID o → m ∈ sy_routed s1 → carries m d →
           calm j (handle_delivery ParseAddress_error lease' looks d)
             (λ _ s2, sys_ok s2 ∧ d ∈ sy_acked s2 ∧ concluded s2 d o
                ∧ ((attempts_of (sy_notify s) (effect_of (command_of "" o)) < MaxSendAttempts)%Z →
                   emailed s2 o)) s1) s.
Proof.
  intros Hok Hv Hst Hrows Hrounds Hlease Hun Hlooks Hn Hn'.
  eapply must_mono; [|by apply (worker_announces i lease pollInterval rounds s id o)].
  intros _ s1 (Hok1 & Hsame & Ho & Hmsg). split_and!; [done|done|]. intros eventID m d Ha _ Hc.
  assert (delivers d eventID o s1) as Hd by (split; [done|by exists m]).
  eapply must_mono; [|eapply (must_wp (calm_step j) (sys_step status_text) sys_ok sys_rely sys_guar j _
    (λ _ s2, True ∧ accepted_order (sy_world s2) o) (λ _ s2, d ∈ sy_acked s2 ∧ concluded s2 d o
       ∧ ((attempts_of (sy_notify s) (effect_of (command_of "" o)) < MaxSendAttempts)%Z →
          effect_of (command_of "" o) ∈ nw_accepted (sy_notify s2))));
    [by intros ????? []|done|apply wp_stable;
       [by intros ??; apply accepted_stable|done|by eapply handled_delivery_wp]|]].
  - intros a s2 (Hok2 & [_ Ho2] & Hack & Hcon & Hacc). split_and!; [done..|].
    intros Hlow. apply accepted_emailed; [done|done|]. by apply Hacc.
  - rewrite <-Hsame in *. apply must_interp_bind.
    eapply must_mono; [|by apply (handle_calm j lease' d looks eventID o s1)]. by intros [] s2.
Qed.
(** C3: No accepted order is stuck, whatever happened before: faults, lost answers, workers
    that are gone. From any state the system can be in, at an instant when the order's
    event is due or was published and no worker still holds the order's email, if nothing
    fails from there on: the outbox worker, given a round for each due row, ends with a
    message of the order at the broker, whichever due rows it claims first; and whichever
    message of the order is then delivered, its delivery ends acknowledged, with the order
    concluded: its email was accepted, with the order's address and amount, or a copy of the
    delivery is in the parked queue, and that only when its budget of attempts was already
    spent. *)
Theorem no_accepted_order_is_stuck i j s id o lease pollInterval rounds lease' looks :
  sys_ok s → view (w_db (sy_world s)) id = Some o → ord_status o = StatusAccepted →
  (∀ eid row, db_outbox (w_db (sy_world s)) !! eid = Some row → ob_order_id row = id →
     is_due now row = true ∨ ob_status row = "published") →
  (size (due_rows now (w_db (sy_world s))) ≤ rounds)%nat → (0 < interval_value lease)%Z →
  unclaimed (effect_of (command_of "" o)) (sy_notify s) → (2 ≤ looks)%nat →
  (size (stdpp.base.dom (D := gset uuid) (w_tokens (sy_world s))) + rounds ≤ supply)%nat →
  (size (stdpp.base.dom (D := gset string) (nw_tokens (sy_notify s))) < supply)%nat →
  calm i (participant_prog ParseAddress_error (OutboxWorker lease pollInterval rounds))
    (λ _ s1, sys_ok s1 ∧ (∃ eventID m, announces m eventID o ∧ m ∈ sy_routed s1)
       ∧ ∀ eventID m d, announces m eventID o → m ∈ sy_routed s1 → carries m d →
           calm j (handle_delivery ParseAddress_error lease' looks d)
             (λ _ s2, sys_ok s2 ∧ d ∈ sy_acked s2 ∧ concluded s2 d o
                ∧ ((attempts_of (sy_notify s) (effect_of (command_of "" o)) < MaxSendAttempts)%Z →
                   emailed s2 o)) s1) s.
Proof. exact (accepted_calm i j s id o lease pollInterval rounds lease' looks). Qed.
End liveness.

(** ** From a stored order to its email

    The request of [sample_participants] has been answered and nothing else has happened. *)
Definition stored_system : option system :=
  snd <$> exec_pool quiet (replicate 12 0 ++ replicate 6 2 ++ replicate 20 0)
    (participant_prog (Hash := sample_hash) (λ _, "") <$> sample_participants, sample_system).

Lemma sample_tokens_last (X : gset string) : (size X < 3)%nat → ∃ t, (t ∉ X) ∧ text_ok t = true.
Proof.
  intros HX. destruct (missing_element ["token-7"; "token-8"; "token-9"] X) as (t & Hin & Ht);
    [by apply (bool_decide_unpack _); vm_compute|exact HX|]. exists t. split; [done|].
  rewrite !elem_of_cons, elem_of_nil in Hin. by destruct Hin as [->|[->|[->|[]]]].
Qed.
Lemma sample_uuid_text_ok (u : sample_uuid_type) : text_ok (uuid_String (UuidLib := sample_uuid) u) = true.
Proof. destruct u as [t Ht]. cbn. unfold sample_uuid_ok in Ht. by reflect_bools. Qed.

(** What the theorem asks of the state, as a test. *)
Definition waits_for_worker (s : system) (id : sample_uuid_type) : bool :=
  match view (w_db (sy_world s)) id with
  | Some o =>
      bool_decide (ord_status o = StatusAccepted)
      && bool_decide (map_Forall (λ _ row, is_due Microsecond row = true) (db_outbox (w_db (sy_world s))))
      && bool_decide (size (due_rows Microsecond (w_db (sy_world s))) ≤ 1)%nat
      && bool_decide (nw_effects (sy_notify s) = ∅)
      && bool_decide (size (w_tokens (sy_world s)) = 0)%nat
      && bool_decide (size (nw_tokens (sy_notify s)) = 0)%nat
  | None => false
  end.
Lemma stored_system_waits :
  match stored_system, fresh_text 0 with
  | Some s, Some id => waits_for_worker s id
  | _, _ => false
  end = true.
Proof. vm_compute. reflexivity. Qed.

Lemma stored_system_reached s :
  stored_system = Some s → sys_ok (Hash := sample_hash) s.
Proof.
  unfold stored_system. intros (c & Hrun & ->)%fmap_Some.
  pose proof (exec_pool_steps _ _ sys_env _ _ c quiet_sound Hrun) as Hc.
  assert (sys_ok (Hash := sample_hash) sample_system) as Hs by apply sample_system_ok.
  by destruct (system_reaches (Hash := sample_hash) sample_jsonb_value (λ _, "") (λ _, "")
    sample_participants sample_system c Hs Hc).
Qed.

(** Nothing fails, inventory included: it refuses only for lack of stock. *)
Abbreviation sample_calm := (calm_step (λ _, "") Microsecond Second (λ _, Ok basket_prices) only_short).

Lemma no_accepted_order_is_stuck_witness :
  ∃ s id o, stored_system = Some s ∧ view (w_db (sy_world s)) id = Some o ∧ ord_status o = StatusAccepted
  ∧ ∃ a s1 a' s2 d,
      rtc (pool_step sample_calm (λ _ _, False))
        ([participant_prog (Hash := sample_hash) (λ _, "") (OutboxWorker Minute Second 1)], s) ([Ret a], s1)
      ∧ rtc (pool_step sample_calm (λ _ _, False))
          ([handle_delivery (Hash := sample_hash) (λ _, "") Minute 2 d], s1) ([Ret a'], s2)
      ∧ d ∈ sy_acked s2 ∧ emailed (Hash := sample_hash) s2 o.
Proof.
  pose proof stored_system_waits as Hw. pose proof stored_system_reached as Hok.
  destruct stored_system as [s|]; [|discriminate Hw]. destruct (fresh_text 0) as [id|]; [|discriminate Hw].
  specialize (Hok s eq_refl). unfold waits_for_worker in Hw.
  destruct (view _ id) as [o|] eqn:Hv; [|discriminate Hw].
  rewrite !andb_true_iff, !bool_decide_eq_true in Hw. destruct Hw as [[[[[Hst Hdue] Hsize] He] Ht] Ht'].
  exists s, id, o. split; [reflexivity|]. split; [exact Hv|]. split; [exact Hst|].
  pose proof (no_accepted_order_is_stuck (Hash := sample_hash) sample_jsonb_value (λ _, "") (λ _, "")
    (λ p _, eq_refl) sample_uuid_text_ok 3 sample_uuids_last sample_tokens_last Microsecond Second (λ _, Ok basket_prices) only_short 0 0 s id o
    Minute Second 1 Minute 2 Hok Hv Hst) as Hmust.
  destruct (must_pool _ sample_calm (λ _ _, False) 0
    (participant_prog (Hash := sample_hash) (λ _, "") (OutboxWorker Minute Second 1)) _
    [participant_prog (Hash := sample_hash) (λ _, "") (OutboxWorker Minute Second 1)] s
    (λ R e w r w' H, H) eq_refl (Hmust ltac:(intros eid row Hl _; left; exact (Hdue eid row Hl)) Hsize
      ltac:(reflexivity) ltac:(intros row Hrow; rewrite He in Hrow; discriminate Hrow) ltac:(lia)
      ltac:(rewrite size_dom; lia) ltac:(rewrite size_dom; lia)))
    as (a & s1 & Hrun1 & Hok1 & (eid & m & Ha & Hm) & Hd).
  set (d := delivery_of m).
  destruct (must_pool _ sample_calm (λ _ _, False) 0
    (handle_delivery (Hash := sample_hash) (λ _, "") Minute 2 d) _
    [handle_delivery (Hash := sample_hash) (λ _, "") Minute 2 d] s1
    (λ R e w r w' H, H) eq_refl (Hd eid m d Ha Hm ltac:(by split_and!)))
    as (a' & s2 & Hrun2 & Hok2 & Hack & _ & Hacc).
  exists a, s1, a', s2, d. split; [exact Hrun1|]. split; [exact Hrun2|]. split; [exact Hack|].
  apply Hacc. unfold attempts_of. rewrite He. reflexivity.
Defined.
