(* ===== verification/OrderJourney.v ===== *)
(** * From a request to its customer's email

    The stages of an order's way through the system put together, while nothing fails: the
    request that places an order or takes up one left pending, the round of the worker that
    announces it and the delivery that confirms it, each started in whatever state the one
    before may end in. *)
From S2P Require Import Prelude GoErrors GoStrings External Postgres Prog Correlation InventoryErrors InventoryCanonical ReservationStore ReserveStock ReservationSpec InventoryService InventoryGrpc InventoryClient InventoryContract.
From S2P Require Import OrderErrors OrderDomain OrderPorts CreateOrder OrderStore OrderStoreSpec Outbox StoreLiveness EventWorker OutboxDrain OrderEvents OrderSystem HttpApi Router OrderApi OrderLiveness.
From S2P Require Import SentNotifications HandleOrderAccepted NotificationService Topology Consumer NotificationEvents EndToEnd WholeSystem WholeLiveness.

Section journey.
Context {Mail : MailLib} {Uuid : UuidLib} {Pg : Postgres} {Json : Codec orderAcceptedPayload}.
Context {UuidL : UuidLaws Uuid} {PgL : PostgresLaws Pg} {JsonL : CodecLaws Json payload_utf8}.
Context {Times : TimestampLib} {TimesL : TimestampLaws Times} {Hash : HashLib}.
Context {Wire : Codec protoOrderAccepted} {WireL : CodecLaws Wire proto_wf}.
Context {Text : PostgresText Uuid} {TextL : PostgresTextLaws Text} {Statuses : StatusLib}.
Context {Binding : BindingLib} {Gin : GinLib} {GinL : GinLaws Gin}.
Hypothesis jsonb_value : ∀ b b', jsonb b = Some b' → Unmarshal (Codec := Json) b' = Unmarshal b.
Variable ParseAddress_error : string → string.
Variable status_text : InventoryGrpc.Status → string.

(** As for the single stages: codecs fail only for values the services do not give them,
    and the generators do not run out. *)
Hypothesis proto_marshals : ∀ p, proto_utf8 p → is_ok (Marshal (Codec := Wire) p) = true.
Hypothesis uuid_text : ∀ u, text_ok (uuid_String u) = true.
Variable supply : nat.
Hypothesis uuids_last : ∀ X : gset uuid, (size X < supply)%nat → ∃ u, (u ∉ X).
Hypothesis tokens_last : ∀ X : gset string, (size X < supply)%nat → ∃ t, (t ∉ X) ∧ text_ok t = true.
Variable latest now : Z.
Hypothesis json_marshals : ∀ p, payload_utf8 p → (0 ≤ pay_OccurredAt p ≤ latest)%Z →
  is_ok (Marshal (Codec := Json) p) = true.
Hypothesis jsonb_takes : ∀ p b, payload_texts p → Marshal (Codec := Json) p = Ok b → is_Some (jsonb b).
Hypothesis clock_runs : (0 < latest)%Z ∧ (latest `mod` Microsecond = 0)%Z.
Variable catalogue : list string → order_result (gmap string Money).
Variable refusals : InventoryGrpc.ReserveStockRequest → InventoryGrpc.Status → Prop.
(** Inventory can always say no, with some status. *)
Hypothesis refuses : ∀ basket, ∃ st, refusals basket st.

Abbreviation calm_sys i := (calm_step status_text now latest catalogue refusals i).
Abbreviation calm_request i := (calm_http latest catalogue refusals now status_text i).
Abbreviation calm i := (must (calm_sys i)).

(** ** The request *)

(** What a request leaves alone. *)
Definition orders_only (s s' : system) : Prop :=
  sy_notify s' = sy_notify s ∧ w_tokens (sy_world s') = w_tokens (sy_world s).
#[export] Instance orders_only_preorder : PreOrder orders_only.
Proof. split; [done|]. intros s1 s2 s3 [] []. split; congruence. Qed.

(** A call is answered in the whole system if it is in order-service alone. *)
Lemma request_lifts i {R} (e : httpE R) s :
  (∃ r w', calm_request i R e (sy_world s) r w') → ∃ r s', calm_sys i R (of_http R e) s r s'.
Proof.
  intros (r & w' & Hstep). destruct e as [R e|R []]; [|exists false, s; by split]. destruct Hstep as [Hstep Hf].
  destruct e; try (exists r, (with_orders w' (sy_routed s) s); split; [by exists w'|exact Hf]).
  destruct (refuses (request_of request)) as [st Hst].
  set (no := Err st : result InventoryGrpc.Status unit).
  exists (reserver_Reserve status_text (λ _, no) request), (with_orders (sy_world s) (sy_routed s) s).
  split; [|exists no; split; [by intros ? [= <-]|done]].
  exists (sy_world s). split; [|split; [split|]]; [|by exists (λ _, no)|done|done].
  do 2 (split; [done|]). split_and!; done.
Qed.
Lemma request_projects i {R} (e : httpE R) s r s' :
  calm_sys i R (of_http R e) s r s' → calm_request i R e (sy_world s) r (sy_world s').
Proof.
  destruct e as [R e|R []]; [|by intros [-> ->]]. intros [(w' & Hstep & _ & ->) Hf]. by split.
Qed.
Lemma request_leaves i {R} (e : httpE R) s r s' : calm_sys i R (of_http R e) s r s' → orders_only s s'.
Proof.
  destruct e as [R e|R []]; [|by intros [-> ->]]. intros [(w' & (_ & Ht & _) & _ & ->) _]. by split.
Qed.

(** A request to place an order is answered. *)
Lemma placing_calm i buffer rq command items s :
  sys_ok s → places rq command → can_serve latest supply (sy_world s) →
  demand catalogue (sy_world s) command items →
  calm i (participant_prog ParseAddress_error (APIRequest buffer rq))
    (λ answer s1, sys_ok s1 ∧ orders_only s s1 ∧ ∃ a created id o, answer = Some a
       ∧ subject (sy_world s) command items created id o
       ∧ client_told refusals now (db_outbox (w_db (sy_world s))) id o created (sv_answer a) (sy_world s1)) s.
Proof.
  intros Hok Hplaces Hready Hdemand.
  eapply must_mono; [|apply (must_wp (calm_sys i) (sys_step status_text) sys_ok sys_rely sys_guar i _
    (λ _ _, True) (λ answer s1, orders_only s s1 ∧ ∃ a created id o, answer = Some a
        ∧ subject (sy_world s) command items created id o
        ∧ client_told refusals now (db_outbox (w_db (sy_world s))) id o created (sv_answer a) (sy_world s1)));
      [by intros ????? []|done|eapply wp_mono; [|by apply api_request_wp]; done|]].
  - intros a s1 (Hok1 & _ & Hrest). by split.
  - apply must_embed, must_keeps; [apply _|intros; by eapply request_leaves|].
    apply must_bind. eapply must_mono; [|apply (must_lift (calm_request i) _ sy_world _
      (λ a w', ∃ created id o, subject (sy_world s) command items created id o
         ∧ client_told refusals now (db_outbox (w_db (sy_world s))) id o created (sv_answer a) w'))].
    + intros a s1 (created & id & o & Ht). by exists a, created, id, o.
    + intros. by apply request_lifts.
    + intros. by eapply request_projects.
    + by apply (serve_calm jsonb_value latest json_marshals jsonb_takes supply uuids_last catalogue refusals now
        status_text clock_runs i buffer rq command items (sy_world s)).
Qed.

(** ** The way of an order *)

(** The order a request is about has no event yet. *)
Lemma subject_unannounced w command items created id o :
  orders_sound w → subject w command items created id o →
  ∀ eid row, db_outbox (w_db w) !! eid = Some row → ob_order_id row ≠ id.
Proof.
  destruct created; cbn; intros Hs; [intros (_ & Hnone & _)|intros (Hv & Hp & _)].
  - apply unannounced; [done|]. by rewrite Hnone.
  - by eapply pending_unannounced.
Qed.

(** The outbox once the event of the order waits in it. *)
Lemma event_waits_due db id o db' :
  (∀ eid row, db_outbox db !! eid = Some row → ob_order_id row ≠ id) →
  event_waits now (db_outbox db) id o db' →
  (∀ eid row, db_outbox db' !! eid = Some row → ob_order_id row = id → is_due now row = true)
  ∧ (size (due_rows now db') ≤ S (size (due_rows now db)))%nat.
Proof.
  intros Hno (eid & row & Hins & Hid & Hdue & _). split.
  - intros e r. rewrite Hins. intros [[<- <-]|[_ Hl]]%lookup_insert_Some Hr; [done|].
    by destruct (Hno _ _ Hl).
  - unfold due_rows. rewrite Hins, map_filter_insert_True, map_size_insert by done.
    case_match; cbn; lia.
Qed.

(** C2: An order reaches its customer. From any state the system can be in, with nobody at
    work on an email: while the databases, the catalogue and the broker answer, and
    inventory-service says yes or refuses with whatever status it may, a request that places
    an order under a new key, or that repeats one whose order was left pending, is answered,
    and what it says holds. 409: inventory refused the basket with [FailedPrecondition] and
    the order is rejected. 503: it answered [Unavailable] or [DeadlineExceeded], and the
    order is still pending. 500: it refused with another status - that of an unknown
    product, of a request over its limits, of a conflict, of a failure of its own - and the
    order is still pending, and a repetition may be refused the same way. 201 or, for a
    repetition, 200: it is the accepted order, to whose products and quantities
    inventory-service answered yes. Then the worker, given a round for each event that was
    due and one more, ends with a message of the order at the broker; and whichever message
    of it is delivered, the delivery ends acknowledged, with the order's email accepted by
    the provider unless its budget of attempts was already spent. *)
Theorem order_reaches_its_customer i j k buffer rq command items s lease pollInterval rounds lease' looks :
  sys_ok s → places rq command → can_serve latest supply (sy_world s) →
  demand catalogue (sy_world s) command items →
  (S (size (due_rows now (w_db (sy_world s)))) ≤ rounds)%nat → (0 < interval_value lease)%Z →
  (∀ key, unclaimed now key (sy_notify s)) → (2 ≤ looks)%nat →
  (size (stdpp.base.dom (D := gset uuid) (w_tokens (sy_world s))) + rounds ≤ supply)%nat →
  (size (stdpp.base.dom (D := gset string) (nw_tokens (sy_notify s))) < supply)%nat →
  calm i (participant_prog ParseAddress_error (APIRequest buffer rq))
    (λ answer s1, sys_ok s1 ∧ ∃ a created id o o', answer = Some a
       ∧ subject (sy_world s) command items created id o
       ∧ view (w_db (sy_world s1)) id = Some o' ∧ same_order o o'
       ∧ ((∃ basket st, basket_of o basket ∧ refusals basket st
             ∧ ((st_Code st = FailedPrecondition ∧ ord_status o' = StatusRejected ∧ (sv_answer a).1 = 409%Z)
                ∨ (st_Code st ∈ [Unavailable; CodeDeadlineExceeded]
                   ∧ ord_status o' = StatusPending ∧ (sv_answer a).1 = 503%Z)
                ∨ ((st_Code st ∉ [FailedPrecondition; Unavailable; CodeDeadlineExceeded])
                   ∧ ord_status o' = StatusPending ∧ (sv_answer a).1 = 500%Z)))
          ∨ (ord_status o' = StatusAccepted
             ∧ sv_answer a = (if created then 201%Z else 200%Z, ApiBody (OrderResponse (orderResponseFrom o')))
             ∧ (∃ basket, basket_of o basket ∧ (basket, Ok tt) ∈ sy_answers s1)
             ∧ calm j (participant_prog ParseAddress_error (OutboxWorker lease pollInterval rounds))
                 (λ _ s2, (∃ eventID m, announces m eventID o' ∧ m ∈ sy_routed s2)
                    ∧ ∀ eventID m d, announces m eventID o' → m ∈ sy_routed s2 → carries m d →
                        calm k (handle_delivery ParseAddress_error lease' looks d)
                          (λ _ s3, sys_ok s3 ∧ d ∈ sy_acked s3 ∧ concluded s3 d o'
                             ∧ ((attempts_of (sy_notify s) (effect_of (command_of "" o')) < MaxSendAttempts)%Z →
                                emailed s3 o')) s2) s1))) s.
Proof.
  intros Hok Hplaces Hready Hdemand Hrounds Hlease Hun Hlooks Hn Hn'.
  eapply must_mono; [|by apply (placing_calm i buffer rq command items s)].
  intros answer s1 (Hok1 & [Hnotify Htokens] & a & created & id & o & -> & Hsub & o' & Hv' & Hsame & Hend).
  split; [done|]. exists a, created, id, o, o'. do 4 (split; [done|]).
  destruct Hend as [(Ha & Hshown & Hres & Hwaits)|(_ & basket & st & Hb & Hst & Hend)]; [right|left].
  2:{ exists basket, st. split; [done|]. split; [done|].
      assert (o' = o → ord_status o' = StatusPending) as Hp.
      { intros ->. destruct created; [by destruct Hsub as (_ & _ & ? & _)|by destruct Hsub as (_ & ? & _)]. }
      naive_solver. }
  split; [done|]. split; [done|]. split.
  { exists (request_of (reservationRequestFor o)). split; [by apply request_of_basket, asks_for_iff|].
    by apply (so_reserved _ Hok1). }
  destruct (event_waits_due _ _ _ _ (subject_unannounced _ _ _ _ _ _ (proj1 (so_orders _ Hok)) Hsub) Hwaits)
    as [Hdue Hmore].
  eapply must_mono; [|apply (accepted_calm jsonb_value ParseAddress_error status_text proto_marshals uuid_text
    supply uuids_last tokens_last now latest catalogue refusals j k s1 id o' lease pollInterval rounds lease' looks)];
    rewrite ?Hnotify, ?Htokens; [|done|done|done|by left; eapply Hdue|lia|done..].
  intros _ s2 (_ & Hmsg & Hd). split; [done|]. intros eventID m d Hm Hin Hc.
  by apply (Hd eventID m d).
Qed.
End journey.

(** ** The way of one order

    Inventory-service has answered yes to the reservation of the first order, and nothing is
    stored yet; then the client places it. *)
Definition reserved_system : option system :=
  snd <$> exec_pool quiet (replicate 6 2)
    (participant_prog (Hash := sample_hash) (λ _, "") <$> sample_participants, sample_system).

Lemma reserved_system_ok s : reserved_system = Some s → sys_ok (Hash := sample_hash) s.
Proof.
  unfold reserved_system. intros (c & Hrun & ->)%fmap_Some.
  pose proof (exec_pool_steps _ _ sys_env _ _ c quiet_sound Hrun) as Hc.
  by destruct (system_reaches (Hash := sample_hash) sample_jsonb_value (λ _, "") (λ _, "")
    sample_participants sample_system c sample_system_ok Hc).
Qed.

(** A request served while nothing fails: its clock is not behind, its identifier is new. *)
Definition fresh_answer {R} (e : orderE R) (db : database) : R → bool :=
  match e in orderE R return R → bool with
  | Clock => λ t, not_behindb db t
  | NewID => λ id, bool_decide (map_Forall (λ u _, uuid_String u ≠ id) (db_orders db))
  | _ => λ _, true
  end.
Definition quiet_api (i : nat) R (e : systemE R) (s : system) : option (R * system) :=
  match e in systemE R return option (R * system) with
  | OfRequest e =>
      a ← quiet i _ (OfRequest e) s;
      if fresh_answer e (w_db (sy_world s)) a.1 then Some a else None
  | Panics => quiet i _ Panics s
  | _ => None
  end.
Lemma quiet_api_calm i R (e : systemE R) s r s' : quiet_api i R e s = Some (r, s') → sample_calm i R e s r s'.
Proof.
  intros Hq. destruct e as [R e| | | | | | |]; try discriminate Hq; [|by injection Hq as <- <-].
  apply bind_Some in Hq as ([r0 s0] & Hq & Hfine).
  destruct (fresh_answer e _ _) eqn:Hfresh; [|discriminate Hfine]. injection Hfine as -> ->.
  split; [by apply quiet_order_step|]. cbn in Hq. unfold quiet_order in Hq.
  destruct (if e is Reserve _ then _ else _); [|done]. apply bind_Some in Hq as ([r1 w] & Hq & [= <- <-]).
  destruct e; cbn in Hq, Hfresh |- *; quiet_case; try done; try by exists Microsecond, "".
  - exists (Ok tt). by split.
  - split; [done|]. by apply not_behindb_spec.
  - apply bool_decide_eq_true in Hfresh.
    match goal with |- ?orders !! ?v = None => destruct (orders !! v) as [row|] eqn:Hl; [|done] end.
    by destruct (Hfresh _ _ Hl).
Qed.

Abbreviation sample_prog := (participant_prog (Hash := sample_hash) (λ _, "")).
Definition placing : participant := APIRequest (replicate 16 171%N) sample_request.
Definition placing_run (s : system) := exec_pool (λ _, quiet_api 0) (replicate 40 0) ([sample_prog placing], s).
Lemma placing_run_steps s c :
  placing_run s = Some c → rtc (pool_step (λ _, sample_calm 0) (λ _ _, False)) ([sample_prog placing], s) c.
Proof. unfold placing_run. apply exec_pool_steps. intros i. apply quiet_api_calm. Qed.

(** The first order's command, its customer and its lines. *)
Lemma sample_places : places sample_request basket_command.
Proof. split; [done|]. split; [by apply (bool_decide_unpack _); vm_compute|]. eexists. split; vm_compute; reflexivity. Qed.
Definition basket_lines : list OrderItem := [mkOrderItem "A" 2 (mkMoney 1250 "EUR"); mkOrderItem "B" 1 (mkMoney 500 "EUR")].
Lemma basket_orderable : orderable (λ _, Ok basket_prices) basket_command basket_lines.
Proof.
  split.
  - exists (exist (λ s, sample_uuid_ok s = true) "c-1" eq_refl : sample_uuid_type). reflexivity.
  - vm_compute. reflexivity.
  - by apply (bool_decide_unpack _); vm_compute.
  - exists basket_prices. split; [done|]. repeat constructor; (eexists; split; vm_compute; reflexivity).
  - vm_compute. reflexivity.
  - split; vm_compute; reflexivity.
  - apply (bool_decide_unpack _). vm_compute. exact I.
  - by apply (bool_decide_unpack _); vm_compute.
Qed.

(** What the theorem asks of the state, as a test; and the client is told 201. *)
Definition takes_order (s : system) : bool :=
  match placing_run s with
  | Some ([Ret (Some a)], _) =>
      bool_decide (db_orders (w_db (sy_world s)) = ∅) && can_serveb Second 3 (sy_world s)
      && bool_decide (size (due_rows Microsecond (w_db (sy_world s))) = 0)%nat
      && bool_decide (nw_effects (sy_notify s) = ∅)
      && bool_decide (size (w_tokens (sy_world s)) = 0)%nat
      && bool_decide (size (nw_tokens (sy_notify s)) = 0)%nat
      && bool_decide ((sv_answer a).1 = 201%Z)
  | _ => false
  end.
Lemma reserved_takes_order : (if reserved_system is Some s then takes_order s else false) = true.
Proof. vm_compute. reflexivity. Qed.
Lemma takes_order_spec (s : system) :
  takes_order s = true →
  ∃ a s1, placing_run s = Some ([Ret (Some a)], s1) ∧ db_orders (w_db (sy_world s)) = ∅
    ∧ can_serveb Second 3 (sy_world s) = true ∧ (size (due_rows Microsecond (w_db (sy_world s))) = 0)%nat
    ∧ nw_effects (sy_notify s) = ∅ ∧ (size (w_tokens (sy_world s)) = 0)%nat
    ∧ (size (nw_tokens (sy_notify s)) = 0)%nat ∧ (sv_answer a).1 = 201%Z.
Proof.
  unfold takes_order. destruct (placing_run s) as [[[|[[a|]|] [|]] s1]|]; try done.
  rewrite !andb_true_iff, !bool_decide_eq_true. intros. exists a, s1. by destruct_and!.
Qed.
Lemma empty_shows (db : database) id : db_orders db = ∅ → view db id = None.
Proof. intros He. unfold view. by rewrite He, lookup_empty. Qed.

Lemma order_reaches_its_customer_witness :
  ∃ s a s1 id o', reserved_system = Some s ∧ view (w_db (sy_world s)) id = None
  ∧ rtc (pool_step (λ _, sample_calm 0) (λ _ _, False)) ([sample_prog placing], s) ([Ret (Some a)], s1)
  ∧ view (w_db (sy_world s1)) id = Some o' ∧ ord_status o' = StatusAccepted
  ∧ sv_answer a = (201%Z, ApiBody (OrderResponse (orderResponseFrom o')))
  ∧ ∃ b s2 c s3 d,
      rtc (pool_step sample_calm (λ _ _, False)) ([sample_prog (OutboxWorker Minute Second 1)], s1) ([Ret b], s2)
      ∧ rtc (pool_step sample_calm (λ _ _, False))
          ([handle_delivery (Hash := sample_hash) (λ _, "") Minute 2 d], s2) ([Ret c], s3)
      ∧ d ∈ sy_acked s3 ∧ emailed (Hash := sample_hash) s3 o'.
Proof.
  pose proof reserved_takes_order as Hw. pose proof reserved_system_ok as Hok.
  destruct reserved_system as [s|]; [|discriminate Hw]. specialize (Hok s eq_refl).
  destruct (takes_order_spec s Hw) as (a & s1 & Hrun & Hnone & Hready & Hdue & He & Ht & Ht' & Hshown).
  apply placing_run_steps in Hrun.
  assert (can_serve Second 3 (sy_world s)) as Hready' by (apply can_serveb_spec; [apply Hok|exact Hready]).
  assert ((0 < Second)%Z ∧ (Second `mod` Microsecond = 0)%Z) as Hclock by done.
  assert (demand (λ _, Ok basket_prices) (sy_world s) basket_command basket_lines) as Hdemand.
  { left. split; [exact basket_orderable|]. intros id o. by rewrite empty_shows. }
  pose proof (order_reaches_its_customer (Hash := sample_hash) (Binding := basket_binding) sample_jsonb_value
    (λ _, "") (λ _, "") (λ p _, eq_refl) sample_uuid_text_ok 3 sample_uuids_last sample_tokens_last
    Second Microsecond sample_json_marshals sample_jsonb_takes Hclock (λ _, Ok basket_prices) only_short
    (λ _, ex_intro _ (mkStatus FailedPrecondition "" []) eq_refl) 0 0 0 (replicate 16 171%N) sample_request basket_command basket_lines s Minute Second 1 Minute 2
    Hok sample_places Hready' Hdemand ltac:(rewrite Hdue; lia) ltac:(reflexivity)
    ltac:(intros key row Hrow; rewrite He in Hrow; discriminate Hrow) ltac:(lia)
    ltac:(rewrite size_dom, Ht; lia) ltac:(rewrite size_dom, Ht'; lia)) as Hmust.
  destruct (must_reached _ _ _ _ _ _ _ Hmust Hrun eq_refl)
    as (_ & a' & created & id & o & o' & [= <-] & Hsub & Hv' & _ & Hend).
  destruct Hend as [(_ & _ & _ & _ & [(_ & _ & Hno)|[(_ & _ & Hno)|(_ & _ & Hno)]])|(Hst & Hans & _ & Hworker)];
    [rewrite Hno in Hshown; discriminate Hshown..|].
  destruct created; [|rewrite Hans in Hshown; discriminate Hshown].
  destruct (must_pool _ sample_calm (λ _ _, False) 0 (sample_prog (OutboxWorker Minute Second 1)) _
    [sample_prog (OutboxWorker Minute Second 1)] s1 (λ R e w r w' H, H) eq_refl Hworker)
    as (b & s2 & Hrun2 & (eid & m & Hm & Hin) & Hd).
  set (d := delivery_of m).
  destruct (must_pool _ sample_calm (λ _ _, False) 0 (handle_delivery (Hash := sample_hash) (λ _, "") Minute 2 d) _
    [handle_delivery (Hash := sample_hash) (λ _, "") Minute 2 d] s2
    (λ R e w r w' H, H) eq_refl (Hd eid m d Hm Hin ltac:(by split_and!)))
    as (c & s3 & Hrun3 & _ & Hack & _ & Hacc).
  exists s, a, s1, id, o'. split; [reflexivity|]. split; [by apply empty_shows|]. split; [exact Hrun|].
  split; [exact Hv'|]. split; [exact Hst|]. split; [exact Hans|].
  exists b, s2, c, s3, d. split; [exact Hrun2|]. split; [exact Hrun3|]. split; [exact Hack|].
  apply Hacc. unfold attempts_of. rewrite He. reflexivity.
Defined.
