(* ===== verification/Session.v ===== *)
(** * Consumer sessions

    [amqpapi.Consumer] around its deliveries: one session sets up a connection and
    takes deliveries from it one after another, and [Run] starts another when a session
    ends. The goroutines that forward deliveries into one channel, and the [select] over
    it, are the environment's choice of the next delivery. *)
From S2P Require Import Prelude GoErrors GoStrings External Postgres Prog Correlation SentNotifications HandleOrderAccepted Topology Consumer.

(** The two timeouts bound the contexts of calls; a deadline shows only in what the call
    it is passed to answers. *)
(* @go notification-service/internal/notification/adapter/inbound/amqpapi/consumer.go Config *)
Record ConsumerConfig := mkConsumerConfig {
  con_URL : string;
  con_PrefetchCount : Z;
  con_ReconnectDelay : Z;
  con_RetryDelay : Z;
  con_PublishTimeout : Z;
  con_HandleTimeout : Z;
}.

(** What the loop's [select] finds ready. *)
(* @src notification-service/internal/notification/adapter/inbound/amqpapi/consumer.go:116-119 inbound *)
Inductive selected :=
| ContextDone
| ClosedChannel (reason : option string)
| MergedClosed
| Inbound (subscription : Subscription) (delivery : Delivery).

(** The calls of a session; [ReconnectDelay] answers whether the context ended first. *)
Inductive sessionE : Type → Type :=
| Dial (URL : string) : sessionE (result string unit)
| OpenChannel : sessionE (result string unit)
| OnTopology {R} (e : topologyE R) : sessionE R
| Qos (prefetchCount : Z) : sessionE (option string)
| ConfirmMode : sessionE (option string)
| NotifyReturn : sessionE unit
| NotifyClose : sessionE unit
| Consume (queue : string) : sessionE (option string)
| Select : sessionE selected
| InFlightAdd : sessionE unit
| InFlightDone : sessionE unit
| OnDelivery {R} (e : deliveryE R) : sessionE R
| CloseChannel : sessionE (option string)
| CloseConnection : sessionE (option string)
| CtxErr : sessionE bool
| ReconnectDelay (delay : Z) : sessionE bool.

Section session.
Variable config : ConsumerConfig.
Variable subscriptions : list Subscription.
(** How often a drain looks, and how many deliveries of one session and sessions are
    observed. *)
Variables (looks deliveries : nat).

(** The calls of [merge] before its goroutines start. *)
(* @src notification-service/internal/notification/adapter/inbound/amqpapi/consumer.go:191-205 Consumer.merge *)
Fixpoint merge (subs : list Subscription) : prog sessionE (option string) :=
  match subs with
  | [] => mret None
  | subscription :: rest =>
      err ← trigger (Consume (Queue subscription));
      match err with
      | Some text => mret (Some ("consume " +:+ Quote (Queue subscription) +:+ ": " +:+ text))
      | None => merge rest
      end
  end.

(* @go notification-service/internal/notification/adapter/inbound/amqpapi/consumer.go errorFrom *)
Definition errorFrom (reason : option string) : string := default "closed without a reason" reason.

(** The loop over deliveries: its error or none, and [None] while it goes on. *)
(* @src notification-service/internal/notification/adapter/inbound/amqpapi/consumer.go:162-177 Consumer.consume *)
Fixpoint consume_loop (rounds : nat) : prog sessionE (option (option string)) :=
  match rounds with
  | O => mret None
  | S rounds' =>
      next ← trigger Select;
      match next with
      | ContextDone => mret (Some None)
      | ClosedChannel reason => mret (Some (Some ("channel closed: " +:+ errorFrom reason)))
      | MergedClosed => mret (Some (Some "deliveries channel closed"))
      | Inbound subscription delivery =>
          _ ← trigger InFlightAdd;
          handled ← embed (@OnDelivery) (handle looks subscription delivery);
          match handled with
          | None => mret None
          | Some _ => _ ← trigger InFlightDone; consume_loop rounds'
          end
      end
  end.

(** A session on an open channel. *)
(* @src notification-service/internal/notification/adapter/inbound/amqpapi/consumer.go:134-155 Consumer.consume *)
Definition consume_channel : prog sessionE (option (option string)) :=
  declared ← embed (@OnTopology) (declareTopology (con_RetryDelay config) subscriptions);
  match declared with
  | Some text => mret (Some (Some ("declare topology: " +:+ text)))
  | None =>
  limited ← trigger (Qos (con_PrefetchCount config));
  match limited with
  | Some text => mret (Some (Some ("set prefetch: " +:+ text)))
  | None =>
  confirming ← trigger ConfirmMode;
  match confirming with
  | Some text => mret (Some (Some ("enter confirm mode: " +:+ text)))
  | None =>
  _ ← trigger NotifyReturn;
  _ ← trigger NotifyClose;
  merged ← merge subscriptions;
  match merged with
  | Some text => mret (Some (Some text))
  | None => consume_loop deliveries
  end end end end.

(** The deferred calls close the channel, then the connection. *)
(* @go notification-service/internal/notification/adapter/inbound/amqpapi/consumer.go Consumer.consume *)
Definition consume : prog sessionE (option (option string)) :=
  dialed ← trigger (Dial (con_URL config));
  match dialed with
  | Err text => mret (Some (Some ("dial broker: " +:+ text)))
  | Ok _ =>
  opened ← trigger OpenChannel;
  match opened with
  | Err text => _ ← trigger CloseConnection; mret (Some (Some ("open channel: " +:+ text)))
  | Ok _ =>
  ended ← consume_channel;
  match ended with
  | None => mret None
  | Some err => _ ← trigger CloseChannel; _ ← trigger CloseConnection; mret (Some err)
  end end end.

(** Between two sessions. *)
(* @src notification-service/internal/notification/adapter/inbound/amqpapi/consumer.go:96-105 Consumer.Run *)
Definition reconnect (again : prog sessionE (option unit)) : prog sessionE (option unit) :=
  cancelled ← trigger CtxErr;
  if cancelled : bool then mret (Some tt)
  else
  done ← trigger (ReconnectDelay (con_ReconnectDelay config));
  if done : bool then mret (Some tt) else again.

(** [None] while it goes on after [sessions] sessions. *)
(* @go notification-service/internal/notification/adapter/inbound/amqpapi/consumer.go Consumer.Run *)
Fixpoint consumer_Run (sessions : nat) : prog sessionE (option unit) :=
  match sessions with
  | O => mret None
  | S sessions' =>
      consumed ← consume;
      match consumed with
      | None => mret None
      | Some err =>
          match err with
          | Some _ =>
              cancelled ← trigger CtxErr;
              if cancelled : bool then mret (Some tt) else reconnect (consumer_Run sessions')
          | None => reconnect (consumer_Run sessions')
          end
      end
  end.

(** ** Accounts *)

(** What a history has open: connections, channels, started handlers, and deliveries
    taken and not settled. *)
Inductive account := Connections | Channels | InFlight | Unsettled.
#[export] Instance account_eq_dec : EqDecision account.
Proof. solve_decision. Defined.

Definition on (a b : account) (z : Z) : Z := if decide (a = b) then z else 0%Z.
Definition entry (a : account) (c : call sessionE) : Z :=
  match c with
  | @Call _ R e r =>
      match e in sessionE R return R → Z with
      | Dial _ => λ r, if is_ok r then on a Connections 1 else 0%Z
      | OpenChannel => λ r, if is_ok r then on a Channels 1 else 0%Z
      | CloseConnection => λ _, on a Connections (-1)
      | CloseChannel => λ _, on a Channels (-1)
      | InFlightAdd => λ _, on a InFlight 1
      | InFlightDone => λ _, on a InFlight (-1)
      | Select => λ r, match r with Inbound _ _ => on a Unsettled 1 | _ => 0%Z end
      | OnDelivery e => λ r,
          match settlement (Call e r) with Some _ => on a Unsettled (-1) | None => 0%Z end
      | _ => λ _, 0%Z
      end r
  end.
Definition balance (a : account) (h : list (call sessionE)) : Z := foldr Z.add 0%Z (entry a <$> h).

Lemma balance_app a h h' : balance a (h ++ h') = (balance a h + balance a h')%Z.
Proof. unfold balance. induction h as [|c h IH]; cbn; [lia|]. rewrite IH. lia. Qed.
Lemma balance_call a c : balance a [c] = entry a c.
Proof. unfold balance. cbn. lia. Qed.

Lemma balance_topology a h : balance a (embed_call (@OnTopology) <$> h) = 0%Z.
Proof. induction h as [|[R e r] h IH]; [done|exact IH]. Qed.
Lemma balance_delivery a h :
  balance a (embed_call (@OnDelivery) <$> h) = on a Unsettled (- Z.of_nat (length (settlements h))).
Proof.
  unfold balance, settlements. induction h as [|c h IH]; cbn; [by unfold on; case_decide|].
  rewrite IH. destruct c as [R e r]. cbn [embed_call entry].
  destruct (settlement (Call e r)); unfold on; case_decide; cbn; lia.
Qed.

(** ** The discipline of a session *)

(** The calls that make a session ready, all successful. *)
Definition setup_calls (topology : list (call topologyE)) : list (call sessionE) :=
  [Call (Dial (con_URL config)) (Ok tt); Call OpenChannel (Ok tt)]
  ++ (embed_call (@OnTopology) <$> topology)
  ++ [Call (Qos (con_PrefetchCount config)) None; Call ConfirmMode None;
      Call NotifyReturn tt; Call NotifyClose tt]
  ++ ((λ s, Call (Consume (Queue s)) None) <$> subscriptions).

Definition not_dial (c : call sessionE) : Prop :=
  match c with @Call _ R e _ => match e with Dial _ => False | _ => True end end.

(** The last session was set up completely. *)
Definition session_ready (h : list (call sessionE)) : Prop :=
  ∃ h1 topology h2, h = h1 ++ setup_calls topology ++ h2
    ∧ runs (declareTopology (con_RetryDelay config) subscriptions) topology None
    ∧ Forall not_dial h2.

Definition session_rule (h : list (call sessionE)) R (e : sessionE R) : Prop :=
  match e with
  | Dial _ => (∀ a, balance a h = 0%Z) ∧ (h = [] ∨ last h = Some (Call (ReconnectDelay (con_ReconnectDelay config)) false))
  | Select => session_ready h ∧ balance Unsettled h = 0%Z ∧ balance InFlight h = 0%Z
  | OnDelivery e => ∃ h1 s d k,
      h = h1 ++ [Call Select (Inbound s d); Call InFlightAdd tt] ++ (embed_call (@OnDelivery) <$> k)
      ∧ session_ready h1 ∧ delivery_rule s d k _ e
  | _ => True
  end.

(** Everything closed, settled and finished. *)
Definition at_rest (h : list (call sessionE)) : Prop := ∀ a, balance a h = 0%Z.
Definition in_session (h : list (call sessionE)) : Prop :=
  ∀ a, balance a h = (on a Connections 1 + on a Channels 1)%Z.

Definition run_post (h : list (call sessionE)) (r : option unit) : Prop :=
  r = Some tt → at_rest h
    ∧ ∃ h1, h = h1 ++ [Call CtxErr true] ∨ h = h1 ++ [Call (ReconnectDelay (con_ReconnectDelay config)) true].

Lemma ready_app h h' : session_ready h → Forall not_dial h' → session_ready (h ++ h').
Proof.
  intros (h1 & t & h2 & -> & Hr & Hn) Hn'. exists h1, t, (h2 ++ h').
  rewrite !app_assoc. split_and!; [done|done|by apply Forall_app].
Qed.
Lemma not_dial_delivery k : Forall not_dial (embed_call (@OnDelivery) <$> k).
Proof. induction k as [|[R e r] k IH]; constructor; [done|exact IH]. Qed.

(** ** The session keeps it *)

Local Ltac balance_calls :=
  unfold balance; cbn; unfold on; repeat case_decide; cbn; congruence || lia.

(** Calls that open and close nothing. *)
Lemma in_session_app h h' :
  in_session h → (∀ a, balance a h' = 0%Z) → in_session (h ++ h').
Proof. intros Hs Hc a. rewrite balance_app, Hc, Hs. lia. Qed.

Definition session_post (h : list (call sessionE)) (r : option (option string)) : Prop :=
  is_Some r → in_session h.

Lemma handle_session h s d :
  session_ready h → in_session h →
  respects session_rule (embed (@OnDelivery) (handle looks s d))
    (h ++ [Call Select (Inbound s d); Call InFlightAdd tt])
    (λ h' r, ∃ k, h' = (h ++ [Call Select (Inbound s d); Call InFlightAdd tt])
                     ++ (embed_call (@OnDelivery) <$> k) ∧ delivery_post looks k r).
Proof.
  intros Hready Hin.
  pose proof (respects_embed (@OnDelivery) (delivery_rule s d) session_rule (handle looks s d)
    (h ++ [Call Select (Inbound s d); Call InFlightAdd tt]) [] (delivery_post looks)) as Hemb.
  rewrite app_nil_r in Hemb. apply Hemb; [|apply handle_respects].
  intros k R e Hrule. exists h, s, d, k. by rewrite <-app_assoc.
Qed.

Lemma loop_respects rounds h :
  session_ready h → in_session h → respects session_rule (consume_loop rounds) h session_post.
Proof.
  revert h. induction rounds as [|rounds IH]; intros h Hready Hin; cbn [consume_loop];
    [by intros []|].
  apply respects_trigger; [split_and!; [done|apply (Hin Unsettled)|apply (Hin InFlight)]|]. intros [|reason| |s d];
    try (intros _; apply in_session_app; [done|]; intros a; by rewrite balance_call).
  apply respects_trigger; [done|]. intros []. rewrite <-app_assoc. apply respects_bind.
  eapply respects_mono; [|by apply handle_session].
  intros h' [[]|] (k & -> & Hpost); [|by intros []]. apply respects_trigger; [done|]. intros [].
  apply IH.
  - rewrite <-!app_assoc. apply ready_app; [done|].
    rewrite !Forall_app. split_and!; [by repeat constructor|apply not_dial_delivery|by repeat constructor].
  - cbn in Hpost. rewrite <-!app_assoc. apply in_session_app; [done|]. intros a.
    rewrite !balance_app, balance_delivery, Hpost. balance_calls.
Qed.

Lemma merge_respects subs h (Q : list (call sessionE) → option string → Prop) :
  in_session h →
  (∀ text, text ≠ None → ∀ h', in_session h' → Q h' text) →
  (in_session (h ++ ((λ s, Call (Consume (Queue s)) None) <$> subs)) →
     Q (h ++ ((λ s, Call (Consume (Queue s)) None) <$> subs)) None) →
  respects session_rule (merge subs) h Q.
Proof.
  revert h. induction subs as [|s subs IH]; intros h Hin Herr HQ; cbn [merge].
  { cbn in *. rewrite app_nil_r in HQ. by apply HQ. }
  apply respects_trigger; [done|]. assert (∀ r, in_session (h ++ [Call (Consume (Queue s)) r])) as Hin'.
  { intros r. apply in_session_app; [done|]. intros a. by rewrite balance_call. }
  intros [text|]; [by apply Herr|]. apply IH; [done|done|]. rewrite <-app_assoc. exact HQ.
Qed.

Lemma consume_channel_respects h :
  (∀ a, balance a h = 0%Z) →
  respects session_rule consume_channel (h ++ [Call (Dial (con_URL config)) (Ok tt); Call OpenChannel (Ok tt)]) session_post.
Proof.
  intros Hrest. set (base := h ++ [Call (Dial (con_URL config)) (Ok tt); Call OpenChannel (Ok tt)]).
  assert (in_session base) as Hin.
  { intros a. unfold base. rewrite balance_app, Hrest. balance_calls. }
  unfold consume_channel. apply respects_bind.
  pose proof (respects_embed (@OnTopology) (λ _ _ _, True) session_rule
    (declareTopology (con_RetryDelay config) subscriptions) base [] _ ltac:(done)
    (respects_runs _ _)) as Htop.
  rewrite app_nil_r in Htop. eapply respects_mono; [|exact Htop].
  intros h' err (k & -> & k' & Hk & Hruns). cbn in Hk. subst k'.
  assert (in_session (base ++ (embed_call (@OnTopology) <$> k))) as Hin1.
  { apply in_session_app; [done|]. intros a. apply balance_topology. }
  remember (base ++ (embed_call (@OnTopology) <$> k)) as h1 eqn:Hh1.
  destruct err as [text|]; [by intros _|].
  apply respects_trigger; [done|].
  intros [text|]; [intros _; apply in_session_app; [done|]; intros a; by rewrite balance_call|].
  apply respects_trigger; [done|].
  intros [text|]; [intros _; rewrite <-app_assoc; apply in_session_app; [done|]; by intros []|].
  apply respects_trigger; [done|]. intros []. apply respects_trigger; [done|]. intros [].
  rewrite <-!app_assoc. cbn [app].
  apply respects_bind. apply merge_respects.
  - apply in_session_app; [done|]. by intros [].
  - intros [text|] Hne h' Hin'; [|done]. by intros _.
  - intros Hin2. apply loop_respects; [|done]. exists h, k, []. rewrite app_nil_r.
    split_and!; [|done|constructor]. rewrite Hh1. unfold base, setup_calls.
    by rewrite <-!app_assoc.
Qed.

Definition consume_post (h : list (call sessionE)) (r : option (option string)) : Prop :=
  is_Some r → at_rest h.

Lemma consume_respects h :
  at_rest h → h = [] ∨ last h = Some (Call (ReconnectDelay (con_ReconnectDelay config)) false) →
  respects session_rule consume h consume_post.
Proof.
  intros Hrest Hlast. unfold consume. apply respects_trigger; [done|].
  intros [[]|text]; [|intros _ a; by rewrite balance_app, Hrest, balance_call].
  apply respects_trigger; [done|].
  intros [[]|text]; rewrite <-app_assoc.
  2:{ apply respects_trigger; [done|]. intros r _ a. rewrite <-app_assoc, balance_app, Hrest.
      balance_calls. }
  apply respects_bind. eapply respects_mono; [|by apply consume_channel_respects].
  intros h' [err|] Hpost; [|by intros []].
  apply respects_trigger; [done|]. intros r1. apply respects_trigger; [done|]. intros r2 _ a.
  rewrite <-app_assoc, balance_app, (Hpost ltac:(by eexists)). balance_calls.
Qed.

Lemma Run_respects sessions h :
  at_rest h → h = [] ∨ last h = Some (Call (ReconnectDelay (con_ReconnectDelay config)) false) →
  respects session_rule (consumer_Run sessions) h run_post.
Proof.
  revert h. induction sessions as [|sessions IH]; intros h Hrest Hlast; cbn [consumer_Run]; [done|].
  apply respects_bind. eapply respects_mono; [|by apply consume_respects].
  intros h1 [err|] Hpost; [|done]. specialize (Hpost ltac:(by eexists)).
  assert (∀ h2 c, at_rest h2 → (∀ a, entry a c = 0%Z) → at_rest (h2 ++ [c])) as Hstep.
  { intros h2 c Hr Hc a. by rewrite balance_app, Hr, balance_call, Hc. }
  assert (∀ h2, at_rest h2 → respects session_rule (reconnect (consumer_Run sessions)) h2 run_post) as Hre.
  { intros h2 Hr. unfold reconnect. apply respects_trigger; [done|]. intros [].
    { intros _. split; [by apply Hstep|]. exists h2. by left. }
    apply respects_trigger; [done|]. intros [].
    - intros _. split; [by do 2 (apply Hstep; [|done])|]. exists (h2 ++ [Call CtxErr false]). by right.
    - apply IH; [by do 2 (apply Hstep; [|done])|]. right. apply last_snoc. }
  destruct err as [text|]; [|by apply Hre]. apply respects_trigger; [done|].
  intros []; [|by apply Hre, Hstep]. intros _. split; [by apply Hstep|]. exists h1. by left.
Qed.

(** C13: However the broker behaves over any number of sessions: there is at most one
    connection at a time, and the consumer waits before each new one; a delivery is taken
    only when the topology was declared, the prefetch limited, confirms switched on and
    every subscription consumed, all successfully and in this session, and only after
    the delivery before it was settled; each delivery keeps its own discipline. When
    [Run] returns, it is because the context ended, and then every connection and channel
    is closed, every delivery taken was settled exactly once, and no handler is left. *)
Theorem sessions_settle_all sessions h r :
  runs (consumer_Run sessions) h r → disciplined session_rule h ∧ run_post h r.
Proof.
  intros Hr. eapply (respects_sound _ _ []); [apply disciplined_nil| |exact Hr].
  apply Run_respects; [done|by left].
Qed.
End session.

(** One session with one delivery, which is sent; then the context ends. *)
Definition sample_consumer : ConsumerConfig := mkConsumerConfig "amqp" 10 Second Minute Second Second.
Definition sample_topology : list (call topologyE) :=
  [Call (ExchangeDeclare (mkSource ExchangeRetry "direct" true false false)) None;
   Call (ExchangeDeclare (mkSource ExchangeParked "direct" true false false)) None;
   Call (ExchangeDeclare (sub_Source sample_subscription)) None;
   Call (QueueDeclare (Queue sample_subscription) true false false false
     (deadLetterTo ExchangeRetry (internalRoutingKey sample_subscription))) None;
   Call (QueueBind (Queue sample_subscription) (sub_RoutingKey sample_subscription) "order.events") None;
   Call (QueueDeclare (RetryQueue sample_subscription) true false false false
     (table_set (deadLetterTo "" (Queue sample_subscription)) "x-message-ttl" (AInt64 60000))) None;
   Call (QueueBind (RetryQueue sample_subscription) "order-accepted" ExchangeRetry) None;
   Call (QueueDeclare (ParkedQueue sample_subscription) true false false false quorumArguments) None;
   Call (QueueBind (ParkedQueue sample_subscription) "order-accepted" ExchangeParked) None].
Definition sample_session : list (call sessionE) :=
  setup_calls sample_consumer [sample_subscription] sample_topology
  ++ [Call Select (Inbound sample_subscription sample_delivery); Call InFlightAdd tt]
  ++ (embed_call (@OnDelivery) <$>
       [Call Cancelled false; Call (Handle "r1" "e1" "body") (mkResult OutcomeSent 1 None);
        Call (Ack false) None])
  ++ [Call InFlightDone tt; Call Select ContextDone; Call CloseChannel None; Call CloseConnection None;
      Call CtxErr true].

Lemma sessions_settle_all_witness :
  runs (consumer_Run sample_consumer [sample_subscription] 1 2 1) sample_session (Some tt)
  ∧ disciplined (session_rule sample_consumer [sample_subscription]) sample_session
  ∧ at_rest sample_session.
Proof.
  assert (runs (consumer_Run sample_consumer [sample_subscription] 1 2 1) sample_session (Some tt)) as Hr.
  { repeat (refine (runs_vis _ _ _ _ _ _)). apply runs_ret. }
  split; [exact Hr|].
  destruct (sessions_settle_all sample_consumer [sample_subscription] 1 2 1 _ _ Hr) as [Hd Hpost].
  split; [exact Hd|]. by apply Hpost.
Defined.
