(* ===== verification/Forwarders.v ===== *)
(** * The forwarding goroutines of a session

    [Consumer.merge] starts a goroutine per subscription that moves deliveries from the
    library's channel into one unbuffered channel, and one more that closes it when the
    others are done; [consume] takes from it. The goroutines are a transition system,
    executed by [step]; the order of what the loop takes, and what remains of the
    goroutines when the loop is gone, are stated on its runs. *)
From S2P Require Import Prelude GoErrors GoStrings Prog Consumer.

(** ** The goroutines *)

(** Where a forwarder is: receiving from its range, offering what it received, or gone. *)
Inductive phase := Reading | Holding (delivery : Delivery) | Finished.
(** [fw_arrived] records what the broker sent, the other fields are the goroutine's. *)
Record forwarder := mkForwarder {
  fw_queue : list Delivery;
  fw_closed : bool;
  fw_phase : phase;
  fw_arrived : list Delivery;
}.
(** The loop of [consume]: at its [select], in [handle], or returned. *)
Inductive loop_phase := Taking | Busy | Gone.
Record merging := mkMerging {
  mg_forwarders : list forwarder;
  mg_merged_closed : bool;
  mg_loop : loop_phase;
  mg_ctx_done : bool;
  mg_received : list (nat * Delivery);
}.

(** What can happen next. *)
Inductive label :=
| Arrive (i : nat) (delivery : Delivery)
| CloseDeliveries (i : nat)
| Receive (i : nat)
| EndRange (i : nat)
| HandOver (i : nat)
| Stop (i : nat)
| CloseMerged
| Handled
| Leave
| Cancel.

Definition with_forwarder (s : merging) (i : nat) (fw : forwarder) : merging :=
  mkMerging (<[i := fw]> (mg_forwarders s)) (mg_merged_closed s) (mg_loop s) (mg_ctx_done s) (mg_received s).
Definition with_loop (s : merging) (loop : loop_phase) : merging :=
  mkMerging (mg_forwarders s) (mg_merged_closed s) loop (mg_ctx_done s) (mg_received s).

(** The body of the forwarder's loop: a receive from [deliveries], which ends the range
    when the channel is closed and empty, then the [select] between the merged channel,
    which is ready when the loop is at its own [select], and the context. *)
(* @src notification-service/internal/notification/adapter/inbound/amqpapi/consumer.go:206-217 Consumer.merge *)
Definition forward (l : label) (fw : forwarder) (s : merging) : option (forwarder * merging) :=
  match l, fw_phase fw with
  | Receive _, Reading =>
      match fw_queue fw with
      | d :: rest => Some (mkForwarder rest (fw_closed fw) (Holding d) (fw_arrived fw), s)
      | [] => None
      end
  | EndRange _, Reading =>
      if bool_decide (fw_queue fw = []) && fw_closed fw
      then Some (mkForwarder [] true Finished (fw_arrived fw), s) else None
  | HandOver i, Holding d =>
      match mg_loop s with
      | Taking => Some (mkForwarder (fw_queue fw) (fw_closed fw) Reading (fw_arrived fw),
                        mkMerging (mg_forwarders s) (mg_merged_closed s) Busy (mg_ctx_done s)
                          (mg_received s ++ [(i, d)]))
      | _ => None
      end
  | Stop _, Holding _ =>
      if mg_ctx_done s
      then Some (mkForwarder (fw_queue fw) (fw_closed fw) Finished (fw_arrived fw), s) else None
  | Arrive _ d, _ =>
      if fw_closed fw then None
      else Some (mkForwarder (fw_queue fw ++ [d]) false (fw_phase fw) (fw_arrived fw ++ [d]), s)
  | CloseDeliveries _, _ =>
      if fw_closed fw then None
      else Some (mkForwarder (fw_queue fw) true (fw_phase fw) (fw_arrived fw), s)
  | _, _ => None
  end.

Definition finished (fw : forwarder) : bool :=
  match fw_phase fw with Finished => true | _ => false end.

(** [forwarders.Wait] lets the closing goroutine go on once every forwarder is done. *)
(* @src notification-service/internal/notification/adapter/inbound/amqpapi/consumer.go:222-225 Consumer.merge *)
Definition close_merged (s : merging) : option merging :=
  if forallb finished (mg_forwarders s) && negb (mg_merged_closed s)
  then Some (mkMerging (mg_forwarders s) true (mg_loop s) (mg_ctx_done s) (mg_received s)) else None.

Definition target (l : label) : option nat :=
  match l with
  | Arrive i _ | CloseDeliveries i | Receive i | EndRange i | HandOver i | Stop i => Some i
  | _ => None
  end.

(** The loop leaves its [select] for good when it finds the context ended, the AMQP
    channel closed or the merged channel closed; a session that could not consume every
    queue never reaches it. *)
Definition step (l : label) (s : merging) : option merging :=
  match target l with
  | Some i =>
      fw ← mg_forwarders s !! i;
      '(fw', s') ← forward l fw s;
      Some (with_forwarder s' i fw')
  | None =>
      match l, mg_loop s with
      | CloseMerged, _ => close_merged s
      | Handled, Busy => Some (with_loop s Taking)
      | Leave, Taking => Some (with_loop s Gone)
      | Cancel, _ => Some (mkMerging (mg_forwarders s) (mg_merged_closed s) (mg_loop s) true (mg_received s))
      | _, _ => None
      end
  end.

Fixpoint steps (ls : list label) (s : merging) : option merging :=
  match ls with [] => Some s | l :: ls => s' ← step l s; steps ls s' end.

Definition fresh_forwarder : forwarder := mkForwarder [] false Reading [].
(** The goroutines of [n] subscriptions, when the loop starts or, if a later queue could
    not be consumed, never does. *)
Definition started (n : nat) (loop : loop_phase) : merging :=
  mkMerging (replicate n fresh_forwarder) false loop false [].

(** ** Order *)

Definition received_from (i : nat) (s : merging) : list Delivery :=
  (filter (λ jd, jd.1 = i) (mg_received s)).*2.
Definition held (fw : forwarder) : list Delivery :=
  match fw_phase fw with Holding d => [d] | _ => [] end.

(** What is between the broker and the loop is the forwarder's; a forwarder is gone only
    when its channel ran dry or the context ended. *)
Definition forwarder_inv (s : merging) (i : nat) (fw : forwarder) : Prop :=
  if finished fw
  then (received_from i s `prefix_of` fw_arrived fw)
       ∧ (mg_ctx_done s = true ∨ fw_arrived fw = received_from i s ∧ fw_closed fw = true)
  else fw_arrived fw = received_from i s ++ held fw ++ fw_queue fw.

Record merging_inv (s : merging) : Prop := {
  mi_forwarders : ∀ i fw, mg_forwarders s !! i = Some fw → forwarder_inv s i fw;
  mi_closed : mg_merged_closed s = true → forallb finished (mg_forwarders s) = true;
}.

Lemma received_from_snoc i j d l :
  (filter (λ jd : nat * Delivery, jd.1 = i) (l ++ [(j, d)])).*2
  = (filter (λ jd : nat * Delivery, jd.1 = i) l).*2 ++ (if decide (j = i) then [d] else []).
Proof. rewrite filter_app, fmap_app. f_equal. rewrite filter_cons. cbn. by case_decide. Qed.

Lemma started_inv n loop : merging_inv (started n loop).
Proof.
  split; [|done]. intros i fw Hfw. cbn in Hfw. apply lookup_replicate in Hfw as [-> _]. done.
Qed.

(** The other forwarders keep their invariant when one moves. *)
Lemma forward_others l i fw s fw' s' j fwj :
  target l = Some i → forward l fw s = Some (fw', s') → i ≠ j →
  forwarder_inv s j fwj → forwarder_inv s' j fwj.
Proof.
  intros Hl Hf Hne Hinv. unfold forward in Hf.
  destruct l as [? d|?|?|?|k|?| | | |]; cbn in Hl; try discriminate Hl; injection Hl as ->;
    repeat case_match; try discriminate Hf; injection Hf as <- <-; try exact Hinv.
  revert Hinv. unfold forwarder_inv, received_from. cbn [mg_received mg_ctx_done].
  rewrite received_from_snoc, decide_False by done. by rewrite app_nil_r.
Qed.

Lemma forward_self l i fw s fw' s' :
  target l = Some i → forward l fw s = Some (fw', s') →
  forwarder_inv s i fw → forwarder_inv s' i fw'.
Proof.
  intros Hl Hf Hinv. destruct fw as [queue closed ph arrived].
  unfold forwarder_inv, finished, held, received_from in *.
  destruct l as [? d|?|?|?|k|?| | | |]; cbn in Hl; try discriminate Hl; injection Hl as ->;
    cbn in Hf, Hinv.
  - destruct closed; [done|]. injection Hf as <- <-. cbn. destruct ph; cbn in *.
    + by rewrite Hinv, <-!app_assoc.
    + by rewrite Hinv, <-!app_assoc.
    + destruct Hinv as [Hpre [Hdone|[_ Hc]]]; [|done]. split; [by apply prefix_app_r|by left].
  - destruct closed; [done|]. injection Hf as <- <-. cbn. destruct ph; cbn in *; [done..|].
    destruct Hinv as [Hpre [Hdone|[_ Hc]]]; [|done]. split; [done|by left].
  - destruct ph; try done. destruct queue as [|d rest]; [done|]. injection Hf as <- <-. cbn in *. done.
  - destruct ph; try done. destruct (bool_decide (queue = [])) eqn:Hq; [|done].
    destruct closed; [|done]. injection Hf as <- <-. cbn in *.
    apply bool_decide_eq_true in Hq as ->. rewrite app_nil_r in Hinv. rewrite Hinv. split; [done|by right].
  - destruct ph as [|d|]; try done. destruct (mg_loop s); try done. injection Hf as <- <-. cbn in *.
    rewrite received_from_snoc, decide_True by done. by rewrite Hinv, <-app_assoc.
  - destruct ph as [|d|]; try done. destruct (mg_ctx_done s) eqn:Hdone; [|done].
    injection Hf as <- <-. cbn in *. rewrite Hinv. split; [by apply prefix_app_r|by left].
Qed.

Lemma forward_frame l fw s fw' s' :
  forward l fw s = Some (fw', s') →
  mg_forwarders s' = mg_forwarders s ∧ mg_merged_closed s' = mg_merged_closed s
  ∧ mg_ctx_done s' = mg_ctx_done s ∧ (finished fw = true → finished fw' = true)
  ∧ (mg_loop s = Gone → mg_loop s' = Gone)
  ∧ (∀ d, fw_phase fw = Holding d → mg_loop s = Gone → mg_ctx_done s = false → fw_phase fw' = Holding d).
Proof.
  intros Hf. destruct fw as [queue closed ph arrived]. unfold finished.
  destruct l, ph; cbn in Hf; repeat case_match; try discriminate Hf; injection Hf as <- <-;
    split_and!; cbn in *; congruence.
Qed.

Lemma step_inv l s s' : step l s = Some s' → merging_inv s → merging_inv s'.
Proof.
  intros Hstep [Hfw Hclosed]. unfold step in Hstep. destruct (target l) as [i|] eqn:Hl.
  - destruct (mg_forwarders s !! i) as [fw|] eqn:Hi; [|done]. cbn in Hstep.
    destruct (forward l fw s) as [[fw' s1]|] eqn:Hf; [|done]. injection Hstep as <-.
    destruct (forward_frame _ _ _ _ _ Hf) as (E1 & E2 & E3 & Hfin & _). split.
    + intros j fwj. cbn. rewrite E1. destruct (decide (i = j)) as [<-|Hne].
      * rewrite list_lookup_insert_eq by by eapply lookup_lt_Some. intros [= <-].
        eapply (forward_self _ _ _ _ _ _ Hl Hf). by apply Hfw.
      * rewrite list_lookup_insert_ne by done. intros Hj.
        eapply (forward_others _ _ _ _ _ _ _ _ Hl Hf Hne). by apply Hfw.
    + cbn. rewrite E1, E2. intros Hc. specialize (Hclosed Hc). rewrite forallb_forall in *.
      intros x (j & Hj)%list_elem_of_In%list_elem_of_lookup. destruct (decide (i = j)) as [<-|Hne].
      * rewrite list_lookup_insert_eq in Hj by by eapply lookup_lt_Some. injection Hj as <-.
        apply Hfin, Hclosed. apply list_elem_of_In. by eapply list_elem_of_lookup_2.
      * rewrite list_lookup_insert_ne in Hj by done. apply Hclosed, list_elem_of_In.
        by eapply list_elem_of_lookup_2.
  - destruct l; try discriminate Hl; destruct (mg_loop s) eqn:Hloop; try discriminate Hstep;
      unfold close_merged in Hstep;
      try (destruct (forallb finished _ && _) eqn:Hall; [|discriminate Hstep]);
      injection Hstep as <-; split; cbn; try done;
      try (by apply andb_true_iff in Hall as [? _]);
      intros j fwj Hj; specialize (Hfw _ _ Hj); unfold forwarder_inv, received_from in *; cbn in *; try done;
      destruct (finished fwj); naive_solver.
Qed.

Lemma steps_inv ls s s' : steps ls s = Some s' → merging_inv s → merging_inv s'.
Proof.
  revert s. induction ls as [|l ls IH]; intros s; cbn; [by intros [= <-]|].
  destruct (step l s) as [s1|] eqn:Hs; [|done]. intros Hr Hinv. eapply IH; [done|by eapply step_inv].
Qed.

(** However the forwarders, the library and the loop interleave, what the loop has
    taken from a queue is what arrived from it, in its order and without a loss or a
    repetition, up to the one delivery the forwarder holds and those still queued; and the
    merged channel is closed only when every forwarder is gone, so that unless the context
    ended, everything that arrived was taken by then. *)
Theorem merge_in_order n loop ls s :
  steps ls (started n loop) = Some s →
  (∀ i fw, mg_forwarders s !! i = Some fw →
     received_from i s `prefix_of` fw_arrived fw
     ∧ (finished fw = false → fw_arrived fw = received_from i s ++ held fw ++ fw_queue fw)
     ∧ (mg_merged_closed s = true → mg_ctx_done s = false → fw_arrived fw = received_from i s))
  ∧ (mg_merged_closed s = true → forallb finished (mg_forwarders s) = true).
Proof.
  intros Hsteps. destruct (steps_inv _ _ _ Hsteps (started_inv n loop)) as [Hfw Hclosed].
  split; [|done]. intros i fw Hi. specialize (Hfw _ _ Hi). unfold forwarder_inv in Hfw.
  destruct (finished fw) eqn:Hfin.
  - destruct Hfw as [Hpre Hwhy]. split_and!; [done|done|]. intros _ Hdone.
    destruct Hwhy as [Hd|[-> _]]; [congruence|done].
  - split_and!; [by eexists|done|]. intros Hc. specialize (Hclosed Hc).
    rewrite forallb_forall in Hclosed. specialize (Hclosed fw).
    rewrite <-list_elem_of_In in Hclosed. rewrite Hclosed in Hfin; [done|].
    by eapply list_elem_of_lookup_2.
Qed.

(** ** A lost session *)

Lemma steps_ctx ls s s' : steps ls s = Some s' → mg_ctx_done s' = false → mg_ctx_done s = false.
Proof.
  revert s. induction ls as [|l ls IH]; intros s; cbn; [by intros [= <-]|].
  destruct (step l s) as [s1|] eqn:Hs; [|done]. intros Hr Hdone. specialize (IH _ Hr Hdone).
  unfold step in Hs. destruct (target l) as [i|].
  - destruct (mg_forwarders s !! i) as [fw|]; [|done]. cbn in Hs.
    destruct (forward l fw s) as [[fw' s2]|] eqn:Hf; [|done]. injection Hs as <-.
    apply forward_frame in Hf as (_ & _ & E & _). cbn in IH. congruence.
  - destruct l, (mg_loop s); try discriminate Hs; unfold close_merged in Hs;
      try (destruct (_ && _); [|discriminate Hs]); by injection Hs as <-.
Qed.

Lemma step_stuck l s s' i fw d :
  step l s = Some s' → mg_loop s = Gone → mg_ctx_done s = false →
  mg_forwarders s !! i = Some fw → fw_phase fw = Holding d →
  mg_loop s' = Gone ∧ ∃ fw', mg_forwarders s' !! i = Some fw' ∧ fw_phase fw' = Holding d.
Proof.
  intros Hs Hgone Hdone Hi Hd. unfold step in Hs. destruct (target l) as [j|].
  - destruct (mg_forwarders s !! j) as [fwj|] eqn:Hj; [|done]. cbn in Hs.
    destruct (forward l fwj s) as [[fw' s1]|] eqn:Hf; [|done]. injection Hs as <-.
    destruct (forward_frame _ _ _ _ _ Hf) as (E1 & _ & _ & _ & Hl & Hh). split; [by apply Hl|]. cbn.
    rewrite E1. destruct (decide (j = i)) as [->|Hne].
    + exists fw'. rewrite list_lookup_insert_eq by by eapply lookup_lt_Some. split; [done|].
      apply Hh; congruence.
    + exists fw. by rewrite list_lookup_insert_ne.
  - rewrite Hgone in Hs. destruct l; try discriminate Hs; unfold close_merged in Hs;
      try (destruct (_ && _); [|discriminate Hs]); injection Hs as <-; by eauto.
Qed.

(** A forwarder that holds a delivery when the loop of its session is gone holds it
    until the context ends: whatever else happens, it never finishes and the merged
    channel is never closed, so that every lost session may leave its goroutines behind
    until shutdown. *)
Theorem lost_session_keeps_forwarder n loop ls ls' s s' i fw d :
  steps ls (started n loop) = Some s → mg_loop s = Gone →
  mg_forwarders s !! i = Some fw → fw_phase fw = Holding d →
  steps ls' s = Some s' → mg_ctx_done s' = false →
  (∃ fw', mg_forwarders s' !! i = Some fw' ∧ fw_phase fw' = Holding d) ∧ mg_merged_closed s' = false.
Proof.
  intros Hs Hgone Hi Hd Hs' Hdone.
  assert (∃ fw', mg_forwarders s' !! i = Some fw' ∧ fw_phase fw' = Holding d) as (fw' & Hi' & Hd').
  { clear Hs. revert s fw Hgone Hi Hd Hs'. induction ls' as [|l ls' IH]; intros s fw Hgone Hi Hd Hs'.
    { injection Hs' as <-. eauto. }
    pose proof (steps_ctx _ _ _ Hs' Hdone) as Hdone0. cbn in Hs'.
    destruct (step l s) as [s1|] eqn:Hl; [|done].
    destruct (step_stuck _ _ _ _ _ _ Hl Hgone Hdone0 Hi Hd) as (Hg1 & fw1 & Hi1 & Hd1). eauto. }
  split; [by eauto|]. destruct (mg_merged_closed s') eqn:Hc; [|done].
  pose proof (steps_inv _ _ _ Hs' (steps_inv _ _ _ Hs (started_inv n loop))) as [_ Hall].
  specialize (Hall Hc). rewrite forallb_forall in Hall. specialize (Hall fw').
  rewrite <-list_elem_of_In in Hall. unfold finished in Hall. rewrite Hd' in Hall.
  discriminate Hall. by eapply list_elem_of_lookup_2.
Qed.

(** ** Witnesses *)

Definition second_delivery : Delivery :=
  mkDelivery "application/x-protobuf" "order.v1.OrderAccepted" "e2" "r2" 11 [] "" 0 "" "" "" "" "body".
Definition sample_forwarding : list label :=
  [Arrive 0 sample_delivery; Arrive 0 second_delivery; Receive 0; HandOver 0; Handled; Receive 0;
   HandOver 0; Handled; CloseDeliveries 0; EndRange 0; CloseDeliveries 1; EndRange 1; CloseMerged; Leave].

Lemma merge_in_order_witness :
  ∃ s fw, steps sample_forwarding (started 2 Taking) = Some s ∧ mg_forwarders s !! 0%nat = Some fw
  ∧ mg_merged_closed s = true ∧ fw_arrived fw = received_from 0 s
  ∧ received_from 0 s = [sample_delivery; second_delivery].
Proof.
  do 2 eexists. split; [reflexivity|]. split; [reflexivity|]. split; [reflexivity|]. split; [|reflexivity].
  destruct (merge_in_order 2 Taking sample_forwarding _ eq_refl) as [Hfw _].
  by apply (Hfw 0%nat).
Defined.

(** The channel is lost while the second queue's forwarder offers a delivery. *)
Definition sample_loss : list label :=
  [Arrive 1 sample_delivery; Receive 1; Leave].
Lemma lost_session_keeps_forwarder_witness :
  ∃ s s', steps sample_loss (started 2 Taking) = Some s
  ∧ steps [CloseDeliveries 0; EndRange 0; CloseDeliveries 1] s = Some s' ∧ mg_merged_closed s' = false.
Proof.
  do 2 eexists. split; [reflexivity|]. split; [reflexivity|].
  eapply (lost_session_keeps_forwarder 2 Taking sample_loss
    [CloseDeliveries 0; EndRange 0; CloseDeliveries 1] _ _ 1 _ sample_delivery);
    reflexivity.
Defined.
