(* ===== verification/Wiring.v ===== *)
(** * The order context, wired

    [wiring.New] of order-service: the use case and the event worker over the adapters that
    implement their ports, each adapter over what it was given. The calls that remain are
    those on the database, inventory-service, the publisher, the clock, the identifier and
    random sources and the contexts. *)
From S2P Require Import Prelude GoErrors GoStrings External Correlation OrderErrors OrderDomain Prog OrderPorts CreateOrder EventWorker InventoryGrpc InventoryClient OrderEvents RabbitPublisher OrderEventAmqp CatalogStub HttpApi Router.

(** The times and the connections' own settings that are given to the context. *)
(* @go order-service/internal/order/wiring/wiring.go Dependencies *)
Record Dependencies := mkDependencies {
  dp_InventoryTimeout : Z;
  dp_OutboxPollInterval : Z;
  dp_OutboxLease : Z;
}.

(** The calls on the dependencies; [DB] and [OutboxDB] are those of the repository and of
    the outbox on the one [DB], and [CtxOf] and [WorkerCtxOf] those on a context. *)
Inductive dependencyE : Type → Type :=
| DB {R} (statement : orderE R) : dependencyE R
| OutboxDB {R} (statement : workerE R) : dependencyE R
| ClockNow : dependencyE Z
| NextID : dependencyE string
| InventoryConn_ReserveStock (timeout : Z) (request : InventoryGrpc.ReserveStockRequest)
    : dependencyE (result InventoryGrpc.Status unit)
| EventPublisher_Publish (message : Message) : dependencyE (order_result unit)
| rand_Int64N (n : Z) : dependencyE Z
| CtxOf {R} (look : orderE R) : dependencyE R
| WorkerCtxOf {R} (look : workerE R) : dependencyE R.
(** A call of a request, which may also panic. *)
Abbreviation wired_call := (call (sumE dependencyE crashE)).

(** [t.Truncate(d)], since the zero time. *)
Definition Truncate (t d : Z) : Z := (t - t `mod` d)%Z.

Section wiring.
Context {Mail : MailLib} {Binding : BindingLib} {Gin : GinLib}.
Context {Times : TimestampLib} {Wire : Codec protoOrderAccepted}.
Variable status_text : InventoryGrpc.Status → string.

(* @src order-service/internal/order/wiring/wiring.go:45-47 New *)
Definition wired_now : prog dependencyE Z :=
  now ← trigger ClockNow;
  Ret (Truncate now Microsecond).

(* @src order-service/internal/order/adapter/outbound/inventorygrpc/reserver.go:29-78 Reserver *)
Definition wired_Reserve (timeout : Z) (request : ReservationRequest) : prog dependencyE (order_result unit) :=
  answer ← trigger (InventoryConn_ReserveStock timeout (request_of request));
  Ret (reserver_Reserve status_text (λ _, answer) request).

(** The ports of [CreateOrder]. *)
(* @src order-service/internal/order/wiring/wiring.go:48-60 New *)
Definition createOrder_ports (dependencies : Dependencies) R (e : orderE R) : prog dependencyE R :=
  match e in orderE R return prog dependencyE R with
  | Prices skus =>
      cancelled ← trigger (CtxOf CtxErr);
      Ret (catalog_Prices catalog_prices cancelled skus)
  | Reserve request => wired_Reserve (dp_InventoryTimeout dependencies) request
  | Clock => wired_now
  | NewID => trigger NextID
  | CtxErr => trigger (CtxOf CtxErr)
  | TimerOrDone delay => trigger (CtxOf (TimerOrDone delay))
  | e => trigger (DB e)
  end.

(** The publisher of order events over the publisher it is given. *)
(* @src order-service/internal/order/adapter/outbound/ordereventamqp/publisher.go:24-66 Publisher *)
Definition wired_PublishOrderAccepted (event : OrderAcceptedEvent) (correlationID : string)
    : prog dependencyE (order_result unit) :=
  match message_of event correlationID with
  | Err err => Ret (Err err)
  | Ok message => published ← trigger (EventPublisher_Publish message); Ret (translate published)
  end.

(** The ports of [PublishOrderEvents]. *)
(* @src order-service/internal/order/wiring/wiring.go:62-70 New *)
Definition eventWorker_ports R (e : workerE R) : prog dependencyE R :=
  match e in workerE R return prog dependencyE R with
  | PublishOrderAccepted event correlationID => wired_PublishOrderAccepted event correlationID
  | random n => trigger (rand_Int64N n)
  | WorkerClock => wired_now
  | WorkerCtxErr => trigger (WorkerCtxOf WorkerCtxErr)
  | WorkerTimerOrDone delay => trigger (WorkerCtxOf (WorkerTimerOrDone delay))
  | e => trigger (OutboxDB e)
  end.

(** [HTTPHandler] serves a request, given what the random source fills its id's buffer
    with; [EventWorker] runs for a number of rounds. *)
(* @src order-service/internal/order/wiring/wiring.go:35-41 Module *)
Record OrderModule := mkOrderModule {
  om_HTTPHandler : list N → request → prog (sumE dependencyE crashE) served;
  om_EventWorker : nat → prog dependencyE (PublishOrderEvents * bool);
}.

Definition http_ports (dependencies : Dependencies) R (e : httpE R) : prog (sumE dependencyE crashE) R :=
  match e in sumE _ _ R return prog (sumE dependencyE crashE) R with
  | inlE e => embed (@inlE dependencyE crashE) (createOrder_ports dependencies _ e)
  | inrE e => trigger (inrE e)
  end.

(** It never answers an error. *)
(* @go order-service/internal/order/wiring/wiring.go New *)
Definition order_wiring_New (dependencies : Dependencies) : result string OrderModule :=
  Ok {|
    om_HTTPHandler buffer rq := interp (http_ports dependencies) (serve buffer rq);
    om_EventWorker rounds := interp eventWorker_ports
      (Run rounds (NewPublishOrderEvents (dp_OutboxLease dependencies) (dp_OutboxPollInterval dependencies)));
  |}.

(** ** The calls of a request *)

(** What the adapters answer, of all the ports could. *)
Definition adapted (c : call orderE) : Prop :=
  match c with
  | @Call _ R e r =>
      match e in orderE R return R → Prop with
      | Prices skus => λ r, ∃ cancelled, r = catalog_Prices catalog_prices cancelled skus
      | Reserve request => λ r, ∃ answer, r = reserver_Reserve status_text (λ _, answer) request
      | Clock => λ r, (r `mod` Microsecond = 0)%Z
      | _ => λ _, True
      end r
  end.

Lemma Truncate_mod t d : (0 < d)%Z → (Truncate t d `mod` d = 0)%Z.
Proof.
  intros Hd. unfold Truncate. rewrite Zminus_mod_idemp_r, Z.sub_diag. apply Z.mod_0_l. lia.
Qed.

Lemma ports_adapted dependencies R (e : orderE R) k r :
  runs (createOrder_ports dependencies R e) k r → adapted (Call e r).
Proof.
  destruct e; cbn; try done.
  - intros (cancelled & h & -> & [_ ->]%runs_inv)%runs_trigger. by eexists.
  - intros (answer & h & -> & [_ ->]%runs_inv)%runs_trigger. by eexists.
  - intros (now & h & -> & [_ ->]%runs_inv)%runs_trigger. by apply Truncate_mod.
Qed.

Lemma embed_runs {E G A} (φ : ∀ R, E R → G R) (p : prog E A) h a :
  runs (embed φ p) h a → ∃ k, runs p k a ∧ h = embed_call φ <$> k.
Proof.
  revert h. induction p as [a'|R e k IH]; cbn; intros h Hr.
  - apply runs_inv in Hr as [-> ->]. exists []. split; [constructor|done].
  - apply runs_inv in Hr as (r & h' & -> & Hr). destruct (IH r h' Hr) as (k' & Hk & ->).
    exists (Call e r :: k'). split; [by constructor|done].
Qed.

(** Among the calls of a wired request, the statements of the database and the calls of
    inventory-service; among those of the use case, the ones they are made for. *)
Definition db_call (c : wired_call) : option (call orderE) :=
  match c with
  | @Call _ R e r =>
      match e in sumE _ _ R return R → option (call orderE) with
      | inlE e => match e in dependencyE R return R → option (call orderE) with
                  | DB e => λ r, Some (Call e r)
                  | _ => λ _, None
                  end
      | inrE _ => λ _, None
      end r
  end.
Definition rpc_call (c : wired_call) : option (Z * InventoryGrpc.ReserveStockRequest) :=
  match c with
  | @Call _ R e r => match e with
                     | inlE (InventoryConn_ReserveStock timeout request) => Some (timeout, request)
                     | _ => None
                     end
  end.
Definition on_database (c : call orderE) : option (call orderE) :=
  match c with
  | @Call _ R e r =>
      match e with
      | Prices _ | Reserve _ | Clock | NewID | CtxErr | TimerOrDone _ => None
      | _ => Some c
      end
  end.
Definition sent_to_inventory (dependencies : Dependencies) (c : call orderE)
    : option (Z * InventoryGrpc.ReserveStockRequest) :=
  option_map (λ attempt, (dp_InventoryTimeout dependencies, request_of attempt.1)) (reserve_call c).

(** The calls [h] of a wired request are the image of the calls [hc] of the ports. *)
Record wired_image (dependencies : Dependencies) (hc : list (call orderE))
    (h : list wired_call) : Prop := {
  wi_adapted : Forall adapted hc;
  wi_db : omap db_call h = omap on_database hc;
  wi_rpc : omap rpc_call h = omap (sent_to_inventory dependencies) hc;
}.

Lemma ports_image dependencies R (e : orderE R) k r :
  runs (createOrder_ports dependencies R e) k r →
  wired_image dependencies [Call e r] (embed_call (@inlE dependencyE crashE) <$> k).
Proof.
  intros Hk. pose proof (ports_adapted _ _ _ _ _ Hk) as Ha.
  assert (Forall adapted [Call e r]) as Hall by (constructor; [exact Ha|constructor]).
  destruct e; cbn in Hk;
    apply runs_inv in Hk as (r' & h & -> & [-> Heq]%runs_inv); split; try done; by subst.
Qed.
Lemma wired_image_app dependencies hc hc' h h' :
  wired_image dependencies hc h → wired_image dependencies hc' h' →
  wired_image dependencies (hc ++ hc') (h ++ h').
Proof.
  intros [H1 H2 H3] [H1' H2' H3']. split; [by apply Forall_app| |]; rewrite !omap_app; congruence.
Qed.

Lemma request_image dependencies hs h :
  interpreted (http_ports dependencies) hs h → wired_image dependencies (port_calls hs) h.
Proof.
  induction 1 as [|R e r k hs h Hrun _ IH]; [by repeat constructor|].
  change (Call e r :: hs) with ([Call e r] ++ hs). rewrite port_calls_app.
  apply wired_image_app; [|exact IH]. destruct e as [R e|R e]; cbn in Hrun.
  - apply embed_runs in Hrun as (k0 & Hk & ->). by apply ports_image.
  - apply runs_inv in Hrun as (b & h' & -> & [-> ->]%runs_inv). by repeat constructor.
Qed.

(** ** What reaches the database and inventory-service *)

Definition on_db {R} (e : orderE R) (r : R) : wired_call := Call (inlE (DB e)) r.

Lemma db_call_inv (c : wired_call) R (e : orderE R) r : db_call c = Some (Call e r) → c = on_db e r.
Proof.
  intros Hc. pose (back := λ c : option (call orderE),
    match c with Some (Call e r) => Some (on_db e r) | None => None end).
  apply (f_equal back) in Hc. cbn in Hc.
  destruct c as [R' [R1 e'|R1 e'] r']; [|done]. destruct e'; cbn in Hc; try done. exact (inj Some _ _ Hc).
Qed.
Lemma elem_of_db dependencies hc h R (e : orderE R) r :
  wired_image dependencies hc h → on_database (Call e r) = Some (Call e r) →
  on_db e r ∈ h ↔ Call e r ∈ hc.
Proof.
  intros Hi Ho. split; intros Hc.
  - assert (Call e r ∈ omap db_call h) as H by (apply list_elem_of_omap; by exists (on_db e r)).
    rewrite (wi_db _ _ _ Hi) in H. apply list_elem_of_omap in H as (c & Hin & Hc').
    assert (∀ c' : call orderE, on_database c' = Some (Call e r) → c' = Call e r) as Hsame; [|rewrite <-(Hsame c Hc'); exact Hin].
    intros [R' e' r'] H. destruct e'; cbn in H; first [discriminate H|exact (inj Some _ _ H)].
  - assert (Call e r ∈ omap on_database hc) as H by (apply list_elem_of_omap; by exists (Call e r)).
    rewrite <-(wi_db _ _ _ Hi) in H. apply list_elem_of_omap in H as (c & Hin & Hc').
    by rewrite <-(db_call_inv _ _ _ _ Hc').
Qed.

Lemma elem_of_create dependencies hc h o r :
  wired_image dependencies hc h → on_db (Create o) r ∈ h ↔ Call (Create o) r ∈ hc.
Proof. intros Hi. by apply (elem_of_db dependencies). Qed.
Lemma elem_of_find dependencies hc h key r :
  wired_image dependencies hc h →
  on_db (FindByIdempotencyKey key) r ∈ h ↔ Call (FindByIdempotencyKey key) r ∈ hc.
Proof. intros Hi. by apply (elem_of_db dependencies). Qed.
Lemma elem_of_record dependencies hc h o expected event r :
  wired_image dependencies hc h →
  on_db (UpdateAndRecordEvent o expected event) r ∈ h ↔ Call (UpdateAndRecordEvent o expected event) r ∈ hc.
Proof. intros Hi. by apply (elem_of_db dependencies). Qed.

(** A request makes at most three attempts at a reservation. *)
Lemma reserve_calls_bound key b hc :
  disciplined (handler_rule key b) hc → length (reserve_calls hc) ≤ 3.
Proof.
  induction hc as [|[R e r] hc IH] using rev_ind; intros Hd; [cbn; lia|].
  rewrite reserve_calls_app, length_app. pose proof (Hd hc R e r [] eq_refl) as Hrule.
  assert (length (reserve_calls hc) ≤ 3) as Hle.
  { apply IH. intros h1 R' e' r' h2 ->. apply (Hd h1 R' e' r' (h2 ++ [Call e r])). by rewrite <-app_assoc. }
  destruct Hrule as (request & command & _ & _ & _ & Hrule).
  destruct e; cbn in *; try lia.
Qed.

(** The lines of the order are those of the request, at the prices of the catalogue. *)
Definition catalog_priced (command : CreateOrderCommand) (o : Order) : Prop :=
  Forall2 (λ item line, productSKU line = TrimSpace (coi_ProductSKU item)
      ∧ quantity line = coi_Quantity item
      ∧ catalog_prices !! productSKU line = Some (unitPrice line))
    (coc_Items command) (ord_orderItems o).

Lemma priced_by_catalog command hc o :
  Forall adapted hc → priced_order command hc o →
  catalog_priced command o ∧ (ord_createdAt o `mod` Microsecond = 0)%Z.
Proof.
  intros Ha (prices & items & id & now & Hp & _ & Hnow & Hitems & Hnew). rewrite Forall_forall in Ha.
  apply Ha in Hp as (cancelled & Hp). apply Ha in Hnow. cbn in Hnow.
  apply NewOrder_ok in Hnew as (total & _ & _ & _ & _ & _ & _ & -> & _). split; [|done].
  unfold catalog_priced. cbn. destruct cancelled as [err|]; [done|].
  pose proof (catalog_prices_of catalog_prices (productSKUs (coc_Items command)) prices (eq_sym Hp)) as Hsame.
  eapply Forall2_impl; [exact Hitems|]. intros item line (price & Hprice & Hline). unfold NewOrderItem in Hline.
  destruct (validateItem _); [|done]. injection Hline as <-. cbn. rewrite TrimSpace_idemp.
  split_and!; [done..|]. by apply Hsame.
Qed.

Lemma rpc_count dependencies hc : length (omap (sent_to_inventory dependencies) hc) ≤ length (reserve_calls hc).
Proof.
  induction hc as [|c hc IH]; [done|]. unfold sent_to_inventory, reserve_calls in *. cbn.
  destruct (reserve_call c); cbn; lia.
Qed.

(** The order was stored by the request or was found in the database. *)
Definition held (h : list wired_call) (o : Order) : Prop :=
  on_db (Create o) (Ok tt) ∈ h ∨ ∃ key, on_db (FindByIdempotencyKey key) (Ok o) ∈ h.

Lemma stored_held dependencies hc h key h1 o :
  wired_image dependencies hc h → stored key h1 o → h1 ⊆ hc → held h o.
Proof.
  intros Himg [Hc|Hc] Hsub; [left|right; exists key].
  - by apply (elem_of_create _ _ _ _ _ Himg), Hsub.
  - by apply (elem_of_find _ _ _ _ _ Himg), Hsub.
Qed.

(** C16: What a request makes the wired order context do to its database and to
    inventory-service. It stores a new order only for a body that decodes and is valid,
    pending, under the key of the request, with the lines asked for at the prices of the
    catalogue and a time in whole microseconds, as the database keeps it; the event recorded
    with an acceptance announces that order, at such a time too. It calls inventory-service
    at most three times, each time under the configured timeout and for the products and
    quantities of an order the database holds. *)
Theorem wired_requests {GinL : GinLaws Gin} dependencies m buffer rq h s :
  order_wiring_New dependencies = Ok m → runs (om_HTTPHandler m buffer rq) h s →
  (∀ o r, on_db (Create o) r ∈ h →
     ∃ asked command, decode_body (rq_Body rq) = Some asked ∧ request_valid asked
       ∧ commands asked (TrimSpace (rq_IdempotencyKey rq)) command
       ∧ order_valid o ∧ ord_status o = StatusPending
       ∧ ord_idempotencyKey o = TrimSpace (rq_IdempotencyKey rq)
       ∧ catalog_priced command o
       ∧ (ord_createdAt o `mod` 1000 = 0)%Z)
  ∧ (∀ o expected event r, on_db (UpdateAndRecordEvent o expected event) r ∈ h →
       announces o event
       ∧ (oae_OccurredAt event `mod` 1000 = 0)%Z)
  ∧ length (omap rpc_call h) ≤ 3
  ∧ ∀ timeout basket, (timeout, basket) ∈ omap rpc_call h →
       timeout = dp_InventoryTimeout dependencies
       ∧ ∃ o, held h o ∧ basket_of o basket.
Proof.
  intros [= <-] (hs & Hserve & Hint)%interp_runs. apply serve_disciplined in Hserve.
  apply request_image in Hint as Himg. set (hc := port_calls hs) in *.
  assert (∀ hc1 R (e : orderE R) r hc2, hc = hc1 ++ Call e r :: hc2 →
    handler_rule (rq_IdempotencyKey rq) (rq_Body rq) hc1 R e) as Hrule.
  { intros hc1 R e r hc2 Heq. exact (Hserve hc1 R e r hc2 Heq). }
  pose proof (wi_adapted _ _ _ Himg) as Ha.
  assert (∀ hc1 c hc2, hc = hc1 ++ c :: hc2 → Forall adapted hc1) as Hpre.
  { intros hc1 c hc2 Heq. rewrite Heq in Ha. by apply Forall_app in Ha as [? _]. }
  split_and!.
  - intros o r (hc1 & hc2 & Heq)%(elem_of_create _ _ _ _ _ Himg)%list_elem_of_split.
    destruct (Hrule _ _ _ _ _ Heq)
      as (asked & command & Hbody & Hvalid & Hcmd & Hv & Hst & Hkey & _ & _ & Hpriced & _).
    exists asked, command. destruct (priced_by_catalog _ _ _ (Hpre _ _ _ Heq) Hpriced).
    pose proof Hcmd as (E & _). rewrite E in Hkey. done.
  - intros o expected event r (hc1 & hc2 & Heq)%(elem_of_record _ _ _ _ _ _ _ Himg)%list_elem_of_split.
    destruct (Hrule _ _ _ _ _ Heq)
      as (asked & command & _ & _ & _ & _ & _ & Hevent & o0 & now & request & _ & _ & Hnow & Hacc & _).
    split; [done|]. destruct Hevent as (_ & -> & _). apply transitionTo_ok in Hacc as (_ & _ & _ & ->). cbn.
    pose proof (Hpre _ _ _ Heq) as Hall. rewrite Forall_forall in Hall. exact (Hall _ Hnow).
  - rewrite (wi_rpc _ _ _ Himg). etransitivity; [|by eapply reserve_calls_bound].
    apply rpc_count.
  - intros timeout basket Hin. rewrite (wi_rpc _ _ _ Himg) in Hin.
    apply list_elem_of_omap in Hin as ([R e r] & (hc1 & hc2 & Heq)%list_elem_of_split & Hc).
    destruct e; try discriminate Hc. injection Hc as <- <-. split; [done|].
    destruct (Hrule _ _ _ _ _ Heq) as (asked & command & _ & _ & _ & (o & Hst & _ & Hasks) & _).
    exists o. split; [|by apply request_of_basket]. apply (stored_held _ _ _ _ _ _ Himg Hst). rewrite Heq. set_solver.
Qed.
End wiring.

(** ** A wired request *)

#[local] Existing Instance sample_binding.
#[local] Existing Instance sample_wire.
Definition sample_dependencies : Dependencies := mkDependencies (3 * Second) Second (30 * Second).
Definition wired_order (st : OrderDomain.Status) (updatedAt : Z) : Order :=
  mkOrder "o-1" "c-1" "a@b.example" st "key-1" sample_items (mkMoney 3000 "EUR") 10000 updatedAt.

Definition no_crash : wired_call := Call (inrE Crash) false.
Definition depend {R} (e : dependencyE R) (r : R) : wired_call := Call (inlE e) r.
Definition wired_basket : InventoryGrpc.ReserveStockRequest :=
  request_of (reservationRequestFor (wired_order StatusPending 10000)).
Definition wired_history : list wired_call := [
  no_crash; on_db (FindByIdempotencyKey "key-1") (Err (app ErrOrderNotFound));
  no_crash; depend (CtxOf CtxErr) None;
  no_crash; depend NextID "o-1"; no_crash; depend ClockNow 10999%Z;
  no_crash; on_db (Create (wired_order StatusPending 10000)) (Ok tt);
  no_crash; depend (CtxOf CtxErr) None;
  no_crash; depend (InventoryConn_ReserveStock (3 * Second) wired_basket) (Ok tt);
  no_crash; depend ClockNow 20001%Z; no_crash; depend NextID "e-1";
  no_crash; on_db (UpdateAndRecordEvent (wired_order StatusAccepted 20000) StatusPending
    (newOrderAcceptedEvent "e-1" (wired_order StatusAccepted 20000))) (Ok tt)].
Definition no_text : InventoryGrpc.Status → string := λ _, "".

Lemma sample_wired_run :
  ∃ m s, order_wiring_New no_text sample_dependencies = Ok m
  ∧ runs (om_HTTPHandler m (replicate 16 171%N) sample_request) wired_history s
  ∧ (sv_answer s).1 = 201%Z.
Proof.
  eexists _, _. split; [reflexivity|]. split.
  - cbn [om_HTTPHandler]. unfold wired_history. repeat refine (runs_vis _ _ _ _ _ _). exact (runs_ret _).
  - reflexivity.
Qed.

Lemma wired_requests_witness :
  ∃ m s, order_wiring_New no_text sample_dependencies = Ok m
  ∧ runs (om_HTTPHandler m (replicate 16 171%N) sample_request) wired_history s
  ∧ (sv_answer s).1 = 201%Z
  ∧ catalog_priced sample_command (wired_order StatusPending 10000)
  ∧ length (omap rpc_call wired_history) ≤ 3
  ∧ ∃ o, held wired_history o ∧ basket_of o (mkReserveStockRequest "o-1"
      [mkProtoReservationLine "SKU-A" 2; mkProtoReservationLine "SKU-B" 1]).
Proof.
  destruct sample_wired_run as (m & s & Hm & Hr & Hs). exists m, s. do 3 (split; [done|]).
  destruct (wired_requests no_text sample_dependencies m _ _ _ s Hm Hr) as (H1 & _ & H3 & H4).
  split; [|split; [exact H3|]].
  - destruct (H1 (wired_order StatusPending 10000) (Ok tt))
      as (asked & command & Hasked & _ & Hcmd & _ & _ & _ & Hp & _).
    + unfold wired_history. do 9 right. left.
    + injection Hasked as <-. destruct Hcmd as (_ & _ & _ & Hitems).
      unfold catalog_priced in *. cbn in Hitems.
      apply Forall2_cons_inv_l in Hitems as ([] & ? & [E1 E2] & Hitems & E). cbn in E1, E2. subst.
      apply Forall2_cons_inv_l in Hitems as ([] & ? & [E1 E2] & Hitems & E'). cbn in E1, E2. subst.
      apply Forall2_nil_inv_l in Hitems. subst. rewrite E in Hp. exact Hp.
  - apply (H4 (3 * Second)%Z). by left.
Defined.
