(* ===== verification/GrpcEdge.v ===== *)
(** * The gRPC edge of inventory-service

    The interceptors [wiring.New] puts around every call, in their order, and the lines
    they and the handler log: what a caller is told of a failure and what an operator can
    find of it. *)
From S2P Require Import Prelude GoErrors GoStrings External Prog Correlation ServiceConfig InventoryErrors InventoryCanonical ReservationStore ReserveStock ReservationSpec InventoryService InventoryGrpc.

(* @src inventory-service/internal/inventory/wiring/wiring.go:20-20 healthMethod *)
Definition healthMethod : string := "/grpc.health.v1.Health/Check".
Definition reserveMethod : string := "/inventory.v1.InventoryService/ReserveStock".

(** The fields of a log line that are not measured: one per call, and one more for a
    failure that is this server's fault. *)
Inductive grpc_line :=
| CallLine (error_level : bool) (grpc_method : string) (grpc_code : code) (request_id : option string)
| FailureLine (err : inventory_error) (order_id request_id : string).

Definition status_code_of {A} (answer : result Status A) : code :=
  match answer with Ok _ => OK | Err st => st_Code st end.

(** A failure that is this server's own. *)
Definition internal {A} (answer : result Status A) : bool := bool_decide (status_code_of answer = Internal).

(** A call's program gives the answer and what it logged. *)
Abbreviation handled_call := (result Status unit * list grpc_line)%type.

(* @go inventory-service/internal/inventory/adapter/inbound/grpcapi/logging.go Logging *)
Definition grpc_Logging {E} (skipMethods : list string) (method : string)
    (handler : correlation.Context → prog E handled_call) (ctx : correlation.Context)
    : prog E handled_call :=
  if bool_decide (method ∈ skipMethods) then handler ctx
  else
  '(answer, lines) ← handler ctx;
  let c := status_code_of answer in
  let requestID := correlation.FromContext ctx in
  Ret (answer, lines ++ [CallLine (bool_decide (c ∈ [Internal; Unknown; DataLoss])) method c
         (if bool_decide (requestID = "") then None else Some requestID)]).

Section edge.
Context {Uuid : UuidLib} {Statuses : StatusLib}.

(** The handler with its log line. *)
(* @src inventory-service/internal/inventory/adapter/inbound/grpcapi/server.go:50-75 Server.ReserveStock *)
Definition logged_ReserveStock (request : ReserveStockRequest) (ctx : correlation.Context)
    : prog storeE handled_call :=
  executed ← ReserveStock_Execute (command_of request);
  match executed with
  | Err err =>
      let failure := statusFor ctx err in
      Ret (Err failure,
           if bool_decide (st_Code failure = Internal)
           then [FailureLine err (req_OrderId request) (correlation.FromContext ctx)] else [])
  | Ok _ => Ret (Ok tt, [])
  end.

(** A unary interceptor; [grpc.ChainUnaryInterceptor] makes the first one the outermost. *)
Definition interceptor (E : Type → Type) : Type :=
  string → (correlation.Context → prog E handled_call) → correlation.Context → prog E handled_call.
Fixpoint chain {E} (interceptors : list (interceptor E)) : interceptor E :=
  match interceptors with
  | [] => λ _ handler, handler
  | first :: rest => λ method handler, first method (chain rest method handler)
  end.

(** The services a server has; the health service reports the same status for ever. *)
Inductive service := InventoryService_Server | HealthServer (serving : bool).

#[export] Instance service_eq_dec : EqDecision service.
Proof. solve_decision. Defined.

(** What the context contributes: the services it registers, after those a server has, and
    the interceptors, given the request id header of the call. *)
(* @go inventory-service/internal/inventory/wiring/wiring.go Module *)
Record InventoryModule := mkInventoryModule {
  im_Register : list service → list service;
  im_UnaryInterceptors : option (list string) → ∀ E, list (interceptor E);
}.

(** Correlation first, so that the log lines can name the call. It never answers an error. *)
(* @go inventory-service/internal/inventory/wiring/wiring.go New *)
Definition inventory_wiring_New : result string InventoryModule :=
  Ok {|
    im_Register services := services ++ [InventoryService_Server; HealthServer true];
    im_UnaryInterceptors incoming E := [
      (λ _ handler ctx, handler (grpcapi_correlation.grpcapi_Correlation ctx incoming));
      grpc_Logging [healthMethod]];
  |}.

(** The server, with how long it keeps connections. *)
(* @go inventory-service/internal/platform/grpcserver/server.go Config *)
Record GrpcConfig := mkGrpcConfig {
  gc_Address : string;
  gc_MaxConnectionIdle : Z;
  gc_MaxConnectionAge : Z;
  gc_MaxConnectionAgeSlop : Z;
  gc_UnaryInterceptors : option (list string) → ∀ E, list (interceptor E);
}.
(* @go inventory-service/internal/platform/grpcserver/server.go Server *)
Record GrpcServer := mkGrpcServer {
  gs_address : string;
  gs_keepalive : Z * Z * Z;
  gs_interceptors : option (list string) → ∀ E, list (interceptor E);
  gs_services : list service;
}.
(* @go inventory-service/internal/platform/grpcserver/server.go NewServer *)
Definition grpcserver_NewServer (config : GrpcConfig) (register : list service → list service) : GrpcServer := {|
  gs_address := gc_Address config;
  gs_keepalive := (gc_MaxConnectionIdle config, gc_MaxConnectionAge config, gc_MaxConnectionAgeSlop config);
  gs_interceptors := gc_UnaryInterceptors config;
  gs_services := register [];
|}.

(** The server of a process with settings [config], and its calls: of the one method of
    the service, and of the health check, which the library's server answers. A method of
    a service the server does not have is not implemented. *)
(* @src inventory-service/internal/bootstrap/app.go:55-69 New *)
Definition inventory_server (applicationConfig : InventoryConfig) (inventoryModule : InventoryModule) : GrpcServer :=
  grpcserver_NewServer {|
    gc_Address := ic_GRPCServerAddress applicationConfig;
    gc_MaxConnectionIdle := ic_GRPCMaxConnectionIdle applicationConfig;
    gc_MaxConnectionAge := ic_GRPCMaxConnectionAge applicationConfig;
    gc_MaxConnectionAgeSlop := ic_GRPCMaxConnectionAgeSlop applicationConfig;
    gc_UnaryInterceptors := im_UnaryInterceptors inventoryModule;
  |} (im_Register inventoryModule).
Definition serve_call (server : GrpcServer) (incoming : option (list string)) (request : ReserveStockRequest)
    : prog storeE handled_call :=
  chain (gs_interceptors server incoming storeE) reserveMethod
    (if bool_decide (InventoryService_Server ∈ gs_services server) then logged_ReserveStock request
     else λ ctx, Ret (Err (mkStatus Unimplemented "unknown service" []), []))
    correlation.Background.
Definition serve_health {E} (server : GrpcServer) (incoming : option (list string)) : prog E handled_call :=
  chain (gs_interceptors server incoming E) healthMethod
    (λ ctx, if bool_decide (HealthServer true ∈ gs_services server) then Ret (Ok tt, [])
            else Ret (Err (mkStatus Unimplemented "unknown service" []), []))
    correlation.Background.

(** The id a status carries to its caller. *)
Definition status_request_id (st : Status) : option string :=
  match st_Details st with
  | ErrorInfo _ _ [(_, id)] :: _ => Some id
  | _ => None
  end.

Lemma statusFor_internal ctx err :
  st_Code (statusFor ctx err) = Internal →
  statusFor ctx err = status ctx Internal "an unexpected error occurred" reasonInternal [].
Proof. unfold statusFor, status. repeat case_match; done. Qed.

(** Logging leaves the answer alone. *)
Lemma logged_answer ctx request h answer lines :
  runs (logged_ReserveStock request ctx) h (answer, lines) →
  runs (server_ReserveStock ctx request) h answer
  ∧ (internal answer = false ∧ lines = []
     ∨ ∃ err, answer = Err (statusFor ctx err) ∧ internal answer = true
         ∧ lines = [FailureLine err (req_OrderId request) (correlation.FromContext ctx)]).
Proof.
  intros (h1 & h2 & executed & -> & Hrun & Hret)%runs_bind_inv.
  assert (∀ a, runs (match executed with Err err => mret (Err (statusFor ctx err)) | Ok _ => mret (Ok tt) end)
    h2 a → runs (server_ReserveStock ctx request) (h1 ++ h2) a) as Hserver.
  { intros a Ha. by eapply runs_bind. }
  destruct executed as [[]|err].
  - apply runs_inv in Hret as [-> [= -> ->]]. split; [apply Hserver; constructor|]. by left.
  - apply runs_inv in Hret as [-> Heq]. injection Heq as -> ->. split; [apply Hserver; constructor|].
    unfold internal, status_code_of. case_bool_decide as Hi; [right; by exists err|by left].
Qed.

(** A caller and an operator can find each other's view of a call. The interceptors
    leave the handler's answer alone; exactly one line names the call with the code the
    caller got, as an error only if the code says this server misbehaved; and an internal
    failure, whose status tells the caller one fixed text, has one more line with its
    error and the order, under the request id that the status, if its details marshal,
    carries back. A health check logs nothing. *)
Theorem call_is_traceable {E} config m incoming request h answer lines :
  inventory_wiring_New = Ok m →
  runs (serve_call (inventory_server config m) incoming request) h (answer, lines) →
  let ctx := grpcapi_correlation.grpcapi_Correlation correlation.Background incoming in
  let id := correlation.FromContext ctx in
  runs (server_ReserveStock ctx request) h answer
  ∧ (∃ failures, lines = failures ++ [CallLine (bool_decide (status_code_of answer ∈ [Internal; Unknown; DataLoss]))
          reserveMethod (status_code_of answer) (if bool_decide (id = "") then None else Some id)]
     ∧ if internal answer
       then ∃ err st, failures = [FailureLine err (req_OrderId request) id] ∧ answer = Err st
         ∧ st_Message st = "an unexpected error occurred"
         ∧ (id ≠ "" → st_Details st ≠ [] → status_request_id st = Some id)
       else failures = [])
  ∧ serve_health (E := E) (inventory_server config m) incoming = Ret (Ok tt, []).
Proof.
  intros [= <-] Hruns. cbv zeta. unfold serve_call in Hruns. cbn [inventory_server grpcserver_NewServer gs_interceptors
    gs_services gc_UnaryInterceptors im_UnaryInterceptors im_Register chain app] in Hruns.
  rewrite bool_decide_true in Hruns by by left. unfold grpc_Logging in Hruns.
  rewrite bool_decide_false in Hruns by (intros ?%list_elem_of_singleton; discriminate).
  apply runs_bind_inv in Hruns as (h1 & h2 & [a front] & -> & Hrun & Hret).
  apply runs_inv in Hret as [-> [= -> ->]]. rewrite app_nil_r.
  apply logged_answer in Hrun as [Hserver Hwhy]. split; [exact Hserver|].
  split; [|done].
  exists front. split; [done|].
  destruct Hwhy as [[-> ->]|(err & Ha & Hi & ->)]; [done|]. rewrite Hi.
  exists err, (statusFor (grpcapi_correlation.grpcapi_Correlation correlation.Background incoming) err).
  split; [done|]. split; [done|]. rewrite Ha in Hi. apply bool_decide_eq_true in Hi.
  rewrite (statusFor_internal _ _ Hi). unfold status. destruct (marshals _); [|done].
  split; [done|]. intros Hne _. cbn. by rewrite bool_decide_false.
Qed.
End edge.

(** A database that fails at once: the call is answered as an internal error. *)
Definition sample_call : ReserveStockRequest :=
  mkReserveStockRequest "o1" ((λ line, mkProtoReservationLine (ProductSKU line) (Quantity line)) <$> sample_basket).
Definition sample_grpc_config : InventoryConfig :=
  mkInventoryConfig "test" "db" 1 0 1 ":50051" Second Second Second Second "info" (Some true).
Lemma call_is_traceable_witness :
  let h := [Call (Find "o1") (Err (Opaque "connection reset"))] in
  ∃ m st lines, inventory_wiring_New = Ok m
  ∧ runs (serve_call (inventory_server sample_grpc_config m) (Some ["r-1"]) sample_call) h (Err st, lines)
  ∧ st_Message st = "an unexpected error occurred" ∧ status_request_id st = Some "r-1"
  ∧ lines = [FailureLine (Wrap "find reservation" (Opaque "connection reset")) "o1" "r-1";
             CallLine true reserveMethod Internal (Some "r-1")].
Proof.
  intros h. set (ctx := correlation.mkContext (Some "r-1")).
  set (err := Wrap "find reservation" (Opaque "connection reset") : inventory_error).
  set (lines := [FailureLine err "o1" "r-1"; CallLine true reserveMethod Internal (Some "r-1")]).
  eexists _, (statusFor ctx err), lines. split; [reflexivity|].
  match goal with |- ?P ∧ _ => assert P as Hr end.
  { cbn [serve_call inventory_server grpcserver_NewServer gs_interceptors gs_services
      gc_UnaryInterceptors im_UnaryInterceptors im_Register chain app].
    rewrite (bool_decide_true (InventoryService_Server ∈ _)) by by left. unfold grpc_Logging.
    rewrite bool_decide_false by (intros ?%list_elem_of_singleton; discriminate).
    apply (runs_bind _ _ h [] (Err (statusFor ctx err), [FailureLine err "o1" "r-1"])); [|apply runs_ret].
    apply (runs_bind _ _ h [] (Err err)); [|apply runs_ret].
    unfold ReserveStock_Execute. change (rsc_OrderID _) with "o1". change (rsc_Lines _) with sample_basket.
    rewrite sample_canonical by reflexivity. refine (runs_vis _ _ _ _ _ _). apply runs_ret. }
  split; [exact Hr|].
  destruct (call_is_traceable (E := storeE) sample_grpc_config _ _ _ _ _ _ eq_refl Hr) as (_ & (failures & Hlines & Hwhy) & _).
  change (internal _) with true in Hwhy. destruct Hwhy as (err' & st' & -> & [= <-] & Hm & Hid).
  split; [exact Hm|]. split; [|reflexivity]. apply Hid; discriminate.
Defined.
