(* ===== verification/Lifecycle.v ===== *)
(** * Processes

    What the [bootstrap] packages are made of: the goroutine that starts and stops the
    process, the resources it owns, and the goroutines that use them meanwhile. A thread
    0 is the one [Run] is called on; any other is the event worker, the consumer or the
    handling of a request. The calls a goroutine makes as part of its work are those of
    the service ([E]) and each needs all the resources, but for those marked [Outside],
    which need none. *)
From S2P Require Import Prelude Prog Settings.

Inductive resource := Pool | InventoryConn | EventPublisher.
#[export] Instance resource_eq_dec : EqDecision resource.
Proof. solve_decision. Defined.
#[export] Instance resource_countable : Countable resource.
Proof.
  refine (inj_countable (λ r, match r with Pool => 0 | InventoryConn => 1 | EventPublisher => 2 end)
    (λ n, match n with 0 => Some Pool | 1 => Some InventoryConn | 2 => Some EventPublisher | _ => None end) _).
  by intros [].
Defined.

(** How a server comes to an end: it cannot listen, serving fails, or it was shut down. *)
Inductive server_end := ListenFailed (err : string) | ServeFailed (err : string) | ServerStopped.

(** What the [select] of [Run] finds: a signal, or that the server or consumer returned. *)
Inductive stopped (T : Type) := Signalled | Returned (ended : T).
Arguments Signalled {T}.
Arguments Returned {T} ended.

(** [ReadMachine] answers the environment and the files as [config.Load] finds them. *)
Inductive lifeE (E : Type → Type) : Type → Type :=
| ReadMachine : lifeE E machine
| NotifyContext : lifeE E unit
| StopListening : lifeE E unit
| Acquire (r : resource) : lifeE E (result string unit)
| Obtain (r : resource) : lifeE E unit
| PingContext : lifeE E (option string)
| Release (r : resource) : lifeE E (option string)
| GoServer : lifeE E unit
| GoWorker : lifeE E unit
| StopWorker : lifeE E unit
| AwaitServer : lifeE E (stopped server_end)
| AwaitConsumer : lifeE E (stopped (option string))
| DrainServer (timeout : Z) : lifeE E (option string)
| CloseServer : lifeE E (option string)
| WaitWorker (timeout : Z) : lifeE E bool
| WaitHandlers (timeout : Z) : lifeE E bool
| WorkerStarted : lifeE E unit
| WorkerDone : lifeE E unit
| ConsumerStarted : lifeE E unit
| RequestStart : lifeE E unit
| DeliveryStart : lifeE E unit
| CtxErr : lifeE E bool
| HandlerEnd : lifeE E unit
| ConsumerReturned : lifeE E unit
| ByWorker {R} (e : E R) : lifeE E R
| ByHandler {R} (e : E R) : lifeE E R
| Outside {R} (e : E R) : lifeE E R.
Arguments ReadMachine {E}.
Arguments NotifyContext {E}.
Arguments StopListening {E}.
Arguments Acquire {E} r.
Arguments Obtain {E} r.
Arguments PingContext {E}.
Arguments Release {E} r.
Arguments GoServer {E}.
Arguments GoWorker {E}.
Arguments StopWorker {E}.
Arguments AwaitServer {E}.
Arguments AwaitConsumer {E}.
Arguments DrainServer {E} timeout.
Arguments CloseServer {E}.
Arguments WaitWorker {E} timeout.
Arguments WaitHandlers {E} timeout.
Arguments WorkerStarted {E}.
Arguments WorkerDone {E}.
Arguments ConsumerStarted {E}.
Arguments RequestStart {E}.
Arguments DeliveryStart {E}.
Arguments CtxErr {E}.
Arguments HandlerEnd {E}.
Arguments ConsumerReturned {E}.
Arguments ByWorker {E R} e.
Arguments ByHandler {E R} e.
Arguments Outside {E R} e.

(** The process: what is open, the signal handling, which goroutines run, who is handling
    something and who of those uses the resources, and what was given up: handlers that
    were still using them, or the cleanup. The deliveries the consumer took are numbered;
    a piece of work is a goroutine with the number of the last delivery, which tells the
    consumer's apart. The misuses are calls that needed what was not open, those of
    handlers with the piece of work they were part of. *)
Record life := mkLife {
  lf_open : gset resource;
  lf_listening : bool;
  lf_signalled : bool;
  lf_serving : bool;
  lf_worker : bool;
  lf_worker_done : bool;
  lf_consumer_returned : bool;
  lf_handlers : gset nat;
  lf_using : gset nat;
  lf_taken : nat;
  lf_abandoned : bool;
  lf_given_up : gset (nat * nat);
  lf_skipped : bool;
  lf_misused_by_worker : bool;
  lf_misused_by_handler : bool;
  lf_misused_in : gset (nat * nat);
}.
Definition with_open o w := mkLife o (lf_listening w) (lf_signalled w) (lf_serving w) (lf_worker w)
  (lf_worker_done w) (lf_consumer_returned w) (lf_handlers w) (lf_using w) (lf_taken w) (lf_abandoned w)
  (lf_given_up w) (lf_skipped w) (lf_misused_by_worker w) (lf_misused_by_handler w) (lf_misused_in w).
(** The stop function of [signal.NotifyContext] also cancels its context. *)
Definition with_signals listening signalled w := mkLife (lf_open w) listening signalled (lf_serving w) (lf_worker w)
  (lf_worker_done w) (lf_consumer_returned w) (lf_handlers w) (lf_using w) (lf_taken w) (lf_abandoned w)
  (lf_given_up w) (lf_skipped w) (lf_misused_by_worker w) (lf_misused_by_handler w) (lf_misused_in w).
Definition with_serving serving w := mkLife (lf_open w) (lf_listening w) (lf_signalled w) serving (lf_worker w)
  (lf_worker_done w) (lf_consumer_returned w) (lf_handlers w) (lf_using w) (lf_taken w) (lf_abandoned w)
  (lf_given_up w) (lf_skipped w) (lf_misused_by_worker w) (lf_misused_by_handler w) (lf_misused_in w).
Definition with_worker worker finished w := mkLife (lf_open w) (lf_listening w) (lf_signalled w) (lf_serving w)
  worker finished (lf_consumer_returned w) (lf_handlers w) (lf_using w) (lf_taken w) (lf_abandoned w)
  (lf_given_up w) (lf_skipped w) (lf_misused_by_worker w) (lf_misused_by_handler w) (lf_misused_in w).
Definition with_consumer returned w := mkLife (lf_open w) (lf_listening w) (lf_signalled w) (lf_serving w)
  (lf_worker w) (lf_worker_done w) returned (lf_handlers w) (lf_using w) (lf_taken w) (lf_abandoned w)
  (lf_given_up w) (lf_skipped w) (lf_misused_by_worker w) (lf_misused_by_handler w) (lf_misused_in w).
Definition with_handlers handlers users w := mkLife (lf_open w) (lf_listening w) (lf_signalled w) (lf_serving w)
  (lf_worker w) (lf_worker_done w) (lf_consumer_returned w) handlers users (lf_taken w) (lf_abandoned w)
  (lf_given_up w) (lf_skipped w) (lf_misused_by_worker w) (lf_misused_by_handler w) (lf_misused_in w).
Definition with_taken taken w := mkLife (lf_open w) (lf_listening w) (lf_signalled w) (lf_serving w)
  (lf_worker w) (lf_worker_done w) (lf_consumer_returned w) (lf_handlers w) (lf_using w) taken (lf_abandoned w)
  (lf_given_up w) (lf_skipped w) (lf_misused_by_worker w) (lf_misused_by_handler w) (lf_misused_in w).
Definition with_skipped w := mkLife (lf_open w) (lf_listening w) (lf_signalled w) (lf_serving w)
  (lf_worker w) (lf_worker_done w) (lf_consumer_returned w) (lf_handlers w) (lf_using w) (lf_taken w) (lf_abandoned w)
  (lf_given_up w) true (lf_misused_by_worker w) (lf_misused_by_handler w) (lf_misused_in w).
Definition with_misuse by_worker by_handler works w := mkLife (lf_open w) (lf_listening w) (lf_signalled w)
  (lf_serving w) (lf_worker w) (lf_worker_done w) (lf_consumer_returned w) (lf_handlers w) (lf_using w) (lf_taken w)
  (lf_abandoned w) (lf_given_up w) (lf_skipped w) by_worker by_handler works.

(** The pieces of work that are using the resources. *)
Definition works_in_hand (w : life) : gset (nat * nat) := set_map (λ i, (i, lf_taken w)) (lf_using w).
(** Go on although handlers may still be using the resources. *)
Definition abandon (w : life) : life :=
  mkLife (lf_open w) (lf_listening w) (lf_signalled w) (lf_serving w)
    (lf_worker w) (lf_worker_done w) (lf_consumer_returned w) (lf_handlers w) (lf_using w) (lf_taken w)
    (lf_abandoned w || negb (bool_decide (lf_using w = ∅))) (lf_given_up w ∪ works_in_hand w) (lf_skipped w)
    (lf_misused_by_worker w) (lf_misused_by_handler w) (lf_misused_in w).

Section life.
Context {E : Type → Type} (needs : gset resource).

Definition missing_resource (w : life) : bool := negb (bool_decide (needs ⊆ lf_open w)).

(** One call of thread [i]; a call that waits is possible only when what it waits for
    holds. *)
Definition life_step (i : nat) R (e : lifeE E R) (w : life) (r : R) (w' : life) : Prop :=
  match e in lifeE _ R return R → Prop with
  | ReadMachine | PingContext | StopWorker => λ _, i = 0 ∧ w' = w
  | NotifyContext => λ _, i = 0 ∧ w' = with_signals true (lf_signalled w) w
  | StopListening => λ _, i = 0 ∧ w' = with_signals false true w
  | Acquire x => λ r, i = 0 ∧ w' = if is_ok r then with_open ({[ x ]} ∪ lf_open w) w else w
  | Obtain x => λ _, i = 0 ∧ w' = with_open ({[ x ]} ∪ lf_open w) w
  | Release x => λ _, i = 0 ∧ w' = with_open (lf_open w ∖ {[ x ]}) w
  | GoServer => λ _, i = 0 ∧ w' = with_serving true w
  | GoWorker => λ _, i = 0 ∧ w' = with_worker true (lf_worker_done w) w
  | AwaitServer => λ r, i = 0 ∧ match r with
      | Signalled => lf_signalled w = true ∧ w' = w
      | Returned ended => ended ≠ ServerStopped ∧ w' = abandon (with_serving false w)
      end
  | AwaitConsumer => λ r, i = 0 ∧ w' = w ∧ match r with
      | Signalled => lf_signalled w = true
      | Returned _ => lf_consumer_returned w = true
      end
  | DrainServer _ => λ r, i = 0 ∧ match r with
      | None => lf_handlers w = ∅ ∧ w' = with_serving false w
      | Some _ => w' = abandon (with_serving false w)
      end
  | CloseServer => λ _, i = 0 ∧ w' = with_serving false w
  | WaitWorker _ => λ r, i = 0 ∧ if r : bool then lf_worker_done w = true ∧ w' = w
                                 else w' = with_skipped w
  | WaitHandlers _ => λ r, i = 0 ∧ if r : bool then lf_handlers w = ∅ ∧ w' = w else w' = abandon w
  | WorkerStarted => λ _, i = 1 ∧ lf_worker w = true ∧ w' = w
  | WorkerDone => λ _, i = 1 ∧ w' = with_worker (lf_worker w) true w
  | ConsumerStarted => λ _, i = 1 ∧ lf_serving w = true ∧ w' = w
  | RequestStart => λ _, i ≠ 0 ∧ lf_serving w = true
      ∧ w' = with_handlers ({[ i ]} ∪ lf_handlers w) ({[ i ]} ∪ lf_using w) w
  | DeliveryStart => λ _, i = 1
      ∧ w' = with_taken (S (lf_taken w)) (with_handlers ({[ i ]} ∪ lf_handlers w) (lf_using w) w)
  | CtxErr => λ r, i = 1 ∧ r = lf_signalled w
      ∧ w' = if r then w else with_handlers (lf_handlers w) ({[ i ]} ∪ lf_using w) w
  | HandlerEnd => λ _, i ≠ 0 ∧ w' = with_handlers (lf_handlers w ∖ {[ i ]}) (lf_using w ∖ {[ i ]}) w
  | ConsumerReturned => λ _, i = 1 ∧ w' = with_consumer true w
  | ByWorker _ => λ _, i = 1
      ∧ w' = with_misuse (lf_misused_by_worker w || missing_resource w) (lf_misused_by_handler w) (lf_misused_in w) w
  | ByHandler _ => λ _, i ≠ 0
      ∧ w' = with_misuse (lf_misused_by_worker w) (lf_misused_by_handler w || missing_resource w)
               (lf_misused_in w ∪ if missing_resource w then {[ (i, lf_taken w) ]} else ∅) w
  | Outside _ => λ _, i ≠ 0 ∧ w' = w
  end r.

(** A signal arrives while the process listens for it. *)
Definition life_env (w w' : life) : Prop := lf_listening w = true ∧ w' = with_signals true true w.

(** A delivery may begin to use the resources, or a request ([by_request]) to be handled. *)
Context (by_request : bool).
Definition can_start (w : life) : Prop :=
  lf_serving w = true
  ∧ (by_request = true ∨ lf_signalled w = false ∧ lf_consumer_returned w = false).

(** Everything a running goroutine needs is open, unless handlers were given up. *)
Record life_inv (w : life) : Prop := {
  li_worker : lf_worker w = true → lf_worker_done w = false → needs ⊆ lf_open w;
  li_worker_use : lf_misused_by_worker w = false;
  li_using : lf_abandoned w = false → lf_using w ≠ ∅ ∨ can_start w → needs ⊆ lf_open w;
  li_handler_use : lf_misused_by_handler w = true → lf_abandoned w = true;
  li_handlers : lf_using w ⊆ lf_handlers w;
  li_consumer : by_request = false →
    lf_using w ⊆ {[ 1 ]} ∧ (lf_consumer_returned w = true → lf_using w = ∅);
  li_given_up : lf_abandoned w = true →
    ¬ can_start w ∧ ∀ i, i ∈ lf_using w → (i, lf_taken w) ∈ lf_given_up w;
  li_misused_in : lf_misused_in w ⊆ lf_given_up w;
}.

(** What thread [i] can rely on of the others. *)
Record life_rely (i : nat) (w w' : life) : Prop := {
  lr_handlers : i ∈ lf_handlers w ↔ i ∈ lf_handlers w';
  lr_using : i ∈ lf_using w ↔ i ∈ lf_using w';
  lr_abandoned : lf_abandoned w = true → lf_abandoned w' = true;
  lr_signalled : lf_signalled w = true → lf_signalled w' = true;
  lr_worker : lf_worker w = true → lf_worker w' = true;
  lr_worker_done : lf_worker_done w = true → lf_worker_done w' = true;
  lr_returned : lf_consumer_returned w = true → lf_consumer_returned w' = true;
  lr_serving : by_request = false → lf_serving w = true → lf_serving w' = true;
  lr_main : i = 0 → lf_open w' = lf_open w ∧ lf_listening w' = lf_listening w
    ∧ lf_serving w' = lf_serving w ∧ lf_worker w' = lf_worker w ∧ lf_skipped w' = lf_skipped w
    ∧ lf_abandoned w' = lf_abandoned w
    ∧ (¬ can_start w → lf_using w' ⊆ lf_using w);
  lr_first : i = 1 → lf_worker_done w' = lf_worker_done w
    ∧ lf_consumer_returned w' = lf_consumer_returned w ∧ lf_taken w' = lf_taken w;
}.
Definition life_guar (i : nat) (w w' : life) : Prop := ∀ j, j ≠ i → life_rely j w w'.

#[export] Instance life_rely_preorder i : PreOrder (life_rely i).
Proof.
  split.
  - intros w. by split.
  - intros w1 w2 w3 H1 H2. split; try (etransitivity; [apply H1|apply H2]);
      try (intros H; by apply H2, H1).
    + intros Hby Hs. by apply H2, H1.
    + intros ->. destruct (lr_main _ _ _ H1 eq_refl) as (E1 & E2 & E3 & E4 & E5 & E6 & E7).
      destruct (lr_main _ _ _ H2 eq_refl) as (F1 & F2 & F3 & F4 & F5 & F6 & F7).
      split_and!; try congruence. intros Hno. etransitivity; [apply F7|by apply E7].
      intros [Hs Hwhy]. apply Hno. split; [congruence|]. destruct Hwhy as [?|[Hsig Hret]]; [by left|right].
      split; [destruct (lf_signalled w1) eqn:Hs1|destruct (lf_consumer_returned w1) eqn:Hs1]; try done.
      * by rewrite (lr_signalled _ _ _ H1 Hs1) in Hsig.
      * by rewrite (lr_returned _ _ _ H1 Hs1) in Hret.
    + intros ->. destruct (lr_first _ _ _ H1 eq_refl) as (? & ? & ?), (lr_first _ _ _ H2 eq_refl) as (? & ? & ?).
      split_and!; congruence.
Qed.

Abbreviation life_wp i p Q w := (wp life_step life_inv life_rely life_guar i p Q w).

Lemma life_wp_call {A R} i (e : lifeE E R) (k : R → prog (lifeE E) A) Q w :
  (∀ w1, life_rely i w w1 → life_inv w1 → ∀ r w2, life_step i R e w1 r w2 →
     life_inv w2 ∧ life_guar i w1 w2 ∧ life_wp i (k r) Q w2) →
  life_wp i (trigger e ≫= k) Q w.
Proof. intros H. by apply wp_vis. Qed.
Lemma life_wp_ret {A} i (a : A) (Q : A → life → Prop) w :
  (∀ w1, life_rely i w w1 → life_inv w1 → Q a w1) → life_wp i (Ret a) Q w.
Proof. intros HQ. by apply wp_ret. Qed.

Lemma start_less w w' :
  (lf_serving w' = true → lf_serving w = true) → (lf_signalled w' = false → lf_signalled w = false) →
  (lf_consumer_returned w' = false → lf_consumer_returned w = false) → can_start w' → can_start w.
Proof. intros H1 H2 H3 [Hs Hwhy]. split; [auto|]. destruct Hwhy as [?|[? ?]]; auto. Qed.

(** A step that moves only what its thread alone moves. *)
Ltac rely_step := split; cbn; try done; intros; split_and?; first [done | congruence].

Lemma env_rely i w w' : life_env w w' → life_rely i w w'.
Proof. intros [Hl ->]. rely_step. Qed.
Lemma signals_inv listening w : life_inv w → life_inv (with_signals listening true w).
Proof.
  intros [H1 H2 H3 H4 H5 H6 H7 H8].
  assert (can_start (with_signals listening true w) → can_start w) as Hless by (by apply start_less).
  split; cbn; try done; naive_solver.
Qed.
Lemma env_inv w w' : life_inv w → life_env w w' → life_inv w'.
Proof.
  intros Hi [_ ->]. by apply signals_inv.
Qed.

(** ** The goroutines *)

(** Work on the resources by the event worker, whatever its calls answer. *)
Lemma worker_wp {A} (p : prog E A) (Q : A → life → Prop) w :
  lf_worker w = true → lf_worker_done w = false →
  (∀ a w', lf_worker w' = true → lf_worker_done w' = false → Q a w') →
  life_wp 1 (embed (@ByWorker E) p) Q w.
Proof.
  intros Hw Hd HQ. revert w Hw Hd. induction p as [a|R e k IH]; intros w Hw Hd; cbn [embed].
  - apply life_wp_ret. intros w1 Hr _. destruct (lr_first _ _ _ Hr eq_refl) as (E1 & _).
    apply HQ; [by apply (lr_worker _ _ _ Hr)|congruence].
  - intros w1 Hr Hi r w2 [_ ->]. destruct (lr_first _ _ _ Hr eq_refl) as (E1 & _).
    pose proof (lr_worker _ _ _ Hr Hw) as Hw1. assert (lf_worker_done w1 = false) as Hd1 by congruence.
    pose proof (li_worker _ Hi Hw1 Hd1) as Hneeds. destruct Hi as [H1 H2 H3 H4 H5 H6 H7 H8].
    split_and!.
    + split; cbn; try done. unfold missing_resource. by rewrite H2, bool_decide_true.
    + intros ??. rely_step.
    + by apply IH.
Qed.

(** Handling a request, or a delivery whose context was seen alive. *)
Lemma handler_wp {A} i (p : prog E A) (Q : A → life → Prop) w :
  i ≠ 0 → i ∈ lf_using w →
  (∀ a w', life_rely i w w' → Q a w') →
  life_wp i (embed (@ByHandler E) p) Q w.
Proof.
  intros Hi0. revert w. induction p as [a|R e k IH]; intros w Hu HQ; cbn [embed].
  - apply life_wp_ret. auto.
  - intros w1 Hr Hi r w2 [_ ->]. pose proof (proj1 (lr_using _ _ _ Hr) Hu) as Hu1.
    destruct Hi as [H1 H2 H3 H4 H5 H6 H7 H8].
    assert (missing_resource w1 = true → lf_abandoned w1 = true) as Hmiss.
    { intros Hm. destruct (lf_abandoned w1) eqn:Hab; [done|]. unfold missing_resource in Hm.
      rewrite bool_decide_true in Hm; [done|]. apply H3; [done|]. left. set_solver. }
    split_and!.
    + split; cbn; try done; [intros [?|?]%orb_true_iff; auto|].
      destruct (missing_resource w1); [|set_solver].
      destruct (H7 (Hmiss eq_refl)) as [_ Hgiven]. specialize (Hgiven i Hu1). set_solver.
    + intros ??. rely_step.
    + apply IH; [done|]. intros a w' Hr'. apply HQ. etransitivity; [exact Hr|].
      etransitivity; [|exact Hr']. rely_step.
Qed.

(** The goroutine of the event worker and of a request. They have no result. *)
Definition worker_thread {A} (p : prog E A) : prog (lifeE E) (option string) :=
  _ ← trigger WorkerStarted; _ ← embed (@ByWorker E) p; _ ← trigger WorkerDone; Ret None.
Definition request_thread {A} (p : prog E A) : prog (lifeE E) (option string) :=
  _ ← trigger RequestStart; _ ← embed (@ByHandler E) p; _ ← trigger HandlerEnd; Ret None.

Lemma life_wp_done {A} i (a : A) w : life_wp i (Ret a) (λ _ _, True) w.
Proof. by apply life_wp_ret. Qed.

(** Only the main goroutine opens and closes. *)
Lemma handlers_guar i w handlers users :
  i ≠ 0 → (∀ j, j ≠ i → j ∈ lf_handlers w ↔ j ∈ handlers) → (∀ j, j ≠ i → j ∈ lf_using w ↔ j ∈ users) →
  (¬ can_start w → users ⊆ lf_using w) →
  life_guar i w (with_handlers handlers users w).
Proof.
  intros Hi Hh Hu Hno j Hj. split; cbn; try done; [by apply Hh|by apply Hu|by intros..].
Qed.

Definition handler_ended (i : nat) (w : life) : life :=
  with_handlers (lf_handlers w ∖ {[ i ]}) (lf_using w ∖ {[ i ]}) w.

Lemma handler_end_wp {A} i (k : prog (lifeE E) A) (Q : A → life → Prop) w :
  i ≠ 0 → (∀ w', life_rely i w w' → life_wp i k Q (handler_ended i w')) →
  life_wp i (_ ← trigger HandlerEnd; k) Q w.
Proof.
  intros Hi Hk. apply life_wp_call. intros w1 Hr Hinv r w2 [_ ->]. split_and!; [..|by apply Hk].
  - destruct Hinv as [H1 H2 H3 H4 H5 H6 H7 H8]. split; cbn; try done; [|set_solver| |].
    + intros Hab Hwhy. apply H3; [done|]. destruct Hwhy as [Hne|Hs]; [left; set_solver|by right].
    + intros Hby. destruct (H6 Hby) as [Hone Hret]. split; [set_solver|]. intros ?%Hret. set_solver.
    + intros [Hno Hgiven]%H7. split; [done|]. set_solver.
  - apply handlers_guar; [done|set_solver..].
Qed.

Lemma worker_thread_wp {A} (p : prog E A) w :
  lf_worker_done w = false → life_wp 1 (worker_thread p) (λ _ _, True) w.
Proof.
  intros Hd. apply life_wp_call. intros w1 Hr Hi r w2 (_ & Hw & ->).
  destruct (lr_first _ _ _ Hr eq_refl) as (E1 & _). split_and!; [done|by intros ??|].
  apply wp_bind; [apply _|]. apply worker_wp; [done|congruence|]. intros a w3 Hw3 Hd3.
  apply life_wp_call. intros w4 Hr4 [H1 H2 H3 H4 H5 H6 H7 H8] r4 w5 [_ ->]. split_and!.
  - by split.
  - intros ??. rely_step.
  - apply life_wp_done.
Qed.

Lemma request_thread_wp {A} i (p : prog E A) w :
  i ≠ 0 → by_request = true → life_wp i (request_thread p) (λ _ _, True) w.
Proof.
  intros Hi0 Hby. apply life_wp_call. intros w1 Hr Hi r w2 (_ & Hs & ->). split_and!.
  - destruct Hi as [H1 H2 H3 H4 H5 H6 H7 H8]. split; cbn; try done; [|set_solver|congruence|].
    + intros Hab _. apply H3; [done|]. right. split; [done|by left].
    + intros [Hno _]%H7. destruct Hno. split; [done|by left].
  - apply handlers_guar; [done|set_solver..|].
    intros Hno. destruct Hno. split; [done|by left].
  - apply wp_bind; [apply _|]. apply handler_wp; [done|cbn; set_solver|]. intros a w3 _.
    apply handler_end_wp; [done|]. intros. apply life_wp_done.
Qed.

(** *** The goroutine of the consumer *)

(** Where it is: in a delivery it took, and there past the look at its context. *)
Record consumer_at (taken begun : bool) (w : life) : Prop := {
  ca_serving : lf_serving w = true;
  ca_returned : lf_consumer_returned w = false;
  ca_taken : taken = true → 1 ∈ lf_handlers w;
  ca_begun : 1 ∈ lf_using w ↔ begun = true;
}.
Lemma consumer_at_rely taken begun w w' :
  by_request = false → life_rely 1 w w' → consumer_at taken begun w → consumer_at taken begun w'.
Proof.
  intros Hby Hr [H1 H2 H3 H4]. destruct (lr_first _ _ _ Hr eq_refl) as (_ & E2 & _). split.
  - by apply (lr_serving _ _ _ Hr).
  - congruence.
  - intros ?%H3. by apply (lr_handlers _ _ _ Hr).
  - by rewrite <-(lr_using _ _ _ Hr).
Qed.

Section consumer.
Context (Hby : by_request = false).

Lemma outside_wp {A R} (e : E R) (k : R → prog (lifeE E) A) taken begun Q w :
  consumer_at taken begun w → (∀ r w', consumer_at taken begun w' → life_wp 1 (k r) Q w') →
  life_wp 1 (trigger (Outside e) ≫= k) Q w.
Proof.
  intros Hat Hk. apply life_wp_call. intros w1 Hr Hi r w2 [_ ->]. apply (consumer_at_rely _ _ _ _ Hby Hr) in Hat.
  split_and!; [done|by intros ??|by apply Hk].
Qed.
Lemma consumer_started_wp {A} (k : unit → prog (lifeE E) A) Q w :
  lf_consumer_returned w = false → 1 ∉ lf_using w →
  (∀ w', consumer_at false false w' → life_wp 1 (k tt) Q w') →
  life_wp 1 (trigger ConsumerStarted ≫= k) Q w.
Proof.
  intros Hret Hu Hk. apply life_wp_call. intros w1 Hr Hi [] w2 (_ & Hs & ->).
  destruct (lr_first _ _ _ Hr eq_refl) as (_ & E2 & _). rewrite (lr_using _ _ _ Hr) in Hu.
  split_and!; [done|by intros ??|]. apply Hk. split; [done|congruence|done|]. split; [done|discriminate].
Qed.
Lemma delivery_start_wp {A} (k : unit → prog (lifeE E) A) Q w :
  consumer_at false false w → (∀ w', consumer_at true false w' → life_wp 1 (k tt) Q w') →
  life_wp 1 (trigger DeliveryStart ≫= k) Q w.
Proof.
  intros Hat Hk. apply life_wp_call. intros w1 Hr Hi [] w2 [_ ->]. apply (consumer_at_rely _ _ _ _ Hby Hr) in Hat.
  destruct Hat as [A1 A2 _ A4]. destruct Hi as [H1 H2 H3 H4 H5 H6 H7 H8]. destruct (H6 Hby) as [Hone _].
  assert (1 ∉ lf_using w1) as Hu by (rewrite A4; discriminate). split_and!.
  - split; cbn; try done; [set_solver|]. intros Hab. split; [by apply H7|]. set_solver.
  - intros j Hj. split; cbn; try done. set_solver.
  - apply Hk. split; cbn; [done..|set_solver|done].
Qed.
Lemma ctx_err_wp {A} (k : bool → prog (lifeE E) A) Q w :
  consumer_at true false w → (∀ w', consumer_at true false w' → life_wp 1 (k true) Q w') →
  (∀ w', consumer_at true true w' → life_wp 1 (k false) Q w') →
  life_wp 1 (trigger CtxErr ≫= k) Q w.
Proof.
  intros Hat Hyes Hno. apply life_wp_call. intros w1 Hr Hi c w2 (_ & -> & ->).
  apply (consumer_at_rely _ _ _ _ Hby Hr) in Hat. destruct (lf_signalled w1) eqn:Hsig.
  - split_and!; [done|by intros ??|by apply Hyes].
  - destruct Hat as [A1 A2 A3 A4]. assert (can_start w1) as Hcan by (split; [done|by right]).
    destruct Hi as [H1 H2 H3 H4 H5 H6 H7 H8]. split_and!.
    + split; cbn; try done; [auto|set_solver|intros _; destruct (H6 Hby); split; [set_solver|congruence]|].
      intros ?%H7. naive_solver.
    + apply handlers_guar; [done|set_solver..|done].
    + apply Hno. split; cbn; [done..|]. set_solver.
Qed.
Lemma work_wp {A} (p : prog E A) (Q : A → life → Prop) w :
  consumer_at true true w → (∀ a w', consumer_at true true w' → Q a w') →
  life_wp 1 (embed (@ByHandler E) p) Q w.
Proof.
  intros Hat HQ. apply handler_wp; [done|by apply Hat|]. intros a w' Hr.
  by apply HQ, (consumer_at_rely _ _ _ _ Hby Hr).
Qed.
Lemma delivery_end_wp {A} (k : prog (lifeE E) A) taken begun Q w :
  consumer_at taken begun w → (∀ w', consumer_at false false w' → life_wp 1 k Q w') →
  life_wp 1 (_ ← trigger HandlerEnd; k) Q w.
Proof.
  intros Hat Hk. apply handler_end_wp; [done|]. intros w' Hr. apply (consumer_at_rely _ _ _ _ Hby Hr) in Hat as [A1 A2 _ _].
  apply Hk. split; cbn; [done..|]. set_solver.
Qed.
Lemma consumer_returned_wp {A} (k : unit → prog (lifeE E) A) (Q : A → life → Prop) w :
  consumer_at false false w → (∀ w', life_wp 1 (k tt) Q w') →
  life_wp 1 (trigger ConsumerReturned ≫= k) Q w.
Proof.
  intros Hat Hk. apply life_wp_call. intros w1 Hr [H1 H2 H3 H4 H5 H6 H7 H8] [] w2 [_ ->].
  apply (consumer_at_rely _ _ _ _ Hby Hr) in Hat as [A1 A2 _ A4].
  assert (1 ∉ lf_using w1) as Hu by (rewrite A4; discriminate). destruct (H6 Hby) as [Hone _]. split_and!; [|by intros ??; rely_step|by apply Hk].
  split; cbn; try done.
  - intros Hab [?|[_ [?|[_ ?]]]]; [auto|congruence|done].
  - intros _. split; [done|set_solver].
  - intros Hab. split; [|by apply H7]. intros [_ [?|[_ ?]]]; [congruence|done].
Qed.
End consumer.

(** ** The main goroutine *)

(** What it knows: only it opens, starts and gives up. *)
Record at_main (o : gset resource) (serving worker skipped abandoned : bool) (w : life) : Prop := {
  am_open : lf_open w = o;
  am_serving : lf_serving w = serving;
  am_worker : lf_worker w = worker;
  am_skipped : lf_skipped w = skipped;
  am_abandoned : lf_abandoned w = abandoned;
}.
Lemma at_main_rely o s wk sk ab w w' :
  life_rely 0 w w' → at_main o s wk sk ab w → at_main o s wk sk ab w'.
Proof.
  intros Hr [E1 E2 E3 E4 E5]. destruct (lr_main _ _ _ Hr eq_refl) as (F1 & F2 & F3 & F4 & F5 & F6 & F7).
  split; congruence.
Qed.

(** Nothing uses the resources and nothing will. *)
Definition quiet (w : life) : Prop := lf_using w = ∅ ∧ ¬ can_start w.
Lemma can_start_rely w w' : life_rely 0 w w' → can_start w' → can_start w.
Proof.
  intros Hr [Hs Hwhy]. destruct (lr_main _ _ _ Hr eq_refl) as (_ & _ & F3 & _).
  split; [congruence|]. destruct Hwhy as [?|[Hsig Hret]]; [by left|right].
  split; [destruct (lf_signalled w) eqn:H|destruct (lf_consumer_returned w) eqn:H]; try done.
  - by rewrite (lr_signalled _ _ _ Hr H) in Hsig.
  - by rewrite (lr_returned _ _ _ Hr H) in Hret.
Qed.
Lemma quiet_rely w w' : life_rely 0 w w' → quiet w → quiet w'.
Proof.
  intros Hr [Hu Hno]. destruct (lr_main _ _ _ Hr eq_refl) as (_ & _ & _ & _ & _ & _ & F7).
  split; [specialize (F7 Hno); set_solver|]. by intros ?%(can_start_rely _ _ Hr).
Qed.

(** The resources may be closed: the worker has stopped, and the handlers too unless they
    were given up. *)
Record releasable (w : life) : Prop := {
  re_worker : lf_worker w = true → lf_worker_done w = true;
  re_handlers : lf_abandoned w = true ∨ quiet w;
}.
Lemma releasable_rely w w' : life_rely 0 w w' → releasable w → releasable w'.
Proof.
  intros Hr [Hw Hh]. destruct (lr_main _ _ _ Hr eq_refl) as (_ & _ & _ & F4 & _).
  split; [rewrite F4; intros ?; by apply (lr_worker_done _ _ _ Hr), Hw|].
  destruct Hh as [Hab|Hq]; [left; by apply (lr_abandoned _ _ _ Hr)|right; by eapply quiet_rely].
Qed.

(** A call of the main goroutine that changes nothing. *)
Lemma main_read {A R} (e : lifeE E R) (k : R → prog (lifeE E) A) Q w :
  (∀ w1 r w2, life_step 0 R e w1 r w2 → w2 = w1) →
  (∀ r w', life_rely 0 w w' → life_wp 0 (k r) Q w') →
  life_wp 0 (trigger e ≫= k) Q w.
Proof.
  intros He Hk. apply life_wp_call. intros w1 Hr Hi r w2 Hstep. apply He in Hstep as ->.
  split_and!; [done|by intros ??|by apply Hk].
Qed.

Lemma main_stop_listening {A} (k : unit → prog (lifeE E) A) Q w :
  (∀ w', life_rely 0 w w' → life_wp 0 (k tt) Q (with_signals false true w')) →
  life_wp 0 (trigger StopListening ≫= k) Q w.
Proof.
  intros Hk. apply life_wp_call. intros w1 Hr Hi [] w2 [_ ->].
  split_and!; [by apply signals_inv|intros ??; rely_step|by apply Hk].
Qed.
Lemma main_notify {A} (k : unit → prog (lifeE E) A) Q w :
  (∀ w', life_rely 0 w w' → life_wp 0 (k tt) Q (with_signals true (lf_signalled w') w')) →
  life_wp 0 (trigger NotifyContext ≫= k) Q w.
Proof.
  intros Hk. apply life_wp_call. intros w1 Hr [H1 H2 H3 H4 H5 H6 H7 H8] [] w2 [_ ->].
  split_and!; [by split|intros ??; rely_step|by apply Hk].
Qed.

Lemma open_more_inv x w : life_inv w → life_inv (with_open ({[ x ]} ∪ lf_open w) w).
Proof.
  intros [H1 H2 H3 H4 H5 H6 H7 H8]. split; cbn; try done.
  - intros Hw Hd. specialize (H1 Hw Hd). set_solver.
  - intros Hab Hwhy. specialize (H3 Hab Hwhy). set_solver.
Qed.
Lemma main_acquire {A} x (k : result string unit → prog (lifeE E) A) Q w :
  (∀ e w', life_rely 0 w w' → life_wp 0 (k (Err e)) Q w') →
  (∀ w', life_rely 0 w w' → life_wp 0 (k (Ok tt)) Q (with_open ({[ x ]} ∪ lf_open w') w')) →
  life_wp 0 (trigger (Acquire x) ≫= k) Q w.
Proof.
  intros Herr Hok. apply life_wp_call. intros w1 Hr Hi r w2 [_ Hw2].
  destruct r as [[]|e]; cbn in Hw2; subst w2.
  - split_and!; [by apply open_more_inv|intros ??; rely_step|by apply Hok].
  - split_and!; [done|by intros ??|by apply Herr].
Qed.
Lemma main_obtain {A} x (k : unit → prog (lifeE E) A) Q w :
  (∀ w', life_rely 0 w w' → life_wp 0 (k tt) Q (with_open ({[ x ]} ∪ lf_open w') w')) →
  life_wp 0 (trigger (Obtain x) ≫= k) Q w.
Proof.
  intros Hok. apply life_wp_call. intros w1 Hr Hi [] w2 [_ ->].
  split_and!; [by apply open_more_inv|intros ??; rely_step|by apply Hok].
Qed.

Lemma close_inv o w : life_inv w → releasable w → life_inv (with_open o w).
Proof.
  intros [H1 H2 H3 H4 H5 H6 H7 H8] [Hw Hh]. split; cbn; try done.
  - intros ?%Hw. congruence.
  - intros Hab [Hu|Hs]; destruct Hh as [?|[Hu' Hno]]; first [congruence | by destruct (Hu Hu') | by destruct (Hno Hs)].
Qed.
Lemma main_release {A} x (k : option string → prog (lifeE E) A) Q w :
  releasable w →
  (∀ r w', life_rely 0 w w' → life_wp 0 (k r) Q (with_open (lf_open w' ∖ {[ x ]}) w')) →
  life_wp 0 (trigger (Release x) ≫= k) Q w.
Proof.
  intros Hre Hk. apply life_wp_call. intros w1 Hr Hi r w2 [_ ->].
  split_and!; [apply close_inv; [done|by eapply releasable_rely]|intros ??; rely_step|by apply Hk].
Qed.

Lemma main_go_worker {A} (k : unit → prog (lifeE E) A) Q w :
  needs ⊆ lf_open w →
  (∀ w', life_rely 0 w w' → life_wp 0 (k tt) Q (with_worker true (lf_worker_done w') w')) →
  life_wp 0 (trigger GoWorker ≫= k) Q w.
Proof.
  intros Hopen Hk. apply life_wp_call. intros w1 Hr [H1 H2 H3 H4 H5 H6 H7 H8] [] w2 [_ ->].
  destruct (lr_main _ _ _ Hr eq_refl) as (F1 & _).
  split_and!; [split; cbn; try done; intros; by rewrite F1|intros ??; rely_step|by apply Hk].
Qed.
Lemma main_go_server {A} (k : unit → prog (lifeE E) A) Q w :
  needs ⊆ lf_open w → lf_abandoned w = false →
  (∀ w', life_rely 0 w w' → life_wp 0 (k tt) Q (with_serving true w')) →
  life_wp 0 (trigger GoServer ≫= k) Q w.
Proof.
  intros Hopen Hab Hk. apply life_wp_call. intros w1 Hr [H1 H2 H3 H4 H5 H6 H7 H8] [] w2 [_ ->].
  destruct (lr_main _ _ _ Hr eq_refl) as (F1 & _ & _ & _ & _ & F6 & _).
  split_and!; [split; cbn; try done; intros; first [by rewrite F1|congruence]|intros ??; rely_step|by apply Hk].
Qed.
(** *** Stopping *)

Definition settled (w : life) : Prop := lf_abandoned w = true ∨ quiet w.
Lemma settled_rely w w' : life_rely 0 w w' → settled w → settled w'.
Proof.
  intros Hr [Hab|Hq]; [left; by apply (lr_abandoned _ _ _ Hr)|right; by eapply quiet_rely].
Qed.
Lemma abandon_settled w : ¬ can_start w → settled (abandon w).
Proof.
  intros Hno. unfold settled, abandon. cbn. destruct (bool_decide (lf_using w = ∅)) eqn:Hu.
  - right. apply bool_decide_eq_true in Hu. split; [done|]. intros Hc. apply Hno. exact Hc.
  - left. by rewrite orb_true_r.
Qed.
Lemma abandon_inv w : ¬ can_start w → life_inv w → life_inv (abandon w).
Proof.
  intros Hno [H1 H2 H3 H4 H5 H6 H7 H8]. split; cbn; try done.
  - intros [Hab _]%orb_false_iff. by apply H3.
  - intros Hm. by rewrite H4.
  - intros _. split; [done|]. unfold works_in_hand. set_solver.
  - set_solver.
Qed.
Lemma abandon_guar w : life_guar 0 w (abandon w).
Proof. intros ? ?. split; cbn; try done. by intros ->. Qed.

Lemma not_serving w : lf_serving w = false → ¬ can_start w.
Proof. intros Hs [? _]. congruence. Qed.
Lemma stop_serving_inv w : life_inv w → life_inv (with_serving false w).
Proof.
  intros [H1 H2 H3 H4 H5 H6 H7 H8]. split; cbn; try done.
  - intros Hab [?|[? _]]; [auto|done].
  - intros [_ ?]%H7. split; [|done]. by intros [? _].
Qed.
Lemma stop_serving_guar w : by_request = true → life_guar 0 w (with_serving false w).
Proof. intros Hby ??. rely_step. Qed.

Lemma life_guar_trans i w1 w2 w3 : life_guar i w1 w2 → life_guar i w2 w3 → life_guar i w1 w3.
Proof. intros H1 H2 j Hj. etransitivity; [by apply H1|by apply H2]. Qed.

Lemma main_await_server {A} (k : stopped server_end → prog (lifeE E) A) Q w :
  by_request = true →
  (∀ w', life_rely 0 w w' → life_wp 0 (k Signalled) Q w') →
  (∀ ended w', ended ≠ ServerStopped → life_rely 0 w w' →
     life_wp 0 (k (Returned ended)) Q (abandon (with_serving false w'))) →
  life_wp 0 (trigger AwaitServer ≫= k) Q w.
Proof.
  intros Hby Hsig Hret. apply life_wp_call. intros w1 Hr Hi r w2 [_ Hw2].
  destruct r as [|ended]; [destruct Hw2 as [_ ->]|destruct Hw2 as [He ->]].
  - split_and!; [done|by intros ??|by apply Hsig].
  - split_and!; [by apply abandon_inv, stop_serving_inv; [apply not_serving|]| |by apply Hret].
    eapply life_guar_trans; [by apply stop_serving_guar|apply abandon_guar].
Qed.
Lemma main_drain_server {A} t (k : option string → prog (lifeE E) A) Q w :
  by_request = true →
  (∀ w', life_rely 0 w w' → lf_using w' = ∅ → life_wp 0 (k None) Q (with_serving false w')) →
  (∀ e w', life_rely 0 w w' → life_wp 0 (k (Some e)) Q (abandon (with_serving false w'))) →
  life_wp 0 (trigger (DrainServer t) ≫= k) Q w.
Proof.
  intros Hby Hok Herr. apply life_wp_call. intros w1 Hr Hi r w2 [_ Hw2].
  destruct r as [e|]; [subst w2|destruct Hw2 as [Hh ->]].
  - split_and!; [by apply abandon_inv, stop_serving_inv; [apply not_serving|]| |by apply Herr].
    eapply life_guar_trans; [by apply stop_serving_guar|apply abandon_guar].
  - pose proof (li_handlers _ Hi) as Hsub.
    split_and!; [by apply stop_serving_inv|by apply stop_serving_guar|]. apply Hok; [done|set_solver].
Qed.
Lemma main_close_server {A} (k : option string → prog (lifeE E) A) Q w :
  by_request = true →
  (∀ r w', life_rely 0 w w' → life_wp 0 (k r) Q (with_serving false w')) →
  life_wp 0 (trigger CloseServer ≫= k) Q w.
Proof.
  intros Hby Hk. apply life_wp_call. intros w1 Hr Hi r w2 [_ ->].
  split_and!; [by apply stop_serving_inv|by apply stop_serving_guar|by apply Hk].
Qed.
Lemma main_await_consumer {A} (k : stopped (option string) → prog (lifeE E) A) Q w :
  by_request = false →
  (∀ w', life_rely 0 w w' → ¬ can_start w' → life_wp 0 (k Signalled) Q w') →
  (∀ err w', life_rely 0 w w' → quiet w' → life_wp 0 (k (Returned err)) Q w') →
  life_wp 0 (trigger AwaitConsumer ≫= k) Q w.
Proof.
  intros Hby Hsig Hret. apply life_wp_call. intros w1 Hr Hi r w2 (_ & -> & Hwhy).
  assert ((lf_signalled w1 = true ∨ lf_consumer_returned w1 = true) → ¬ can_start w1) as Hno.
  { intros Hor [_ [?|[? ?]]]; [|destruct Hor]; congruence. }
  split_and!; [done|by intros ??|]. destruct r as [|err].
  - apply Hsig; [done|]. by apply Hno; left.
  - apply Hret; [done|]. split; [by apply (li_consumer _ Hi)|by apply Hno; right].
Qed.
Lemma main_wait_worker {A} t (k : bool → prog (lifeE E) A) Q w :
  (∀ w', life_rely 0 w w' → lf_worker_done w' = true → life_wp 0 (k true) Q w') →
  (∀ w', life_rely 0 w w' → life_wp 0 (k false) Q (with_skipped w')) →
  life_wp 0 (trigger (WaitWorker t) ≫= k) Q w.
Proof.
  intros Hdone Hskip. apply life_wp_call. intros w1 Hr Hi [|] w2 [_ Hw2]; [destruct Hw2 as [Hd ->]|subst w2].
  - split_and!; [done|by intros ??|by apply Hdone].
  - destruct Hi as [H1 H2 H3 H4 H5 H6 H7 H8].
    split_and!; [by split|intros ??; rely_step|by apply Hskip].
Qed.
(** Waiting for the handlers, once none can start, settles them one way or the other. *)
Lemma main_wait_handlers {A} t (k : bool → prog (lifeE E) A) Q w :
  ¬ can_start w →
  (∀ r w', lf_open w' = lf_open w → lf_worker w' = lf_worker w → settled w' → life_wp 0 (k r) Q w') →
  life_wp 0 (trigger (WaitHandlers t) ≫= k) Q w.
Proof.
  intros Hno Hk. apply life_wp_call. intros w1 Hr Hi r w2 [_ Hw2].
  assert (¬ can_start w1) as Hno1 by (intros ?%(can_start_rely _ _ Hr); done).
  destruct (lr_main _ _ _ Hr eq_refl) as (F1 & _ & _ & F4 & _).
  destruct r; [destruct Hw2 as [Hh ->]|subst w2].
  - pose proof (li_handlers _ Hi) as Hsub. split_and!; [done|by intros ??|].
    apply Hk; [done..|]. right. split; [set_solver|done].
  - split_and!; [by apply abandon_inv|apply abandon_guar|]. apply Hk; [done..|by apply abandon_settled].
Qed.
End life.
