(* ===== verification/Bootstraps.v ===== *)
(** * Starting and stopping the processes

    [bootstrap.New] and [bootstrap.Run] of the three services: the settings loaded, the
    logger, the database pools, the wired contexts and the servers they start and stop. *)
From S2P Require Import Prelude GoStrings External Prog OrderDomain HttpApi Router OrderEvents RabbitPublisher EventWorker Wiring InventoryGrpc GrpcEdge Topology NotificationEvents Session.
From S2P Require Import Settings ServiceConfig ConfigLoad Observability Lifecycle.

(** *** Shared by the services *)
Section platform.
Context {E : Type → Type}.

(** The three [platform/database] packages. *)
(* @go order-service/internal/platform/database/postgres.go New *)
Definition database_New : prog (lifeE E) (result string unit) :=
  opened ← trigger (Acquire Pool);
  match opened with
  | Err e => Ret (Err (errorf "open PostgreSQL database" e))
  | Ok _ =>
      pinged ← trigger PingContext;
      match pinged with
      | Some e => _ ← trigger (Release Pool); Ret (Err (errorf "ping PostgreSQL database" e))
      | None => Ret (Ok tt)
      end
  end.
(* @go inventory-service/internal/platform/database/postgres.go New *)
Definition inventory_database_New : prog (lifeE E) (result string unit) := database_New.
(* @go notification-service/internal/platform/database/postgres.go New *)
Definition notification_database_New : prog (lifeE E) (result string unit) := database_New.

(** [http.Server.Shutdown] stops listening and waits for the requests being handled;
    [Close] does not wait. *)
(* @go order-service/internal/platform/httpserver/server.go Server.Shutdown *)
Definition httpserver_Shutdown (timeout : Z) : prog (lifeE E) (option string) :=
  drained ← trigger (DrainServer timeout);
  match drained with
  | Some err => closed ← trigger CloseServer; Ret (Some (errors_Join err closed))
  | None => Ret None
  end.
(** [GracefulStop] against the deadline of the context, then [Stop], which does not wait. *)
(* @go inventory-service/internal/platform/grpcserver/server.go Server.Shutdown *)
Definition grpcserver_Shutdown (timeout : Z) : prog (lifeE E) (option string) :=
  stopped ← trigger (DrainServer timeout);
  match stopped with
  | Some ctx_err => _ ← trigger CloseServer; Ret (Some ctx_err)
  | None => Ret None
  end.
End platform.

(** What [Start] answers of the way its server came to an end: [http.ErrServerClosed] is
    no error, and [Serve] of a gRPC server that was stopped answers none. *)
(* @go order-service/internal/platform/httpserver/server.go Server.Start *)
Definition httpserver_Start (ended : server_end) : option string :=
  match ended with
  | ServerStopped => None
  | ListenFailed err | ServeFailed err => Some err
  end.
(* @go inventory-service/internal/platform/grpcserver/server.go Server.Start *)
Definition grpcserver_Start (server : GrpcServer) (ended : server_end) : option string :=
  match ended with
  | ListenFailed err => Some (errorf ("listen on " +:+ gs_address server) err)
  | ServeFailed err => Some err
  | ServerStopped => None
  end.

(** ** order-service *)

(** The HTTP server: where it listens, its timeouts, and the handler it serves with. *)
(* @go order-service/internal/platform/httpserver/server.go Config *)
Record HttpConfig := mkHttpConfig {
  hc_Address : string;
  hc_ReadHeaderTimeout : Z;
  hc_ReadTimeout : Z;
  hc_WriteTimeout : Z;
  hc_IdleTimeout : Z;
}.
Abbreviation http_handler := (list N → request → prog (sumE dependencyE crashE) served).
(* @go order-service/internal/platform/httpserver/server.go Server *)
Record HttpServer := mkHttpServer { hs_config : HttpConfig; hs_Handler : http_handler }.
(* @go order-service/internal/platform/httpserver/server.go NewServer *)
Definition httpserver_NewServer (config : HttpConfig) (handler : http_handler) : HttpServer :=
  mkHttpServer config handler.

(* @go order-service/internal/bootstrap/app.go App *)
Record OrderApp := mkOrderApp {
  oa_address : string;
  oa_eventPublisher : RabbitPublisher.Config;
  oa_eventWorker : nat → prog dependencyE (PublishOrderEvents * bool);
  oa_server : HttpServer;
}.

(** The broker client is not connected here; its exchange is the contract's. *)
(* @src order-service/internal/bootstrap/app.go:79-94 New *)
Definition order_publisher_config (applicationConfig : OrderConfig) : RabbitPublisher.Config := {|
  cfg_PublishTimeout := oc_RabbitMQPublishTimeout applicationConfig;
  cfg_DialTimeout := oc_RabbitMQPublishTimeout applicationConfig;
  cfg_ReconnectDelay := oc_RabbitMQReconnectDelay applicationConfig;
  cfg_Exchanges := [mkExchangeDeclaration OrderEvents.ExchangeOrders OrderEvents.ExchangeOrdersKind
    OrderEvents.ExchangeOrdersDurable OrderEvents.ExchangeOrdersAutoDelete OrderEvents.ExchangeOrdersInternal];
|}.

Section order.
Context `{LevelNames} {Reading : Viper} {Mail : MailLib} {Binding : BindingLib} {Gin : GinLib}.
Context {Times : TimestampLib} {Wire : Codec protoOrderAccepted}.
Variable status_text : InventoryGrpc.Status → string.
Context {E : Type → Type}.
#[local] Abbreviation P := (prog (lifeE E)).

(* @go order-service/internal/bootstrap/bootstrap.go shutdownTimeout *)
Definition shutdownTimeout : Z := 10 * Second.

(* @go order-service/internal/bootstrap/app.go New *)
Definition order_New (applicationConfig : OrderConfig) : P (result string OrderApp) :=
  db ← database_New;
  match db with
  | Err e => Ret (Err (errorf "connect to PostgreSQL" e))
  | Ok _ =>
      inventoryConn ← trigger (Acquire InventoryConn);
      match inventoryConn with
      | Err e => _ ← trigger (Release Pool); Ret (Err (errorf "create inventory client" e))
      | Ok _ =>
          _ ← trigger (Obtain EventPublisher);
          match order_wiring_New status_text {|
                  dp_InventoryTimeout := oc_InventoryGRPCTimeout applicationConfig;
                  dp_OutboxPollInterval := oc_OutboxPollInterval applicationConfig;
                  dp_OutboxLease := oc_OutboxClaimLease applicationConfig;
                |} with
          | Err e =>
              _ ← trigger (Release EventPublisher);
              _ ← trigger (Release InventoryConn);
              _ ← trigger (Release Pool);
              Ret (Err (errorf "wire the order context" e))
          | Ok orderModule => Ret (Ok {|
              oa_address := oc_HTTPServerAddress applicationConfig;
              oa_eventPublisher := order_publisher_config applicationConfig;
              oa_eventWorker := om_EventWorker orderModule;
              oa_server := httpserver_NewServer {|
                hc_Address := oc_HTTPServerAddress applicationConfig;
                hc_ReadHeaderTimeout := oc_HTTPReadHeaderTimeout applicationConfig;
                hc_ReadTimeout := oc_HTTPReadTimeout applicationConfig;
                hc_WriteTimeout := oc_HTTPWriteTimeout applicationConfig;
                hc_IdleTimeout := oc_HTTPIdleTimeout applicationConfig;
              |} (om_HTTPHandler orderModule);
            |})
          end
      end
  end.

(* @go order-service/internal/bootstrap/app.go App.Start *)
Definition order_Start (app : OrderApp) (ended : server_end) : option string := httpserver_Start ended.
(* @go order-service/internal/bootstrap/app.go App.RunEventWorker *)
Definition order_RunEventWorker (app : OrderApp) (rounds : nat) : prog dependencyE (PublishOrderEvents * bool) :=
  oa_eventWorker app rounds.
(* @go order-service/internal/bootstrap/app.go App.Shutdown *)
Definition order_Shutdown : P (option string) := httpserver_Shutdown shutdownTimeout.

(** Every resource is closed whatever the others answer. *)
(* @go order-service/internal/bootstrap/app.go App.Close *)
Definition order_Close : P unit :=
  _ ← trigger (Release EventPublisher);
  _ ← trigger (Release InventoryConn);
  _ ← trigger (Release Pool);
  Ret tt.

(** Whether the worker is done before the timer fires. *)
(* @go order-service/internal/bootstrap/bootstrap.go waitFor *)
Definition order_waitFor (timeout : Z) : P bool := trigger (WaitWorker timeout).

(** The deferred function that stops the worker. *)
(* @src order-service/internal/bootstrap/bootstrap.go:62-75 Run *)
Definition order_cleanup : P unit :=
  _ ← trigger StopWorker;
  stopped ← order_waitFor shutdownTimeout;
  if stopped : bool then order_Close else Ret tt.

(** What follows the start of the server. *)
(* @src order-service/internal/bootstrap/bootstrap.go:77-102 Run *)
Definition order_serve (app : OrderApp) : P (option string) :=
  _ ← trigger GoServer;
  stopped ← trigger AwaitServer;
  match stopped with
  | Returned ended => Ret (option_map (errorf "run HTTP server") (order_Start app ended))
  | Signalled =>
      _ ← trigger StopListening;
      failed ← order_Shutdown;
      Ret (option_map (errorf "shut down HTTP server") failed)
  end.

(* @go order-service/internal/bootstrap/bootstrap.go Run *)
Definition order_Run (ConfigPath ServiceName : string) : P (option string) :=
  machine ← trigger ReadMachine;
  match order_config_Load machine ConfigPath with
  | Err e => Ret (Some (errorf "load configuration" e))
  | Ok applicationConfig =>
      match NewLogger (order_logger_config ServiceName applicationConfig) with
      | Err e => Ret (Some (errorf "create logger" e))
      | Ok _ =>
          _ ← trigger NotifyContext;
          app ← order_New applicationConfig;
          r ← match app with
              | Err e => Ret (Some e)
              | Ok app => _ ← trigger GoWorker; r ← order_serve app; _ ← order_cleanup; Ret r
              end;
          _ ← trigger StopListening;
          Ret r
      end
  end.

(** The process: what it writes to standard error before it exits with status 1, or nothing
    and status 0. *)
(* @src order-service/cmd/order/main.go:11-25 main *)
Definition order_main : P (option string) :=
  err ← order_Run "." "order-service";
  Ret (option_map (errorf "order-service") err).
End order.

(** ** inventory-service *)

(* @go inventory-service/internal/bootstrap/app.go App *)
Record InventoryApp := mkInventoryApp { ia_address : string; ia_server : GrpcServer }.

Section inventory.
Context `{LevelNames} {Reading : Viper} {E : Type → Type}.
#[local] Abbreviation P := (prog (lifeE E)).

(* @go inventory-service/internal/bootstrap/app.go New *)
Definition inventory_New (applicationConfig : InventoryConfig) : P (result string InventoryApp) :=
  db ← inventory_database_New;
  match db with
  | Err e => Ret (Err (errorf "connect to PostgreSQL" e))
  | Ok _ =>
      match inventory_wiring_New with
      | Err e => _ ← trigger (Release Pool); Ret (Err (errorf "wire the inventory context" e))
      | Ok inventoryModule => Ret (Ok (mkInventoryApp (ic_GRPCServerAddress applicationConfig)
          (inventory_server applicationConfig inventoryModule)))
      end
  end.

(* @go inventory-service/internal/bootstrap/app.go App.Start *)
Definition inventory_Start (app : InventoryApp) (ended : server_end) : option string :=
  grpcserver_Start (ia_server app) ended.
(* @go inventory-service/internal/bootstrap/app.go App.Shutdown *)
Definition inventory_Shutdown (timeout : Z) : P (option string) := grpcserver_Shutdown timeout.
(* @go inventory-service/internal/bootstrap/app.go App.Close *)
Definition inventory_Close : P (option string) := trigger (Release Pool).

(** What follows the start of the server. *)
(* @src inventory-service/internal/bootstrap/bootstrap.go:56-90 Run *)
Definition inventory_serve (applicationConfig : InventoryConfig) (app : InventoryApp) : P (option string) :=
  _ ← trigger GoServer;
  stopped ← trigger AwaitServer;
  match stopped with
  | Returned ended => Ret (option_map (errorf "run gRPC server") (inventory_Start app ended))
  | Signalled =>
      _ ← trigger StopListening;
      failed ← inventory_Shutdown (ic_GRPCShutdownTimeout applicationConfig);
      Ret (option_map (errorf "shut down gRPC server") failed)
  end.

(* @go inventory-service/internal/bootstrap/bootstrap.go Run *)
Definition inventory_Run (ConfigPath ServiceName : string) : P (option string) :=
  machine ← trigger ReadMachine;
  match inventory_config_Load machine ConfigPath with
  | Err e => Ret (Some (errorf "load configuration" e))
  | Ok applicationConfig =>
      match inventory_NewLogger (inventory_logger_config ServiceName applicationConfig) with
      | Err e => Ret (Some (errorf "create logger" e))
      | Ok _ =>
          _ ← trigger NotifyContext;
          app ← inventory_New applicationConfig;
          r ← match app with
              | Err e => Ret (Some e)
              | Ok app => r ← inventory_serve applicationConfig app; _ ← inventory_Close; Ret r
              end;
          _ ← trigger StopListening;
          Ret r
      end
  end.

(* @src inventory-service/cmd/inventory/main.go:11-25 main *)
Definition inventory_main : P (option string) :=
  err ← inventory_Run "." "inventory-service";
  Ret (option_map (errorf "inventory-service") err).
End inventory.

(** ** notification-service *)

(* @go notification-service/internal/bootstrap/app.go retryDelay *)
Definition delivery_retryDelay : Z := 30 * Second.

(** The consumer of the process: its settings, its subscriptions, and the lease its handler
    claims an effect for. *)
(* @go notification-service/internal/bootstrap/app.go App *)
Record NotificationApp := mkNotificationApp {
  na_consumer_config : ConsumerConfig;
  na_subscriptions : list Subscription;
  na_SendLease : Z;
}.

Section notification.
Context `{LevelNames} {Reading : Viper} {E : Type → Type}.
(** The order Go's [range] visits a map in. *)
Variable map_range : list (string * string) → list (string * string).
#[local] Abbreviation P := (prog (lifeE E)).

(* @src notification-service/internal/bootstrap/app.go:54-61 New *)
Definition notification_consumer_config (applicationConfig : NotificationConfig) : ConsumerConfig := {|
  con_URL := nc_RabbitMQURL applicationConfig;
  con_PrefetchCount := nc_RabbitMQPrefetchCount applicationConfig;
  con_ReconnectDelay := nc_RabbitMQReconnectDelay applicationConfig;
  con_RetryDelay := delivery_retryDelay;
  con_PublishTimeout := nc_RabbitMQPublishTimeout applicationConfig;
  con_HandleTimeout := nc_HandleTimeout applicationConfig;
|}.

(* @go notification-service/internal/bootstrap/app.go New *)
Definition notification_New (applicationConfig : NotificationConfig) : P (result string NotificationApp) :=
  db ← notification_database_New;
  match db with
  | Err e => Ret (Err (errorf "connect to PostgreSQL" e))
  | Ok _ =>
      match notification_wiring_New map_range with
      | Err e => _ ← trigger (Release Pool); Ret (Err (errorf "wire the notification context" e))
      | Ok subscriptions => Ret (Ok (mkNotificationApp (notification_consumer_config applicationConfig)
          subscriptions (nc_SendLease applicationConfig)))
      end
  end.

(* @go notification-service/internal/bootstrap/app.go App.Close *)
Definition notification_Close : P (option string) := trigger (Release Pool).

(** [waitFor] of [App.Drain]: whether the deliveries in hand finish in time, which is
    written to the log. *)
(* @go notification-service/internal/bootstrap/bootstrap.go waitFor *)
Definition notification_waitFor (timeout : Z) : P bool := trigger (WaitHandlers timeout).

(** What follows the start of the consumer. *)
(* @src notification-service/internal/bootstrap/bootstrap.go:57-89 Run *)
Definition notification_serve (applicationConfig : NotificationConfig) : P (option string) :=
  _ ← trigger GoServer;
  stopped ← trigger AwaitConsumer;
  match stopped with
  | Returned (Some err) => Ret (Some (errorf "run consumer" err))
  | Returned None => Ret None
  | Signalled =>
      _ ← trigger StopListening;
      _ ← notification_waitFor (nc_ShutdownTimeout applicationConfig);
      Ret None
  end.

(* @go notification-service/internal/bootstrap/bootstrap.go Run *)
Definition notification_Run (ConfigPath ServiceName : string) : P (option string) :=
  machine ← trigger ReadMachine;
  match notification_config_Load machine ConfigPath with
  | Err e => Ret (Some (errorf "load configuration" e))
  | Ok applicationConfig =>
      match notification_NewLogger (notification_logger_config ServiceName applicationConfig) with
      | Err e => Ret (Some (errorf "create logger" e))
      | Ok _ =>
          _ ← trigger NotifyContext;
          app ← notification_New applicationConfig;
          r ← match app with
              | Err e => Ret (Some e)
              | Ok _ => r ← notification_serve applicationConfig; _ ← notification_Close; Ret r
              end;
          _ ← trigger StopListening;
          Ret r
      end
  end.

(* @src notification-service/cmd/notification/main.go:11-25 main *)
Definition notification_main : P (option string) :=
  err ← notification_Run "." "notification-service";
  Ret (option_map (errorf "notification-service") err).
End notification.
