(* ===== verification/ConsumerGoroutine.v ===== *)
(** * The consumer's goroutine

    What [App.Start] of notification-service runs beside [Run]: the consumer as it is
    modelled, sessions and deliveries, with the calls that bear on the resources of the
    process told apart. *)
From S2P Require Import Prelude Prog External Postgres Settings SentNotifications HandleOrderAccepted Topology Consumer OrderEvents NotificationEvents Session Lifecycle Bootstraps.

(** What the goroutine asks of the outside: the broker and its timers, or what the
    use case asks of the database and the email sender. *)
Abbreviation consumingE := (lifeE (sumE sessionE notifyE)).

Section goroutine.
Context {Pg : Postgres} {Hash : HashLib} {Mail : MailLib} {Times : TimestampLib} {Wire : Codec protoOrderAccepted}.
Context (ParseAddress_error : string → string).
(** The consumer the process was built with, and how much of its run is observed: looks
    at the returns, deliveries of a session, sessions. *)
Context (app : NotificationApp) (looks deliveries sessions : nat).

(** [inFlight] counts the deliveries in hand; the context of [handle] is that of the
    signals; the subscription's handler works on the resources; all else is a matter of
    the broker and may answer anything, and so may the looks at that context between two
    sessions, where a wrong answer only ends the consumer early. *)
(* @src notification-service/internal/notification/adapter/inbound/amqpapi/consumer.go:258-272 Consumer.handle *)
Definition consumer_call R (e : sessionE R) : prog consumingE R :=
  match e in sessionE R return prog consumingE R with
  | InFlightAdd => trigger DeliveryStart
  | InFlightDone => trigger HandlerEnd
  | OnDelivery e =>
      match e in deliveryE R return prog consumingE R with
      | Cancelled => trigger Lifecycle.CtxErr
      | Handle requestID messageID body =>
          embed (@ByHandler _) (embed (@inrE _ _)
            (OrderAccepted_Handle ParseAddress_error (HandleOrderAccepted_Execute (na_SendLease app)) messageID body))
      | e => trigger (Outside (inlE (OnDelivery e)))
      end
  | e => trigger (Outside (inlE e))
  end.

(* @src notification-service/internal/bootstrap/bootstrap.go:58-60 Run *)
Definition consumer_goroutine : prog consumingE (option string) :=
  _ ← trigger ConsumerStarted;
  returned ← interp consumer_call
    (consumer_Run (na_consumer_config app) (na_subscriptions app) looks deliveries sessions);
  match returned with
  | Some _ => _ ← trigger ConsumerReturned; Ret None
  | None => Ret None
  end.

(** ** What it relies on and keeps *)
Context (needs : gset resource).
Abbreviation consumer_wp p Q w :=
  (wp (life_step needs) (life_inv needs false) (life_rely false) (life_guar false) 1 p Q w).

(** A program none of whose calls moves the consumer. *)
Definition stays {A} (p : prog sessionE A) : Prop := ∀ taken begun (Q : A → life → Prop) w,
  consumer_at taken begun w → (∀ a w', consumer_at taken begun w' → Q a w') →
  consumer_wp (interp consumer_call p) Q w.

Lemma at_ret {A} (a : A) taken begun (Q : A → life → Prop) w :
  consumer_at taken begun w → (∀ w', consumer_at taken begun w' → Q a w') →
  consumer_wp (interp consumer_call (Ret a)) Q w.
Proof. intros Hat HQ. apply life_wp_ret. intros w' Hr _. by eapply HQ, consumer_at_rely. Qed.
Lemma stays_ret {A} (a : A) : stays (Ret a).
Proof. intros taken begun Q w Hat HQ. by apply (at_ret a taken begun); [|apply HQ]. Qed.
Lemma stays_then {A B} (p : prog sessionE A) (f : A → prog sessionE B) taken begun Q w :
  stays p → consumer_at taken begun w →
  (∀ a w', consumer_at taken begun w' → consumer_wp (interp consumer_call (f a)) Q w') →
  consumer_wp (interp consumer_call (p ≫= f)) Q w.
Proof. intros Hp Hat Hf. apply wp_interp_bind; [apply _|]. by apply (Hp taken begun). Qed.
Lemma stays_bind {A B} (p : prog sessionE A) (f : A → prog sessionE B) :
  stays p → (∀ a, stays (f a)) → stays (p ≫= f).
Proof.
  intros Hp Hf taken begun Q w Hat HQ. apply (stays_then _ _ taken begun); [done..|].
  intros a w' Hat'. by apply (Hf a taken begun).
Qed.
Lemma stays_call {R} (e : sessionE R) :
  consumer_call R e = trigger (Outside (inlE e)) → stays (trigger e).
Proof.
  intros He taken begun Q w Hat HQ. cbn [trigger interp]. rewrite He.
  apply (outside_wp _ _ eq_refl _ _ taken begun); [done|]. intros r w' Hat'. by apply (stays_ret r taken begun).
Qed.
Lemma stays_embed {G A} (φ : ∀ R, G R → sessionE R) (allowed : ∀ R, G R → Prop) (p : prog G A) h post :
  (∀ R e, allowed R e → consumer_call R (φ R e) = trigger (Outside (inlE (φ R e)))) →
  respects (λ _, allowed) p h post → stays (embed φ p).
Proof.
  intros Hφ. revert h. induction p as [a|R e k IH]; cbn; intros h Hp; [apply stays_ret|].
  destruct Hp as [He Hk]. apply (stays_bind (trigger (φ R e))); [by apply stays_call, Hφ|]. intros r. by eapply IH.
Qed.

(** *** Settling and parking *)
Definition settles R (e : deliveryE R) : Prop :=
  match e with Cancelled | Handle _ _ _ => False | _ => True end.
Lemma settles_stays {A} (p : prog deliveryE A) h post :
  respects (λ _, settles) p h post → stays (embed (@OnDelivery) p).
Proof. apply stays_embed. by intros R []. Qed.

Lemma park_settles subscription delivery reason h :
  respects (λ _, settles) (park looks subscription delivery reason) h (λ _ _, True).
Proof.
  split; [done|]. intros now. apply respects_bind.
  eapply (respects_mono _ _ _ (λ _ _, True)).
  - intros h' [[]|] _; [|done]. split; [done|]. intros [conf|?]; [|by repeat split].
    split; [done|]. intros [acked|?]; [|by repeat split]. split; [done|].
    intros []; [destruct acked|..]; by repeat split.
  - generalize (h ++ [Call FormattedNow now]). clear. induction looks as [|n IH]; [done|]. intros h.
    split; [done|]. intros []; [done|apply IH..].
Qed.
Lemma consumer_settle_settles outcome h :
  respects (λ _, settles) (_ ← consumer_settle outcome; mret (Some tt)) h (λ _ _, True).
Proof. by destruct outcome; repeat split. Qed.

(** *** A delivery *)
Lemma handle_wp subscription delivery (Q : option unit → life → Prop) w :
  consumer_at true false w → (∀ r begun w', consumer_at true begun w' → Q r w') →
  consumer_wp (interp consumer_call (embed (@OnDelivery) (handle looks subscription delivery))) Q w.
Proof.
  intros Hat HQ. unfold handle. destruct (validateEnvelope subscription delivery).
  { eapply settles_stays; [apply (park_settles _ _ _ [])|done|]. intros; by eapply HQ. }
  apply (ctx_err_wp _ _ eq_refl); [done|..]; intros w1 Hat1.
  { eapply settles_stays; [apply (consumer_settle_settles OutcomeShuttingDown [])|done|]. intros; by eapply HQ. }
  apply wp_bind; [apply _|].
  apply (work_wp _ _ eq_refl); [done|]. intros r w2 Hat2.
  assert (∀ p : prog deliveryE (option unit), respects (λ _, settles) p [] (λ _ _, True) →
    consumer_wp (interp consumer_call (embed (@OnDelivery) p)) Q w2) as Hsettle.
  { intros p Hp. eapply settles_stays; [exact Hp|done|]. intros; by eapply HQ. }
  cbn [prog_bind_go]. destruct (res_Outcome r); apply Hsettle; first [apply park_settles|apply consumer_settle_settles].
Qed.

Lemma consume_loop_wp rounds (Q : option (option string) → life → Prop) w :
  consumer_at false false w → (∀ w', Q None w') →
  (∀ err w', consumer_at false false w' → Q (Some err) w') →
  consumer_wp (interp consumer_call (consume_loop looks rounds)) Q w.
Proof.
  intros Hat HN HS. revert w Hat. induction rounds as [|rounds IH]; intros w Hat.
  { by apply life_wp_ret. }
  apply (outside_wp _ _ eq_refl _ _ false false); [done|]. intros next w1 Hat1.
  destruct next as [|reason| |subscription delivery]; [by apply (at_ret _ false false); [|apply HS]..|].
  apply (delivery_start_wp _ _ eq_refl); [done|]. intros w2 Hat2.
  apply wp_interp_bind; [apply _|]. apply handle_wp; [done|]. intros [[]|] begun w3 Hat3; [|by apply life_wp_ret].
  apply (delivery_end_wp _ _ eq_refl _ true begun); [done|exact IH].
Qed.

(** *** Sessions *)
Lemma merge_stays subs : stays (merge subs).
Proof.
  induction subs as [|s subs IH]; [apply stays_ret|]. apply stays_bind; [by apply stays_call|].
  intros []; [apply stays_ret|done].
Qed.
Lemma topology_stays {A} (p : prog topologyE A) : stays (embed (@OnTopology) p).
Proof.
  apply (stays_embed _ (λ _ _, True) _ [] (λ _ _, True)); [done|]. generalize (@nil (call topologyE)).
  induction p as [a|R e k IH]; cbn; auto.
Qed.

(** A call of the session that is for the broker. *)
#[local] Ltac broker_call := eapply (stays_then (trigger _) _ false false); [by apply stays_call|done|].

Lemma consume_channel_wp (Q : option (option string) → life → Prop) w :
  consumer_at false false w → (∀ w', Q None w') →
  (∀ err w', consumer_at false false w' → Q (Some err) w') →
  consumer_wp (interp consumer_call
    (consume_channel (na_consumer_config app) (na_subscriptions app) looks deliveries)) Q w.
Proof.
  intros Hat HN HS.
  assert (∀ err w', consumer_at false false w' → consumer_wp (interp consumer_call (Ret (Some err))) Q w') as Hret.
  { intros err w' Hat'. by apply (at_ret _ false false); [|apply HS]. }
  apply (stays_then _ _ false false); [apply topology_stays|done|]. intros [text|] w1 H1; [by apply Hret|].
  broker_call. intros [text|] w2 H2; [by apply Hret|].
  broker_call. intros [text|] w3 H3; [by apply Hret|].
  broker_call. intros _ w4 H4.
  broker_call. intros _ w5 H5.
  apply (stays_then _ _ false false); [apply merge_stays|done|]. intros [text|] w6 H6; [by apply Hret|].
  by apply consume_loop_wp.
Qed.
Lemma consume_wp (Q : option (option string) → life → Prop) w :
  consumer_at false false w → (∀ w', Q None w') →
  (∀ err w', consumer_at false false w' → Q (Some err) w') →
  consumer_wp (interp consumer_call (consume (na_consumer_config app) (na_subscriptions app) looks deliveries)) Q w.
Proof.
  intros Hat HN HS.
  assert (∀ err w', consumer_at false false w' → consumer_wp (interp consumer_call (Ret (Some err))) Q w') as Hret.
  { intros err w' Hat'. by apply (at_ret _ false false); [|apply HS]. }
  broker_call. intros [_|text] w1 H1; [|by apply Hret].
  broker_call. intros [_|text] w2 H2.
  - apply wp_interp_bind; [apply _|]. apply consume_channel_wp; [done|by intros; apply life_wp_ret|]. intros err w3 H3.
    broker_call. intros _ w4 H4.
    broker_call. intros _ w5 H5. by apply Hret.
  - broker_call. intros _ w3 H3. by apply Hret.
Qed.

Lemma consumer_Run_wp (Q : option unit → life → Prop) w :
  consumer_at false false w → (∀ w', Q None w') → (∀ w', consumer_at false false w' → Q (Some tt) w') →
  consumer_wp (interp consumer_call
    (consumer_Run (na_consumer_config app) (na_subscriptions app) looks deliveries sessions)) Q w.
Proof.
  intros Hat HN HS. revert w Hat. induction sessions as [|n IH]; intros w Hat; [by apply life_wp_ret|].
  apply wp_interp_bind; [apply _|]. apply consume_wp; [done|by intros; apply life_wp_ret|]. intros err w1 H1.
  assert (∀ w', consumer_at false false w' → consumer_wp (interp consumer_call (Ret (Some tt))) Q w') as Hret.
  { intros w' Hat'. by apply (at_ret _ false false); [|apply HS]. }
  assert (∀ w', consumer_at false false w' →
    consumer_wp (interp consumer_call (reconnect (na_consumer_config app)
      (consumer_Run (na_consumer_config app) (na_subscriptions app) looks deliveries n))) Q w') as Hagain.
  { intros w' H'. broker_call.
    intros [] w2 H2; [by apply Hret|].
    broker_call.
    intros [] w3 H3; [by apply Hret|by apply IH]. }
  destruct err; [|by apply Hagain].
  broker_call.
  intros [] w2 H2; [by apply Hret|by apply Hagain].
Qed.

Lemma consumer_goroutine_wp w :
  lf_consumer_returned w = false → 1 ∉ lf_using w → consumer_wp consumer_goroutine (λ _ _, True) w.
Proof.
  intros Hret Hu. apply consumer_started_wp; [done..|]. intros w1 H1.
  apply wp_bind; [apply _|]. apply consumer_Run_wp; [done|by intros; apply life_wp_done|]. intros w2 H2.
  apply (consumer_returned_wp _ _ eq_refl); [done|]. intros. apply life_wp_done.
Qed.
End goroutine.
