(* ===== verification/Processes.v ===== *)
(** * The processes as a whole

    Each service's [main], with its goroutines and signals interleaved in every order:
    what is open while it is used, and what is closed in the end. *)
From S2P Require Import Prelude GoStrings External Prog HttpApi Router OrderEvents Wiring InventoryGrpc GrpcEdge NotificationEvents.
From S2P Require Import Settings ServiceConfig ConfigLoad Observability Postgres SentNotifications HandleOrderAccepted NotificationService Topology Consumer Session Lifecycle Bootstraps ConsumerGoroutine.

Definition order_resources : gset resource := {[ Pool; InventoryConn; EventPublisher ]}.
Definition pool_only : gset resource := {[ Pool ]}.

(** A process that has done nothing yet. *)
Definition fresh : life :=
  mkLife ∅ false false false false false false ∅ ∅ 0 false ∅ false false false ∅.

(** ** Before anything runs *)
Section main.
Context {E : Type → Type} (needs : gset resource) (by_request may_skip : bool).
#[local] Abbreviation rely := (life_rely by_request).
Abbreviation main_wp p Q w :=
  (wp (life_step (E:=E) needs) (life_inv needs by_request) (life_rely by_request) (life_guar by_request) 0 p Q w).

Record starting (o : gset resource) (w : life) : Prop := {
  st_main : at_main o false false false false w;
  st_using : lf_using w = ∅;
}.
Lemma starting_quiet o w : starting o w → quiet by_request w.
Proof. intros [[] Hu]. split; [done|]. by apply not_serving. Qed.
Lemma starting_rely o w w' : rely 0 w w' → starting o w → starting o w'.
Proof.
  intros Hr Hst. split; [by eapply at_main_rely, Hst|].
  by eapply quiet_rely, starting_quiet.
Qed.
Lemma starting_with_open o o' w : starting o w → starting o' (with_open o' w).
Proof. intros [[] Hu]. by split; [split|]. Qed.
Lemma starting_releasable o w : starting o w → releasable by_request w.
Proof. intros Hst. split; [destruct Hst as [[] ?]; congruence|]. right. by eapply starting_quiet. Qed.

Lemma starting_read {A R} (e : lifeE E R) (k : R → prog (lifeE E) A) o Q w :
  starting o w → (∀ w1 r w2, life_step needs 0 R e w1 r w2 → w2 = w1) →
  (∀ r w', starting o w' → main_wp (k r) Q w') → main_wp (trigger e ≫= k) Q w.
Proof. intros Hst He Hk. apply main_read; [done|]. intros r w' Hr. by apply Hk, (starting_rely _ _ _ Hr). Qed.
Lemma starting_acquire {A} x (k : result string unit → prog (lifeE E) A) o Q w :
  starting o w →
  (∀ e w', starting o w' → main_wp (k (Err e)) Q w') →
  (∀ w', starting ({[ x ]} ∪ o) w' → main_wp (k (Ok tt)) Q w') →
  main_wp (trigger (Acquire x) ≫= k) Q w.
Proof.
  intros Hst Herr Hok. apply main_acquire; [intros e|]; intros w' Hr; apply (starting_rely _ _ _ Hr) in Hst.
  - by apply Herr.
  - apply Hok. pose proof (am_open _ _ _ _ _ _ (st_main _ _ Hst)) as ->. by eapply starting_with_open.
Qed.
Lemma starting_obtain {A} x (k : unit → prog (lifeE E) A) o Q w :
  starting o w → (∀ w', starting ({[ x ]} ∪ o) w' → main_wp (k tt) Q w') →
  main_wp (trigger (Obtain x) ≫= k) Q w.
Proof.
  intros Hst Hok. apply main_obtain. intros w' Hr. apply (starting_rely _ _ _ Hr) in Hst.
  apply Hok. pose proof (am_open _ _ _ _ _ _ (st_main _ _ Hst)) as ->. by eapply starting_with_open.
Qed.
Lemma starting_release {A} x (k : option string → prog (lifeE E) A) o Q w :
  starting o w → (∀ r w', starting (o ∖ {[ x ]}) w' → main_wp (k r) Q w') →
  main_wp (trigger (Release x) ≫= k) Q w.
Proof.
  intros Hst Hk. apply main_release; [by eapply starting_releasable|]. intros r w' Hr.
  apply (starting_rely _ _ _ Hr) in Hst.
  apply Hk. pose proof (am_open _ _ _ _ _ _ (st_main _ _ Hst)) as ->. by eapply starting_with_open.
Qed.
Lemma starting_ret {A} (a : A) (Q : A → life → Prop) o w :
  starting o w → (∀ w', starting o w' → Q a w') → main_wp (Ret a) Q w.
Proof. intros Hst HQ. apply life_wp_ret. intros w' Hr _. by apply HQ, (starting_rely _ _ _ Hr). Qed.
Lemma starting_notify {A} (k : unit → prog (lifeE E) A) o Q w :
  starting o w → (∀ w', starting o w' → main_wp (k tt) Q w') → main_wp (trigger NotifyContext ≫= k) Q w.
Proof.
  intros Hst Hk. apply main_notify. intros w' Hr. apply (starting_rely _ _ _ Hr) in Hst.
  apply Hk. destruct Hst as [[] Hu]. by split; [split|].
Qed.

Lemma database_New_wp Q w :
  starting ∅ w → (∀ e w', starting ∅ w' → Q (Err e) w') →
  (∀ w', starting pool_only w' → Q (Ok tt) w') → main_wp database_New Q w.
Proof.
  intros Hst Herr Hok. apply (starting_acquire _ _ ∅); [done|intros e w1 H1; by eapply starting_ret; eauto|].
  intros w1 H1. replace ({[ Pool ]} ∪ ∅ : gset resource) with pool_only in H1 by set_solver.
  eapply starting_read; [done|by intros ??? []|]. intros [e|] w2 H2; [|by eapply starting_ret; eauto].
  eapply starting_release; [done|]. intros r w3 H3. eapply starting_ret; [done|].
  intros w4 H4. apply Herr. by replace ∅ with (pool_only ∖ {[ Pool ]}) by set_solver.
Qed.

(** ** What [Run] leaves behind *)

(** After serving: what is open, whether a worker runs, and that no handler is left except
    those that were given up; [r] is what the process would answer. *)
Record served (worker : bool) (strict : bool) (r : option string) (w : life) : Prop := {
  sv_open : lf_open w = needs;
  sv_worker : lf_worker w = worker;
  sv_settled : settled by_request w;
  sv_clean : strict = true → r = None → lf_abandoned w = false;
}.
Lemma served_rely wk strict r w w' : rely 0 w w' → served wk strict r w → served wk strict r w'.
Proof.
  intros Hr [H1 H2 H3 H4]. destruct (lr_main _ _ _ _ Hr eq_refl) as (F1 & _ & _ & F4 & _ & F6 & _).
  split; [congruence..|by eapply settled_rely|]. by rewrite F6.
Qed.

(** [Run] is done: everything is closed unless it [may_skip] the cleanup, and with
    [strict], it answers no error only when nothing was given up. *)
Definition closed_down (strict : bool) (r : option string) (w : life) : Prop :=
  (lf_open w = ∅ ∨ may_skip = true ∧ lf_skipped w = true) ∧ (strict = true → r = None → lf_abandoned w = false).
Lemma closed_down_rely strict r w w' : rely 0 w w' → closed_down strict r w → closed_down strict r w'.
Proof.
  intros Hr [H1 H2]. destruct (lr_main _ _ _ _ Hr eq_refl) as (F1 & _ & _ & _ & F5 & F6 & _).
  split; [by rewrite F1, F5|by rewrite F6].
Qed.
Lemma starting_closed_down strict r w : starting ∅ w → closed_down strict r w.
Proof. intros [[] _]. split; [by left|done]. Qed.
Lemma ret_wp {A} (a : A) (P : life → Prop) (Q : A → life → Prop) w :
  P w → (∀ w w', rely 0 w w' → P w → P w') → (∀ w', P w' → Q a w') → main_wp (Ret a) Q w.
Proof. intros HP Hst HQ. apply life_wp_ret. intros w' Hr _. by eapply HQ, Hst. Qed.

Lemma stop_signals_wp strict r w :
  closed_down strict r w → main_wp (_ ← trigger StopListening; Ret r) (closed_down strict) w.
Proof.
  intros H. apply main_stop_listening. intros w' Hr. apply (closed_down_rely _ _ _ _ Hr) in H.
  by apply (ret_wp _ (closed_down strict r)); [|apply closed_down_rely|].
Qed.

(** Closing: nothing uses what is still open, [o]. *)
Record closing (o : gset resource) (strict : bool) (r : option string) (w : life) : Prop := {
  cl_releasable : releasable by_request w;
  cl_open : lf_open w = o;
  cl_clean : strict = true → r = None → lf_abandoned w = false;
}.
Lemma closing_rely o strict r w w' : rely 0 w w' → closing o strict r w → closing o strict r w'.
Proof.
  intros Hr [H1 H2 H3]. destruct (lr_main _ _ _ _ Hr eq_refl) as (F1 & _ & _ & _ & _ & F6 & _).
  split; [by eapply releasable_rely|congruence|by rewrite F6].
Qed.
Lemma closing_release {A} x (k : option string → prog (lifeE E) A) o strict r Q w :
  closing o strict r w → (∀ y w', closing (o ∖ {[ x ]}) strict r w' → main_wp (k y) Q w') →
  main_wp (trigger (Release x) ≫= k) Q w.
Proof.
  intros Hc Hk. apply main_release; [apply Hc|]. intros y w' Hr.
  apply (closing_rely _ _ _ _ _ Hr) in Hc as [[Hw Hh] <- H3]. apply Hk. by split; [split|..].
Qed.
Lemma closing_done strict r w : closing ∅ strict r w → closed_down strict r w.
Proof. intros [_ Ho Hc]. by split; [left|]. Qed.
Lemma closing_ret strict r w : closing ∅ strict r w → main_wp (Ret r) (closed_down strict) w.
Proof.
  intros H. apply (ret_wp _ (closing ∅ strict r)); [done|apply closing_rely|]. intros. by apply closing_done.
Qed.
Lemma served_closing strict r wk w :
  (wk = true → lf_worker_done w = true) → served wk strict r w → closing needs strict r w.
Proof. intros Hd [H1 H2 H3 H4]. split; [split; [rewrite H2; exact Hd|exact H3]|exact H1|exact H4]. Qed.

(** Without a worker the pool is closed in any case. *)
Lemma release_pool_wp strict r w :
  needs = pool_only → served false strict r w →
  main_wp (_ ← trigger (Release Pool); Ret r) (closed_down strict) w.
Proof.
  intros Hn Hs. eapply closing_release; [by apply (served_closing _ _ false)|]. intros _ w' Hc.
  apply closing_ret. by replace ∅ with (needs ∖ {[ Pool ]}) by (subst; set_solver).
Qed.

(** Waiting for the server, and shutting it down as either kind of server does. *)
Lemma await_server_wp (f : string → string) (start : server_end → option string) (shut : prog (lifeE E) (option string)) g w wk :
  by_request = true → (∀ ended, ended ≠ ServerStopped → is_Some (start ended)) →
  at_main needs false wk false false w →
  (∀ w', at_main needs true wk false false w' → main_wp shut (served wk true) w') →
  main_wp (_ ← trigger GoServer; stopped ← trigger AwaitServer;
           match stopped with
           | Returned ended => Ret (option_map f (start ended))
           | Signalled => _ ← trigger StopListening; failed ← shut; Ret (option_map g failed)
           end) (served wk true) w.
Proof.
  intros Hby Hstart Hat Hshut. apply main_go_server; [by destruct Hat as [-> _ _ _ _]|by destruct Hat|]. intros w1 Hr.
  apply (at_main_rely _ _ _ _ _ _ _ _ Hr) in Hat.
  assert (at_main needs true wk false false (with_serving true w1)) as Hat1 by (by destruct Hat; split).
  clear Hr Hat. apply main_await_server; [done|..].
  - intros w2 Hr. apply (at_main_rely _ _ _ _ _ _ _ _ Hr) in Hat1. apply main_stop_listening.
    intros w3 Hr3. apply (at_main_rely _ _ _ _ _ _ _ _ Hr3) in Hat1.
    apply wp_bind; [apply _|]. eapply wp_mono; [|apply Hshut; by destruct Hat1; split].
    intros failed w4 Hs. apply (ret_wp _ (served wk true failed)); [done|apply served_rely|].
    intros w5 [H1 H2 H3 H4]. split; [done..|]. by destruct failed.
  - intros ended w2 Hended Hr. apply (at_main_rely _ _ _ _ _ _ _ _ Hr) in Hat1. destruct Hat1.
    destruct (Hstart ended Hended) as [e ->]. apply (ret_wp _ (served wk true (Some (f e)))); [|apply served_rely|done].
    split; [done..| |done]. by apply abandon_settled, not_serving.
Qed.
(** What either kind of server does for a shutdown; [answer] is made of the two errors. *)
Lemma shutdown_wp (answer : string → option string → string) t w wk :
  by_request = true → at_main needs true wk false false w →
  main_wp (drained ← trigger (DrainServer t);
           match drained with
           | Some err => closed ← trigger CloseServer; Ret (Some (answer err closed))
           | None => Ret None
           end) (served wk true) w.
Proof.
  intros Hby Hat. apply main_drain_server; [done|intros w1 Hr Hu|intros e w1 Hr];
    apply (at_main_rely _ _ _ _ _ _ _ _ Hr) in Hat; destruct Hat as [H1 H2 H3 H4 H5].
  - apply (ret_wp _ (served wk true None)); [|apply served_rely|done].
    split; [done..| |done]. right. split; [done|]. by apply not_serving.
  - assert (served wk true (Some e) (abandon (with_serving false w1))) as Hs.
    { split; [done..| |done]. by apply abandon_settled, not_serving. }
    apply main_close_server; [done|]. intros r w2 Hr2. apply (served_rely _ _ _ _ _ Hr2) in Hs as [E1 E2 E3 _].
    apply (ret_wp _ (served wk true (Some (answer e r)))); [|apply served_rely|done].
    split; [done..| |done]. destruct E3 as [Hab|[Hu _]]; [by left|right; split; [done|by apply not_serving]].
Qed.

(** Waiting for the consumer and for the deliveries it still handles. *)
Lemma await_consumer_wp (f : string → string) t w :
  by_request = false → at_main needs false false false false w →
  main_wp (_ ← trigger GoServer; stopped ← trigger AwaitConsumer;
           match stopped with
           | Returned (Some err) => Ret (Some (f err))
           | Returned None => Ret None
           | Signalled => _ ← trigger StopListening; _ ← trigger (WaitHandlers t); Ret None
           end) (served false false) w.
Proof.
  intros Hby Hat. apply main_go_server; [by destruct Hat as [-> _ _ _ _]|by destruct Hat|]. intros w1 Hr.
  apply (at_main_rely _ _ _ _ _ _ _ _ Hr) in Hat.
  assert (at_main needs true false false false (with_serving true w1)) as Hat1 by (by destruct Hat; split).
  clear Hr Hat. apply main_await_consumer; [done|..].
  - intros w2 Hr Hno. apply (at_main_rely _ _ _ _ _ _ _ _ Hr) in Hat1. apply main_stop_listening.
    intros w3 Hr3. apply (at_main_rely _ _ _ _ _ _ _ _ Hr3) in Hat1 as [H1 H2 H3 H4 H5].
    apply main_wait_handlers.
    { intros [? [?|[? ?]]]; [congruence|done]. }
    intros r w4 Ho Hw Hset. apply (ret_wp _ (served false false None)); [|apply served_rely|done].
    split; cbn in *; congruence.
  - intros err w2 Hr Hq. apply (at_main_rely _ _ _ _ _ _ _ _ Hr) in Hat1 as [H1 H2 H3 H4 H5].
    assert (∀ r, served false false r w2) by (split; [done..|by right|done]).
    destruct err as [e|];
      [apply (ret_wp _ (served false false (Some (f e))))|apply (ret_wp _ (served false false None))];
      first [done|apply served_rely].
Qed.

(** What the three [Run]s share: [new] opens what is needed or nothing, and [body] closes
    it again. *)
Lemma run_wp {C L A} (load : machine → result string C) (logger : C → result string L)
    (new : C → prog (lifeE E) (result string A)) (body : C → A → prog (lifeE E) (option string))
    load_error logger_error strict w :
  (∀ c Q w, starting ∅ w → (∀ e w', starting ∅ w' → Q (Err e) w') →
     (∀ a w', starting needs w' → Q (Ok a) w') → main_wp (new c) Q w) →
  (∀ c a w, starting needs w → main_wp (body c a) (closed_down strict) w) →
  starting ∅ w →
  main_wp (machine ← trigger ReadMachine;
           match load machine with
           | Err e => Ret (Some (load_error e))
           | Ok c =>
               match logger c with
               | Err e => Ret (Some (logger_error e))
               | Ok _ =>
                   _ ← trigger NotifyContext;
                   app ← new c;
                   r ← match app with Err e => Ret (Some e) | Ok a => body c a end;
                   _ ← trigger StopListening;
                   Ret r
               end
           end) (closed_down strict) w.
Proof.
  intros Hnew Hbody Hst. eapply starting_read; [done|by intros ??? []|]. intros m w1 H1.
  destruct (load m) as [c|e]; [|eapply starting_ret; [done|intros; by apply starting_closed_down]].
  destruct (logger c); [|eapply starting_ret; [done|intros; by apply starting_closed_down]].
  eapply starting_notify; [done|]. intros w2 H2. apply wp_bind; [apply _|].
  assert (∀ (p : prog (lifeE E) (option string)) w, main_wp p (closed_down strict) w →
    main_wp (r ← p; _ ← trigger StopListening; Ret r) (closed_down strict) w) as Hend.
  { intros p' w' Hp. apply wp_bind; [apply _|]. eapply wp_mono; [|done]. intros. by apply stop_signals_wp. }
  apply Hnew; [done|intros e w3 H3|intros app w3 H3]; apply Hend; [|by apply Hbody].
  eapply starting_ret; [done|]. intros. by apply starting_closed_down.
Qed.
End main.

(** ** The three [Run]s *)
Section runs.
Context `{LevelNames} {Reading : Viper} {Mail : MailLib} {Binding : BindingLib} {Gin : GinLib}.
Context {Times : TimestampLib} {Wire : Codec protoOrderAccepted}.
Context (status_text : InventoryGrpc.Status → string) (map_range : list (string * string) → list (string * string)).
Context {E : Type → Type} (path service : string).

Lemma order_New_wp c (Q : result string OrderApp → life → Prop) w :
  starting ∅ w → (∀ e w', starting ∅ w' → Q (Err e) w') →
  (∀ app w', starting order_resources w' → Q (Ok app) w') →
  wp (life_step (E:=E) order_resources) (life_inv order_resources true) (life_rely true) (life_guar true) 0
    (order_New status_text c) Q w.
Proof.
  intros Hst Herr Hok. apply wp_bind; [apply _|].
  apply database_New_wp; [done|intros e w1 H1; by eapply starting_ret; eauto|]. intros w1 H1.
  eapply starting_acquire; [done|intros e w2 H2|intros w2 H2].
  - eapply starting_release; [done|]. intros _ w3 H3. eapply starting_ret; [done|]. intros w4 H4. apply Herr.
    by replace ∅ with (pool_only ∖ {[ Pool ]}) by set_solver.
  - eapply starting_obtain; [done|]. intros w3 H3.
    replace ({[ EventPublisher ]} ∪ ({[ InventoryConn ]} ∪ pool_only)) with order_resources in H3 by set_solver.
    cbn [order_wiring_New]. eapply starting_ret; eauto.
Qed.

(** The two other services open the pool alone; [wired] is what their wiring answers. *)
Lemma pool_New_wp {M A} (context : string) (wired : result string M) (make : M → A) needs by_request
    (Q : result string A → life → Prop) w :
  starting ∅ w → (∀ e w', starting ∅ w' → Q (Err e) w') → (∀ app w', starting pool_only w' → Q (Ok app) w') →
  wp (life_step (E:=E) needs) (life_inv needs by_request) (life_rely by_request) (life_guar by_request) 0
    (db ← database_New;
     match db with
     | Err e => Ret (Err (errorf "connect to PostgreSQL" e))
     | Ok _ =>
         match wired with
         | Err e => _ ← trigger (Release Pool); Ret (Err (errorf context e))
         | Ok m => Ret (Ok (make m))
         end
     end) Q w.
Proof.
  intros Hst Herr Hok. apply wp_bind; [apply _|].
  apply database_New_wp; [done|intros e w1 H1; by eapply starting_ret; eauto|]. intros w1 H1.
  destruct wired as [m|e]; [by eapply starting_ret; eauto|].
  eapply starting_release; [done|]. intros _ w3 H3. eapply starting_ret; [done|]. intros w4 H4. apply Herr.
  by replace ∅ with (pool_only ∖ {[ Pool ]}) by set_solver.
Qed.

Lemma order_cleanup_wp r w :
  served order_resources true true true r w →
  wp (life_step (E:=E) order_resources) (life_inv order_resources true) (life_rely true) (life_guar true) 0
    (_ ← order_cleanup; Ret r) (closed_down true true) w.
Proof.
  intros Hs. apply main_read; [by intros ??? []|]. intros _ w1 Hr.
  apply (served_rely _ _ _ _ _ _ _ Hr) in Hs. apply main_wait_worker; intros w2 Hr2;
    [intros Hd|]; apply (served_rely _ _ _ _ _ _ _ Hr2) in Hs.
  - assert (closing true order_resources true r w2) as Hc by by eapply served_closing.
    do 3 (eapply closing_release; [done|]; clear dependent w2; intros _ w2 Hc).
    apply closing_ret.
    by replace ∅ with (order_resources ∖ {[ EventPublisher ]} ∖ {[ InventoryConn ]} ∖ {[ Pool ]}) by set_solver.
  - apply (ret_wp _ _ _ (closed_down true true r)); [|apply closed_down_rely|done].
    split; [by right; split; [|]|apply Hs].
Qed.

Lemma order_body_wp app w :
  starting order_resources w →
  wp (life_step (E:=E) order_resources) (life_inv order_resources true) (life_rely true) (life_guar true) 0
    (_ ← trigger GoWorker; r ← order_serve app; _ ← order_cleanup; Ret r) (closed_down true true) w.
Proof.
  intros Hst. apply main_go_worker; [by destruct Hst as [[-> _ _ _ _] _]|]. intros w1 Hr.
  apply (starting_rely _ _ _ _ Hr) in Hst. apply wp_bind; [apply _|].
  eapply wp_mono; [intros r w2; apply order_cleanup_wp|].
  apply await_server_wp; [done|by intros []|by destruct Hst as [[] _]; split|].
  intros w2 Hat. by apply (shutdown_wp _ _ errors_Join).
Qed.
Lemma order_Run_wp w :
  starting ∅ w →
  wp (life_step (E:=E) order_resources) (life_inv order_resources true) (life_rely true) (life_guar true) 0
    (order_Run status_text path service) (closed_down true true) w.
Proof. apply (run_wp _ _ _ (λ m, order_config_Load m path)); [apply order_New_wp|intros _; apply order_body_wp]. Qed.

Lemma inventory_Run_wp w :
  starting ∅ w →
  wp (life_step (E:=E) pool_only) (life_inv pool_only true) (life_rely true) (life_guar true) 0
    (inventory_Run path service) (closed_down false true) w.
Proof.
  apply (run_wp _ _ _ (λ m, inventory_config_Load m path)); [intros ???; apply pool_New_wp|].
  intros c app w1 Hst. apply wp_bind; [apply _|].
  eapply wp_mono; [intros r w2; by apply release_pool_wp|].
  apply await_server_wp; [done|by intros []|by destruct Hst|].
  intros w2 Hat. by apply (shutdown_wp _ _ (λ err _, err)).
Qed.
Lemma notification_Run_wp w :
  starting ∅ w →
  wp (life_step (E:=E) pool_only) (life_inv pool_only false) (life_rely false) (life_guar false) 0
    (notification_Run map_range path service) (closed_down false false) w.
Proof.
  apply (run_wp _ _ _ (λ m, notification_config_Load m path)); [intros ???; apply pool_New_wp|].
  intros c app w1 Hst. apply wp_bind; [apply _|].
  eapply wp_mono; [intros r w2; by apply release_pool_wp|].
  apply await_consumer_wp; [done|by destruct Hst].
Qed.
End runs.

(** ** The processes *)

Lemma fresh_starting : starting ∅ fresh.
Proof. by split; [split|]. Qed.
Lemma fresh_inv needs by_request : life_inv needs by_request fresh.
Proof. split; cbn; try done. by intros _ [?|[? _]]. Qed.

(** [main] answers an error exactly when [Run] does. *)
Lemma main_of_run_wp {E} needs by_request may_skip strict (run : prog (lifeE E) (option string)) f w :
  wp (life_step needs) (life_inv needs by_request) (life_rely by_request) (life_guar by_request)
    0 run (closed_down may_skip strict) w →
  wp (life_step needs) (life_inv needs by_request) (life_rely by_request) (life_guar by_request)
    0 (err ← run; Ret (option_map f err)) (closed_down may_skip strict) w.
Proof.
  intros Hrun. apply wp_bind; [apply _|]. eapply wp_mono; [|exact Hrun]. intros r w1 Hd.
  apply (ret_wp _ _ _ (closed_down may_skip strict r)); [done|apply closed_down_rely|].
  intros w2 [Ho Hc]. split; [done|]. by destruct r.
Qed.

(** Any interleaving of [main] with goroutines that keep to what it relies on. *)
Lemma process_sound {E} needs by_request may_skip strict (main : prog (lifeE E) (option string)) threads ts w :
  wp (life_step needs) (life_inv needs by_request) (life_rely by_request) (life_guar by_request)
    0 main (closed_down may_skip strict) fresh →
  (∀ i t, threads !! i = Some t →
     wp (life_step needs) (life_inv needs by_request) (life_rely by_request) (life_guar by_request)
       (S i) t (λ _ _, True) fresh) →
  rtc (pool_step (life_step needs) life_env) (main :: threads, fresh) (ts, w) →
  life_inv needs by_request w ∧ ∀ r, ts !! 0 = Some (Ret r) → closed_down may_skip strict r w.
Proof.
  intros Hmain Hothers Hsteps.
  assert (pool_ok (life_step needs) (life_inv needs by_request) (life_rely by_request) (life_guar by_request)
    (λ i r w, match i with 0 => closed_down may_skip strict r w | _ => True end) (main :: threads, fresh)) as Hok.
  { split; [apply fresh_inv|]. intros [|i] t Ht; [by injection Ht as <-|by apply Hothers]. }
  destruct (pool_adequate _ life_env _ (life_rely by_request) (life_guar by_request) _ ltac:(intros i j ?? Hne HG; by apply HG)
    ltac:(intros; by eapply env_rely) ltac:(intros; by eapply env_inv) _ _ Hok Hsteps) as [HI HQ].
  split; [done|]. intros r. apply HQ.
Qed.

Lemma no_misuse needs by_request w :
  life_inv needs by_request w → lf_abandoned w = false → lf_misused_by_handler w = false.
Proof.
  intros HI Hab. destruct (lf_misused_by_handler w) eqn:Hm; [|done].
  by rewrite (li_handler_use _ _ _ HI Hm) in Hab.
Qed.

Section processes.
Context `{LevelNames} {Reading : Viper} {Mail : MailLib} {Binding : BindingLib} {Gin : GinLib}.
Context {Times : TimestampLib} {Wire : Codec protoOrderAccepted}.
Context {Pg : Postgres} {Hash : HashLib}.
Context (status_text : InventoryGrpc.Status → string) (map_range : list (string * string) → list (string * string)).
Context {E : Type → Type} {A B : Type}.

(** C19: The event worker of order-service never uses a resource that is closed. A request
    does so only if the process had given up waiting for the requests. Once [main] has
    returned the three resources are closed, unless the worker did not stop in time and
    the cleanup was skipped, and if it exits with status 0 every request was done before
    anything was closed. *)
Theorem order_process_sound (worker : prog E A) (requests : list (prog E B)) ts w :
  rtc (pool_step (life_step order_resources) life_env)
    (order_main status_text :: worker_thread worker :: (request_thread <$> requests), fresh) (ts, w) →
  lf_misused_by_worker w = false
  ∧ (lf_misused_by_handler w = true → lf_abandoned w = true)
  ∧ ∀ r, ts !! 0 = Some (Ret r) →
      (lf_open w = ∅ ∨ lf_skipped w = true)
      ∧ (r = None → lf_abandoned w = false ∧ lf_misused_by_handler w = false).
Proof.
  intros Hsteps. eapply process_sound in Hsteps as [HI HQ];
    [|by eapply main_of_run_wp, order_Run_wp, fresh_starting|intros [|i] t Ht].
  - split_and!; [apply HI..|]. intros r [Hopen Hclean]%HQ. split; [naive_solver|]. intros Hr.
    specialize (Hclean eq_refl Hr). split; [done|]. by eapply no_misuse.
  - injection Ht as <-. by apply worker_thread_wp.
  - change ((request_thread <$> requests) !! i = Some t) in Ht. rewrite list_lookup_fmap in Ht. destruct (requests !! i); [|done]. injection Ht as <-.
    by apply request_thread_wp.
Qed.

(** A call of inventory-service uses the pool after it is closed only if the process
    had given up waiting for the calls. Once [main] has returned the pool is closed, and if
    it exits with status 0 every call was done before that. *)
Theorem inventory_process_sound (requests : list (prog E B)) ts w :
  rtc (pool_step (life_step pool_only) life_env)
    (inventory_main :: (request_thread <$> requests), fresh) (ts, w) →
  (lf_misused_by_handler w = true → lf_abandoned w = true)
  ∧ ∀ r, ts !! 0 = Some (Ret r) →
      lf_open w = ∅
      ∧ (r = None → lf_abandoned w = false ∧ lf_misused_by_handler w = false).
Proof.
  intros Hsteps. eapply process_sound in Hsteps as [HI HQ];
    [|by eapply main_of_run_wp, inventory_Run_wp, fresh_starting|intros i t Ht].
  - split_and!; [apply HI..|]. intros r [Hopen Hclean]%HQ. split; [naive_solver|]. intros Hr.
    specialize (Hclean eq_refl Hr). split; [done|]. by eapply no_misuse.
  - rewrite list_lookup_fmap in Ht. destruct (requests !! i); [|done]. injection Ht as <-.
    by apply request_thread_wp.
Qed.

(** C20: Let notification-service run as its [main] and its consumer, interleaved in every
    way, with any signals and whatever the broker, the database and the timers answer. The
    handler of a delivery uses the pool after it is closed only if that delivery was being
    handled, its context seen alive, at the moment the process gave up waiting for it.
    Once [main] has returned the pool is closed. *)
Theorem notification_process_sound (ParseAddress_error : string → string) app looks deliveries sessions ts w :
  rtc (pool_step (life_step pool_only) life_env)
    ([notification_main map_range; consumer_goroutine ParseAddress_error app looks deliveries sessions], fresh)
    (ts, w) →
  lf_misused_in w ⊆ lf_given_up w
  ∧ (lf_misused_by_handler w = true → lf_abandoned w = true)
  ∧ ∀ r, ts !! 0 = Some (Ret r) → lf_open w = ∅.
Proof.
  intros Hsteps. eapply process_sound in Hsteps as [HI HQ];
    [|by eapply main_of_run_wp, notification_Run_wp, fresh_starting|intros [|i] t Ht].
  - split_and!; [apply HI..|]. intros r [Hopen _]%HQ. naive_solver.
  - injection Ht as <-. by apply consumer_goroutine_wp.
  - done.
Qed.
End processes.

(** ** A run of each *)
#[local] Existing Instance sample_level_names.
#[local] Existing Instance sample_decoders.
#[local] Existing Instance sample_viper.
#[local] Existing Instance sample_binding.
#[local] Existing Instance OrderEventAmqp.sample_wire.
Inductive sampleE : Type → Type := Query : sampleE unit.
Definition sample_query : prog sampleE unit := trigger Query.
(** One call of thread [i], answered with [r], and a signal. *)
#[local] Ltac call_of i r :=
  eapply rtc_l;
    [eapply (pool_thread _ _ i _ _ _ r);
       [reflexivity|cbn [life_step]; split_and?; first [reflexivity|discriminate|by vm_compute]]|];
  cbn -[union difference singleton empty NewLogger inventory_NewLogger notification_NewLogger fmap errorf
        order_config_Load inventory_config_Load notification_config_Load].
(** The settings of the machine are loaded and the logger is made. *)
#[local] Ltac load_of m H :=
  call_of 0 m; rewrite H;
  cbn -[union difference singleton empty NewLogger inventory_NewLogger notification_NewLogger fmap errorf].
#[local] Ltac signal := eapply rtc_l; [apply pool_env; split; reflexivity|].
#[local] Ltac no_error i := call_of i (@None string).

Lemma sample_order_run :
  ∃ ts w, rtc (pool_step (life_step order_resources) life_env)
    (order_main no_text :: worker_thread sample_query :: (request_thread <$> [sample_query]), fresh) (ts, w)
  ∧ ts !! 0 = Some (Ret None) ∧ lf_skipped w = false.
Proof.
  eexists _, _. split.
  - load_of sample_machine sample_load_here. call_of 0 tt. call_of 0 (Ok (E:=string) tt).
    no_error 0. call_of 0 (Ok (E:=string) tt). call_of 0 tt.
    call_of 0 tt. call_of 0 tt. call_of 1 tt. call_of 1 tt. call_of 2 tt. signal. call_of 0 (@Signalled server_end).
    call_of 2 tt. call_of 0 tt. call_of 2 tt. no_error 0. call_of 0 tt. call_of 1 tt.
    call_of 0 true. do 3 no_error 0. call_of 0 tt. apply rtc_refl.
  - by split.
Qed.
Lemma order_process_sound_witness :
  ∃ ts w, rtc (pool_step (life_step order_resources) life_env)
    (order_main no_text :: worker_thread sample_query :: (request_thread <$> [sample_query]), fresh) (ts, w)
    ∧ ts !! 0 = Some (Ret None) ∧ lf_open w = ∅ ∧ lf_abandoned w = false
    ∧ lf_misused_by_worker w = false ∧ lf_misused_by_handler w = false.
Proof.
  destruct sample_order_run as (ts & w & Hsteps & H0 & Hskip).
  exists ts, w. destruct (order_process_sound no_text _ _ _ _ Hsteps) as (H1 & _ & H3).
  destruct (H3 None H0) as [[?|?] H5]; [|congruence]. by destruct (H5 eq_refl).
Defined.

(** The call is still running when the shutdown times out, and then finds the pool closed. *)
Lemma sample_inventory_run :
  ∃ ts w, rtc (pool_step (life_step pool_only) life_env)
    (inventory_main :: (request_thread <$> [sample_query]), fresh) (ts, w)
  ∧ is_Some (ts !! 0 ≫= λ t, match t with Ret r => r | _ => None end)
  ∧ lf_misused_by_handler w = true.
Proof.
  eexists _, _. split.
  - load_of inventory_machine inventory_load. call_of 0 tt. call_of 0 (Ok (E:=string) tt).
    no_error 0. call_of 0 tt. call_of 1 tt. signal. call_of 0 (@Signalled server_end). call_of 0 tt.
    call_of 0 (Some "context deadline exceeded"). no_error 0. no_error 0. call_of 0 tt. call_of 1 tt.
    apply rtc_refl.
  - split; [by eexists|by vm_compute].
Qed.
Lemma inventory_process_sound_witness :
  ∃ (w : life), lf_misused_by_handler w = true ∧ lf_abandoned w = true ∧ lf_open w = ∅.
Proof.
  destruct sample_inventory_run as (ts & w & Hsteps & [err Herr] & Hm). exists w.
  destruct (inventory_process_sound _ _ _ Hsteps) as [H1 H2].
  split_and!; [done|by apply H1|]. destruct (ts !! 0) as [[r|]|] eqn:H0; [|done..]. by apply (H2 r).
Defined.

(** A delivery is being handled when the process gives up waiting for it: it finds the pool
    closed, the next one is put back. *)
Definition sample_total : protoMoney := mkProtoMoney 300 "USD".
Definition one_event : Codec protoOrderAccepted := {|
  External.Marshal _ := Ok "body";
  External.Unmarshal _ := Ok (mkProtoOrderAccepted "e1" "o1" (Some 1000%Z) "a@b" (Some sample_total)
    [Some (mkProtoLine "SKU" 3 (Some (mkProtoMoney 100 "USD")))]);
|}.
Definition sample_app : NotificationApp := mkNotificationApp sample_consumer [sample_subscription] Minute.
Definition sample_goroutine : prog consumingE (option string) :=
  consumer_goroutine (Hash := NotificationService.sample_hash) (Wire := one_event) (λ _, "") sample_app 1 2 1.
Definition sample_inbound : selected := Inbound sample_subscription sample_delivery.

Lemma sample_notification_run :
  ∃ ts w, rtc (pool_step (life_step pool_only) life_env) ([notification_main id; sample_goroutine], fresh) (ts, w)
  ∧ ts !! 0 = Some (Ret None) ∧ (1, 1) ∈ lf_misused_in w.
Proof.
  eexists _, _. split.
  - load_of notification_machine notification_load. call_of 0 tt. call_of 0 (Ok (E:=string) tt).
    no_error 0. call_of 0 tt. call_of 1 tt.
    do 2 call_of 1 (Ok (E:=string) tt). do 11 no_error 1. do 2 call_of 1 tt. no_error 1.
    call_of 1 sample_inbound. call_of 1 tt. call_of 1 false. call_of 1 (Ok (E:=string) "t1").
    call_of 1 (Ok (E:=pg_error) (Some 0%Z)). signal. call_of 0 (@Signalled (option string)). call_of 0 tt.
    call_of 0 false. no_error 0. call_of 0 tt. call_of 1 (Err (A:=option Z) (DriverError "closed")).
    no_error 1. call_of 1 tt. call_of 1 sample_inbound. call_of 1 tt. call_of 1 true. no_error 1. call_of 1 tt.
    apply rtc_refl.
  - split; [done|by vm_compute].
Qed.
(** What was misused was given up, in a run that ends with the pool closed. *)
Lemma notification_process_sound_witness :
  ∃ ts w, rtc (pool_step (life_step pool_only) life_env) ([notification_main id; sample_goroutine], fresh) (ts, w)
    ∧ ts !! 0 = Some (Ret None) ∧ (1, 1) ∈ lf_misused_in w
    ∧ (1, 1) ∈ lf_given_up w ∧ lf_open w = ∅.
Proof.
  destruct sample_notification_run as (ts & w & Hsteps & H0 & Hm). exists ts, w.
  destruct (notification_process_sound id (Hash := NotificationService.sample_hash) (Wire := one_event)
    (λ _, "") sample_app 1 2 1 ts w Hsteps) as (H1 & _ & H3).
  split_and!; [done..|by apply H1|by apply (H3 None)].
Defined.
